(** * Ninja's build-parallelism core: jobserver, status table, canonical
  paths and the Win32 subprocess supervisor, embedded and verified.

  Every definition below is a shallow embedding of a function of the C++
  sources; the comment above it names the source function.  C++ [int],
  [int64_t] and [size_t] values are integers of [Z]; characters and bytes
  are [ascii]; [std::string], [StringPiece] and C strings are [string]. *)

From Stdlib Require Import ZArith Ascii String List Lia Bool.
From stdpp Require Import base list strings gmap sorting.

Local Open Scope Z_scope.

#[global] Arguments String.append !_ _ / : simpl nomatch.

(** ** Strings *)

Module Str.

(** [std::string(n, c)] *)
Fixpoint fill (n : nat) (c : ascii) : string :=
  match n with
  | O => ""
  | S n' => String c (fill n' c)
  end.

(** [p + n] on a C string: the string without its first [n] characters. *)
Fixpoint skip (n : nat) (p : string) : string :=
  match n, p with
  | O, _ => p
  | S n', String _ r => skip n' r
  | S _, "" => ""
  end.

(** [StringPiece(p, n)]: the first [n] characters. *)
Fixpoint take (n : nat) (p : string) : string :=
  match n, p with
  | O, _ => ""
  | S n', String c r => String c (take n' r)
  | S _, "" => ""
  end.

(** [strchr(p, c)] for [c <> 0]: offset of the first [c], if any. *)
Fixpoint strchr (p : string) (c : ascii) : option nat :=
  match p with
  | "" => None
  | String x r =>
      if Ascii.eqb x c then Some O
      else match strchr r c with
           | Some n => Some (S n)
           | None => None
           end
  end.

(** [memchr(p, c, len) != NULL] *)
Fixpoint contains (p : string) (c : ascii) : bool :=
  match p with
  | "" => false
  | String x r => Ascii.eqb x c || contains r c
  end.

(** [std::string::c_str()] read back as a C string: cut at the first NUL. *)
Fixpoint c_str (s : string) : string :=
  match s with
  | "" => ""
  | String c r => if Ascii.eqb c "000" then "" else String c (c_str r)
  end.

Definition is_empty (s : string) : bool :=
  match s with "" => true | _ => false end.

Fixpoint all (P : ascii -> bool) (s : string) : bool :=
  match s with
  | "" => true
  | String c r => P c && all P r
  end.

End Str.

(** ** Decimal conversions of the C library *)

Module Libc.

Definition INT_MAX : Z := 2147483647.
Definition LONG_MAX : Z := 9223372036854775807.
Definition LONG_MIN : Z := -9223372036854775808.

(** A value stored into an [int]: reduced modulo 2^32 into
    [-2^31, 2^31). *)
Definition to_int (v : Z) : Z := (v + 2^31) mod 2^32 - 2^31.

(** A [size_t] printed with [%zd]: read as a signed 64-bit value. *)
Definition to_ssize (v : Z) : Z := (v + 2^63) mod 2^64 - 2^63.

Definition isdigit (c : ascii) : bool :=
  let n := Z.of_N (N_of_ascii c) in (48 <=? n) && (n <=? 57).

Definition digit_val (c : ascii) : Z := Z.of_N (N_of_ascii c) - 48.

Definition digit_char (d : Z) : ascii := ascii_of_N (Z.to_N (d + 48)).

(** [isspace] in the C locale. *)
Definition isspace (c : ascii) : bool :=
  match c with
  | "009" | "010" | "011" | "012" | "013" | " " => true
  | _ => false
  end%char.

(** The digits of a non-negative [n], most significant first, in front
    of [acc]; [fuel] bounds the number of digits. *)
Fixpoint digits (fuel : nat) (n : Z) (acc : string) : string :=
  match fuel with
  | O => acc
  | S fuel' =>
      let acc' := String (digit_char (n mod 10)) acc in
      if n <? 10 then acc' else digits fuel' (n / 10) acc'
  end.

(** What [%u], [%zu] print for a non-negative value. *)
Definition dec_unsigned (n : Z) : string :=
  digits (S (Z.to_nat (Z.log2 n))) n "".

(** What [%d], [%zd] print. *)
Definition dec (n : Z) : string :=
  if n <? 0 then String "-" (dec_unsigned (- n)) else dec_unsigned n.

(** The longest run of digits at the head of [s], accumulated in base
    ten onto [acc], and what follows it. *)
Fixpoint scan_digits (s : string) (acc : Z) : Z * string :=
  match s with
  | String c r =>
      if isdigit c then scan_digits r (10 * acc + digit_val c) else (acc, s)
  | "" => (acc, "")
  end.

Fixpoint skip_space (s : string) : string :=
  match s with
  | String c r => if isspace c then skip_space r else s
  | "" => ""
  end.

(** One [%d] conversion of [sscanf]: leading white space, an optional
    sign, at least one digit.  The value is the one glibc stores: the
    [strtol] result (saturated to [long]) converted to [int]; the C
    standard leaves a value outside [int] undefined. *)
Definition scan_d (s : string) : option (Z * string) :=
  let s1 := skip_space s in
  let '(neg, s2) :=
    match s1 with
    | String "-" r => (true, r)
    | String "+" r => (false, r)
    | _ => (false, s1)
    end in
  match s2 with
  | String c _ =>
      if isdigit c then
        let '(v, rest) := scan_digits s2 0 in
        let v := if neg : bool then - v else v in
        Some (to_int (Z.max LONG_MIN (Z.min LONG_MAX v)), rest)
      else None
  | "" => None
  end.

(** [sscanf(s, "%d,%d", &a, &b)] with [a], [b] holding [a0], [b0] before
    the call: the return value and the two objects afterwards.  [-1] is
    [EOF]: the input ended before the first conversion. *)
Definition sscanf_d_comma_d (s : string) (a0 b0 : Z) : Z * Z * Z :=
  match scan_d s with
  | None => (if Str.is_empty (skip_space s) then -1 else 0, a0, b0)
  | Some (a, rest) =>
      match rest with
      | String "," rest' =>
          match scan_d rest' with
          | Some (b, _) => (2, a, b)
          | None => (1, a, b0)
          end
      | _ => (1, a, b0)
      end
  end.

End Libc.

(** ** Jobserver: data model and the MAKEFLAGS parser ([jobserver.cc]) *)

Module Jobserver.

(** Modelled from the spec: [Jobserver::Config::Mode] of [jobserver.h],
    which is not among the sources.  Mode is one of None,
    FileDescriptors, Fifo, Win32Semaphore.  [jobserver.cc] and the tests
    write the descriptor-pair mode [kModeFileDescriptors], the POSIX
    implementation writes it [kModePipe]: one enumerator. *)
Inductive Mode :=
| kModeNone
| kModeFileDescriptors
| kModePosixFifo
| kModeWin32Semaphore.

Definition kModePipe : Mode := kModeFileDescriptors.

#[global] Instance Mode_eq_dec : EqDecision Mode.
Proof. solve_decision. Defined.

(** Modelled from the spec: [Jobserver::Config] of [jobserver.h]: the
    mode plus either a (read, write) descriptor pair or a path.  A
    default-constructed Config has mode None (tested by
    [Jobserver.NullJobserver]), descriptors -1 and an empty path. *)
Record Config := mkConfig {
  mode : Mode;
  read_fd : Z;
  write_fd : Z;
  path : string
}.

Definition Config_default : Config :=
  {| mode := kModeNone; read_fd := -1; write_fd := -1; path := "" |}.

Definition set_mode (m : Mode) (c : Config) : Config :=
  {| mode := m; read_fd := read_fd c; write_fd := write_fd c; path := path c |}.

Definition set_path (p : string) (c : Config) : Config :=
  {| mode := mode c; read_fd := read_fd c; write_fd := write_fd c; path := p |}.

Definition set_fds (r w : Z) (c : Config) : Config :=
  {| mode := mode c; read_fd := r; write_fd := w; path := path c |}.

(** Modelled from the spec: [Jobserver::Slot] of [jobserver.h]: Invalid,
    Implicit, or Explicit with the token byte read from the pool. *)
Inductive Slot :=
| Invalid
| Implicit
| Explicit (value : ascii).

#[global] Instance Slot_eq_dec : EqDecision Slot.
Proof. solve_decision. Defined.

Definition IsValid (s : Slot) : bool :=
  match s with Invalid => false | _ => true end.

Definition IsImplicit (s : Slot) : bool :=
  match s with Implicit => true | _ => false end.

Definition IsExplicit (s : Slot) : bool :=
  match s with Explicit _ => true | _ => false end.

(** [GetPrefixedValue]: when [input] starts with [prefix], the rest of
    [input].  The length test and the [memcmp] of the source are the
    character-wise walk here. *)
Fixpoint GetPrefixedValue (input prefix : string) : option string :=
  match prefix, input with
  | "", _ => Some input
  | String p ps, String c cs =>
      if Ascii.eqb p c then GetPrefixedValue cs ps else None
  | String _ _, "" => None
  end.

(** [GetFileDescriptorPair]: the return value and [*config] afterwards.
    [sscanf] stores each descriptor it converts, also when the call as a
    whole fails. *)
Definition GetFileDescriptorPair (input : string) (config : Config)
  : bool * Config :=
  let '(n, r, w) :=
    Libc.sscanf_d_comma_d (Str.c_str input) (read_fd config) (write_fd config) in
  let config := set_fds r w config in
  if negb (n =? 2) then (false, config)
  else if (read_fd config <? 0) || (write_fd config <? 0)
       then (true, set_mode kModeNone config)
       else (true, set_mode kModeFileDescriptors config).

(** The separator search of the tokenizer loop: the nearer of the first
    tab and the first space of [p]. *)
Definition next_separator (p : string) : option nat :=
  let next_space := Str.strchr p "009" in
  let next_tab := Str.strchr p " " in
  match next_tab with
  | Some t =>
      match next_space with
      | None => Some t
      | Some s => if (t <? s)%nat then Some t else Some s
      end
  | None => next_space
  end.

(** The tokenizer loop [while ( *p ) ...] of [ParseMakeFlagsValue];
    every turn moves [p] forward, so [fuel = strlen(p)] turns are enough. *)
Fixpoint split_loop (fuel : nat) (p : string) (args : list string)
  : list string :=
  match fuel with
  | O => args
  | S fuel' =>
      match p with
      | "" => args
      | _ =>
          match next_separator p with
          | None => args ++ [p]
          | Some n =>
              let args :=
                if (0 <? n)%nat then args ++ [Str.take n p] else args in
              split_loop fuel' (Str.skip (S n) p) args
          end
      end
  end.

Definition split_args (makeflags_env : string) : list string :=
  split_loop (String.length makeflags_env) makeflags_env [].

(** The dry-run test on the first word. *)
Definition is_dry_run (args : list string) : bool :=
  match args with
  | String c0 r :: _ =>
      negb (Ascii.eqb c0 "-") && Str.contains (String c0 r) "n"
  | _ => false
  end.

(** [ParseMakeFlagsValue] returns its [bool] and leaves [*config] and
    [*error] behind; [None] is an [*error] left untouched. *)
Record ParseResult := mkParseResult {
  parse_ok : bool;
  parse_config : Config;
  parse_error : option string
}.

(** One turn of [for (const auto& arg : args)]: [inl] the config to go
    on with, [inr] the early [return false]. *)
Definition parse_arg (arg : string) (config : Config)
  : Config + ParseResult :=
  match GetPrefixedValue arg "--jobserver-auth=" with
  | Some value =>
      let '(ok, config) := GetFileDescriptorPair value config in
      if ok then inl config
      else
        match GetPrefixedValue value "fifo:" with
        | Some fifo_path =>
            inl (set_path fifo_path (set_mode kModePosixFifo config))
        | None =>
            inl (set_path value (set_mode kModeWin32Semaphore config))
        end
  | None =>
      match GetPrefixedValue arg "--jobserver-fds=" with
      | Some value =>
          let '(ok, config) := GetFileDescriptorPair value config in
          if negb ok then
            inr {| parse_ok := false; parse_config := config;
                   parse_error :=
                     Some ("Invalid file descriptor pair [" +:+ value +:+ "]") |}
          else inl (set_mode kModeFileDescriptors config)
      | None => inl config
      end
  end.

Fixpoint parse_loop (args : list string) (config : Config) : ParseResult :=
  match args with
  | [] => {| parse_ok := true; parse_config := config; parse_error := None |}
  | arg :: rest =>
      match parse_arg arg config with
      | inl config => parse_loop rest config
      | inr failure => failure
      end
  end.

(** [Jobserver::ParseMakeFlagsValue]; [None] is a null [makeflags_env]. *)
Definition ParseMakeFlagsValue (makeflags_env : option string) : ParseResult :=
  let config := Config_default in
  match makeflags_env with
  | None | Some "" =>
      {| parse_ok := true; parse_config := config; parse_error := None |}
  | Some env =>
      let args := split_args env in
      if is_dry_run args then
        {| parse_ok := true; parse_config := config; parse_error := None |}
      else parse_loop args config
  end.

(** [Jobserver::ParseNativeMakeFlagsValue] on POSIX ([_WIN32] undefined). *)
Definition ParseNativeMakeFlagsValue (makeflags_env : option string)
  : ParseResult :=
  let r := ParseMakeFlagsValue makeflags_env in
  if negb (parse_ok r) then r
  else if decide (mode (parse_config r) = kModeWin32Semaphore) then
    {| parse_ok := false; parse_config := parse_config r;
       parse_error := Some "Semaphore mode is only available on Windows!" |}
  else r.

End Jobserver.

(** ** The POSIX calls the jobserver makes

    A model of the part of the operating system that [jobserver-posix.cc]
    talks to: one process's descriptor table, open file descriptions,
    FIFO inodes and path names.  Pipes hold any number of bytes.  What the
    environment decides (a signal interrupting a call, an I/O error) is
    read from [tape], one entry per [read], [write] or [open] call; every
    call is recorded in [trace]. *)

Module Posix.

Inductive Errno :=
| ENONE | EINTR | EAGAIN | EBADF | ENOENT | EEXIST | EIO | EPIPE | EMFILE.

#[global] Instance Errno_eq_dec : EqDecision Errno.
Proof. solve_decision. Defined.

Definition strerror (e : Errno) : string :=
  match e with
  | ENONE => "Success"
  | EINTR => "Interrupted system call"
  | EAGAIN => "Resource temporarily unavailable"
  | EBADF => "Bad file descriptor"
  | ENOENT => "No such file or directory"
  | EEXIST => "File exists"
  | EIO => "Input/output error"
  | EPIPE => "Broken pipe"
  | EMFILE => "Too many open files"
  end.

(** [<fcntl.h>] on Linux. *)
Definition O_RDONLY : Z := 0.
Definition O_WRONLY : Z := 1.
Definition O_RDWR : Z := 2.
Definition O_ACCMODE : Z := 3.
Definition O_NONBLOCK : Z := 2048.
Definition O_CLOEXEC : Z := 524288.
Definition FD_CLOEXEC : Z := 1.

(** [st_mode & S_IFMT] *)
Inductive FileKind := S_IFIFO | S_IFREG.

#[global] Instance FileKind_eq_dec : EqDecision FileKind.
Proof. solve_decision. Defined.

(** An inode; a FIFO's [i_data] are the bytes written and not yet read. *)
Record Inode := mkInode { i_kind : FileKind; i_data : list ascii }.

(** An open file description: access mode and status flags are shared by
    every descriptor duplicated from it. *)
Record OpenFile := mkOpenFile { o_inode : nat; o_flags : Z }.

(** A descriptor-table entry: its open file description and its own
    [FD_CLOEXEC] flag. *)
Record Descriptor := mkDescriptor { d_file : nat; d_flags : Z }.

(** What the environment does to one interruptible call. *)
Inductive Fault :=
| Normal
| Fail (e : Errno)
| Zero.

Inductive Event :=
| EvPipe (ret rfd wfd : Z)
| EvRead (fd : Z) (ret : option Z)
| EvWrite (fd : Z) (byte : ascii) (ret : Z)
| EvOpen (path : string) (flags : Z) (ret : Z)
| EvMknod (path : string) (ret : Z)
| EvFstat (fd : Z) (ret : Z)
| EvDup (fd : Z) (ret : Z)
| EvFcntl (fd : Z) (cmd : string) (arg : Z) (ret : Z)
| EvClose (fd : Z) (ret : Z)
| EvUnlink (path : string) (ret : Z).

Record Kernel := mkKernel {
  inodes : list Inode;
  files : list OpenFile;
  fds : list (option Descriptor);
  names : gmap string nat;
  tape : list Fault;
  trace : list Event;
  errno : Errno;
  env_TMPDIR : option string;
  pid : Z
}.

Definition set_inodes (v : list Inode) (k : Kernel) : Kernel :=
  mkKernel v (files k) (fds k) (names k) (tape k) (trace k) (errno k)
           (env_TMPDIR k) (pid k).
Definition set_files (v : list OpenFile) (k : Kernel) : Kernel :=
  mkKernel (inodes k) v (fds k) (names k) (tape k) (trace k) (errno k)
           (env_TMPDIR k) (pid k).
Definition set_fds (v : list (option Descriptor)) (k : Kernel) : Kernel :=
  mkKernel (inodes k) (files k) v (names k) (tape k) (trace k) (errno k)
           (env_TMPDIR k) (pid k).
Definition set_names (v : gmap string nat) (k : Kernel) : Kernel :=
  mkKernel (inodes k) (files k) (fds k) v (tape k) (trace k) (errno k)
           (env_TMPDIR k) (pid k).
Definition set_tape (v : list Fault) (k : Kernel) : Kernel :=
  mkKernel (inodes k) (files k) (fds k) (names k) v (trace k) (errno k)
           (env_TMPDIR k) (pid k).
Definition set_errno (v : Errno) (k : Kernel) : Kernel :=
  mkKernel (inodes k) (files k) (fds k) (names k) (tape k) (trace k) v
           (env_TMPDIR k) (pid k).
Definition log (ev : Event) (k : Kernel) : Kernel :=
  mkKernel (inodes k) (files k) (fds k) (names k) (tape k) (trace k ++ [ev])
           (errno k) (env_TMPDIR k) (pid k).

(** A call that fails: [-1] with [errno] set. *)
Definition fail (e : Errno) (k : Kernel) : Kernel := set_errno e k.

(** The next decision of the environment; an exhausted tape is all
    [Normal]. *)
Definition next_fault (k : Kernel) : Fault * Kernel :=
  match tape k with
  | [] => (Normal, k)
  | f :: rest => (f, set_tape rest k)
  end.

Definition readable (flags : Z) : bool :=
  let acc := Z.land flags O_ACCMODE in (acc =? O_RDONLY) || (acc =? O_RDWR).

Definition writable (flags : Z) : bool :=
  let acc := Z.land flags O_ACCMODE in (acc =? O_WRONLY) || (acc =? O_RDWR).

Definition nonblocking (flags : Z) : bool :=
  negb (Z.land flags O_NONBLOCK =? 0).

Definition descriptor (k : Kernel) (fd : Z) : option Descriptor :=
  if fd <? 0 then None
  else match fds k !! Z.to_nat fd with
       | Some (Some d) => Some d
       | _ => None
       end.

(** The open file description and the inode behind a descriptor. *)
Definition resolve (k : Kernel) (fd : Z) : option (Descriptor * OpenFile * Inode) :=
  match descriptor k fd with
  | Some d =>
      match files k !! d_file d with
      | Some f =>
          match inodes k !! o_inode f with
          | Some i => Some (d, f, i)
          | None => None
          end
      | None => None
      end
  | None => None
  end.

(** The lowest descriptor number not in use. *)
Fixpoint lowest_free (t : list (option Descriptor)) : nat :=
  match t with
  | Some _ :: rest => S (lowest_free rest)
  | _ => O
  end.

Definition install (d : Descriptor) (k : Kernel) : Z * Kernel :=
  let n := lowest_free (fds k) in
  let t := if (n <? length (fds k))%nat then <[n := Some d]> (fds k)
           else fds k ++ [Some d] in
  (Z.of_nat n, set_fds t k).

(** [pipe(fds)]: the return value, [fds[0]], [fds[1]]. *)
Definition sys_pipe (k : Kernel) : Z * Z * Z * Kernel :=
  let ino := length (inodes k) in
  let k := set_inodes (inodes k ++ [mkInode S_IFIFO []]) k in
  let rfile := length (files k) in
  let k := set_files (files k ++ [mkOpenFile ino O_RDONLY; mkOpenFile ino O_WRONLY]) k in
  let '(r, k) := install (mkDescriptor rfile 0) k in
  let '(w, k) := install (mkDescriptor (S rfile) 0) k in
  (0, r, w, log (EvPipe 0 r w) k).

(** [read(fd, &byte, 1)]: [None] when the call does not return (a blocking
    descriptor on an empty FIFO), else the return value and the byte
    stored. *)
Definition sys_read (k : Kernel) (fd : Z) (byte : ascii)
  : option Z * ascii * Kernel :=
  let '(f, k) := next_fault k in
  match f with
  | Fail e => (Some (-1), byte, log (EvRead fd (Some (-1))) (fail e k))
  | Zero => (Some 0, byte, log (EvRead fd (Some 0)) k)
  | Normal =>
      match resolve k fd with
      | Some (d, file, ino) =>
          if negb (readable (o_flags file)) then
            (Some (-1), byte, log (EvRead fd (Some (-1))) (fail EBADF k))
          else
            match i_data ino with
            | b :: rest =>
                let k := set_inodes
                           (<[o_inode file := mkInode (i_kind ino) rest]> (inodes k)) k in
                (Some 1, b, log (EvRead fd (Some 1)) k)
            | [] =>
                match i_kind ino with
                | S_IFREG => (Some 0, byte, log (EvRead fd (Some 0)) k)
                | S_IFIFO =>
                    if nonblocking (o_flags file) then
                      (Some (-1), byte, log (EvRead fd (Some (-1))) (fail EAGAIN k))
                    else (None, byte, log (EvRead fd None) k)
                end
            end
      | None => (Some (-1), byte, log (EvRead fd (Some (-1))) (fail EBADF k))
      end
  end.

(** [write(fd, &byte, 1)] *)
Definition sys_write (k : Kernel) (fd : Z) (byte : ascii) : Z * Kernel :=
  let '(f, k) := next_fault k in
  match f with
  | Fail e => (-1, log (EvWrite fd byte (-1)) (fail e k))
  | Zero => (0, log (EvWrite fd byte 0) k)
  | Normal =>
      match resolve k fd with
      | Some (d, file, ino) =>
          if negb (writable (o_flags file)) then
            (-1, log (EvWrite fd byte (-1)) (fail EBADF k))
          else
            let k := set_inodes
                       (<[o_inode file := mkInode (i_kind ino) (i_data ino ++ [byte])]>
                          (inodes k)) k in
            (1, log (EvWrite fd byte 1) k)
      | None => (-1, log (EvWrite fd byte (-1)) (fail EBADF k))
      end
  end.

(** [open(path, flags)] of an existing name. *)
Definition sys_open (k : Kernel) (path : string) (flags : Z) : Z * Kernel :=
  let '(f, k) := next_fault k in
  match f with
  | Fail e => (-1, log (EvOpen path flags (-1)) (fail e k))
  | _ =>
      match names k !! path with
      | Some ino =>
          let file := length (files k) in
          let status := Z.land flags (Z.lor O_ACCMODE O_NONBLOCK) in
          let k := set_files (files k ++ [mkOpenFile ino status]) k in
          let cloexec := if Z.land flags O_CLOEXEC =? 0 then 0 else FD_CLOEXEC in
          let '(fd, k) := install (mkDescriptor file cloexec) k in
          (fd, log (EvOpen path flags fd) k)
      | None => (-1, log (EvOpen path flags (-1)) (fail ENOENT k))
      end
  end.

(** [mknod(path, S_IFIFO | 0666, 0)] *)
Definition sys_mknod_fifo (k : Kernel) (path : string) : Z * Kernel :=
  match names k !! path with
  | Some _ => (-1, log (EvMknod path (-1)) (fail EEXIST k))
  | None =>
      let ino := length (inodes k) in
      let k := set_inodes (inodes k ++ [mkInode S_IFIFO []]) k in
      let k := set_names (<[path := ino]> (names k)) k in
      (0, log (EvMknod path 0) k)
  end.

(** [fstat(fd, &info)]: the return value and [info.st_mode & S_IFMT]. *)
Definition sys_fstat (k : Kernel) (fd : Z) : Z * FileKind * Kernel :=
  match resolve k fd with
  | Some (_, _, ino) => (0, i_kind ino, log (EvFstat fd 0) k)
  | None => (-1, S_IFREG, log (EvFstat fd (-1)) (fail EBADF k))
  end.

(** [dup(fd)]: the new descriptor shares the open file description and
    starts without [FD_CLOEXEC]. *)
Definition sys_dup (k : Kernel) (fd : Z) : Z * Kernel :=
  match descriptor k fd with
  | Some d =>
      let '(n, k) := install (mkDescriptor (d_file d) 0) k in
      (n, log (EvDup fd n) k)
  | None => (-1, log (EvDup fd (-1)) (fail EBADF k))
  end.

(** [fcntl(fd, F_GETFL, 0)] *)
Definition fcntl_GETFL (k : Kernel) (fd : Z) : Z * Kernel :=
  match resolve k fd with
  | Some (_, file, _) => (o_flags file, log (EvFcntl fd "F_GETFL" 0 (o_flags file)) k)
  | None => (-1, log (EvFcntl fd "F_GETFL" 0 (-1)) (fail EBADF k))
  end.

(** [fcntl(fd, F_SETFL, flags)]: only [O_NONBLOCK] can change. *)
Definition fcntl_SETFL (k : Kernel) (fd : Z) (flags : Z) : Z * Kernel :=
  match resolve k fd with
  | Some (d, file, _) =>
      let status := Z.lor (Z.land (o_flags file) O_ACCMODE)
                          (Z.land flags O_NONBLOCK) in
      let k := set_files (<[d_file d := mkOpenFile (o_inode file) status]> (files k)) k in
      (0, log (EvFcntl fd "F_SETFL" flags 0) k)
  | None => (-1, log (EvFcntl fd "F_SETFL" flags (-1)) (fail EBADF k))
  end.

(** [fcntl(fd, F_GETFD, 0)] *)
Definition fcntl_GETFD (k : Kernel) (fd : Z) : Z * Kernel :=
  match descriptor k fd with
  | Some d => (d_flags d, log (EvFcntl fd "F_GETFD" 0 (d_flags d)) k)
  | None => (-1, log (EvFcntl fd "F_GETFD" 0 (-1)) (fail EBADF k))
  end.

(** [fcntl(fd, F_SETFD, flags)] *)
Definition fcntl_SETFD (k : Kernel) (fd : Z) (flags : Z) : Z * Kernel :=
  match descriptor k fd with
  | Some d =>
      let d := mkDescriptor (d_file d) (Z.land flags FD_CLOEXEC) in
      let k := set_fds (<[Z.to_nat fd := Some d]> (fds k)) k in
      (0, log (EvFcntl fd "F_SETFD" flags 0) k)
  | None => (-1, log (EvFcntl fd "F_SETFD" flags (-1)) (fail EBADF k))
  end.

(** [close(fd)] *)
Definition sys_close (k : Kernel) (fd : Z) : Z * Kernel :=
  match descriptor k fd with
  | Some _ =>
      (0, log (EvClose fd 0) (set_fds (<[Z.to_nat fd := None]> (fds k)) k))
  | None => (-1, log (EvClose fd (-1)) (fail EBADF k))
  end.

(** [unlink(path)] *)
Definition sys_unlink (k : Kernel) (path : string) : Z * Kernel :=
  match names k !! path with
  | Some _ => (0, log (EvUnlink path 0) (set_names (delete path (names k)) k))
  | None => (-1, log (EvUnlink path (-1)) (fail ENOENT k))
  end.

(** [snprintf(buf, size, ...)] into a [std::string] of [size] characters
    whose formatted text would be [text]: the return value and the
    string's characters afterwards (at most [size - 1] characters of the
    text, then a NUL). *)
Fixpoint overwrite (src dst : string) : string :=
  match src, dst with
  | String c r, String _ d => String c (overwrite r d)
  | _, _ => dst
  end.

Definition snprintf (buf : string) (text : string) : Z * string :=
  let size := String.length buf in
  let written := Str.take (size - 1) text +:+ String "000" "" in
  (Z.of_nat (String.length text),
   if (size =? 0)%nat then buf else overwrite written buf).

(** [std::string::resize(n)]: cut, or pad with NULs. *)
Definition resize (n : nat) (s : string) : string :=
  Str.take n s +:+ Str.fill (n - String.length s) "000".

(** A process that has just started: standard input, output and error
    open on an inode of their own, nothing else. *)
Definition boot (tmpdir : option string) (pid : Z) (tape : list Fault) : Kernel :=
  {| inodes := [mkInode S_IFREG []];
     files := [mkOpenFile 0 O_RDWR];
     fds := [Some (mkDescriptor 0 0); Some (mkDescriptor 0 0); Some (mkDescriptor 0 0)];
     names := ∅;
     tape := tape;
     trace := [];
     errno := ENONE;
     env_TMPDIR := tmpdir;
     pid := pid |}.

End Posix.

(** ** The POSIX jobserver client and pool ([jobserver-posix.cc]) *)

Module JobserverPosix.

Import Posix Jobserver.

(** [IsFifoDescriptor] *)
Definition IsFifoDescriptor (fd : Z) (k : Kernel) : bool * Kernel :=
  let '(ret, kind, k) := sys_fstat k fd in
  ((ret =? 0) && bool_decide (kind = S_IFIFO), k).

(** [SetNonBlockingFd] *)
Definition SetNonBlockingFd (fd : Z) (k : Kernel) : bool * Kernel :=
  let '(flags, k) := fcntl_GETFL k fd in
  if Z.land flags O_NONBLOCK =? 0 then
    let '(ret, k) := fcntl_SETFL k fd (Z.lor flags O_NONBLOCK) in
    if ret <? 0 then (false, k) else (true, k)
  else (true, k).

(** [SetCloseOnExecFd] *)
Definition SetCloseOnExecFd (fd : Z) (k : Kernel) : bool * Kernel :=
  let '(flags, k) := fcntl_GETFD k fd in
  if Z.land flags FD_CLOEXEC =? 0 then
    let '(ret, k) := fcntl_SETFD k fd (Z.lor flags FD_CLOEXEC) in
    if ret <? 0 then (false, k) else (true, k)
  else (true, k).

(** [DuplicateDescriptor]: the return value and [*to_fd] afterwards. *)
Definition DuplicateDescriptor (from_fd to_fd : Z) (k : Kernel)
  : bool * Z * Kernel :=
  let '(new_fd, k) := sys_dup k from_fd in
  if new_fd <? 0 then (false, to_fd, k)
  else
    let '(ok1, k) := SetNonBlockingFd new_fd k in
    if negb ok1 then
      let '(_, k) := sys_close k new_fd in (false, to_fd, k)
    else
      let '(ok2, k) := SetCloseOnExecFd new_fd k in
      if negb ok2 then
        let '(_, k) := sys_close k new_fd in (false, to_fd, k)
      else (true, new_fd, k).

(** [class PosixJobserverClient] *)
Record Client := mkClient {
  has_implicit_slot_ : bool;
  read_fd_ : Z;
  write_fd_ : Z
}.

(** The member initializers of a new [PosixJobserverClient]. *)
Definition Client_new : Client :=
  {| has_implicit_slot_ := true; read_fd_ := -1; write_fd_ := -1 |}.

(** [~PosixJobserverClient] *)
Definition Client_destroy (c : Client) (k : Kernel) : Kernel :=
  let k := if write_fd_ c >=? 0 then snd (sys_close k (write_fd_ c)) else k in
  if read_fd_ c >=? 0 then snd (sys_close k (read_fd_ c)) else k.

(** The loop [do ret = read(fd, &slot_char, 1); while (ret < 0 && errno
    == EINTR)].  A call fails with [EINTR] only when the tape says so, so
    [S (length (tape k))] turns are enough. *)
Fixpoint read_retry (fuel : nat) (fd : Z) (slot_char : ascii) (k : Kernel)
  : option Z * ascii * Kernel :=
  let '(ret, slot_char, k) := sys_read k fd slot_char in
  match ret, fuel with
  | Some r, S fuel' =>
      if (r <? 0) && bool_decide (errno k = EINTR)
      then read_retry fuel' fd slot_char k
      else (ret, slot_char, k)
  | _, _ => (ret, slot_char, k)
  end.

(** [PosixJobserverClient::TryAcquire]; [None] when the call does not
    return. *)
Definition TryAcquire (c : Client) (k : Kernel) : option Slot * Client * Kernel :=
  if has_implicit_slot_ c then
    (Some Implicit,
     {| has_implicit_slot_ := false; read_fd_ := read_fd_ c; write_fd_ := write_fd_ c |},
     k)
  else
    let '(ret, slot_char, k) :=
      read_retry (length (tape k)) (read_fd_ c) "000" k in
    match ret with
    | None => (None, c, k)
    | Some r =>
        if r =? 1 then (Some (Explicit slot_char), c, k)
        else (Some Invalid, c, k)
    end.

(** The loop [do ret = write(fd, &slot_char, 1); while (ret < 0 && errno
    == EINTR)]. *)
Fixpoint write_retry (fuel : nat) (fd : Z) (slot_char : ascii) (k : Kernel)
  : Z * Kernel :=
  let '(ret, k) := sys_write k fd slot_char in
  match fuel with
  | S fuel' =>
      if (ret <? 0) && bool_decide (errno k = EINTR)
      then write_retry fuel' fd slot_char k
      else (ret, k)
  | O => (ret, k)
  end.

(** [PosixJobserverClient::Release]; [None] is the failed [assert]. *)
Definition Release (slot : Slot) (c : Client) (k : Kernel) : option (Client * Kernel) :=
  match slot with
  | Invalid => Some (c, k)
  | Implicit =>
      if has_implicit_slot_ c then None
      else Some ({| has_implicit_slot_ := true; read_fd_ := read_fd_ c;
                    write_fd_ := write_fd_ c |}, k)
  | Explicit slot_char =>
      let '(ret, k) := write_retry (length (tape k)) (write_fd_ c) slot_char k in
      Some (c, k)
  end.

(** [PosixJobserverClient::InitWithPipeFds]: success, the client, and
    [*error] when it is set. *)
Definition Client_InitWithPipeFds (read_fd write_fd : Z) (c : Client) (k : Kernel)
  : bool * Client * option string * Kernel :=
  let '(fifo_r, k) := IsFifoDescriptor read_fd k in
  let '(fifo_w, k) :=
    if fifo_r then IsFifoDescriptor write_fd k else (false, k) in
  if negb fifo_r || negb fifo_w then
    (false, c, Some "Invalid file descriptors", k)
  else
    let '(ok, rfd, k) := DuplicateDescriptor read_fd (read_fd_ c) k in
    let c := {| has_implicit_slot_ := has_implicit_slot_ c; read_fd_ := rfd;
                write_fd_ := write_fd_ c |} in
    if negb ok then (false, c, Some "Could not duplicate read descriptor", k)
    else
      let '(ok, wfd, k) := DuplicateDescriptor write_fd (write_fd_ c) k in
      let c := {| has_implicit_slot_ := has_implicit_slot_ c; read_fd_ := read_fd_ c;
                  write_fd_ := wfd |} in
      if negb ok then (false, c, Some "Could not duplicate write descriptor", k)
      else (true, c, None, k).

(** [PosixJobserverClient::InitWithFifo] *)
Definition Client_InitWithFifo (fifo_path : string) (c : Client) (k : Kernel)
  : bool * Client * option string * Kernel :=
  if Str.is_empty fifo_path then (false, c, Some "Empty fifo path", k)
  else
    let '(rfd, k) :=
      sys_open k (Str.c_str fifo_path)
               (Z.lor O_RDONLY (Z.lor O_NONBLOCK O_CLOEXEC)) in
    let c := {| has_implicit_slot_ := has_implicit_slot_ c; read_fd_ := rfd;
                write_fd_ := write_fd_ c |} in
    if rfd <? 0 then
      (false, c, Some ("Error opening fifo for reading: " +:+ strerror (errno k)), k)
    else
      let '(is_fifo, k) := IsFifoDescriptor rfd k in
      if negb is_fifo then
        (false, c, Some ("Not a fifo path: " +:+ fifo_path), k)
      else
        let '(wfd, k) :=
          sys_open k (Str.c_str fifo_path)
                   (Z.lor O_WRONLY (Z.lor O_NONBLOCK O_CLOEXEC)) in
        let c := {| has_implicit_slot_ := has_implicit_slot_ c; read_fd_ := read_fd_ c;
                    write_fd_ := wfd |} in
        if wfd <? 0 then
          (false, c, Some ("Error opening fifo for writing: " +:+ strerror (errno k)), k)
        else (true, c, None, k).

(** [Jobserver::Client::Create]: the client ([None] is a null pointer),
    [*error] when it is set, and the kernel afterwards. *)
Definition Client_Create (config : Config) (k : Kernel)
  : option Client * option string * Kernel :=
  let client := Client_new in
  let '(success, client, error, k) :=
    if decide (mode config = kModePipe) then
      Client_InitWithPipeFds (read_fd config) (write_fd config) client k
    else if decide (mode config = kModePosixFifo) then
      Client_InitWithFifo (path config) client k
    else (false, client, Some "Unsupported jobserver mode", k) in
  if negb success then (None, error, Client_destroy client k)
  else (Some client, error, k).

(** [class PosixJobserverPool] *)
Record Pool := mkPool {
  job_count_ : Z;
  pool_read_fd_ : Z;
  pool_write_fd_ : Z;
  fifo_ : string
}.

Definition Pool_new : Pool :=
  {| job_count_ := 0; pool_read_fd_ := -1; pool_write_fd_ := -1; fifo_ := "" |}.

(** [~PosixJobserverPool] *)
Definition Pool_destroy (p : Pool) (k : Kernel) : Kernel :=
  let k := if pool_read_fd_ p >=? 0 then snd (sys_close k (pool_read_fd_ p)) else k in
  let k := if pool_write_fd_ p >=? 0 then snd (sys_close k (pool_write_fd_ p)) else k in
  if negb (Str.is_empty (fifo_ p)) then snd (sys_unlink k (Str.c_str (fifo_ p))) else k.

(** [PosixJobserverPool::GetEnvMakeFlagsValue]; [None] is the call of
    [Fatal]. *)
Definition GetEnvMakeFlagsValue (p : Pool) : option string :=
  let result := "" in
  let step1 :=
    if negb (Str.is_empty (fifo_ p)) then
      let result := resize (String.length (fifo_ p) + 32) result in
      let '(ret, result) :=
        snprintf result
          (" -j" +:+ Libc.dec (Libc.to_ssize (job_count_ p))
           +:+ " --jobserver-auth=fifo:" +:+ Str.c_str (fifo_ p)) in
      if (ret <? 0) || (ret >? Z.of_nat (String.length result)) then None
      else Some (resize (Z.to_nat ret) result)
    else Some result in
  match step1 with
  | None => None
  | Some result =>
      if (pool_read_fd_ p >=? 0) && (pool_write_fd_ p >=? 0) then
        let result := resize 256 result in
        let '(ret, result) :=
          snprintf result
            (" -j" +:+ Libc.dec_unsigned (job_count_ p)
             +:+ " --jobserver-fds=" +:+ Libc.dec (pool_read_fd_ p)
             +:+ "," +:+ Libc.dec (pool_write_fd_ p)
             +:+ " --jobserver-auth=" +:+ Libc.dec (pool_read_fd_ p)
             +:+ "," +:+ Libc.dec (pool_write_fd_ p)) in
        if (ret <? 0) || (ret >? Z.of_nat (String.length result)) then None
        else Some (resize (Z.to_nat ret) result)
      else Some result
  end.

(** The loop of [PosixJobserverPool::FillSlots], [n = slot_count - 1]
    turns left.  The [continue] taken on [EINTR] runs the [for]
    statement's [--slot_count] like any other end of a turn. *)
Fixpoint FillSlots_loop (n : nat) (write_fd : Z) (k : Kernel)
  : bool * option string * Kernel :=
  match n with
  | O => (true, None, k)
  | S n' =>
      let slot_char := "+"%char in
      let '(ret, k) := sys_write k write_fd slot_char in
      if negb (ret =? 1) then
        if (ret <? 0) && bool_decide (errno k = EINTR) then
          FillSlots_loop n' write_fd k
        else
          (false,
           Some ("Could not fill job slots pool: " +:+ strerror (errno k)), k)
      else FillSlots_loop n' write_fd k
  end.

(** [PosixJobserverPool::FillSlots] *)
Definition FillSlots (slot_count : Z) (p : Pool) (k : Kernel)
  : bool * Pool * option string * Kernel :=
  let p := {| job_count_ := slot_count; pool_read_fd_ := pool_read_fd_ p;
              pool_write_fd_ := pool_write_fd_ p; fifo_ := fifo_ p |} in
  let '(ok, error, k) :=
    FillSlots_loop (Z.to_nat (slot_count - 1)) (pool_write_fd_ p) k in
  (ok, p, error, k).

(** [PosixJobserverPool::InitWithPipe] *)
Definition Pool_InitWithPipe (slot_count : Z) (p : Pool) (k : Kernel)
  : bool * Pool * option string * Kernel :=
  let '(ret, fd0, fd1, k) := sys_pipe k in
  if ret <? 0 then
    (false, p,
     Some ("Could not create anonymous pipe: " +:+ strerror (errno k)), k)
  else
    let p := {| job_count_ := job_count_ p; pool_read_fd_ := fd0;
                pool_write_fd_ := fd1; fifo_ := fifo_ p |} in
    FillSlots slot_count p k.

(** The loop [do write_fd_ = open(...); while (write_fd_ < 0 && errno ==
    EINTR)] of [InitWithFifo]. *)
Fixpoint open_retry (fuel : nat) (path : string) (flags : Z) (k : Kernel)
  : Z * Kernel :=
  let '(fd, k) := sys_open k path flags in
  match fuel with
  | S fuel' =>
      if (fd <? 0) && bool_decide (errno k = EINTR)
      then open_retry fuel' path flags k
      else (fd, k)
  | O => (fd, k)
  end.

(** [PosixJobserverPool::InitWithFifo] *)
Definition Pool_InitWithFifo (slot_count : Z) (p : Pool) (k : Kernel)
  : bool * Pool * option string * Kernel :=
  let tmp_dir := match env_TMPDIR k with Some d => d | None => "/tmp" end in
  let fifo := resize (String.length tmp_dir + 32) (fifo_ p) in
  let '(len, fifo) :=
    snprintf fifo (tmp_dir +:+ "/NinjaFIFO" +:+ Libc.dec (pid k)) in
  if len <? 0 then
    (false, {| job_count_ := job_count_ p; pool_read_fd_ := pool_read_fd_ p;
               pool_write_fd_ := pool_write_fd_ p; fifo_ := fifo |},
     Some "Cannot create fifo path!", k)
  else
    let fifo := resize (Z.to_nat len) fifo in
    let p := {| job_count_ := job_count_ p; pool_read_fd_ := pool_read_fd_ p;
                pool_write_fd_ := pool_write_fd_ p; fifo_ := fifo |} in
    let '(ret, k) := sys_mknod_fifo k (Str.c_str fifo) in
    if ret <? 0 then
      (false, p, Some ("Cannot create fifo: " +:+ strerror (errno k)), k)
    else
      let '(wfd, k) :=
        open_retry (length (tape k)) (Str.c_str fifo) (Z.lor O_RDWR O_CLOEXEC) k in
      let p := {| job_count_ := job_count_ p; pool_read_fd_ := pool_read_fd_ p;
                  pool_write_fd_ := wfd; fifo_ := fifo |} in
      if wfd <? 0 then
        (false, p, Some ("Could not open fifo: " +:+ strerror (errno k)), k)
      else FillSlots slot_count p k.

(** [Jobserver::Pool::Create] *)
Definition Pool_Create (num_job_slots : Z) (mode : Mode) (k : Kernel)
  : option Pool * option string * Kernel :=
  if num_job_slots <? 2 then (None, Some "At least 2 job slots needed", k)
  else
    let pool := Pool_new in
    let '(success, pool, error, k) :=
      if decide (mode = kModePipe) then Pool_InitWithPipe num_job_slots pool k
      else if decide (mode = kModePosixFifo) then Pool_InitWithFifo num_job_slots pool k
      else (false, pool, Some "Unsupported jobserver mode", k) in
    if negb success then (None, error, Pool_destroy pool k)
    else (Some pool, error, k).

(** [n] calls of [TryAcquire] in a row: the slots in the order they were
    returned.  A call that does not return ends the run. *)
Fixpoint acquire_many (n : nat) (c : Client) (k : Kernel)
  : list (option Slot) * Client * Kernel :=
  match n with
  | O => ([], c, k)
  | S n' =>
      let '(s, c, k) := TryAcquire c k in
      match s with
      | None => ([None], c, k)
      | Some _ =>
          let '(rest, c, k) := acquire_many n' c k in (s :: rest, c, k)
      end
  end.

End JobserverPosix.

(** ** The status table ([status_table.h], [status_table.cc]) *)

Module StatusTable.

Definition INT64_MAX : Z := 9223372036854775807.

(** [StatusTable::Config] *)
Record Config := mkConfig {
  max_commands : Z;
  refresh_timeout_ms : Z
}.

(** [StatusTable::CommandValue] *)
Record CommandValue := mkCommandValue {
  start_time_ms : Z;
  command_id : Z;
  description : string
}.

#[global] Instance CommandValue_eq_dec : EqDecision CommandValue.
Proof. solve_decision. Defined.

(** A [const CommandValue*]: [None] is [nullptr]. *)
Definition CommandValuePtr : Type := option CommandValue.

(** [CommandValuePtrLess::operator()] *)
Definition CommandValuePtrLess (a b : CommandValuePtr) : bool :=
  let a_start_time := match a with Some v => start_time_ms v | None => INT64_MAX end in
  let b_start_time := match b with Some v => start_time_ms v | None => INT64_MAX end in
  if negb (a_start_time =? b_start_time) then a_start_time <? b_start_time
  else
    let a_id := match a with Some v => command_id v | None => 0 end in
    let b_id := match b with Some v => command_id v | None => 0 end in
    a_id <? b_id.

(** [MaxQueue]: a [std::priority_queue] ordered by [CommandValuePtrLess],
    as the elements it holds.  [top] is a greatest element, [pop] removes
    it, [emplace] adds one; which slot of the underlying vector an
    element sits in is not observable through these. *)
Definition MaxQueue : Type := list CommandValuePtr.

Fixpoint greatest (best : CommandValuePtr) (q : MaxQueue) : CommandValuePtr :=
  match q with
  | [] => best
  | x :: rest => greatest (if CommandValuePtrLess best x then x else best) rest
  end.

(** [top()]; the source never calls it on an empty queue. *)
Definition top (q : MaxQueue) : CommandValuePtr :=
  match q with
  | [] => None
  | x :: rest => greatest x rest
  end.

Fixpoint remove_first (x : CommandValuePtr) (q : MaxQueue) : MaxQueue :=
  match q with
  | [] => []
  | y :: rest => if decide (x = y) then rest else y :: remove_first x rest
  end.

Definition pop (q : MaxQueue) : MaxQueue := remove_first (top q) q.

Definition emplace (x : CommandValuePtr) (q : MaxQueue) : MaxQueue := x :: q.

(** The calls a table makes on its terminal (the virtual methods). *)
Inductive Call :=
| PrintOnCurrentLine (line : string)
| PrintOnNextLine (line : string)
| ClearNextLine
| MoveUp (lines_count : Z)
| Flush.

(** [class StatusTable]; a [CommandPointer] is its address. *)
Record Table := mkTable {
  config_ : Config;
  last_command_count_ : Z;
  last_command_id_ : Z;
  last_update_time_ms_ : Z;
  last_status_ : string;
  pending_commands_ : gmap Z CommandValue
}.

(** [StatusTable::StatusTable] *)
Definition create (config : Config) : Table :=
  {| config_ := config; last_command_count_ := 0; last_command_id_ := 0;
     last_update_time_ms_ := -1; last_status_ := ""; pending_commands_ := ∅ |}.

Definition set_last_update (v : Z) (t : Table) : Table :=
  mkTable (config_ t) (last_command_count_ t) (last_command_id_ t) v
          (last_status_ t) (pending_commands_ t).

Definition set_last_command_count (v : Z) (t : Table) : Table :=
  mkTable (config_ t) v (last_command_id_ t) (last_update_time_ms_ t)
          (last_status_ t) (pending_commands_ t).

(** [StatusTable::SetStatus] *)
Definition SetStatus (status : string) (t : Table) : Table :=
  mkTable (config_ t) (last_command_count_ t) (last_command_id_ t)
          (last_update_time_ms_ t) status (pending_commands_ t).

(** [StatusTable::CommandStarted]: [emplace] leaves an entry that is
    already there alone; [last_command_id_] is a [size_t]. *)
Definition CommandStarted (command : Z) (start_time : Z) (desc : string)
  (t : Table) : Table :=
  let id := (last_command_id_ t + 1) mod 2^64 in
  let pending :=
    match pending_commands_ t !! command with
    | Some _ => pending_commands_ t
    | None => <[command := mkCommandValue start_time id desc]> (pending_commands_ t)
    end in
  mkTable (config_ t) (last_command_count_ t) id (last_update_time_ms_ t)
          (last_status_ t) pending.

(** [StatusTable::CommandEnded]; [None] is the failed [assert]. *)
Definition CommandEnded (command : Z) (t : Table) : option Table :=
  match pending_commands_ t !! command with
  | None => None
  | Some _ =>
      Some (mkTable (config_ t) (last_command_count_ t) (last_command_id_ t)
                    (last_update_time_ms_ t) (last_status_ t)
                    (delete command (pending_commands_ t)))
  end.

(** One turn of the selection loop of [PrintPending]. *)
Definition consider (q : MaxQueue) (candidate : CommandValue) : MaxQueue :=
  match top q with
  | None => emplace (Some candidate) (pop q)
  | Some t =>
      if start_time_ms candidate <? start_time_ms t
      then emplace (Some candidate) (pop q)
      else q
  end.

(** The loop [while (!commands_max_queue_.empty())]: [older_commands_] in
    the order of its [push_back] calls. *)
Fixpoint drain (fuel : nat) (q : MaxQueue) : list CommandValue :=
  match fuel, q with
  | S fuel', _ :: _ =>
      let rest := drain fuel' (pop q) in
      match top q with
      | Some command => command :: rest
      | None => rest
      end
  | _, _ => []
  end.

(** [older_commands_] after the two loops, for the order [iteration] in
    which [pending_commands_] is walked. *)
Definition older_commands (max_commands : Z) (iteration : list CommandValue)
  : list CommandValue :=
  let q := fold_left consider iteration (replicate (Z.to_nat max_commands) None) in
  drain (length q) q.

(** The [snprintf] calls into [elapsed_buffer[16]]. *)
Definition format_elapsed (elapsed_ms : Z) : string :=
  Str.take 15
    (if elapsed_ms <? 0 then "??????"
     else if elapsed_ms <? 60000 then
       Libc.dec (Libc.to_int (Z.quot elapsed_ms 1000)) +:+ "."
       +:+ Libc.dec (Libc.to_int (Z.quot (Z.rem elapsed_ms 1000) 100)) +:+ "s"
     else
       Libc.dec (Libc.to_int (Z.quot elapsed_ms 60000)) +:+ "m"
       +:+ Libc.dec (Libc.to_int (Z.quot (Z.rem elapsed_ms 60000) 1000)) +:+ "s").

(** [pending_line] for one command. *)
Definition pending_line (build_time_ms : Z) (command : CommandValue) : string :=
  let elapsed_buffer := format_elapsed (build_time_ms - start_time_ms command) in
  let justification_width := 6%nat in
  let elapsed_width := String.length elapsed_buffer in
  let line :=
    if (elapsed_width <? justification_width)%nat
    then Str.fill (justification_width - elapsed_width) " "
    else "" in
  line +:+ elapsed_buffer +:+ " | " +:+ description command.

(** The [ClearNextLine] loop: [count] afterwards and the calls made. *)
Definition clear_extra (count last_command_count : Z) : Z * list Call :=
  if count <? last_command_count
  then (last_command_count,
        replicate (Z.to_nat (last_command_count - count)) ClearNextLine)
  else (count, []).

(** [StatusTable::PrintPending] *)
Definition PrintPending (build_time_ms : Z) (iteration : list CommandValue)
  (t : Table) : list Call * Table :=
  let max_commands := max_commands (config_ t) in
  if max_commands =? 0 then ([], t)
  else
    let older := older_commands max_commands iteration in
    let lines := map (fun c => PrintOnNextLine (pending_line build_time_ms c))
                     (reverse older) in
    let next_height := Z.of_nat (length older) in
    let '(count, clears) := clear_extra next_height (last_command_count_ t) in
    let status :=
      if count >? 0 then [MoveUp count; PrintOnCurrentLine (last_status_ t)]
      else [] in
    (lines ++ clears ++ status ++ [Flush], set_last_command_count next_height t).

(** [StatusTable::UpdateTable] *)
Definition UpdateTable (build_time_ms : Z) (iteration : list CommandValue)
  (t : Table) : list Call * Table :=
  if (last_update_time_ms_ t >=? 0)
     && (build_time_ms - last_update_time_ms_ t <? refresh_timeout_ms (config_ t))
  then ([], t)
  else PrintPending build_time_ms iteration (set_last_update build_time_ms t).

(** [StatusTable::ClearTable] *)
Definition ClearTable (t : Table) : list Call * Table :=
  if last_command_count_ t =? 0 then ([], t)
  else
    (replicate (Z.to_nat (last_command_count_ t)) ClearNextLine
       ++ [MoveUp (last_command_count_ t); Flush],
     set_last_command_count 0 t).

(** [StatusTable::BuildStarted] *)
Definition BuildStarted (t : Table) : Table :=
  mkTable (config_ t) (last_command_count_ t) 0 (-1) (last_status_ t)
          (pending_commands_ t).

(** [StatusTable::BuildEnded] *)
Definition BuildEnded (t : Table) : list Call * Table :=
  ClearTable (set_last_update (-1) t).

(** [iteration] is an order in which [for (const auto& pair :
    pending_commands_)] can visit the map: each entry once.  The order
    an [unordered_map] is walked in is unspecified. *)
Definition walks (t : Table) (iteration : list CommandValue) : Prop :=
  iteration ≡ₚ (map snd (map_to_list (pending_commands_ t))).

(** What the default [printf] implementations write for a call. *)
Definition ansi (c : Call) : string :=
  let esc := String "027" "" in
  match c with
  | PrintOnCurrentLine line => line +:+ esc +:+ "[0K"
  | PrintOnNextLine line => String "010" "" +:+ line +:+ esc +:+ "[0K"
  | ClearNextLine => esc +:+ "[1B" +:+ esc +:+ "[2K"
  | MoveUp n => esc +:+ "[" +:+ Libc.dec (Libc.to_int n) +:+ "A"
  | Flush => ""
  end.

End StatusTable.

(** ** Canonical paths ([canonical_path.h], [canonical_path.cc]) *)

Module CanonicalPath.

(** The components of a path: the runs between [/] separators, empty
    runs included; [cur] is the run being read. *)
Fixpoint components (cur : string) (p : string) : list string :=
  match p with
  | "" => [cur]
  | String c r =>
      if Ascii.eqb c "/" then cur :: components "" r
      else components (cur +:+ String c "") r
  end.

(** One component against the components kept so far (innermost
    first): a [..] removes the component before it, and is kept when
    there is none to remove or when that one is a kept [..]. *)
Definition resolve (kept : list string) (component : string) : list string :=
  if decide (component = "") then kept
  else if decide (component = ".") then kept
  else if decide (component = "..") then
    match kept with
    | prev :: rest => if decide (prev = "..") then component :: kept else rest
    | [] => [component]
    end
  else component :: kept.

Fixpoint join (parts : list string) : string :=
  match parts with
  | [] => ""
  | [x] => x
  | x :: rest => x +:+ "/" +:+ join rest
  end.

(** Modelled from the spec: [CanonicalizePath] of [util.cc], which is not
    among the sources, on a non-Windows host: "collapses consecutive
    separators, eliminates . segments, resolves .. against preceding
    segments without crossing an absolute root (absolute /.. is
    preserved literally), collapses a leading // to /, and leaves an
    otherwise empty result as . iff the original was a self-reference".
    The spec's rule (i) and the slash-bits mask only exist on Windows. *)
Definition CanonicalizePath (path : string) : string :=
  match path with
  | "" => ""
  | String c0 _ =>
      let absolute := Ascii.eqb c0 "/" in
      let kept := fold_left resolve (components "" path) [] in
      let body := join (rev kept) in
      if absolute then "/" +:+ body
      else if Str.is_empty body then "." else body
  end.

(** [class CanonicalPath] without [_WIN32]: the canonical string. *)
Record t := mk { value : string }.

(** [CanonicalPath::CanonicalPath(std::string&&)], and its two siblings
    taking [const std::string&] and [const char*]. *)
Definition make (path : string) : t := {| value := CanonicalizePath path |}.

(** [CanonicalPath::slash_bits] without [_WIN32]. *)
Definition slash_bits (p : t) : Z := 0.

(** [CanonicalPath::Decanonicalized] without [_WIN32]. *)
Definition Decanonicalized (p : t) : string := value p.

End CanonicalPath.

(** ** Canonical paths with [_WIN32] ([canonical_path.h],
    [canonical_path.cc]): the raw constructors and [Decanonicalized] *)

Module CanonicalPathWin32.

(** [class CanonicalPath] with [_WIN32]; [slash_bits_] is a [uint64_t]. *)
Record t := mk { value : string; slash_bits_ : Z }.

(** [CanonicalPath::MakeRaw]: the private constructor stores both
    arguments as they are. *)
Definition MakeRaw (str : string) (slash_bits : Z) : t :=
  {| value := str; slash_bits_ := slash_bits |}.

(** [CanonicalPath::MakeFullBackwards]: [~static_cast<uint64_t>(0)]. *)
Definition MakeFullBackwards (str : string) : t := MakeRaw str (2 ^ 64 - 1).

(** [CanonicalPath::MakeFullForwards] *)
Definition MakeFullForwards (str : string) : t := MakeRaw str 0.

(** [CanonicalPath::slash_bits] with [_WIN32]. *)
Definition slash_bits (p : t) : Z := slash_bits_ p.

(** The loop of [Decanonicalized] from the position [c] on, [s] being the
    characters from [c]: [strchr] stops at the first NUL, and [mask] is a
    [uint64_t], so [mask <<= 1] drops the bit shifted out. *)
Fixpoint restore (slash_bits mask : Z) (s : string) : string :=
  match s with
  | "" => ""
  | String c r =>
      if Ascii.eqb c "000" then s
      else if Ascii.eqb c "/" then
        String (if negb (Z.land slash_bits mask =? 0) then "\" else "/")
               (restore slash_bits (Z.shiftl mask 1 mod 2 ^ 64) r)
      else String c (restore slash_bits mask r)
  end.

(** [CanonicalPath::Decanonicalized] with [_WIN32]. *)
Definition Decanonicalized (p : t) : string :=
  restore (slash_bits_ p) 1 (value p).

End CanonicalPathWin32.

(** ** Subprocesses on Windows ([subprocess.h], [subprocess-win32.cc])

    What Windows answers to a call (the outcome of [CreateProcessA], a
    completion packet, what an overlapped read delivered) is an argument
    of the function that makes the call.  [Win32Fatal] and [Fatal] end the
    program: such a run is [Fatal_exit]. *)

Module Subprocess.

Definition ERROR_FILE_NOT_FOUND : Z := 2.
Definition ERROR_INVALID_PARAMETER : Z := 87.
Definition ERROR_BROKEN_PIPE : Z := 109.
Definition ERROR_IO_PENDING : Z := 997.
Definition CONTROL_C_EXIT : Z := 3221225786.

(** [enum ExitStatus] of [exit_status.h]: [ExitSuccess] is 0,
    [ExitFailure] 1, [ExitInterrupted] 130; any other child exit code is
    cast to it. *)
Definition ExitSuccess : Z := 0.
Definition ExitFailure : Z := 1.
Definition ExitInterrupted : Z := 130.

Inductive Run (A : Type) :=
| Returns (a : A)
| Fatal_exit (what : string).
Arguments Returns {A} a.
Arguments Fatal_exit {A} what.

(** [Subprocess::OutputPipe]; a [HANDLE] is a number, [None] is
    [INVALID_HANDLE_VALUE]. *)
Record OutputPipe := mkOutputPipe {
  pipe_ : option Z;
  is_reading_ : bool;
  buf_ : string
}.

Definition OutputPipe_new : OutputPipe :=
  {| pipe_ := None; is_reading_ := false; buf_ := "" |}.

(** [OutputPipe::Close] *)
Definition Close (p : OutputPipe) : OutputPipe :=
  match pipe_ p with
  | Some _ => {| pipe_ := None; is_reading_ := is_reading_ p; buf_ := buf_ p |}
  | None => p
  end.

(** [OutputPipe::IsClosed] *)
Definition IsClosed (p : OutputPipe) : bool :=
  match pipe_ p with None => true | Some _ => false end.

(** [OutputPipe::Setup] when [CreateNamedPipeA] returned [handle] and
    every other call succeeded. *)
Definition Setup (handle : Z) (p : OutputPipe) : OutputPipe :=
  {| pipe_ := Some handle; is_reading_ := false; buf_ := buf_ p |}.

(** [struct Subprocess]; [child_] is [None] when [NULL]. *)
Record t := mk {
  use_console_ : bool;
  child_ : option Z;
  stdout_pipe_ : OutputPipe;
  stderr_pipe_ : OutputPipe;
  combined_output_ : string
}.

(** [Subprocess::Subprocess(bool use_console)] *)
Definition new (use_console : bool) : t :=
  {| use_console_ := use_console; child_ := None;
     stdout_pipe_ := OutputPipe_new; stderr_pipe_ := OutputPipe_new;
     combined_output_ := "" |}.

(** [Subprocess::Done] *)
Definition Done (s : t) : bool :=
  IsClosed (stdout_pipe_ s) && IsClosed (stderr_pipe_ s).

(** [Subprocess::GetStdout], [Subprocess::GetStderr] *)
Definition GetStdout (s : t) : string := buf_ (stdout_pipe_ s).
Definition GetStderr (s : t) : string := buf_ (stderr_pipe_ s).

(** [Subprocess::GetOutput] is declared in [subprocess.h] to "retrieve
    the command's combined stdout and stderr"; it reads
    [combined_output_]. *)
Definition GetOutput (s : t) : string := combined_output_ s.

(** What Windows answers during [Subprocess::Start]. *)
Record StartAnswers := mkStartAnswers {
  stdout_handle : Z;
  stderr_handle : Z;
  nul_opened : bool;
  create_process_error : Z;
  process_handle : Z
}.

Definition is_blank (c : ascii) : bool :=
  Ascii.eqb c " " || Ascii.eqb c "009".

(** [Subprocess::Start]; [create_process_error] is 0 when
    [CreateProcessA] succeeded, else [GetLastError()]. *)
Definition Start (w : StartAnswers) (command : string) (s : t) : Run (bool * t) :=
  let after_setup :=
    if negb (use_console_ s) then
      if negb (nul_opened w) then Fatal_exit "couldn't open nul"
      else Returns
             (mk (use_console_ s) (child_ s)
                 (Setup (stdout_handle w) (stdout_pipe_ s))
                 (Setup (stderr_handle w) (stderr_pipe_ s))
                 (combined_output_ s))
    else Returns s in
  match after_setup with
  | Fatal_exit what => Fatal_exit what
  | Returns s =>
      let error := create_process_error w in
      if error =? ERROR_FILE_NOT_FOUND then
        let out := Close (stdout_pipe_ s) in
        let err := Close (stderr_pipe_ s) in
        let msg := "CreateProcess failed: The system cannot find the file specified."
                   +:+ String "010" "" in
        Returns (true,
                 mk (use_console_ s) (child_ s) out
                    {| pipe_ := pipe_ err; is_reading_ := is_reading_ err; buf_ := msg |}
                    (combined_output_ s))
      else if negb (error =? 0) then
        let hint :=
          if error =? ERROR_INVALID_PARAMETER then
            match command with
            | String c _ =>
                if is_blank c then "command contains leading whitespace"
                else "is the command line too long?"
            | "" => "is the command line too long?"
            end
          else "" in
        Fatal_exit ("CreateProcess " +:+ hint)
      else
        Returns (true,
                 mk (use_console_ s) (Some (process_handle w)) (stdout_pipe_ s)
                    (stderr_pipe_ s) (combined_output_ s))
  end.

(** What [GetOverlappedResult] and then [ReadFile] answer in
    [OnPipeReady]: an error code ([GetLastError()]) or the bytes of
    [overlapped_buf_] that the finished operation delivered. *)
Record ReadyAnswers := mkReadyAnswers {
  overlapped_error : Z;
  overlapped_data : string;
  readfile_error : Z
}.

(** [Subprocess::OutputPipe::OnPipeReady]; an error of 0 is a call that
    succeeded. *)
Definition OnPipeReady (w : ReadyAnswers) (p : OutputPipe) : Run OutputPipe :=
  if negb (overlapped_error w =? 0) then
    if overlapped_error w =? ERROR_BROKEN_PIPE then Returns (Close p)
    else Fatal_exit "GetOverlappedResult"
  else
    let buf :=
      if is_reading_ p && negb (Str.is_empty (overlapped_data w))
      then buf_ p +:+ overlapped_data w else buf_ p in
    let p := {| pipe_ := pipe_ p; is_reading_ := true; buf_ := buf |} in
    if negb (readfile_error w =? 0) then
      if readfile_error w =? ERROR_BROKEN_PIPE then Returns (Close p)
      else if negb (readfile_error w =? ERROR_IO_PENDING) then Fatal_exit "ReadFile"
      else Returns p
    else Returns p.

(** [Subprocess::Finish]: the status and the subprocess afterwards;
    [exit_code] is what [GetExitCodeProcess] reports. *)
Definition Finish (exit_code : Z) (s : t) : Z * t :=
  match child_ s with
  | None => (ExitFailure, s)
  | Some _ =>
      (if exit_code =? CONTROL_C_EXIT then ExitInterrupted else exit_code,
       mk (use_console_ s) None (stdout_pipe_ s) (stderr_pipe_ s)
          (combined_output_ s))
  end.

End Subprocess.

Module SubprocessSet.

Import Subprocess.

(** [struct SubprocessSet]: the [Subprocess] objects by address, and the
    two containers of pointers to them ([finished_] front first). *)
Record t := mk {
  objects : gmap Z Subprocess.t;
  running_ : list Z;
  finished_ : list Z
}.

Definition empty : t := {| objects := ∅; running_ := []; finished_ := [] |}.

(** [SubprocessSet::Add]; [addr] is the address [new] returns, so one no
    live object has. *)
Definition Add (addr : Z) (w : StartAnswers) (command : string)
  (use_console : bool) (set : t) : Run (option Z * t) :=
  let subprocess := Subprocess.new use_console in
  match Subprocess.Start w command subprocess with
  | Fatal_exit what => Fatal_exit what
  | Returns (false, _) => Returns (None, set)
  | Returns (true, subprocess) =>
      let objects := <[addr := subprocess]> (objects set) in
      match child_ subprocess with
      | Some _ =>
          Returns (Some addr, mk objects (running_ set ++ [addr]) (finished_ set))
      | None =>
          Returns (Some addr, mk objects (running_ set) (finished_ set ++ [addr]))
      end
  end.

(** Which [OVERLAPPED] a completion packet points at. *)
Inductive Overlapped :=
| OfStdout
| OfStderr
| Unknown.

(** What [GetQueuedCompletionStatus] delivers: its error (0 when it
    returned true), the completion key [subproc] ([None] when null) and
    the overlapped pointer; and what the pipe answers afterwards. *)
Record Completion := mkCompletion {
  status_error : Z;
  subproc : option Z;
  overlapped : Overlapped;
  ready : ReadyAnswers
}.

(** [std::remove(running_.begin(), running_.end(), subproc)]: the
    elements kept. *)
Definition remove_all (x : Z) (l : list Z) : list Z :=
  filter (fun y => y ≠ x) l.

(** [SubprocessSet::DoWork] *)
Definition DoWork (w : Completion) (set : t) : Run (bool * t) :=
  if negb (status_error w =? 0) && negb (status_error w =? ERROR_BROKEN_PIPE)
  then Fatal_exit "GetQueuedCompletionStatus"
  else
    match subproc w with
    | None => Returns (true, set)
    | Some addr =>
        match objects set !! addr with
        | None => Fatal_exit "dangling subprocess pointer"
        | Some s =>
            let served :=
              match overlapped w with
              | OfStdout =>
                  match OnPipeReady (ready w) (stdout_pipe_ s) with
                  | Returns p =>
                      Returns (Subprocess.mk (use_console_ s) (child_ s) p
                                 (stderr_pipe_ s) (combined_output_ s))
                  | Fatal_exit what => Fatal_exit what
                  end
              | OfStderr =>
                  match OnPipeReady (ready w) (stderr_pipe_ s) with
                  | Returns p =>
                      Returns (Subprocess.mk (use_console_ s) (child_ s)
                                 (stdout_pipe_ s) p (combined_output_ s))
                  | Fatal_exit what => Fatal_exit what
                  end
              | Unknown => Fatal_exit "Unknown overlapped pointer"
              end in
            match served with
            | Fatal_exit what => Fatal_exit what
            | Returns s =>
                let objects := <[addr := s]> (objects set) in
                if Done s then
                  let kept := remove_all addr (running_ set) in
                  if negb (length kept =? length (running_ set))%nat then
                    Returns (false, mk objects kept (finished_ set ++ [addr]))
                  else Returns (false, mk objects (running_ set) (finished_ set))
                else Returns (false, mk objects (running_ set) (finished_ set))
            end
        end
    end.

(** [SubprocessSet::NextFinished]: the pointer returned ([None] is
    [NULL]) and the set afterwards. *)
Definition NextFinished (set : t) : option Z * t :=
  match finished_ set with
  | [] => (None, set)
  | subproc :: rest => (Some subproc, mk (objects set) (running_ set) rest)
  end.

(** One call on a set, with what Windows answers to it. *)
Inductive Op :=
| OpAdd (addr : Z) (w : StartAnswers) (command : string) (use_console : bool)
| OpDoWork (w : Completion)
| OpNextFinished.

(** A run of calls: the set afterwards and the subprocesses that
    [NextFinished] handed out, as they were when handed out; [None] when
    the program ended in [Fatal]. *)
Fixpoint run (ops : list Op) (set : t) (handed : list Subprocess.t)
  : option (t * list Subprocess.t) :=
  match ops with
  | [] => Some (set, handed)
  | OpAdd addr w command use_console :: rest =>
      match Add addr w command use_console set with
      | Returns (_, set) => run rest set handed
      | Fatal_exit _ => None
      end
  | OpDoWork w :: rest =>
      match DoWork w set with
      | Returns (_, set) => run rest set handed
      | Fatal_exit _ => None
      end
  | OpNextFinished :: rest =>
      match NextFinished set with
      | (Some addr, set) =>
          match objects set !! addr with
          | Some s => run rest set (handed ++ [s])
          | None => run rest set handed
          end
      | (None, set) => run rest set handed
      end
  end.

(** [addr] is fresh in a run when no earlier [Add] used it. *)
Fixpoint fresh_addresses (ops : list Op) (used : list Z) : bool :=
  match ops with
  | [] => true
  | OpAdd addr _ _ _ :: rest =>
      negb (bool_decide (addr ∈ used)) && fresh_addresses rest (addr :: used)
  | _ :: rest => fresh_addresses rest used
  end.

End SubprocessSet.

(** ** The line printer ([line_printer.h], [line_printer.cc]), without
    [_WIN32]

    What a call writes to [stdout] is returned with the printer
    afterwards.  [ElideMiddleInPlace] of [elide_middle.h] is not among the
    sources: it is a parameter, and what [ioctl(TIOCGWINSZ)] answers is an
    argument of the functions that reach it. *)

Module LinePrinter.

Inductive LineType := FULL | ELIDE.

(** [struct LinePrinter] *)
Record t := mk {
  smart_terminal_ : bool;
  supports_color_ : bool;
  have_blank_line_ : bool;
  console_locked_ : bool;
  line_buffer_ : string;
  line_type_ : LineType;
  output_buffer_ : string;
  test_terminal_width_ : Z
}.

Definition newline : string := String "010" "".

(** [to_print.empty() || to_print.back() == '\n'] *)
Fixpoint blank_after (to_print : string) : bool :=
  match to_print with
  | "" => true
  | String c "" => Ascii.eqb c "010"
  | String _ r => blank_after r
  end.

Section Elide.

Variable ElideMiddleInPlace : string -> Z -> string.

(** [LinePrinter::Print]; [ws_col] is [Some size.ws_col] when the
    [ioctl] returned 0. *)
Definition Print (ws_col : option Z) (to_print : string) (type : LineType)
  (p : t) : string * t :=
  if console_locked_ p then
    ("", mk (smart_terminal_ p) (supports_color_ p) (have_blank_line_ p)
            (console_locked_ p) to_print type (output_buffer_ p)
            (test_terminal_width_ p))
  else
    let cr := if smart_terminal_ p then String "013" "" else "" in
    if negb (smart_terminal_ p)
       || negb (match type with ELIDE => true | FULL => false end)
    then
      (cr +:+ Str.c_str to_print +:+ newline,
       mk (smart_terminal_ p) (supports_color_ p) true (console_locked_ p)
          (line_buffer_ p) (line_type_ p) (output_buffer_ p)
          (test_terminal_width_ p))
    else
      let to_print :=
        if test_terminal_width_ p >? 0
        then ElideMiddleInPlace to_print (test_terminal_width_ p)
        else match ws_col with
             | Some col =>
                 if negb (col =? 0) then ElideMiddleInPlace to_print col
                 else to_print
             | None => to_print
             end in
      (cr +:+ Str.c_str to_print +:+ String "027" "[K",
       mk (smart_terminal_ p) (supports_color_ p) false (console_locked_ p)
          (line_buffer_ p) (line_type_ p) (output_buffer_ p)
          (test_terminal_width_ p)).

(** [LinePrinter::PrintOrBuffer] *)
Definition PrintOrBuffer (data : string) (p : t) : string * t :=
  if console_locked_ p then
    ("", mk (smart_terminal_ p) (supports_color_ p) (have_blank_line_ p)
            (console_locked_ p) (line_buffer_ p) (line_type_ p)
            (output_buffer_ p +:+ data) (test_terminal_width_ p))
  else (data, p).

(** [LinePrinter::PrintOnNewLine] *)
Definition PrintOnNewLine (to_print : string) (p : t) : string * t :=
  let p :=
    if console_locked_ p && negb (Str.is_empty (line_buffer_ p)) then
      mk (smart_terminal_ p) (supports_color_ p) (have_blank_line_ p)
         (console_locked_ p) "" (line_type_ p)
         ((output_buffer_ p +:+ line_buffer_ p) +:+ newline)
         (test_terminal_width_ p)
    else p in
  let '(out1, p) :=
    if negb (have_blank_line_ p) then PrintOrBuffer newline p else ("", p) in
  let '(out2, p) :=
    if negb (Str.is_empty to_print) then PrintOrBuffer to_print p else ("", p) in
  (out1 +:+ out2,
   mk (smart_terminal_ p) (supports_color_ p) (blank_after to_print)
      (console_locked_ p) (line_buffer_ p) (line_type_ p) (output_buffer_ p)
      (test_terminal_width_ p)).

(** [LinePrinter::SetConsoleLocked] *)
Definition SetConsoleLocked (ws_col : option Z) (locked : bool) (p : t)
  : string * t :=
  if Bool.eqb locked (console_locked_ p) then ("", p)
  else
    let '(out1, p) := if locked then PrintOnNewLine "" p else ("", p) in
    let p := mk (smart_terminal_ p) (supports_color_ p) (have_blank_line_ p)
                locked (line_buffer_ p) (line_type_ p) (output_buffer_ p)
                (test_terminal_width_ p) in
    if negb locked then
      let '(out2, p) := PrintOnNewLine (output_buffer_ p) p in
      let '(out3, p) :=
        if negb (Str.is_empty (line_buffer_ p))
        then Print ws_col (line_buffer_ p) (line_type_ p) p
        else ("", p) in
      (out1 +:+ out2 +:+ out3,
       mk (smart_terminal_ p) (supports_color_ p) (have_blank_line_ p)
          (console_locked_ p) "" (line_type_ p) "" (test_terminal_width_ p))
    else (out1, p).

End Elide.

End LinePrinter.

(** * Predicates and sample data used by the statements *)

(** The samples of the non-Windows test [CanonicalPath.PathSamples]:
    input and expected value. *)
Definition path_samples : list (string * string) :=
  [ ("foo.h", "foo.h"); ("./foo.h", "foo.h"); ("./foo/./bar.h", "foo/bar.h");
    ("./x/foo/../bar.h", "x/bar.h"); ("./x/foo/../../bar.h", "bar.h");
    ("foo//bar", "foo/bar"); ("foo//.//..///bar", "bar");
    ("./x/../foo/../../bar.h", "../bar.h"); ("foo/./.", "foo");
    ("foo/bar/..", "foo"); ("foo/.hidden_bar", "foo/.hidden_bar");
    ("/foo", "/foo"); ("//foo", "/foo"); ("..", ".."); ("../", "..");
    ("../foo", "../foo"); ("../..", "../.."); ("../../", "../..");
    ("./../", ".."); ("/../", "/.."); ("/../..", "/../.."); ("/../../", "/../..");
    ("/", "/"); ("/foo/..", "/"); (".", "."); ("./.", "."); ("foo/..", ".");
    ("foo/.._bar", "foo/.._bar") ].


(** The message [Start] leaves in the stderr buffer when the program is
    not found. *)
Definition not_found_message : string :=
  "CreateProcess failed: The system cannot find the file specified."
  +:+ String "010" "".


(** What every run keeps true of a set, [used] being the addresses
    handed to [Add] so far: a finished subprocess exists and is [Done],
    every object sits at a used address, and nothing was ever written to
    a [combined_output_]. *)
Record set_ok (used : list Z) (set : SubprocessSet.t) : Prop := {
  ok_finished : forall a, a ∈ SubprocessSet.finished_ set ->
      exists s, SubprocessSet.objects set !! a = Some s /\ Subprocess.Done s = true;
  ok_used : forall a, is_Some (SubprocessSet.objects set !! a) -> a ∈ used;
  ok_combined : forall a s,
      SubprocessSet.objects set !! a = Some s ->
      Subprocess.combined_output_ s = ""
}.


(** The commands of the table in display order, top row first: the
    [PrintOnNextLine] calls of [PrintPending] walk [older_commands_]
    backwards. *)
Definition displayed (t : StatusTable.Table) (iteration : list StatusTable.CommandValue)
  : list StatusTable.CommandValue :=
  reverse (StatusTable.older_commands
             (StatusTable.max_commands (StatusTable.config_ t)) iteration).

(** [UpdateTable(now)] is not held back by the refresh timeout. *)
Definition refreshes (now : Z) (t : StatusTable.Table) : bool :=
  negb ((StatusTable.last_update_time_ms_ t >=? 0)
        && (now - StatusTable.last_update_time_ms_ t
            <? StatusTable.refresh_timeout_ms (StatusTable.config_ t))).

Definition is_PrintOnNextLine (c : StatusTable.Call) : bool :=
  match c with StatusTable.PrintOnNextLine _ => true | _ => false end.

(** The table of the test [StatusTable.TwoCommandsNoPeriodicUpdates]
    before its first [UpdateTable]: [max_commands = 2],
    [refresh_timeout_ms = 100], status set, three commands started. *)
Definition scenario_table : StatusTable.Table :=
  StatusTable.CommandStarted 3 570 "command_3"
    (StatusTable.CommandStarted 2 250 "command_2"
       (StatusTable.CommandStarted 1 0 "command_1"
          (StatusTable.SetStatus "some_status"
             (StatusTable.create (StatusTable.mkConfig 2 100))))).

Definition scenario_trace : list StatusTable.Call :=
  [ StatusTable.PrintOnNextLine "  0.5s | command_1";
    StatusTable.PrintOnNextLine "  0.3s | command_2";
    StatusTable.MoveUp 2;
    StatusTable.PrintOnCurrentLine "some_status";
    StatusTable.Flush ].

(** A space or a tab: what separates the words of MAKEFLAGS. *)
Definition is_separator (c : ascii) : bool :=
  Ascii.eqb c " " || Ascii.eqb c "009".

(** The words of a string, as a walk over its characters: [cur] is the
    word being read. *)
Fixpoint words_from (cur : string) (p : string) : list string :=
  match p with
  | "" => if Str.is_empty cur then [] else [cur]
  | String c r =>
      if is_separator c then
        (if Str.is_empty cur then [] else [cur]) ++ words_from "" r
      else words_from (cur +:+ String c "") r
  end.

(** The value of a string of decimal digits. *)
Definition decimal_value (d : string) : Z := fst (Libc.scan_digits d 0).

Definition starts_with_digit (s : string) : bool :=
  match s with
  | String c _ => Libc.isdigit c
  | "" => false
  end.

(** A word that [ParseMakeFlagsValue] recognizes as an option. *)
Definition recognized (w : string) : bool :=
  match Jobserver.GetPrefixedValue w "--jobserver-auth=",
        Jobserver.GetPrefixedValue w "--jobserver-fds=" with
  | None, None => false
  | _, _ => true
  end.

(** A word the loop goes on after: anything but a [--jobserver-fds=]
    word with a malformed descriptor pair. *)
Definition accepted (w : string) : bool :=
  match Jobserver.parse_arg w Jobserver.Config_default with
  | inl _ => true
  | inr _ => false
  end.

(** Two configurations select the same jobserver: the same mode, and the
    same payload of that mode (the path of a FIFO or semaphore, the
    descriptor pair otherwise). *)
Definition same_setting (c1 c2 : Jobserver.Config) : Prop :=
  Jobserver.mode c1 = Jobserver.mode c2
  /\ match Jobserver.mode c1 with
     | Jobserver.kModePosixFifo | Jobserver.kModeWin32Semaphore =>
         Jobserver.path c1 = Jobserver.path c2
     | _ =>
         Jobserver.read_fd c1 = Jobserver.read_fd c2
         /\ Jobserver.write_fd c1 = Jobserver.write_fd c2
     end.

(** The configuration a recognized word selects on its own. *)
Definition setting_of (w : string) : option Jobserver.Config :=
  match Jobserver.parse_arg w Jobserver.Config_default with
  | inl c => Some c
  | inr _ => None
  end.

(** A call returned [-1] with [errno == EINTR]: the condition of the
    retry loops. *)
Definition interrupted (ret : Z) (k : Posix.Kernel) : bool :=
  (ret <? 0) && bool_decide (Posix.errno k = Posix.EINTR).

Definition read_interrupted (ret : option Z) (k : Posix.Kernel) : bool :=
  match ret with
  | Some r => interrupted r k
  | None => false
  end.

(** The kernel after [n] calls [read(fd, &byte, 1)] in a row, [byte]
    holding NUL. *)
Fixpoint after_reads (n : nat) (fd : Z) (k : Posix.Kernel) : Posix.Kernel :=
  match n with
  | O => k
  | S n' => after_reads n' fd (snd (Posix.sys_read k fd "000"))
  end.

(** The kernel after [n] calls [write(fd, &byte, 1)] in a row. *)
Fixpoint after_writes (n : nat) (fd : Z) (byte : ascii) (k : Posix.Kernel)
  : Posix.Kernel :=
  match n with
  | O => k
  | S n' => after_writes n' fd byte (snd (Posix.sys_write k fd byte))
  end.

(** The slot [TryAcquire] makes of the last [read]: [None] when that
    read never returns. *)
Definition slot_of_read (ret : option Z) (byte : ascii) : option Jobserver.Slot :=
  match ret with
  | None => None
  | Some r => if r =? 1 then Some (Jobserver.Explicit byte)
              else Some Jobserver.Invalid
  end.

(** A [read] on [fd] returns at once: [fd] is not open, or its open file
    description has [O_NONBLOCK]. *)
Definition never_blocks (k : Posix.Kernel) (fd : Z) : bool :=
  match Posix.resolve k fd with
  | Some (_, file, _) => Posix.nonblocking (Posix.o_flags file)
  | None => true
  end.

(** What a caller does with a client, and the slots it holds. *)
Inductive ClientOp :=
| DoTryAcquire
| DoRelease (slot : Jobserver.Slot).

Inductive ClientRun :=
| Finished (c : JobserverPosix.Client) (k : Posix.Kernel) (held : list Jobserver.Slot)
| Blocked
| NotHeld
| AssertFailed.

Fixpoint take_out (s : Jobserver.Slot) (held : list Jobserver.Slot)
  : option (list Jobserver.Slot) :=
  match held with
  | [] => None
  | h :: rest =>
      if decide (h = s) then Some rest
      else match take_out s rest with
           | Some rest' => Some (h :: rest')
           | None => None
           end
  end.

(** A run of calls on one client by a caller that releases only slots it
    was given and still holds (a [Slot] cannot be copied). *)
Fixpoint client_run (ops : list ClientOp) (c : JobserverPosix.Client)
  (k : Posix.Kernel) (held : list Jobserver.Slot) : ClientRun :=
  match ops with
  | [] => Finished c k held
  | DoTryAcquire :: rest =>
      match JobserverPosix.TryAcquire c k with
      | (Some s, c, k) => client_run rest c k (s :: held)
      | (None, _, _) => Blocked
      end
  | DoRelease s :: rest =>
      match take_out s held with
      | None => NotHeld
      | Some held =>
          match JobserverPosix.Release s c k with
          | Some (c, k) => client_run rest c k held
          | None => AssertFailed
          end
      end
  end.

Definition implicit_count (held : list Jobserver.Slot) : nat :=
  length (List.filter Jobserver.IsImplicit held).

(** A kernel in which descriptors 3 and 4 are the non-blocking,
    close-on-exec read and write ends of a FIFO that holds [data], and a
    client on these descriptors. *)
Definition sample_kernel (data : list ascii) (tape : list Posix.Fault)
  : Posix.Kernel :=
  {| Posix.inodes := [Posix.mkInode Posix.S_IFIFO data];
     Posix.files := [Posix.mkOpenFile 0 (Z.lor Posix.O_RDONLY Posix.O_NONBLOCK);
                     Posix.mkOpenFile 0 (Z.lor Posix.O_WRONLY Posix.O_NONBLOCK)];
     Posix.fds := [None; None; None;
                   Some (Posix.mkDescriptor 0 Posix.FD_CLOEXEC);
                   Some (Posix.mkDescriptor 1 Posix.FD_CLOEXEC)];
     Posix.names := ∅;
     Posix.tape := tape;
     Posix.trace := [];
     Posix.errno := Posix.ENONE;
     Posix.env_TMPDIR := None;
     Posix.pid := 1 |}.

Definition sample_client (has_implicit_slot : bool) : JobserverPosix.Client :=
  {| JobserverPosix.has_implicit_slot_ := has_implicit_slot;
     JobserverPosix.read_fd_ := 3;
     JobserverPosix.write_fd_ := 4 |}.

(** Descriptor [fd] is open on the open file description number [j]. *)
Definition fd_at (k : Posix.Kernel) (fd : Z) (j : nat) : Prop :=
  exists cloexec, Posix.descriptor k fd = Some (Posix.mkDescriptor j cloexec).

(** Open file description [j] is on inode [ino] with status [flags]. *)
Definition file_at (k : Posix.Kernel) (j : nat) (ino : nat) (flags : Z) : Prop :=
  Posix.files k !! j = Some (Posix.mkOpenFile ino flags).

(** Inode [ino] is a FIFO holding [data]. *)
Definition fifo_data (k : Posix.Kernel) (ino : nat) (data : list ascii) : Prop :=
  Posix.inodes k !! ino = Some (Posix.mkInode Posix.S_IFIFO data).

(** What the environment may do to a read without making it fail:
    nothing, or interrupt it. *)
Definition benign (f : Posix.Fault) : bool :=
  match f with
  | Posix.Normal | Posix.Fail Posix.EINTR => true
  | _ => false
  end.

(** The number of interruptible calls ([open], [write]) made while a pool
    of [n] slots and then a client of it are created. *)
Definition creation_calls (mode : Jobserver.Mode) (n : Z) : nat :=
  match mode with
  | Jobserver.kModePosixFifo => S (Z.to_nat (n - 1)) + 2
  | _ => Z.to_nat (n - 1)
  end.

(** A process whose descriptor numbers and process id fit an [int], and
    whose [TMPDIR], a C string, holds no NUL. *)
Definition process_ok (k : Posix.Kernel) : Prop :=
  Z.of_nat (length (Posix.fds k)) + 4 <= Libc.INT_MAX
  /\ 0 <= Posix.pid k <= Libc.INT_MAX
  /\ match Posix.env_TMPDIR k with
     | Some d => Str.all (fun c => negb (Ascii.eqb c "000")) d = true
     | None => True
     end.

(** The directory the pool makes its FIFO in. *)
Definition tmp_dir (k : Posix.Kernel) : string :=
  match Posix.env_TMPDIR k with Some d => d | None => "/tmp" end.

(** The environment lets the next interruptible call through. *)
Definition head_normal (k : Posix.Kernel) : Prop :=
  match Posix.tape k with
  | [] | Posix.Normal :: _ => True
  | _ => False
  end.

(** Descriptor [fd] reads inode [ino] through a non-blocking open file
    description. *)
Definition reads_from (k : Posix.Kernel) (fd : Z) (ino : nat) : Prop :=
  exists j flags,
    fd_at k fd j /\ file_at k j ino flags
    /\ Posix.readable flags = true /\ Posix.nonblocking flags = true.

Definition is_Normal (f : Posix.Fault) : bool :=
  match f with Posix.Normal => true | _ => false end.

(** The environment lets the next [n] interruptible calls through. *)
Definition quiet (n : nat) (k : Posix.Kernel) : Prop :=
  forallb is_Normal (take n (Posix.tape k)) = true.

(** Descriptor [fd] is open for writing on inode [ino]. *)
Definition writes_to (k : Posix.Kernel) (fd : Z) (ino : nat) : Prop :=
  exists j flags,
    fd_at k fd j /\ file_at k j ino flags /\ Posix.writable flags = true.

(** The path at which a pool in FIFO mode makes its FIFO. *)
Definition fifo_name (k : Posix.Kernel) : string :=
  tmp_dir k +:+ "/NinjaFIFO" +:+ Libc.dec (Posix.pid k).

(** A word of MAKEFLAGS: not empty, no space or tab in it. *)
Definition is_word (w : string) : bool :=
  negb (Str.is_empty w) && Str.all (fun c => negb (is_separator c)) w.

(** A string without its spaces and tabs. *)
Fixpoint without_separators (s : string) : string :=
  match s with
  | "" => ""
  | String c r =>
      if is_separator c then without_separators r
      else String c (without_separators r)
  end.

(** Words written one after the other, a space between two of them. *)
Fixpoint join_words (ws : list string) : string :=
  match ws with
  | [] => ""
  | [w] => w
  | w :: rest => w +:+ String " " (join_words rest)
  end.

(** The first character of [w] is [c]. *)
Definition starts_with (c : ascii) (w : string) : bool :=
  match w with
  | String x _ => Ascii.eqb x c
  | "" => false
  end.

Definition INT_MIN : Z := -2147483648.

(** How many of the next [n] interruptible calls the environment does
    not let through. *)
Definition interruptions (n : nat) (k : Posix.Kernel) : nat :=
  length (filter (fun f => is_Normal f = false) (take n (Posix.tape k))).

(** Two kernels with the same descriptor table, as a process sees it. *)
Definition same_descriptors (k k' : Posix.Kernel) : Prop :=
  forall fd, Posix.descriptor k' fd = Posix.descriptor k fd.

(** [k'] is [k] with one more descriptor, [fd], which was free. *)
Definition adds_descriptor (k k' : Posix.Kernel) (fd : Z) : Prop :=
  0 <= fd
  /\ Posix.descriptor k fd = None
  /\ is_Some (Posix.descriptor k' fd)
  /\ forall fd', fd' <> fd -> Posix.descriptor k' fd' = Posix.descriptor k fd'.

(** How many lines below the status line a run of terminal calls moves
    the cursor, and how many lines it moves it back up. *)
Fixpoint lines_down (calls : list StatusTable.Call) : Z :=
  match calls with
  | [] => 0
  | StatusTable.PrintOnNextLine _ :: rest => 1 + lines_down rest
  | StatusTable.ClearNextLine :: rest => 1 + lines_down rest
  | _ :: rest => lines_down rest
  end.

Fixpoint lines_up (calls : list StatusTable.Call) : Z :=
  match calls with
  | [] => 0
  | StatusTable.MoveUp n :: rest => n + lines_up rest
  | _ :: rest => lines_up rest
  end.

(** What the build reports to the table while it runs: the calls of
    [CommandStarted] and [CommandEnded], in order.  [None] is the failed
    [assert] of [CommandEnded]. *)
Inductive TableEvent :=
| Started (command : Z) (start_time : Z) (desc : string)
| Ended (command : Z).

Fixpoint run_events (events : list TableEvent) (t : StatusTable.Table)
  : option StatusTable.Table :=
  match events with
  | [] => Some t
  | Started command start_time desc :: rest =>
      run_events rest (StatusTable.CommandStarted command start_time desc t)
  | Ended command :: rest =>
      match StatusTable.CommandEnded command t with
      | Some t' => run_events rest t'
      | None => None
      end
  end.

(** A table of one row with two pending commands started together: the
    calls [CommandStarted(1, 0, "first")], then
    [CommandStarted(2, 0, "second")], on a new table with
    [max_commands = 1]. *)
Definition tied_table : StatusTable.Table :=
  StatusTable.CommandStarted 2 0 "second"
    (StatusTable.CommandStarted 1 0 "first"
       (StatusTable.create (StatusTable.mkConfig 1 100))).

Definition tied_first : StatusTable.CommandValue :=
  StatusTable.mkCommandValue 0 1 "first".

Definition tied_second : StatusTable.CommandValue :=
  StatusTable.mkCommandValue 0 2 "second".

(** The addresses [NextFinished] returns in a run of calls on a set, in
    the order it returns them, with the set afterwards; [None] when the
    program ended in [Fatal]. *)
Fixpoint handed_addresses (ops : list SubprocessSet.Op) (set : SubprocessSet.t)
  : option (SubprocessSet.t * list Z) :=
  match ops with
  | [] => Some (set, [])
  | SubprocessSet.OpAdd addr w command use_console :: rest =>
      match SubprocessSet.Add addr w command use_console set with
      | Subprocess.Returns (_, set) => handed_addresses rest set
      | Subprocess.Fatal_exit _ => None
      end
  | SubprocessSet.OpDoWork w :: rest =>
      match SubprocessSet.DoWork w set with
      | Subprocess.Returns (_, set) => handed_addresses rest set
      | Subprocess.Fatal_exit _ => None
      end
  | SubprocessSet.OpNextFinished :: rest =>
      let '(r, set) := SubprocessSet.NextFinished set in
      match handed_addresses rest set with
      | Some (set', later) =>
          Some (set', match r with Some addr => addr :: later | None => later end)
      | None => None
      end
  end.

(** How many [/] a path holds. *)
Fixpoint separators (s : string) : nat :=
  match s with
  | "" => O
  | String c r => if Ascii.eqb c "/" then S (separators r) else separators r
  end.

(** A path with every backslash turned into a slash, and with every
    slash turned into a backslash. *)
Fixpoint forward_slashes (s : string) : string :=
  match s with
  | "" => ""
  | String c r => String (if Ascii.eqb c "\" then "/"%char else c) (forward_slashes r)
  end.

Fixpoint backward_slashes (s : string) : string :=
  match s with
  | "" => ""
  | String c r => String (if Ascii.eqb c "/" then "\"%char else c) (backward_slashes r)
  end.

(** No character of [s] is a NUL. *)
Definition no_nul (s : string) : bool :=
  Str.all (fun c => negb (Ascii.eqb c "000")) s.

(** A run of [PrintOnNewLine] calls: what they write to [stdout], in
    order, and the printer afterwards. *)
Fixpoint print_all (texts : list string) (p : LinePrinter.t) : string * LinePrinter.t :=
  match texts with
  | [] => ("", p)
  | text :: rest =>
      let '(out1, p) := LinePrinter.PrintOnNewLine text p in
      let '(out2, p) := print_all rest p in
      (out1 +:+ out2, p)
  end.

(** The printer with the cursor on a blank line. *)
Definition on_blank_line (p : LinePrinter.t) : LinePrinter.t :=
  LinePrinter.mk (LinePrinter.smart_terminal_ p) (LinePrinter.supports_color_ p)
    true (LinePrinter.console_locked_ p) (LinePrinter.line_buffer_ p)
    (LinePrinter.line_type_ p) (LinePrinter.output_buffer_ p)
    (LinePrinter.test_terminal_width_ p).

(** One call on a printer while the console is locked. *)
Inductive PrinterCall :=
| CallPrint (ws_col : option Z) (to_print : string) (type : LinePrinter.LineType)
| CallPrintOnNewLine (to_print : string)
| CallLock (ws_col : option Z).

Definition printer_call (elide : string -> Z -> string) (c : PrinterCall)
  (p : LinePrinter.t) : string * LinePrinter.t :=
  match c with
  | CallPrint ws_col to_print type => LinePrinter.Print elide ws_col to_print type p
  | CallPrintOnNewLine to_print => LinePrinter.PrintOnNewLine to_print p
  | CallLock ws_col => LinePrinter.SetConsoleLocked elide ws_col true p
  end.

Fixpoint printer_calls (elide : string -> Z -> string) (calls : list PrinterCall)
  (p : LinePrinter.t) : string * LinePrinter.t :=
  match calls with
  | [] => ("", p)
  | c :: rest =>
      let '(out1, p) := printer_call elide c p in
      let '(out2, p) := printer_calls elide rest p in
      (out1 +:+ out2, p)
  end.

(** * Properties *)

(** ** Strings *)

Lemma Str_app_nil_r (s : string) : s +:+ "" = s.
Proof. induction s as [|c s IH]; [reflexivity|]. cbn. now rewrite IH. Qed.

Lemma Str_app_assoc (a b c : string) : (a +:+ b) +:+ c = a +:+ (b +:+ c).
Proof. induction a as [|x a IH]; [reflexivity|]. cbn. now rewrite IH. Qed.

Lemma Str_app_cons (x : ascii) (a b : string) :
  String x a +:+ b = String x (a +:+ b).
Proof. reflexivity. Qed.

Lemma Str_length_app (a b : string) :
  String.length (a +:+ b) = (String.length a + String.length b)%nat.
Proof. induction a as [|x a IH]; [reflexivity|]. cbn. now rewrite IH. Qed.

Lemma Str_all_app P (a b : string) : Str.all P (a +:+ b) = Str.all P a && Str.all P b.
Proof.
  induction a as [|x a IH]; [reflexivity|].
  cbn. rewrite IH. now rewrite andb_assoc.
Qed.

Lemma Str_take_app (a b : string) : Str.take (String.length a) (a +:+ b) = a.
Proof. induction a as [|x a IH]; cbn; [now destruct b|now rewrite IH]. Qed.

Lemma Str_skip_app (a b : string) : Str.skip (String.length a) (a +:+ b) = b.
Proof. induction a as [|x a IH]; cbn; [reflexivity|exact IH]. Qed.

Lemma Str_length_fill n c : String.length (Str.fill n c) = n.
Proof. induction n as [|n IH]; cbn; [reflexivity|now rewrite IH]. Qed.


(** ** Decimal conversions and the tokenizer *)

Lemma Str_skip_length (n : nat) (p : string) :
  String.length (Str.skip n p) = (String.length p - n)%nat.
Proof.
  revert p. induction n as [|n IH]; intros p; cbn; [lia|].
  destruct p as [|c r]; cbn; [reflexivity|apply IH].
Qed.

Lemma Str_c_str_app (a b : string) :
  Str.all (fun c => negb (Ascii.eqb c "000")) a = true ->
  Str.c_str (a +:+ b) = a +:+ Str.c_str b.
Proof.
  induction a as [|x a IH]; cbn; [reflexivity|].
  intros [Hx Ha]%andb_true_iff. apply negb_true_iff in Hx.
  rewrite Hx, IH by exact Ha. reflexivity.
Qed.

Lemma Str_c_str_id (a : string) :
  Str.all (fun c => negb (Ascii.eqb c "000")) a = true -> Str.c_str a = a.
Proof.
  intros H. rewrite <- (Str_app_nil_r a) at 1.
  rewrite Str_c_str_app by exact H. cbn. apply Str_app_nil_r.
Qed.

Lemma Str_all_impl (P Q : ascii -> bool) (s : string) :
  (forall c, P c = true -> Q c = true) ->
  Str.all P s = true -> Str.all Q s = true.
Proof.
  intros HPQ. induction s as [|c s IH]; cbn; [reflexivity|].
  intros [H1 H2]%andb_true_iff. rewrite (HPQ _ H1), IH by exact H2. reflexivity.
Qed.

Lemma isdigit_range (c : ascii) :
  Libc.isdigit c = true <-> 0 <= Libc.digit_val c <= 9.
Proof.
  unfold Libc.isdigit, Libc.digit_val. cbn zeta.
  rewrite andb_true_iff, !Z.leb_le. lia.
Qed.

Lemma isdigit_digit_char (d : Z) :
  0 <= d <= 9 ->
  Libc.isdigit (Libc.digit_char d) = true
  /\ Libc.digit_val (Libc.digit_char d) = d.
Proof.
  intros Hd.
  assert (H : d = 0 \/ d = 1 \/ d = 2 \/ d = 3 \/ d = 4 \/ d = 5 \/ d = 6
              \/ d = 7 \/ d = 8 \/ d = 9) by lia.
  repeat destruct H as [->|H]; try subst d; split; reflexivity.
Qed.

Lemma digit_not_separator (c : ascii) :
  Libc.isdigit c = true ->
  is_separator c = false /\ Ascii.eqb c "000" = false
  /\ Libc.isspace c = false /\ Ascii.eqb c "-" = false
  /\ Ascii.eqb c "+" = false /\ Ascii.eqb c "," = false.
Proof.
  intros H. apply isdigit_range in H. unfold Libc.digit_val in H.
  assert (Hne : forall x : ascii,
             Z.of_N (N_of_ascii x) < 48 -> Ascii.eqb c x = false).
  { intros x Hx. apply Ascii.eqb_neq. intros ->. lia. }
  unfold is_separator.
  rewrite !Hne by (cbn; lia).
  repeat split; try reflexivity.
  destruct (Libc.isspace c) eqn:E; [|reflexivity].
  exfalso. unfold Libc.isspace in E.
  destruct c as [[] [] [] [] [] [] [] []]; cbn in H, E; try discriminate; lia.
Qed.

(** Scanning stops at the first character that is no digit. *)
Lemma scan_digits_app (d rest : string) (acc : Z) :
  Str.all Libc.isdigit d = true ->
  starts_with_digit rest = false ->
  Libc.scan_digits (d +:+ rest) acc = (fst (Libc.scan_digits d acc), rest).
Proof.
  intros Hd Hrest. revert acc.
  induction d as [|c d IH]; intros acc.
  - cbn. destruct rest as [|c r]; [reflexivity|].
    cbn in Hrest |- *. now rewrite Hrest.
  - cbn in Hd. apply andb_true_iff in Hd as [Hc Hd].
    cbn [String.append Libc.scan_digits]. rewrite Hc. now apply IH.
Qed.

Lemma scan_digits_nonneg (d : string) (acc : Z) :
  0 <= acc -> 0 <= fst (Libc.scan_digits d acc).
Proof.
  revert acc. induction d as [|c d IH]; intros acc Hacc; cbn; [exact Hacc|].
  destruct (Libc.isdigit c) eqn:Hc; [|exact Hacc].
  apply IH. apply isdigit_range in Hc. lia.
Qed.

(** Printing into a tail is printing, then the tail. *)
Lemma digits_app (fuel : nat) (n : Z) (tail : string) :
  Libc.digits fuel n tail = Libc.digits fuel n "" +:+ tail.
Proof.
  revert n tail. induction fuel as [|fuel IH]; intros n tail; cbn; [reflexivity|].
  destruct (n <? 10); [reflexivity|].
  rewrite IH, (IH _ (String _ "")), Str_app_assoc. reflexivity.
Qed.

Lemma digits_all_digits (fuel : nat) (n : Z) :
  Str.all Libc.isdigit (Libc.digits fuel n "") = true.
Proof.
  revert n. induction fuel as [|fuel IH]; intros n; cbn; [reflexivity|].
  assert (Hm : 0 <= n mod 10 <= 9) by (pose proof (Z.mod_pos_bound n 10); lia).
  destruct (isdigit_digit_char _ Hm) as [Hdig _].
  destruct (n <? 10).
  - cbn. now rewrite Hdig.
  - rewrite digits_app, Str_all_app, IH. cbn. now rewrite Hdig.
Qed.

Lemma digits_first (fuel : nat) (n : Z) (tail : string) :
  starts_with_digit (Libc.digits (S fuel) n tail) = true.
Proof.
  rewrite digits_app.
  pose proof (digits_all_digits (S fuel) n) as H.
  destruct (Libc.digits (S fuel) n "") as [|c r] eqn:E.
  - exfalso. cbn in E. destruct (n <? 10); [discriminate|].
    rewrite digits_app in E. destruct (Libc.digits fuel (n / 10) ""); discriminate.
  - cbn in H |- *. now apply andb_true_iff in H as [-> _].
Qed.

(** A value below [10^k] prints in at most [k] digits. *)
Lemma digits_length (fuel : nat) (n : Z) (k : nat) :
  (1 <= k)%nat ->
  0 <= n < 10 ^ Z.of_nat k ->
  (String.length (Libc.digits fuel n "") <= k)%nat.
Proof.
  revert n k. induction fuel as [|fuel IH]; intros n k Hk Hn; cbn; [lia|].
  destruct k as [|k]; [lia|].
  destruct (Z.ltb_spec n 10) as [Hlt|Hge]; [cbn; lia|].
  rewrite digits_app, Str_length_app. cbn.
  rewrite Nat2Z.inj_succ, Z.pow_succ_r in Hn by lia.
  assert (Hk1 : (1 <= k)%nat).
  { destruct k; [|lia]. change (Z.of_nat 0) with 0 in Hn.
    rewrite Z.pow_0_r in Hn. lia. }
  assert (Hdiv : 0 <= n / 10 < 10 ^ Z.of_nat k).
  { split; [apply Z.div_pos; lia|apply Z.div_lt_upper_bound; lia]. }
  specialize (IH (n / 10) k Hk1 Hdiv). lia.
Qed.

(** Scanning what was printed gives the number back: the scan of the
    digits of [n] followed by [tail] goes on through [tail] with [n]
    appended to the value read so far. *)
Lemma scan_digits_digits (fuel : nat) (n : Z) (tail : string) :
  0 <= n < 10 ^ Z.of_nat fuel ->
  exists k : nat,
    forall a, Libc.scan_digits (Libc.digits fuel n tail) a
              = Libc.scan_digits tail (a * 10 ^ Z.of_nat k + n).
Proof.
  revert n tail. induction fuel as [|fuel IH]; intros n tail Hn.
  - exists 0%nat. intros a. cbn. f_equal. cbn in Hn. lia.
  - cbn [Libc.digits].
    assert (Hm : 0 <= n mod 10 <= 9) by (pose proof (Z.mod_pos_bound n 10); lia).
    destruct (isdigit_digit_char _ Hm) as [Hdig Hval].
    destruct (Z.ltb_spec n 10) as [Hlt|Hge].
    + exists 1%nat. intros a. cbn [Libc.scan_digits]. rewrite Hdig, Hval.
      rewrite Z.mod_small by lia. f_equal. cbn. lia.
    + destruct (IH (n / 10) (String (Libc.digit_char (n mod 10)) tail))
        as (k & Hk).
      { rewrite Nat2Z.inj_succ, Z.pow_succ_r in Hn by lia.
        split; [apply Z.div_pos; lia|apply Z.div_lt_upper_bound; lia]. }
      exists (S k). intros a. rewrite Hk. cbn [Libc.scan_digits].
      rewrite Hdig, Hval. f_equal.
      rewrite Nat2Z.inj_succ, Z.pow_succ_r by lia.
      pose proof (Z.div_mod n 10 ltac:(lia)). lia.
Qed.

Lemma log2_fuel (n : Z) : 0 <= n -> n < 10 ^ Z.of_nat (S (Z.to_nat (Z.log2 n))).
Proof.
  intros Hn. rewrite Nat2Z.inj_succ, Z2Nat.id by apply Z.log2_nonneg.
  destruct (Z.eq_dec n 0) as [->|Hne]; [cbn; lia|].
  pose proof (Z.log2_spec n ltac:(lia)) as [_ Hlt].
  eapply Z.lt_le_trans; [exact Hlt|].
  apply Z.pow_le_mono_l. pose proof (Z.log2_nonneg n). lia.
Qed.

Lemma dec_nonneg (n : Z) : 0 <= n -> Libc.dec n = Libc.dec_unsigned n.
Proof. intros Hn. unfold Libc.dec. destruct (Z.ltb_spec n 0); [lia|reflexivity]. Qed.

Lemma dec_unsigned_all_digits (n : Z) :
  Str.all Libc.isdigit (Libc.dec_unsigned n) = true.
Proof. apply digits_all_digits. Qed.

Lemma dec_unsigned_first (n : Z) (tail : string) :
  starts_with_digit (Libc.dec_unsigned n +:+ tail) = true.
Proof. unfold Libc.dec_unsigned. rewrite <- digits_app. apply digits_first. Qed.

Lemma dec_unsigned_length (n : Z) (k : nat) :
  (1 <= k)%nat ->
  0 <= n < 10 ^ Z.of_nat k -> (String.length (Libc.dec_unsigned n) <= k)%nat.
Proof. apply digits_length. Qed.

Lemma scan_digits_dec_unsigned (n : Z) (tail : string) :
  0 <= n -> starts_with_digit tail = false ->
  Libc.scan_digits (Libc.dec_unsigned n +:+ tail) 0 = (n, tail).
Proof.
  intros Hn Htail. unfold Libc.dec_unsigned. rewrite <- digits_app.
  destruct (scan_digits_digits _ n tail (conj Hn (log2_fuel n Hn))) as [k Hk].
  rewrite Hk. rewrite Z.mul_0_l, Z.add_0_l.
  destruct tail as [|c r]; [reflexivity|]. cbn in Htail |- *. now rewrite Htail.
Qed.

Lemma to_int_small (v : Z) :
  0 <= v <= Libc.INT_MAX ->
  Libc.to_int (Z.max Libc.LONG_MIN (Z.min Libc.LONG_MAX v)) = v.
Proof.
  unfold Libc.INT_MAX, Libc.LONG_MIN, Libc.LONG_MAX, Libc.to_int. intros Hv.
  rewrite Z.min_r, Z.max_r by lia.
  rewrite Z.mod_small; lia.
Qed.

Lemma isdigit_cases (c : ascii) :
  Libc.isdigit c = true ->
  In c ["0"; "1"; "2"; "3"; "4"; "5"; "6"; "7"; "8"; "9"]%char.
Proof.
  destruct c as [[] [] [] [] [] [] [] []]; intros H;
    try discriminate H; cbn; tauto.
Qed.

Lemma scan_d_digit_start (s : string) :
  starts_with_digit s = true ->
  Libc.scan_d s
  = Some (Libc.to_int (Z.max Libc.LONG_MIN
                         (Z.min Libc.LONG_MAX (fst (Libc.scan_digits s 0)))),
          snd (Libc.scan_digits s 0)).
Proof.
  destruct s as [|c r]; [discriminate|]. cbn [starts_with_digit]. intros Hc.
  unfold Libc.scan_d.
  apply isdigit_cases in Hc. cbn in Hc.
  repeat destruct Hc as [<-|Hc]; try contradiction;
    cbn [Libc.skip_space Libc.isspace Libc.isdigit];
    destruct (Libc.scan_digits _ 0); reflexivity.
Qed.

(** One [%d] conversion on a run of digits [d] followed by something
    that is no digit. *)
Lemma scan_d_digits (d rest : string) :
  d <> "" -> Str.all Libc.isdigit d = true ->
  decimal_value d <= Libc.INT_MAX ->
  starts_with_digit rest = false ->
  Libc.scan_d (d +:+ rest) = Some (decimal_value d, rest).
Proof.
  intros Hne Hd Hmax Hrest.
  rewrite scan_d_digit_start.
  - rewrite scan_digits_app by assumption. cbn [fst snd].
    fold (decimal_value d). rewrite to_int_small; [reflexivity|].
    split; [apply scan_digits_nonneg; lia|exact Hmax].
  - destruct d as [|c d]; [congruence|]. cbn in Hd |- *.
    now apply andb_true_iff in Hd as [-> _].
Qed.

(** [sscanf(s, "%d,%d", ...)] on two runs of digits around a comma. *)
Lemma sscanf_pair (d1 d2 rest : string) (a0 b0 : Z) :
  d1 <> "" -> Str.all Libc.isdigit d1 = true -> decimal_value d1 <= Libc.INT_MAX ->
  d2 <> "" -> Str.all Libc.isdigit d2 = true -> decimal_value d2 <= Libc.INT_MAX ->
  starts_with_digit rest = false ->
  Libc.sscanf_d_comma_d (d1 +:+ "," +:+ d2 +:+ rest) a0 b0
  = (2, decimal_value d1, decimal_value d2).
Proof.
  intros H1 H2 H3 H4 H5 H6 H7. unfold Libc.sscanf_d_comma_d.
  rewrite scan_d_digits by (assumption || reflexivity).
  cbn [String.append].
  rewrite scan_d_digits by assumption. reflexivity.
Qed.

(** The same for numbers printed by [%d]. *)
Lemma sscanf_printed_pair (r w : Z) (rest : string) (a0 b0 : Z) :
  0 <= r <= Libc.INT_MAX -> 0 <= w <= Libc.INT_MAX ->
  starts_with_digit rest = false ->
  Libc.sscanf_d_comma_d (Libc.dec r +:+ "," +:+ Libc.dec w +:+ rest) a0 b0
  = (2, r, w).
Proof.
  intros Hr Hw Hrest.
  assert (Hval : forall n, 0 <= n -> decimal_value (Libc.dec_unsigned n) = n).
  { intros n Hn. unfold decimal_value.
    pose proof (scan_digits_dec_unsigned n "" Hn eq_refl) as E.
    rewrite Str_app_nil_r in E. now rewrite E. }
  assert (Hne : forall n, Libc.dec_unsigned n <> "").
  { intros n E. pose proof (dec_unsigned_first n "") as F.
    rewrite E in F. discriminate. }
  rewrite !dec_nonneg by lia.
  rewrite sscanf_pair; rewrite ?Hval; try apply dec_unsigned_all_digits;
    try apply Hne; try lia; [reflexivity|exact Hrest].
Qed.

(** *** The tokenizer *)

Lemma strchr_cons_ne (x c : ascii) (r : string) :
  Ascii.eqb x c = false ->
  Str.strchr (String x r) c
  = match Str.strchr r c with Some n => Some (S n) | None => None end.
Proof. intros H. cbn. now rewrite H. Qed.

Lemma next_separator_cons_sep (x : ascii) (r : string) :
  is_separator x = true -> Jobserver.next_separator (String x r) = Some O.
Proof.
  unfold is_separator, Jobserver.next_separator. intros H. cbn.
  destruct (Ascii.eqb x " ") eqn:E1.
  - destruct (Ascii.eqb x "009"); [reflexivity|].
    destruct (Str.strchr r "009"); reflexivity.
  - cbn in H. rewrite H. destruct (Str.strchr r " "); reflexivity.
Qed.

Lemma next_separator_cons_other (x : ascii) (r : string) :
  is_separator x = false ->
  Jobserver.next_separator (String x r)
  = match Jobserver.next_separator r with Some n => Some (S n) | None => None end.
Proof.
  unfold is_separator, Jobserver.next_separator.
  intros [E1 E2]%orb_false_iff. cbn zeta.
  rewrite !strchr_cons_ne by assumption.
  destruct (Str.strchr r " ") as [t|], (Str.strchr r "009") as [s|]; try reflexivity.
  destruct (Nat.ltb_spec t s), (Nat.ltb_spec (S t) (S s)); try reflexivity; lia.
Qed.

Lemma next_separator_word (w : string) (sep : ascii) (rest : string) :
  Str.all (fun c => negb (is_separator c)) w = true ->
  is_separator sep = true ->
  Jobserver.next_separator (w +:+ String sep rest) = Some (String.length w).
Proof.
  intros Hw Hsep. induction w as [|c w IH]; cbn [String.append String.length].
  - now apply next_separator_cons_sep.
  - cbn in Hw. apply andb_true_iff in Hw as [Hc Hw]. apply negb_true_iff in Hc.
    rewrite next_separator_cons_other by exact Hc. now rewrite IH.
Qed.

Lemma next_separator_none (w : string) :
  Str.all (fun c => negb (is_separator c)) w = true ->
  Jobserver.next_separator w = None.
Proof.
  intros Hw. induction w as [|c w IH]; [reflexivity|].
  cbn in Hw. apply andb_true_iff in Hw as [Hc Hw]. apply negb_true_iff in Hc.
  rewrite next_separator_cons_other by exact Hc. now rewrite IH.
Qed.

Lemma next_separator_bound (p : string) (n : nat) :
  Jobserver.next_separator p = Some n -> (n < String.length p)%nat.
Proof.
  revert n. induction p as [|c p IH]; intros n; [discriminate|].
  destruct (is_separator c) eqn:Hc.
  - rewrite next_separator_cons_sep by exact Hc. intros [= <-]. cbn. lia.
  - rewrite next_separator_cons_other by exact Hc.
    destruct (Jobserver.next_separator p) as [m|]; [|discriminate].
    intros [= <-]. specialize (IH m eq_refl). cbn. lia.
Qed.

(** The loop does not need more turns than the string has characters. *)
Lemma split_loop_fuel (fuel1 fuel2 : nat) (p : string) (args : list string) :
  (String.length p <= fuel1)%nat -> (String.length p <= fuel2)%nat ->
  Jobserver.split_loop fuel1 p args = Jobserver.split_loop fuel2 p args.
Proof.
  revert fuel2 p args.
  induction fuel1 as [|fuel1 IH]; intros fuel2 p args H1 H2.
  - destruct p; [|cbn in H1; lia]. destruct fuel2; reflexivity.
  - destruct fuel2 as [|fuel2].
    + destruct p; [reflexivity|cbn in H2; lia].
    + cbn [Jobserver.split_loop]. destruct p as [|c r]; [reflexivity|].
      destruct (Jobserver.next_separator (String c r)) as [n|] eqn:E; [|reflexivity].
      apply next_separator_bound in E.
      apply IH; rewrite Str_skip_length; lia.
Qed.

Lemma split_loop_sep (fuel : nat) (w : string) (sep : ascii) (rest : string)
  (args : list string) :
  Str.all (fun c => negb (is_separator c)) w = true ->
  is_separator sep = true ->
  (String.length (w +:+ String sep rest) <= fuel)%nat ->
  Jobserver.split_loop fuel (w +:+ String sep rest) args
  = Jobserver.split_loop (String.length rest) rest
      (if Str.is_empty w then args else args ++ [w]).
Proof.
  intros Hw Hsep Hfuel.
  destruct fuel as [|fuel].
  { rewrite Str_length_app in Hfuel. cbn in Hfuel. lia. }
  cbn [Jobserver.split_loop].
  rewrite next_separator_word by assumption.
  assert (Hskip : Str.skip (S (String.length w)) (w +:+ String sep rest) = rest).
  { clear. induction w as [|c w IH]; [reflexivity|exact IH]. }
  rewrite Hskip, Str_take_app.
  rewrite Str_length_app in Hfuel. cbn in Hfuel.
  destruct w as [|c w]; cbn [String.append Str.is_empty String.length Nat.ltb Nat.leb].
  - apply split_loop_fuel; lia.
  - apply split_loop_fuel; lia.
Qed.

Lemma split_loop_last (fuel : nat) (w : string) (args : list string) :
  Str.all (fun c => negb (is_separator c)) w = true ->
  (String.length w <= fuel)%nat ->
  Jobserver.split_loop fuel w args
  = if Str.is_empty w then args else args ++ [w].
Proof.
  intros Hw Hfuel. destruct w as [|c w].
  - destruct fuel; reflexivity.
  - destruct fuel as [|fuel]; [cbn in Hfuel; lia|].
    cbn [Jobserver.split_loop Str.is_empty].
    now rewrite next_separator_none.
Qed.

(** The loop with strchr splits the string into its words. *)
Lemma split_loop_words (fuel : nat) (p cur : string) (args : list string) :
  Str.all (fun c => negb (is_separator c)) cur = true ->
  (String.length (cur +:+ p) <= fuel)%nat ->
  Jobserver.split_loop fuel (cur +:+ p) args = args ++ words_from cur p.
Proof.
  revert cur args fuel. induction p as [|c p IH]; intros cur args fuel Hcur Hfuel.
  - rewrite Str_app_nil_r in *. rewrite split_loop_last by assumption.
    cbn. destruct (Str.is_empty cur); [now rewrite app_nil_r|reflexivity].
  - cbn [words_from]. destruct (is_separator c) eqn:Hc.
    + rewrite split_loop_sep by assumption.
      pose proof (IH "" (if Str.is_empty cur then args else args ++ [cur])
                     (String.length p) eq_refl) as E.
      cbn [String.append] in E. rewrite E by lia.
      destruct (Str.is_empty cur); cbn [app]; [reflexivity|].
      now rewrite <- app_assoc.
    + replace (cur +:+ String c p) with ((cur +:+ String c "") +:+ p)
        by (rewrite Str_app_assoc; reflexivity).
      apply IH.
      * rewrite Str_all_app, Hcur. cbn. now rewrite Hc.
      * rewrite Str_app_assoc. exact Hfuel.
Qed.

Lemma split_args_words (env : string) :
  Jobserver.split_args env = words_from "" env.
Proof.
  unfold Jobserver.split_args.
  apply (split_loop_words (String.length env) env "" []); [reflexivity|].
  cbn. lia.
Qed.

Lemma words_from_sep (cur : string) (sep : ascii) (rest : string) :
  is_separator sep = true ->
  words_from cur (String sep rest)
  = (if Str.is_empty cur then [] else [cur]) ++ words_from "" rest.
Proof. intros H. cbn. now rewrite H. Qed.

Lemma words_from_word (cur w : string) (rest : string) :
  Str.all (fun c => negb (is_separator c)) w = true ->
  words_from cur (w +:+ rest) = words_from (cur +:+ w) rest.
Proof.
  revert cur. induction w as [|c w IH]; intros cur Hw.
  - now rewrite Str_app_nil_r.
  - cbn in Hw. apply andb_true_iff in Hw as [Hc Hw]. apply negb_true_iff in Hc.
    cbn [String.append words_from]. rewrite Hc, IH by exact Hw.
    now rewrite Str_app_assoc.
Qed.

Lemma GetPrefixedValue_app (prefix rest : string) :
  Jobserver.GetPrefixedValue (prefix +:+ rest) prefix = Some rest.
Proof.
  induction prefix as [|c p IH]; cbn; [now destruct rest|].
  now rewrite Ascii.eqb_refl.
Qed.

(** ** Canonical paths *)

(** The canonicalizer agrees with every sample of the non-Windows test
    [CanonicalPath.PathSamples]. *)
Lemma CanonicalPath_PathSamples :
  Forall (fun s => CanonicalPath.value (CanonicalPath.make (fst s)) = snd s)
         path_samples.
Proof. unfold path_samples. repeat constructor. Qed.

(** A [..] that closes a component the path itself opened leaves no
    trace: after [resolve] has kept [c], a following [..] gives back the
    components kept before. *)
Lemma CanonicalPath_resolve_dotdot (kept : list string) (c : string) :
  c <> "" -> c <> "." -> c <> ".." ->
  CanonicalPath.resolve (CanonicalPath.resolve kept c) ".." = kept.
Proof.
  intros H1 H2 H3. unfold CanonicalPath.resolve.
  repeat (case_decide; try congruence).
Qed.

(** C4, as the spec states it, fails: the canonical value of
    ["./x/foo/../../bar.h"] is not ["../bar.h"]. *)
Lemma C4_counterexample :
  String.eqb
    (CanonicalPath.value (CanonicalPath.make "./x/foo/../../bar.h"))
    "../bar.h" = false.
Proof. vm_compute. reflexivity. Qed.

(** C4 (amended): constructing a CanonicalPath from
    ["./x/foo/../../bar.h"] produces the canonical value ["bar.h"]: the
    [.] segment is eliminated and each of the two [..] is resolved against
    the segment before it ([foo], then [x]), so no leading [..] is left.
    A leading [..] is what ["./x/../foo/../../bar.h"] produces, where the
    third [..] has no segment before it. *)
Theorem C4_canonical_value :
  CanonicalPath.value (CanonicalPath.make "./x/foo/../../bar.h") = "bar.h"
  /\ CanonicalPath.components "" "./x/foo/../../bar.h"
     = ["."; "x"; "foo"; ".."; ".."; "bar.h"]
  /\ fold_left CanonicalPath.resolve ["."; "x"; "foo"; ".."; ".."] [] = []
  /\ CanonicalPath.value (CanonicalPath.make "./x/../foo/../../bar.h") = "../bar.h".
Proof. repeat split; vm_compute; reflexivity. Qed.

(** ** Subprocesses on Windows *)

Section SubprocessFacts.

Import Subprocess SubprocessSet.

Lemma Close_closed (p : OutputPipe) : IsClosed (Close p) = true.
Proof. destruct p as [[h|] r b]; reflexivity. Qed.

Lemma Close_buf (p : OutputPipe) : buf_ (Close p) = buf_ p.
Proof. destruct p as [[h|] r b]; reflexivity. Qed.

(** [OnPipeReady] never reopens a pipe. *)
Lemma OnPipeReady_stays_closed (w : ReadyAnswers) (p p' : OutputPipe) :
  IsClosed p = true -> OnPipeReady w p = Returns p' -> IsClosed p' = true.
Proof.
  unfold OnPipeReady. intros Hc H.
  destruct p as [[h|] r b]; [discriminate|].
  repeat (case_match; simplify_eq; try reflexivity).
Qed.

(** C9: when [CreateProcessA] fails with [ERROR_FILE_NOT_FOUND] (for a
    child with pipes it is reached once [NUL] was opened),
    [Subprocess::Start] returns true, both output pipes are closed so
    [Done()] holds at once, the stderr buffer holds the "CreateProcess
    failed: ..." message, there is no child handle, and
    [SubprocessSet::Add] puts the subprocess at the back of the finished
    queue and not into the running list; [Finish] then reports
    [ExitFailure], as for a build action that failed. *)
Theorem C9_program_not_found
  (w : StartAnswers) (command : string) (use_console : bool)
  (addr : Z) (set : SubprocessSet.t) :
  create_process_error w = ERROR_FILE_NOT_FOUND ->
  (use_console = false -> nul_opened w = true) ->
  exists s : Subprocess.t,
    Start w command (Subprocess.new use_console) = Returns (true, s)
    /\ IsClosed (stdout_pipe_ s) = true
    /\ IsClosed (stderr_pipe_ s) = true
    /\ Done s = true
    /\ GetStderr s = not_found_message
    /\ GetStdout s = ""
    /\ child_ s = None
    /\ Add addr w command use_console set
       = Returns (Some addr,
                  SubprocessSet.mk (<[addr := s]> (objects set))
                                   (running_ set)
                                   (finished_ set ++ [addr]))
    /\ (forall exit_code, fst (Finish exit_code s) = ExitFailure).
Proof.
  intros Herr Hnul.
  destruct use_console.
  - eexists. unfold Add, Start. cbn. rewrite Herr. cbn.
    repeat split; reflexivity.
  - specialize (Hnul eq_refl).
    eexists. unfold Add, Start. cbn. rewrite Hnul, Herr. cbn.
    repeat split; reflexivity.
Qed.

(** C9 at a concrete input: a child with pipes, handles 100 and 101. *)
Lemma C9_program_not_found_witness :
  exists s : Subprocess.t,
    Start (mkStartAnswers 100 101 true 2 0) "no-such-program" (Subprocess.new false)
    = Returns (true, s)
    /\ IsClosed (stdout_pipe_ s) = true
    /\ IsClosed (stderr_pipe_ s) = true
    /\ Done s = true
    /\ GetStderr s = not_found_message
    /\ GetStdout s = ""
    /\ child_ s = None
    /\ Add 1 (mkStartAnswers 100 101 true 2 0) "no-such-program" false
           SubprocessSet.empty
       = Returns (Some 1,
                  SubprocessSet.mk (<[1 := s]> (objects SubprocessSet.empty))
                                   (running_ SubprocessSet.empty)
                                   (finished_ SubprocessSet.empty ++ [1]))
    /\ (forall exit_code, fst (Finish exit_code s) = ExitFailure).
Proof.
  apply (C9_program_not_found (mkStartAnswers 100 101 true 2 0)
           "no-such-program" false 1 SubprocessSet.empty).
  - reflexivity.
  - reflexivity.
Defined.

Lemma set_ok_empty : set_ok [] SubprocessSet.empty.
Proof.
  split.
  - intros a H. cbn in H. set_solver.
  - intros a [s H]. cbn in H. rewrite lookup_empty in H. discriminate.
  - intros a s H. cbn in H. rewrite lookup_empty in H. discriminate.
Qed.

Lemma Start_combined (w : StartAnswers) (command : string) (uc : bool)
  (ok : bool) (s : Subprocess.t) :
  Start w command (Subprocess.new uc) = Returns (ok, s) ->
  combined_output_ s = ""
  /\ (child_ s = None -> Done s = true).
Proof.
  unfold Start. intros H.
  destruct uc; cbn in H.
  - repeat (case_match; simplify_eq); split; try reflexivity; try discriminate.
    all: intros _; reflexivity.
  - repeat (case_match; simplify_eq); split; try reflexivity; try discriminate.
    all: intros _; reflexivity.
Qed.

Lemma Add_ok (used : list Z) (addr : Z) (w : StartAnswers) (command : string)
  (uc : bool) (set set' : SubprocessSet.t) (r : option Z) :
  set_ok used set -> addr ∉ used ->
  Add addr w command uc set = Returns (r, set') ->
  set_ok (addr :: used) set'.
Proof.
  intros [Hf Hu Hc] Hfresh. unfold Add. intros H.
  destruct (Start w command (Subprocess.new uc)) as [[ok s]|] eqn:Hs;
    [|discriminate].
  destruct (Start_combined _ _ _ _ _ Hs) as [Hcomb Hdone].
  destruct ok.
  2:{ simplify_eq. split; [exact Hf| |exact Hc].
      intros a Ha. right. now apply Hu. }
  assert (Hnew : objects set !! addr = None).
  { destruct (objects set !! addr) eqn:E; [|reflexivity].
    exfalso. apply Hfresh, Hu. rewrite E. eauto. }
  destruct (child_ s) eqn:Hchild; simplify_eq; split; cbn.
  - intros a Ha. destruct (Hf a Ha) as (s0 & Hs0 & Hd).
    exists s0. split; [|exact Hd].
    rewrite lookup_insert_ne; [exact Hs0|]. intros ->. congruence.
  - intros a [s0 Ha]. destruct (decide (addr = a)) as [->|Hne]; [left|right].
    apply Hu. rewrite lookup_insert_ne in Ha by exact Hne. eauto.
  - intros a s0 Ha. destruct (decide (addr = a)) as [->|Hne].
    + rewrite lookup_insert_eq in Ha. now simplify_eq.
    + rewrite lookup_insert_ne in Ha by exact Hne. eauto.
  - intros a Ha. apply elem_of_app in Ha as [Ha|Ha].
    + destruct (Hf a Ha) as (s0 & Hs0 & Hd).
      exists s0. split; [|exact Hd].
      rewrite lookup_insert_ne; [exact Hs0|]. intros ->. congruence.
    + apply list_elem_of_singleton in Ha as ->.
      exists s. rewrite lookup_insert_eq. split; [reflexivity|]. now apply Hdone.
  - intros a [s0 Ha]. destruct (decide (addr = a)) as [->|Hne]; [left|right].
    apply Hu. rewrite lookup_insert_ne in Ha by exact Hne. eauto.
  - intros a s0 Ha. destruct (decide (addr = a)) as [->|Hne].
    + rewrite lookup_insert_eq in Ha. now simplify_eq.
    + rewrite lookup_insert_ne in Ha by exact Hne. eauto.
Qed.

Lemma OnPipeReady_done_kept (w : ReadyAnswers) (s : Subprocess.t)
  (p : OutputPipe) :
  Done s = true ->
  (OnPipeReady w (stdout_pipe_ s) = Returns p ->
   Done (Subprocess.mk (use_console_ s) (child_ s) p (stderr_pipe_ s)
                       (combined_output_ s)) = true)
  /\ (OnPipeReady w (stderr_pipe_ s) = Returns p ->
      Done (Subprocess.mk (use_console_ s) (child_ s) (stdout_pipe_ s) p
                          (combined_output_ s)) = true).
Proof.
  unfold Done. intros [H1 H2]%andb_true_iff. split; intros H; cbn.
  - rewrite (OnPipeReady_stays_closed _ _ _ H1 H), H2. reflexivity.
  - rewrite H1, (OnPipeReady_stays_closed _ _ _ H2 H). reflexivity.
Qed.

Lemma DoWork_ok (used : list Z) (w : Completion) (set set' : SubprocessSet.t)
  (r : bool) :
  set_ok used set -> DoWork w set = Returns (r, set') -> set_ok used set'.
Proof.
  intros [Hf Hu Hc]. unfold DoWork. intros H.
  destruct (negb (status_error w =? 0) && negb (status_error w =? ERROR_BROKEN_PIPE));
    [discriminate|].
  destruct (subproc w) as [addr|]; [|simplify_eq; now split].
  destruct (objects set !! addr) as [s|] eqn:Hobj; [|discriminate].
  (* the subprocess after its pipe was served *)
  assert (exists s',
    (set' = SubprocessSet.mk (<[addr := s']> (objects set))
              (remove_all addr (running_ set)) (finished_ set ++ [addr])
     /\ Done s' = true
     \/ set' = SubprocessSet.mk (<[addr := s']> (objects set))
                 (running_ set) (finished_ set))
    /\ combined_output_ s' = ""
    /\ (Done s = true -> Done s' = true)) as (s' & Hset & Hcomb & Hdone).
  { destruct (overlapped w); [| |discriminate].
    - destruct (OnPipeReady (ready w) (stdout_pipe_ s)) as [p|] eqn:Hp;
        [|discriminate].
      eexists. split; [|split].
      + destruct (Done _) eqn:Hd in H; [|right; now simplify_eq].
        destruct (negb _) in H; simplify_eq; [left|right]; eauto.
      + cbn. eauto.
      + intros Hd. now apply (OnPipeReady_done_kept (ready w) s p Hd).
    - destruct (OnPipeReady (ready w) (stderr_pipe_ s)) as [p|] eqn:Hp;
        [|discriminate].
      eexists. split; [|split].
      + destruct (Done _) eqn:Hd in H; [|right; now simplify_eq].
        destruct (negb _) in H; simplify_eq; [left|right]; eauto.
      + cbn. eauto.
      + intros Hd. now apply (OnPipeReady_done_kept (ready w) s p Hd). }
  assert (Hfin : forall a, a ∈ finished_ set ->
            exists s0, <[addr := s']> (objects set) !! a = Some s0 /\ Done s0 = true).
  { intros a Ha. destruct (Hf a Ha) as (s0 & Hs0 & Hd).
    destruct (decide (addr = a)) as [->|Hne].
    - exists s'. rewrite lookup_insert_eq. split; [reflexivity|].
      apply Hdone. congruence.
    - exists s0. now rewrite lookup_insert_ne. }
  assert (Hused : forall a, is_Some (<[addr := s']> (objects set) !! a) -> a ∈ used).
  { intros a [s0 Ha]. destruct (decide (addr = a)) as [->|Hne].
    - apply Hu. eauto.
    - rewrite lookup_insert_ne in Ha by exact Hne. apply Hu. eauto. }
  assert (Hcmb : forall a s0, <[addr := s']> (objects set) !! a = Some s0 ->
            combined_output_ s0 = "").
  { intros a s0 Ha. destruct (decide (addr = a)) as [->|Hne].
    - rewrite lookup_insert_eq in Ha. now simplify_eq.
    - rewrite lookup_insert_ne in Ha by exact Hne. eauto. }
  destruct Hset as [[-> Hd]| ->]; split; cbn; try assumption.
  intros a Ha. apply elem_of_app in Ha as [Ha|Ha]; [now apply Hfin|].
  apply list_elem_of_singleton in Ha as ->.
  exists s'. now rewrite lookup_insert_eq.
Qed.

Lemma NextFinished_ok (used : list Z) (set set' : SubprocessSet.t) (r : option Z) :
  set_ok used set -> NextFinished set = (r, set') ->
  set_ok used set'
  /\ (forall a, r = Some a ->
        exists s, objects set' !! a = Some s /\ Done s = true
                  /\ combined_output_ s = "").
Proof.
  intros [Hf Hu Hc]. unfold NextFinished.
  destruct (finished_ set) as [|a rest] eqn:Hfs; intros H; simplify_eq.
  - split; [split; try assumption; now rewrite Hfs|].
    intros a Ha. discriminate.
  - split.
    + split; cbn; auto. intros b Hb. apply Hf. now right.
    + intros b Hb. simplify_eq. cbn.
      destruct (Hf b) as (s & Hs & Hd); [now left|].
      exists s. eauto.
Qed.

(** Every subprocess [NextFinished] hands out, in any run of [Add],
    [DoWork] and [NextFinished] calls from an empty set, is [Done], and its
    [combined_output_] is empty whatever its two buffers hold. *)
Lemma run_handed_out (ops : list Op) (used : list Z) (set set' : SubprocessSet.t)
  (handed handed' : list Subprocess.t) :
  set_ok used set ->
  Forall (fun s => Done s = true /\ combined_output_ s = "") handed ->
  fresh_addresses ops used = true ->
  run ops set handed = Some (set', handed') ->
  Forall (fun s => Done s = true /\ combined_output_ s = "") handed'.
Proof.
  revert used set handed.
  induction ops as [|op ops IH]; intros used set handed Hok Hh Hfr Hrun.
  - cbn in Hrun. now simplify_eq.
  - destruct op as [addr w command uc|w|]; cbn in Hrun, Hfr.
    + apply andb_true_iff in Hfr as [Hnew Hfr].
      apply negb_true_iff, bool_decide_eq_false in Hnew.
      destruct (Add addr w command uc set) as [[r set1]|] eqn:HA; [|discriminate].
      eapply IH; [eapply Add_ok; eauto|exact Hh|exact Hfr|exact Hrun].
    + destruct (DoWork w set) as [[r set1]|] eqn:HD; [|discriminate].
      eapply IH; [eapply DoWork_ok; eauto|exact Hh|exact Hfr|exact Hrun].
    + destruct (NextFinished set) as [r set1] eqn:HN.
      destruct (NextFinished_ok _ _ _ _ Hok HN) as [Hok1 Hr].
      destruct r as [a|].
      * destruct (Hr a eq_refl) as (s & Hs & Hd & Hc).
        rewrite Hs in Hrun.
        eapply IH; [exact Hok1| |exact Hfr|exact Hrun].
        apply Forall_app. split; [exact Hh|]. repeat constructor; assumption.
      * eapply IH; [exact Hok1|exact Hh|exact Hfr|exact Hrun].
Qed.

(** C5 at the failing input: [Add] of a command whose program is not
    found, then [NextFinished].  The subprocess handed out is [Done], its
    stdout buffer is empty, its stderr buffer holds the 65 bytes of the
    message, and its combined output holds none: no function of
    [subprocess-win32.cc] writes [combined_output_]. *)
Theorem C5_combined_output_not_maintained :
  exists (set : SubprocessSet.t) (s : Subprocess.t),
    run [OpAdd 1 (mkStartAnswers 100 101 true ERROR_FILE_NOT_FOUND 0)
               "no-such-program" false;
         OpNextFinished]
        SubprocessSet.empty []
    = Some (set, [s])
    /\ Done s = true
    /\ String.length (GetStdout s) = 0%nat
    /\ String.length (GetStderr s) = 65%nat
    /\ String.length (GetOutput s) = 0%nat.
Proof. do 2 eexists. vm_compute. repeat split; reflexivity. Qed.

(** [Done()] holds of every subprocess [NextFinished] returns, and each
    of them has an empty [combined_output_]. *)
Theorem NextFinished_returns_done (ops : list Op) (set : SubprocessSet.t)
  (handed : list Subprocess.t) :
  fresh_addresses ops [] = true ->
  run ops SubprocessSet.empty [] = Some (set, handed) ->
  Forall (fun s => Done s = true /\ String.length (GetOutput s) = 0%nat) handed.
Proof.
  intros Hfr Hrun.
  eapply Forall_impl.
  - eapply run_handed_out; [exact set_ok_empty|constructor|exact Hfr|exact Hrun].
  - intros s [Hd Hc]. split; [exact Hd|]. unfold GetOutput. now rewrite Hc.
Qed.

Lemma NextFinished_returns_done_witness :
  Forall (fun s => Done s = true /\ String.length (GetOutput s) = 0%nat)
    [Subprocess.mk false None OutputPipe_new
       (mkOutputPipe None false not_found_message) ""].
Proof.
  apply (NextFinished_returns_done
           [OpAdd 1 (mkStartAnswers 100 101 true ERROR_FILE_NOT_FOUND 0)
                  "no-such-program" false;
            OpNextFinished]
           (SubprocessSet.mk
              (<[1 := Subprocess.mk false None OutputPipe_new
                        (mkOutputPipe None false not_found_message) ""]> ∅)
              [] [])).
  - reflexivity.
  - reflexivity.
Defined.

End SubprocessFacts.

(** ** The status table *)

Section StatusTableFacts.

Import StatusTable.

(** The sort key [CommandValuePtrLess] compares: start time, then id,
    with a null pointer standing for [(INT64_MAX, 0)]. *)
Lemma Less_spec (a b : CommandValuePtr) :
  CommandValuePtrLess a b = true <->
  let ta := match a with Some v => start_time_ms v | None => INT64_MAX end in
  let tb := match b with Some v => start_time_ms v | None => INT64_MAX end in
  let ia := match a with Some v => command_id v | None => 0 end in
  let ib := match b with Some v => command_id v | None => 0 end in
  ta < tb \/ (ta = tb /\ ia < ib).
Proof.
  unfold CommandValuePtrLess. cbn zeta.
  destruct (Z.eqb_spec
              (match a with Some v => start_time_ms v | None => INT64_MAX end)
              (match b with Some v => start_time_ms v | None => INT64_MAX end));
    cbn [negb]; rewrite Z.ltb_lt; lia.
Qed.

Lemma Less_false (a b : CommandValuePtr) :
  CommandValuePtrLess a b = false <-> ~ (CommandValuePtrLess a b = true).
Proof. destruct (CommandValuePtrLess a b); split; congruence. Qed.

(** [a] is not below [b]. *)
Local Notation "a ⊒ b" := (CommandValuePtrLess a b = false) (at level 70).

Lemma geq_refl (a : CommandValuePtr) : a ⊒ a.
Proof. apply Less_false. rewrite Less_spec. cbn zeta. lia. Qed.

Lemma geq_trans (a b c : CommandValuePtr) : a ⊒ b -> b ⊒ c -> a ⊒ c.
Proof. rewrite !Less_false, !Less_spec. cbn zeta. lia. Qed.

Lemma Less_geq (a b : CommandValuePtr) : CommandValuePtrLess a b = true -> b ⊒ a.
Proof. rewrite Less_false, !Less_spec. cbn zeta. lia. Qed.

Lemma greatest_spec (q : MaxQueue) (best : CommandValuePtr) :
  greatest best q ∈ best :: q
  /\ greatest best q ⊒ best
  /\ (forall y, y ∈ q -> greatest best q ⊒ y).
Proof.
  revert best. induction q as [|x q IH]; intros best; cbn.
  - split; [left|split; [apply geq_refl|]]. intros y Hy. inversion Hy.
  - destruct (CommandValuePtrLess best x) eqn:Hlt.
    + destruct (IH x) as (Hin & Hge & Hall). split; [|split].
      * right. exact Hin.
      * eapply geq_trans; [exact Hge|]. now apply Less_geq.
      * intros y Hy. apply elem_of_cons in Hy as [->|Hy]; auto.
    + destruct (IH best) as (Hin & Hge & Hall). split; [|split].
      * apply elem_of_cons in Hin as [Hin|Hin]; [rewrite Hin; left|do 2 right; exact Hin].
      * exact Hge.
      * intros y Hy. apply elem_of_cons in Hy as [->|Hy]; auto.
        eapply geq_trans; [exact Hge|exact Hlt].
Qed.

(** [top()] is an element of a non-empty queue that no element is above. *)
Lemma top_spec (q : MaxQueue) :
  q <> [] -> top q ∈ q /\ (forall y, y ∈ q -> top q ⊒ y).
Proof.
  destruct q as [|x q]; [congruence|]. intros _. cbn.
  destruct (greatest_spec q x) as (Hin & Hge & Hall).
  split; [exact Hin|]. intros y Hy.
  apply elem_of_cons in Hy as [->|Hy]; auto.
Qed.

Lemma remove_first_subset (x y : CommandValuePtr) (q : MaxQueue) :
  y ∈ remove_first x q -> y ∈ q.
Proof.
  induction q as [|z q IH]; cbn; [auto|].
  case_decide as Hd; [now right|].
  intros [->|Hy]%elem_of_cons; [left|right; auto].
Qed.

Lemma remove_first_length (x : CommandValuePtr) (q : MaxQueue) :
  x ∈ q -> S (length (remove_first x q)) = length q.
Proof.
  induction q as [|z q IH]; cbn; [intros Hx; inversion Hx|].
  case_decide as Hd; [reflexivity|].
  intros [->|Hx]%elem_of_cons; [congruence|]. cbn. now rewrite IH.
Qed.

Lemma pop_length (q : MaxQueue) : q <> [] -> S (length (pop q)) = length q.
Proof. intros H. apply remove_first_length, top_spec, H. Qed.

(** The queue keeps its size: it is bounded by [max_commands]. *)
Lemma consider_length (q : MaxQueue) (c : CommandValue) :
  q <> [] -> length (consider q c) = length q.
Proof.
  intros H. unfold consider, emplace.
  destruct (top q) as [t|]; [destruct (_ <? _)|]; cbn; auto using pop_length.
Qed.

Lemma selection_length (iteration : list CommandValue) (q : MaxQueue) :
  q <> [] -> length (fold_left consider iteration q) = length q.
Proof.
  revert q. induction iteration as [|c l IH]; intros q H; cbn; [reflexivity|].
  rewrite IH.
  - now apply consider_length.
  - intros E. apply (f_equal length) in E.
    rewrite consider_length in E by exact H. destruct q; [congruence|discriminate].
Qed.

Lemma drain_elem_of (fuel : nat) (q : MaxQueue) (x : CommandValue) :
  x ∈ drain fuel q -> Some x ∈ q.
Proof.
  revert q. induction fuel as [|fuel IH]; intros q; cbn.
  - intros H. destruct q; inversion H.
  - destruct q as [|y q']; [intros H; inversion H|].
    set (q := y :: q').
    assert (Hq : q <> []) by discriminate.
    intros H.
    assert (Hrest : x ∈ drain fuel (pop q) -> Some x ∈ q).
    { intros Hx. eapply remove_first_subset, IH, Hx. }
    destruct (top q) as [t|] eqn:Ht; [|auto].
    apply elem_of_cons in H as [->|H]; [|auto].
    rewrite <- Ht. now apply top_spec.
Qed.

(** [older_commands_] is filled from the newest command down. *)
Lemma drain_sorted (fuel : nat) (q : MaxQueue) :
  StronglySorted (fun x y => Some x ⊒ Some y) (drain fuel q).
Proof.
  revert q. induction fuel as [|fuel IH]; intros q; cbn.
  - destruct q; constructor.
  - destruct q as [|y q']; [constructor|].
    set (q := y :: q').
    assert (Hq : q <> []) by discriminate.
    destruct (top q) as [t|] eqn:Ht; [|apply IH].
    constructor; [apply IH|].
    apply Forall_forall. intros x Hx.
    rewrite <- Ht. apply top_spec; [exact Hq|].
    eapply remove_first_subset, drain_elem_of, Hx.
Qed.

Lemma StronglySorted_lookup {A} (R : A -> A -> Prop) (l : list A) :
  StronglySorted R l ->
  forall i j x y, (i < j)%nat -> l !! i = Some x -> l !! j = Some y -> R x y.
Proof.
  induction 1 as [|a l Hs IH Hall]; intros i j x y Hij Hi Hj.
  - rewrite lookup_nil in Hi. discriminate.
  - destruct j as [|j]; [lia|]. cbn in Hj.
    destruct i as [|i]; cbn in Hi.
    + simplify_eq. rewrite Forall_forall in Hall.
      apply Hall. eapply list_elem_of_lookup_2, Hj.
    + eapply IH; [|exact Hi|exact Hj]. lia.
Qed.

(** The rows are in ascending key order: no row is below a row above
    it. *)
Lemma displayed_ascending (t : Table) (iteration : list CommandValue)
  (i j : nat) (x y : CommandValue) :
  (i < j)%nat ->
  displayed t iteration !! i = Some x ->
  displayed t iteration !! j = Some y ->
  Some y ⊒ Some x.
Proof.
  unfold displayed, older_commands. intros Hij Hi Hj.
  apply reverse_lookup_Some in Hi as [Hi Hil].
  apply reverse_lookup_Some in Hj as [Hj Hjl].
  eapply (StronglySorted_lookup _ _ (drain_sorted _ _)); [|exact Hj|exact Hi].
  lia.
Qed.

(** Stable order of the rows: of two displayed commands with the same
    start time, the one with the lower id is on the higher row. *)
Lemma displayed_stable (t : Table) (iteration : list CommandValue)
  (i j : nat) (a b : CommandValue) :
  displayed t iteration !! i = Some a ->
  displayed t iteration !! j = Some b ->
  start_time_ms a = start_time_ms b ->
  command_id a < command_id b ->
  (i < j)%nat.
Proof.
  intros Hi Hj Hstart Hid.
  destruct (Nat.lt_trichotomy i j) as [H|[->|H]]; [exact H| |].
  - rewrite Hi in Hj. simplify_eq. lia.
  - pose proof (displayed_ascending t iteration j i b a H Hj Hi) as Hge.
    apply Less_false in Hge. exfalso. apply Hge.
    apply Less_spec. cbn zeta. lia.
Qed.

(** The terminal calls of an update that is performed: one
    [PrintOnNextLine] per displayed command, top row first, and no other
    [PrintOnNextLine]. *)
Lemma UpdateTable_rows (now : Z) (iteration : list CommandValue) (t : Table) :
  refreshes now t = true ->
  max_commands (config_ t) <> 0 ->
  exists tail,
    fst (UpdateTable now iteration t)
    = map (fun c => PrintOnNextLine (pending_line now c)) (displayed t iteration)
      ++ tail
    /\ forallb (fun c => negb (is_PrintOnNextLine c)) tail = true.
Proof.
  unfold refreshes, UpdateTable, PrintPending, displayed. intros Hr Hm.
  apply negb_true_iff in Hr. rewrite Hr. cbn [config_ set_last_update].
  destruct (Z.eqb_spec (max_commands (config_ t)) 0) as [E|_]; [congruence|].
  unfold clear_extra.
  destruct (Z.of_nat _ <? _).
  - eexists. cbn [fst]. split; [reflexivity|].
    rewrite forallb_app. apply andb_true_iff. split.
    + apply forallb_forall. intros c Hc.
      apply list_elem_of_In, elem_of_replicate in Hc as [-> _]. reflexivity.
    + match goal with |- context [if ?b then _ else _] => destruct b end;
        reflexivity.
  - eexists. cbn [fst]. split; [reflexivity|].
    match goal with |- context [if ?b then _ else _] => destruct b end;
      reflexivity.
Qed.

Lemma consider_elem_of (q : MaxQueue) (c x : CommandValue) :
  Some x ∈ consider q c -> Some x ∈ q \/ x = c.
Proof.
  unfold consider, emplace, pop.
  destruct (top q) as [t|]; [destruct (_ <? _)|]; auto.
  all: intros [E|H]%elem_of_cons; [right; congruence|left].
  all: eapply remove_first_subset, H.
Qed.

Lemma selection_elem_of (iteration : list CommandValue) (q : MaxQueue)
  (x : CommandValue) :
  Some x ∈ fold_left consider iteration q -> Some x ∈ q \/ x ∈ iteration.
Proof.
  revert q. induction iteration as [|c l IH]; intros q; cbn; [auto|].
  intros H. destruct (IH _ H) as [H1|H1]; [|right; now right].
  destruct (consider_elem_of _ _ _ H1) as [H2| ->]; [now left|right; left].
Qed.

(** Every displayed command is one the walk over [pending_commands_]
    visited. *)
Lemma displayed_pending (t : Table) (iteration : list CommandValue)
  (x : CommandValue) :
  x ∈ displayed t iteration -> x ∈ iteration.
Proof.
  unfold displayed, older_commands. rewrite elem_of_reverse. intros H.
  apply drain_elem_of, selection_elem_of in H as [H|H]; [|exact H].
  apply elem_of_replicate in H as [H _]. discriminate.
Qed.

(** The replacement rule of the selection loop. *)
Lemma consider_rule (q : MaxQueue) (c : CommandValue) :
  ((top q = None
    \/ exists t, top q = Some t /\ start_time_ms c < start_time_ms t) ->
   consider q c = emplace (Some c) (pop q))
  /\ ((exists t, top q = Some t /\ start_time_ms t <= start_time_ms c) ->
      consider q c = q).
Proof.
  unfold consider. split.
  - intros [->|(t & -> & Hlt)]; [reflexivity|].
    apply Z.ltb_lt in Hlt. now rewrite Hlt.
  - intros (t & -> & Hle).
    apply Z.ltb_ge in Hle. now rewrite Hle.
Qed.

(** A candidate that started together with the top of the queue never
    replaces it, whatever the two ids are: the test of the selection loop
    reads start times only. *)
Lemma tied_candidate_is_dropped (q : MaxQueue) (c t : CommandValue) :
  top q = Some t ->
  start_time_ms c = start_time_ms t ->
  consider q c = q.
Proof.
  intros Ht Hs. apply (proj2 (consider_rule q c)). exists t. split; [exact Ht|lia].
Qed.

(** C2: the selection does not break ties by id.  [tied_table] has one
    row and two pending commands started together, [first] (id 1) and
    [second] (id 2).  Both orders are walks of its map.  The comparator
    puts [first] before [second], yet the one row shows whichever
    command the walk meets first: walked [second] first, the table
    prints [second] and leaves [first], the command inserted first, out.
    In general a candidate tied with the top of the queue is dropped
    whatever its id. *)
Theorem C2_tied_selection_follows_walk :
  walks tied_table [tied_first; tied_second]
  /\ walks tied_table [tied_second; tied_first]
  /\ CommandValuePtrLess (Some tied_first) (Some tied_second) = true
  /\ displayed tied_table [tied_first; tied_second] = [tied_first]
  /\ displayed tied_table [tied_second; tied_first] = [tied_second]
  /\ fst (UpdateTable 0 [tied_second; tied_first] tied_table)
     = [ PrintOnNextLine "  0.0s | second"; MoveUp 1; PrintOnCurrentLine "";
         Flush ]
  /\ (forall (q : MaxQueue) (c t : CommandValue),
        top q = Some t ->
        start_time_ms c = start_time_ms t ->
        consider q c = q).
Proof.
  assert (Hmap : map snd (map_to_list (pending_commands_ tied_table))
                 ≡ₚ [tied_first; tied_second]).
  { assert (E : map snd (map_to_list (pending_commands_ tied_table))
                = [tied_first; tied_second]
                \/ map snd (map_to_list (pending_commands_ tied_table))
                   = [tied_second; tied_first])
      by (vm_compute; auto).
    destruct E as [-> | ->]; [reflexivity|apply Permutation_swap]. }
  unfold walks. repeat split.
  - now rewrite Hmap.
  - rewrite Hmap. apply Permutation_swap.
  - exact tied_candidate_is_dropped.
Qed.

Lemma perm3_cases {A} (x y z : A) (l : list A) :
  l ≡ₚ [x; y; z] ->
  l = [x; y; z] \/ l = [x; z; y] \/ l = [y; x; z]
  \/ l = [y; z; x] \/ l = [z; x; y] \/ l = [z; y; x].
Proof.
  intros H. pose proof (Permutation_length H) as Hlen.
  destruct l as [|a [|b [|c [|]]]]; try discriminate.
  assert (Ha : a ∈ [x; y; z]) by (rewrite <- H; left).
  set_unfold in Ha. destruct Ha as [->|[->|[->|[]]]].
  - apply Permutation_cons_inv, Permutation_length_2 in H
      as [[-> ->]|[-> ->]]; auto.
  - rewrite (Permutation_swap y x [z]) in H.
    apply Permutation_cons_inv, Permutation_length_2 in H
      as [[-> ->]|[-> ->]]; auto 6.
  - assert (E : [x; y; z] ≡ₚ z :: [x; y]).
    { change [x; y; z] with ([x; y] ++ [z]).
      rewrite (Permutation_app_comm [x; y] [z]). reflexivity. }
    rewrite E in H.
    apply Permutation_cons_inv, Permutation_length_2 in H
      as [[-> ->]|[-> ->]]; auto 7.
Qed.

Lemma scenario_pending :
  map snd (map_to_list (pending_commands_ scenario_table))
  = [ mkCommandValue 570 3 "command_3";
      mkCommandValue 250 2 "command_2";
      mkCommandValue 0 1 "command_1" ].
Proof. vm_compute. reflexivity. Qed.

(** The elapsed times below one minute, by whole seconds and tenths. *)
Lemma format_elapsed_table :
  forallb (fun s =>
    forallb (fun d =>
      String.eqb (Str.take 15 (Libc.dec (Libc.to_int (Z.of_nat s)) +:+ "."
                               +:+ Libc.dec (Libc.to_int (Z.of_nat d)) +:+ "s"))
                 (Libc.dec (Z.of_nat s) +:+ "." +:+ Libc.dec (Z.of_nat d) +:+ "s")
      && (String.length (Libc.dec (Z.of_nat s) +:+ "." +:+ Libc.dec (Z.of_nat d)
                         +:+ "s") <=? 5)%nat)
      (seq 0 10))
    (seq 0 60) = true.
Proof. vm_compute. reflexivity. Qed.

Lemma format_elapsed_short (e : Z) :
  0 <= e < 60000 ->
  format_elapsed e
  = Libc.dec (e / 1000) +:+ "." +:+ Libc.dec (e mod 1000 / 100) +:+ "s"
  /\ (String.length (format_elapsed e) <= 5)%nat.
Proof.
  intros He. unfold format_elapsed.
  destruct (Z.ltb_spec e 0) as [?|_]; [lia|].
  destruct (Z.ltb_spec e 60000) as [_|?]; [|lia].
  rewrite Z.quot_div_nonneg, Z.rem_mod_nonneg by lia.
  rewrite Z.quot_div_nonneg by (try apply Z.mod_pos_bound; lia).
  pose proof format_elapsed_table as T.
  rewrite forallb_forall in T.
  specialize (T (Z.to_nat (e / 1000))).
  rewrite forallb_forall in T.
  assert (Hs : 0 <= e / 1000 < 60).
  { split; [apply Z.div_pos; lia|apply Z.div_lt_upper_bound; lia]. }
  assert (Hd : 0 <= e mod 1000 / 100 < 10).
  { pose proof (Z.mod_pos_bound e 1000 ltac:(lia)).
    split; [apply Z.div_pos; lia|apply Z.div_lt_upper_bound; lia]. }
  specialize (T ltac:(apply in_seq; lia) (Z.to_nat (e mod 1000 / 100))
                ltac:(apply in_seq; lia)).
  rewrite !Z2Nat.id in T by lia.
  apply andb_true_iff in T as [T1 T2].
  apply String.eqb_eq in T1. apply Nat.leb_le in T2.
  rewrite T1. split; [reflexivity|exact T2].
Qed.

(** C3: the render trace of the test scenario, whatever order the
    pending map is walked in; and the format of an elapsed time [e]
    below 60 s: ["%d.%ds"] of the whole seconds and of the tenths
    [(e % 1000) / 100], right-justified with spaces to 6 columns in front
    of [" | "] and the description. *)
Theorem C3_render_trace (iteration : list CommandValue)
  (e now start id : Z) (desc : string) :
  walks scenario_table iteration ->
  0 <= e < 60000 ->
  now - start = e ->
  UpdateTable 570 iteration scenario_table
  = (scenario_trace,
     set_last_command_count 2 (set_last_update 570 scenario_table))
  /\ format_elapsed e
     = Libc.dec (e / 1000) +:+ "." +:+ Libc.dec (e mod 1000 / 100) +:+ "s"
  /\ pending_line now (mkCommandValue start id desc)
     = Str.fill (6 - String.length (format_elapsed e)) " "
       +:+ format_elapsed e +:+ " | " +:+ desc
  /\ String.length (Str.fill (6 - String.length (format_elapsed e)) " "
                    +:+ format_elapsed e) = 6%nat.
Proof.
  intros Hwalk He Hnow.
  destruct (format_elapsed_short e He) as [Hfmt Hlen].
  split; [|split; [exact Hfmt|split]].
  - unfold walks in Hwalk. rewrite scenario_pending in Hwalk.
    apply perm3_cases in Hwalk.
    destruct Hwalk as [->|[->|[->|[->|[->| ->]]]]]; vm_compute; reflexivity.
  - unfold pending_line. cbn [start_time_ms description]. rewrite Hnow.
    destruct (Nat.ltb_spec (String.length (format_elapsed e)) 6) as [_|?];
      [reflexivity|lia].
  - rewrite Str_length_app, Str_length_fill. lia.
Qed.

(** C3 with the map walked newest command first, and the elapsed time of
    [command_2] at 570 ms. *)
Lemma C3_render_trace_witness :
  UpdateTable 570
    [ mkCommandValue 570 3 "command_3"; mkCommandValue 250 2 "command_2";
      mkCommandValue 0 1 "command_1" ]
    scenario_table
  = (scenario_trace,
     set_last_command_count 2 (set_last_update 570 scenario_table))
  /\ format_elapsed 320 = "0.3s"
  /\ pending_line 570 (mkCommandValue 250 2 "command_2") = "  0.3s | command_2"
  /\ String.length ("  " +:+ format_elapsed 320) = 6%nat.
Proof.
  apply (C3_render_trace
           [ mkCommandValue 570 3 "command_3"; mkCommandValue 250 2 "command_2";
             mkCommandValue 0 1 "command_1" ]
           320 570 250 2 "command_2").
  - unfold walks. rewrite scenario_pending. reflexivity.
  - lia.
  - reflexivity.
Defined.

End StatusTableFacts.

(** ** The MAKEFLAGS parser *)

Section ParserFacts.

Import Jobserver.

(** How many conversions [sscanf] makes, and what two conversions
    store, does not depend on what the two objects held before. *)
Lemma sscanf_independent (s : string) (a0 b0 a1 b1 : Z) :
  fst (fst (Libc.sscanf_d_comma_d s a0 b0)) = fst (fst (Libc.sscanf_d_comma_d s a1 b1))
  /\ (fst (fst (Libc.sscanf_d_comma_d s a0 b0)) = 2 ->
      Libc.sscanf_d_comma_d s a0 b0 = Libc.sscanf_d_comma_d s a1 b1).
Proof.
  unfold Libc.sscanf_d_comma_d.
  destruct (Libc.scan_d s) as [[a rest]|].
  - destruct rest as [|c rest'].
    + cbn. split; [reflexivity|discriminate].
    + destruct (Ascii.eqb_spec c ",") as [->|Hne].
      * destruct (Libc.scan_d rest') as [[b r]|]; cbn;
          (split; [reflexivity|try discriminate; reflexivity]).
      * assert (E : forall x y : Z * Z * Z,
                   match String c rest' with
                   | String "," r => x | _ => y end = y).
        { intros x y.
          destruct c as [[] [] [] [] [] [] [] []]; try reflexivity; congruence. }
        cbn. destruct c as [[] [] [] [] [] [] [] []];
          try (split; [reflexivity|discriminate]); congruence.
  - cbn. split; [reflexivity|]. destruct (Str.is_empty _); discriminate.
Qed.

Lemma GetFileDescriptorPair_independent (value : string) (c1 c2 : Config) :
  fst (GetFileDescriptorPair value c1) = fst (GetFileDescriptorPair value c2)
  /\ path (snd (GetFileDescriptorPair value c1)) = path c1
  /\ (fst (GetFileDescriptorPair value c1) = true ->
      mode (snd (GetFileDescriptorPair value c1))
      = mode (snd (GetFileDescriptorPair value c2))
      /\ read_fd (snd (GetFileDescriptorPair value c1))
         = read_fd (snd (GetFileDescriptorPair value c2))
      /\ write_fd (snd (GetFileDescriptorPair value c1))
         = write_fd (snd (GetFileDescriptorPair value c2))
      /\ mode (snd (GetFileDescriptorPair value c1)) <> kModePosixFifo
      /\ mode (snd (GetFileDescriptorPair value c1)) <> kModeWin32Semaphore).
Proof.
  unfold GetFileDescriptorPair.
  destruct (sscanf_independent (Str.c_str value) (read_fd c1) (write_fd c1)
              (read_fd c2) (write_fd c2)) as [Hn Hv].
  destruct (Libc.sscanf_d_comma_d (Str.c_str value) (read_fd c1) (write_fd c1))
    as [[n1 r1] w1].
  destruct (Libc.sscanf_d_comma_d (Str.c_str value) (read_fd c2) (write_fd c2))
    as [[n2 r2] w2].
  cbn [fst snd] in Hn, Hv. subst n2.
  destruct (Z.eqb_spec n1 2) as [->|Hne]; cbn [negb].
  - specialize (Hv eq_refl). simplify_eq. cbn [set_fds read_fd write_fd].
    destruct ((r2 <? 0) || (w2 <? 0)); cbn; repeat split; try congruence.
  - cbn. repeat split; discriminate.
Qed.

(** A word that is no option leaves the configuration alone. *)
Lemma parse_arg_unrecognized (w : string) (config : Config) :
  recognized w = false -> parse_arg w config = inl config.
Proof.
  unfold recognized, parse_arg. intros H.
  destruct (GetPrefixedValue w "--jobserver-auth="); [discriminate|].
  destruct (GetPrefixedValue w "--jobserver-fds="); [discriminate|reflexivity].
Qed.

(** A recognized word overrides: the mode and the mode's payload after it
    are those the word selects on its own, whatever came before. *)
Lemma parse_arg_overrides (w : string) (before : Config) :
  recognized w = true ->
  accepted w = true ->
  exists after alone,
    parse_arg w before = inl after
    /\ setting_of w = Some alone
    /\ same_setting after alone.
Proof.
  unfold recognized, accepted, setting_of, parse_arg, same_setting.
  destruct (GetPrefixedValue w "--jobserver-auth=") as [value|].
  - intros _ _.
    destruct (GetFileDescriptorPair_independent value before Config_default)
      as (Hok & Hpath & Hsame).
    destruct (GetFileDescriptorPair value before) as [ok1 c1].
    destruct (GetFileDescriptorPair value Config_default) as [ok2 c2].
    cbn [fst snd] in *. subst ok2.
    destruct ok1.
    + destruct (Hsame eq_refl) as (Hm & Hr & Hw & Hnf & Hns).
      do 2 eexists. repeat split; try reflexivity; try exact Hm.
      destruct (mode c1); try congruence; now split.
    + destruct (GetPrefixedValue value "fifo:");
        do 2 eexists; repeat split; reflexivity.
  - destruct (GetPrefixedValue w "--jobserver-fds=") as [value|]; [|discriminate].
    intros _.
    destruct (GetFileDescriptorPair_independent value before Config_default)
      as (Hok & Hpath & Hsame).
    destruct (GetFileDescriptorPair value before) as [ok1 c1].
    destruct (GetFileDescriptorPair value Config_default) as [ok2 c2].
    cbn [fst snd] in *. subst ok2.
    destruct ok1; cbn [negb]; [|discriminate].
    intros _. destruct (Hsame eq_refl) as (Hm & Hr & Hw & _).
    do 2 eexists. repeat split; try reflexivity; cbn; assumption.
Qed.

(** An accepted word never ends the loop. *)
Lemma parse_arg_accepted (w : string) (before : Config) :
  accepted w = true -> exists after, parse_arg w before = inl after.
Proof.
  intros Hacc. destruct (recognized w) eqn:Hrec.
  - destruct (parse_arg_overrides w before Hrec Hacc) as (after & _ & H & _).
    eauto.
  - rewrite parse_arg_unrecognized by exact Hrec. eauto.
Qed.

Lemma parse_loop_accepted (ws : list string) (before : Config) :
  forallb accepted ws = true ->
  parse_ok (parse_loop ws before) = true
  /\ parse_error (parse_loop ws before) = None.
Proof.
  revert before. induction ws as [|w ws IH]; intros before; cbn.
  - split; reflexivity.
  - intros [Hw Hws]%andb_true_iff.
    destruct (parse_arg_accepted w before Hw) as [after ->]. now apply IH.
Qed.

(** Words that are no options can be left out. *)
Lemma parse_loop_ignores (ws : list string) (before : Config) :
  parse_loop ws before = parse_loop (List.filter recognized ws) before.
Proof.
  revert before. induction ws as [|w ws IH]; intros before; cbn; [reflexivity|].
  destruct (recognized w) eqn:Hrec; cbn.
  - destruct (parse_arg w before); [apply IH|reflexivity].
  - rewrite parse_arg_unrecognized by exact Hrec. apply IH.
Qed.

Lemma parse_loop_unrecognized (ws : list string) (before : Config) :
  forallb (fun w => negb (recognized w)) ws = true ->
  parse_loop ws before
  = {| parse_ok := true; parse_config := before; parse_error := None |}.
Proof.
  revert before. induction ws as [|w ws IH]; intros before; cbn; [reflexivity|].
  intros [Hw Hws]%andb_true_iff. apply negb_true_iff in Hw.
  rewrite parse_arg_unrecognized by exact Hw. now apply IH.
Qed.

(** The last recognized word wins. *)
Lemma parse_loop_last_wins (pre post : list string) (w : string) (before : Config) :
  forallb accepted (pre ++ w :: post) = true ->
  recognized w = true ->
  forallb (fun v => negb (recognized v)) post = true ->
  exists alone,
    setting_of w = Some alone
    /\ same_setting (parse_config (parse_loop (pre ++ w :: post) before)) alone.
Proof.
  revert before. induction pre as [|v pre IH]; intros before Hacc Hrec Hpost.
  - cbn in Hacc |- *. apply andb_true_iff in Hacc as [Hw _].
    destruct (parse_arg_overrides w before Hrec Hw) as (after & alone & -> & Hs & Hsame).
    exists alone. split; [exact Hs|].
    now rewrite parse_loop_unrecognized.
  - cbn in Hacc |- *. apply andb_true_iff in Hacc as [Hv Hacc].
    destruct (parse_arg_accepted v before Hv) as [after ->].
    now apply IH.
Qed.

(** The string of the spec's scenario 4. *)
Lemma parse_last_wins_example :
  ParseMakeFlagsValue
    (Some "--jobserver-auth=10,42 --jobserver-fds=12,44 --jobserver-auth=fifo:/tmp/fifo")
  = {| parse_ok := true;
       parse_config := {| mode := kModePosixFifo; read_fd := 12; write_fd := 44;
                          path := "/tmp/fifo" |};
       parse_error := None |}.
Proof. vm_compute. reflexivity. Qed.

(** C6, as stated, fails: in ["n --jobserver-auth=3,4"] the second word
    is a recognized option that selects descriptors 3 and 4, and the
    first is no option; yet the parser reports Mode None, because the
    first word trips the dry-run test. *)
Lemma C6_counterexample :
  split_args "n --jobserver-auth=3,4" = ["n"; "--jobserver-auth=3,4"]
  /\ recognized "n" = false
  /\ recognized "--jobserver-auth=3,4" = true
  /\ setting_of "--jobserver-auth=3,4"
     = Some {| mode := kModeFileDescriptors; read_fd := 3; write_fd := 4; path := "" |}
  /\ ParseMakeFlagsValue (Some "n --jobserver-auth=3,4")
     = {| parse_ok := true; parse_config := Config_default; parse_error := None |}
  /\ mode Config_default = kModeNone.
Proof. repeat split; vm_compute; reflexivity. Qed.

(** C6 (amended): for every input string on which the dry-run test does
    not fire and in which no [--jobserver-fds=] word is malformed, the
    parse succeeds; words that are no options are ignored; each
    recognized word overrides the mode and the mode's payload set by
    earlier words, so the last recognized word decides both; and the
    input of scenario 4 parses to Mode Fifo with path ["/tmp/fifo"]. *)
Theorem C6_last_recognized_wins (env : string) :
  is_dry_run (split_args env) = false ->
  forallb accepted (split_args env) = true ->
  parse_ok (ParseMakeFlagsValue (Some env)) = true
  /\ parse_error (ParseMakeFlagsValue (Some env)) = None
  /\ ParseMakeFlagsValue (Some env)
     = parse_loop (List.filter recognized (split_args env)) Config_default
  /\ (forall (w : string) (before : Config),
        recognized w = false -> parse_arg w before = inl before)
  /\ (forall (w : string) (before : Config),
        recognized w = true -> accepted w = true ->
        exists after alone,
          parse_arg w before = inl after
          /\ setting_of w = Some alone /\ same_setting after alone)
  /\ (forall (pre post : list string) (w : string),
        split_args env = pre ++ w :: post ->
        recognized w = true ->
        forallb (fun v => negb (recognized v)) post = true ->
        exists alone,
          setting_of w = Some alone
          /\ same_setting (parse_config (ParseMakeFlagsValue (Some env))) alone)
  /\ (forallb (fun v => negb (recognized v)) (split_args env) = true ->
      parse_config (ParseMakeFlagsValue (Some env)) = Config_default)
  /\ ParseMakeFlagsValue
       (Some "--jobserver-auth=10,42 --jobserver-fds=12,44 --jobserver-auth=fifo:/tmp/fifo")
     = {| parse_ok := true;
          parse_config := {| mode := kModePosixFifo; read_fd := 12; write_fd := 44;
                             path := "/tmp/fifo" |};
          parse_error := None |}.
Proof.
  intros Hdry Hacc.
  assert (E : ParseMakeFlagsValue (Some env) = parse_loop (split_args env) Config_default).
  { unfold ParseMakeFlagsValue. destruct env as [|c env]; [reflexivity|].
    now rewrite Hdry. }
  rewrite E.
  destruct (parse_loop_accepted _ Config_default Hacc) as [Hok Herr].
  split; [exact Hok|].
  split; [exact Herr|].
  split; [apply parse_loop_ignores|].
  split; [exact parse_arg_unrecognized|].
  split; [exact parse_arg_overrides|].
  split; [|split].
  - intros pre post w Hsplit Hrec Hpost. rewrite Hsplit in Hacc |- *.
    now apply parse_loop_last_wins.
  - intros Hnone. now rewrite parse_loop_unrecognized.
  - exact parse_last_wins_example.
Qed.

(** C6 on the string of scenario 4: its last recognized word is the
    third one. *)
Lemma C6_last_recognized_wins_witness :
  exists alone,
    setting_of "--jobserver-auth=fifo:/tmp/fifo" = Some alone
    /\ same_setting
         (parse_config
            (ParseMakeFlagsValue
               (Some "--jobserver-auth=10,42 --jobserver-fds=12,44 --jobserver-auth=fifo:/tmp/fifo")))
         alone.
Proof.
  destruct (C6_last_recognized_wins
              "--jobserver-auth=10,42 --jobserver-fds=12,44 --jobserver-auth=fifo:/tmp/fifo")
    as (_ & _ & _ & _ & _ & Hlast & _).
  - reflexivity.
  - reflexivity.
  - apply (Hlast ["--jobserver-auth=10,42"; "--jobserver-fds=12,44"] []
                 "--jobserver-auth=fifo:/tmp/fifo").
    + reflexivity.
    + reflexivity.
    + reflexivity.
Defined.

Lemma words_from_single (w : string) :
  w <> "" ->
  Str.all (fun c => negb (is_separator c)) w = true ->
  split_args w = [w].
Proof.
  intros Hne Hw. rewrite split_args_words.
  rewrite <- (Str_app_nil_r w) at 1.
  rewrite words_from_word by exact Hw. cbn.
  destruct w; [congruence|reflexivity].
Qed.

Lemma c_str_no_digit (t : string) :
  starts_with_digit t = false -> starts_with_digit (Str.c_str t) = false.
Proof.
  destruct t as [|c t]; [reflexivity|]. cbn.
  destruct (Ascii.eqb c "000"); [reflexivity|]. cbn. auto.
Qed.

Lemma digits_no_nul (d : string) :
  Str.all Libc.isdigit d = true ->
  Str.all (fun c => negb (Ascii.eqb c "000")) d = true.
Proof.
  apply Str_all_impl. intros c Hc.
  destruct (digit_not_separator c Hc) as (_ & -> & _). reflexivity.
Qed.

Lemma digits_no_separator (d : string) :
  Str.all Libc.isdigit d = true ->
  Str.all (fun c => negb (is_separator c)) d = true.
Proof.
  apply Str_all_impl. intros c Hc.
  destruct (digit_not_separator c Hc) as (-> & _). reflexivity.
Qed.

(** [GetFileDescriptorPair] on two runs of digits around a comma,
    whatever follows them. *)
Lemma GetFileDescriptorPair_leading_pair (d1 d2 t : string) (config : Config) :
  d1 <> "" -> Str.all Libc.isdigit d1 = true -> decimal_value d1 <= Libc.INT_MAX ->
  d2 <> "" -> Str.all Libc.isdigit d2 = true -> decimal_value d2 <= Libc.INT_MAX ->
  starts_with_digit t = false ->
  GetFileDescriptorPair (d1 +:+ "," +:+ d2 +:+ t) config
  = (true, {| mode := kModeFileDescriptors; read_fd := decimal_value d1;
              write_fd := decimal_value d2; path := path config |}).
Proof.
  intros H1 H2 H3 H4 H5 H6 H7. unfold GetFileDescriptorPair.
  rewrite Str_c_str_app by (apply digits_no_nul; exact H2).
  cbn [String.append Str.c_str Ascii.eqb Bool.eqb].
  rewrite Str_c_str_app by (apply digits_no_nul; exact H5).
  change (String "," (d2 +:+ Str.c_str t)) with ("," +:+ d2 +:+ Str.c_str t).
  rewrite sscanf_pair by (try assumption; now apply c_str_no_digit).
  cbn [Z.eqb Pos.eqb negb set_fds read_fd write_fd].
  pose proof (scan_digits_nonneg d1 0 ltac:(lia)) as P1.
  pose proof (scan_digits_nonneg d2 0 ltac:(lia)) as P2.
  fold (decimal_value d1) in P1. fold (decimal_value d2) in P2.
  destruct (Z.ltb_spec (decimal_value d1) 0); [lia|].
  destruct (Z.ltb_spec (decimal_value d2) 0); [lia|].
  reflexivity.
Qed.

(** C10: a [--jobserver-auth=] word whose value begins with two decimal
    integers (runs of digits that fit an [int]) separated by a comma is
    parsed as a descriptor pair, whatever characters of the word follow
    the second run: Mode FileDescriptors, the descriptors read from the
    two runs, and never a Win32 semaphore. *)
Theorem C10_trailing_characters_ignored (d1 d2 t : string) :
  d1 <> "" -> Str.all Libc.isdigit d1 = true -> decimal_value d1 <= Libc.INT_MAX ->
  d2 <> "" -> Str.all Libc.isdigit d2 = true -> decimal_value d2 <= Libc.INT_MAX ->
  starts_with_digit t = false ->
  Str.all (fun c => negb (is_separator c)) t = true ->
  ParseMakeFlagsValue (Some ("--jobserver-auth=" +:+ d1 +:+ "," +:+ d2 +:+ t))
  = {| parse_ok := true;
       parse_config := {| mode := kModeFileDescriptors;
                          read_fd := decimal_value d1;
                          write_fd := decimal_value d2;
                          path := "" |};
       parse_error := None |}.
Proof.
  intros H1 H2 H3 H4 H5 H6 H7 H8.
  set (value := d1 +:+ "," +:+ d2 +:+ t).
  assert (Hword : split_args ("--jobserver-auth=" +:+ value)
                  = ["--jobserver-auth=" +:+ value]).
  { apply words_from_single; [discriminate|].
    unfold value. rewrite !Str_all_app.
    rewrite (digits_no_separator d1 H2), (digits_no_separator d2 H5), H8.
    reflexivity. }
  unfold ParseMakeFlagsValue.
  change ("--jobserver-auth=" +:+ value)
    with (String "-" ("-jobserver-auth=" +:+ value)) at 1.
  cbv iota.
  change (String "-" ("-jobserver-auth=" +:+ value))
    with ("--jobserver-auth=" +:+ value).
  rewrite Hword.
  change (is_dry_run ["--jobserver-auth=" +:+ value]) with false. cbv iota.
  cbn [parse_loop]. unfold parse_arg.
  rewrite GetPrefixedValue_app. unfold value.
  rewrite GetFileDescriptorPair_leading_pair by assumption.
  reflexivity.
Qed.

(** C10 on the word of the claim: ["3,4abc"]. *)
Lemma C10_trailing_characters_ignored_witness :
  ParseMakeFlagsValue (Some "--jobserver-auth=3,4abc")
  = {| parse_ok := true;
       parse_config := {| mode := kModeFileDescriptors; read_fd := 3;
                          write_fd := 4; path := "" |};
       parse_error := None |}.
Proof.
  apply (C10_trailing_characters_ignored "3" "4" "abc").
  - discriminate.
  - reflexivity.
  - vm_compute. discriminate.
  - discriminate.
  - reflexivity.
  - vm_compute. discriminate.
  - reflexivity.
  - reflexivity.
Defined.

End ParserFacts.

(** ** The POSIX jobserver client *)

Section ClientFacts.

Import Posix Jobserver JobserverPosix.

(** Only the environment interrupts a [read]: it then consumes one
    [Fail EINTR] entry of the tape and stores no byte. *)
Lemma sys_read_interrupted (k k' : Kernel) (fd : Z) (b byte : ascii) (ret : option Z) :
  sys_read k fd b = (ret, byte, k') ->
  read_interrupted ret k' = true ->
  tape k = Fail EINTR :: tape k' /\ byte = b.
Proof.
  unfold sys_read, next_fault, read_interrupted, interrupted.
  destruct (tape k) as [|f t] eqn:Ht.
  - destruct (resolve k fd) as [[[d file] ino]|];
      repeat (case_match; simplify_eq); cbn; intros ?; simplify_eq;
      cbn; intros; discriminate.
  - destruct f as [|e|].
    + destruct (resolve (set_tape t k) fd) as [[[d file] ino]|];
        repeat (case_match; simplify_eq); cbn; intros ?; simplify_eq;
        cbn; intros; discriminate.
    + cbn. intros H. simplify_eq. cbn.
      destruct e; cbn; intros; try discriminate. split; reflexivity.
    + cbn. intros H. simplify_eq. cbn. intros; discriminate.
Qed.

Lemma sys_write_interrupted (k k' : Kernel) (fd : Z) (b : ascii) (ret : Z) :
  sys_write k fd b = (ret, k') ->
  interrupted ret k' = true ->
  tape k = Fail EINTR :: tape k'.
Proof.
  unfold sys_write, next_fault, interrupted.
  destruct (tape k) as [|f t] eqn:Ht.
  - destruct (resolve k fd) as [[[d file] ino]|];
      repeat (case_match; simplify_eq); cbn; intros ?; simplify_eq;
      cbn; intros; discriminate.
  - destruct f as [|e|].
    + destruct (resolve (set_tape t k) fd) as [[[d file] ino]|];
        repeat (case_match; simplify_eq); cbn; intros ?; simplify_eq;
        cbn; intros; discriminate.
    + cbn. intros H. simplify_eq. cbn.
      destruct e; cbn; intros; try discriminate. reflexivity.
    + cbn. intros H. simplify_eq. cbn. intros; discriminate.
Qed.

(** The retry loop of [TryAcquire]: some number [n] of interrupted
    reads, then one read that is not interrupted, whose outcome the loop
    returns. *)
Lemma read_retry_spec (fuel : nat) (fd : Z) (k : Kernel) :
  (length (tape k) <= fuel)%nat ->
  exists n : nat,
    (forall i, (i < n)%nat ->
       read_interrupted (fst (fst (sys_read (after_reads i fd k) fd "000")))
                        (snd (sys_read (after_reads i fd k) fd "000")) = true)
    /\ read_interrupted (fst (fst (sys_read (after_reads n fd k) fd "000")))
                        (snd (sys_read (after_reads n fd k) fd "000")) = false
    /\ read_retry fuel fd "000" k = sys_read (after_reads n fd k) fd "000".
Proof.
  revert k. induction fuel as [|fuel IH]; intros k Hfuel.
  - exists 0%nat. cbn [after_reads read_retry].
    destruct (sys_read k fd "000") as [[ret byte] k'] eqn:E. cbn [fst snd].
    assert (Hni : read_interrupted ret k' = false).
    { destruct (read_interrupted ret k') eqn:Hi; [|reflexivity].
      destruct (sys_read_interrupted _ _ _ _ _ _ E Hi) as [Ht _].
      rewrite Ht in Hfuel. cbn in Hfuel. lia. }
    split; [intros i Hi; lia|]. split; [exact Hni|].
    destruct ret; reflexivity.
  - cbn [read_retry].
    destruct (sys_read k fd "000") as [[ret byte] k'] eqn:E.
    destruct (read_interrupted ret k') eqn:Hi.
    + destruct (sys_read_interrupted _ _ _ _ _ _ E Hi) as [Ht ->].
      destruct (IH k') as (n & Hbefore & Hlast & Hres).
      { rewrite Ht in Hfuel. cbn in Hfuel. lia. }
      exists (S n). cbn [after_reads]. rewrite E. cbn [snd].
      split; [|split; [exact Hlast|]].
      * intros [|i] Hlt; cbn [after_reads].
        -- rewrite E. exact Hi.
        -- rewrite E. cbn [snd]. apply Hbefore. lia.
      * destruct ret as [r|]; [|discriminate]. cbn in Hi. unfold interrupted in Hi.
        rewrite Hi. exact Hres.
    + exists 0%nat. cbn [after_reads]. rewrite E. cbn [fst snd].
      split; [intros i Hlt; lia|]. split; [exact Hi|].
      destruct ret as [r|]; [|reflexivity]. cbn in Hi. unfold interrupted in Hi.
      now rewrite Hi.
Qed.

Lemma write_retry_spec (fuel : nat) (fd : Z) (b : ascii) (k : Kernel) :
  (length (tape k) <= fuel)%nat ->
  exists n : nat,
    (forall i, (i < n)%nat ->
       interrupted (fst (sys_write (after_writes i fd b k) fd b))
                   (snd (sys_write (after_writes i fd b k) fd b)) = true)
    /\ interrupted (fst (sys_write (after_writes n fd b k) fd b))
                   (snd (sys_write (after_writes n fd b k) fd b)) = false
    /\ write_retry fuel fd b k = sys_write (after_writes n fd b k) fd b.
Proof.
  revert k. induction fuel as [|fuel IH]; intros k Hfuel.
  - exists 0%nat. cbn [after_writes write_retry].
    destruct (sys_write k fd b) as [ret k'] eqn:E. cbn [fst snd].
    assert (Hni : interrupted ret k' = false).
    { destruct (interrupted ret k') eqn:Hi; [|reflexivity].
      pose proof (sys_write_interrupted _ _ _ _ _ E Hi) as Ht.
      rewrite Ht in Hfuel. cbn in Hfuel. lia. }
    split; [intros i Hi; lia|]. split; [exact Hni|reflexivity].
  - cbn [write_retry].
    destruct (sys_write k fd b) as [ret k'] eqn:E.
    destruct (interrupted ret k') eqn:Hi.
    + pose proof (sys_write_interrupted _ _ _ _ _ E Hi) as Ht.
      destruct (IH k') as (n & Hbefore & Hlast & Hres).
      { rewrite Ht in Hfuel. cbn in Hfuel. lia. }
      exists (S n). cbn [after_writes]. rewrite E. cbn [snd].
      split; [|split; [exact Hlast|]].
      * intros [|i] Hlt; cbn [after_writes].
        -- rewrite E. exact Hi.
        -- rewrite E. cbn [snd]. apply Hbefore. lia.
      * unfold interrupted in Hi. rewrite Hi. exact Hres.
    + exists 0%nat. cbn [after_writes]. rewrite E. cbn [fst snd].
      split; [intros i Hlt; lia|]. split; [exact Hi|].
      unfold interrupted in Hi. now rewrite Hi.
Qed.

(** What a [read] or a [write] leaves alone: the descriptor table, the
    open file descriptions, the names, and which inodes exist. *)
Lemma sys_read_frame (k : Kernel) (fd : Z) (b : ascii) :
  fds (snd (sys_read k fd b)) = fds k
  /\ files (snd (sys_read k fd b)) = files k
  /\ names (snd (sys_read k fd b)) = names k
  /\ length (inodes (snd (sys_read k fd b))) = length (inodes k).
Proof.
  unfold sys_read, next_fault.
  destruct (tape k) as [|f t]; [|destruct f as [|e|]]; cbn;
    try (repeat split; reflexivity).
  - destruct (resolve k fd) as [[[d file] ino]|];
      repeat (case_match; simplify_eq); cbn; repeat split;
      try reflexivity; apply length_insert.
  - destruct (resolve (set_tape t k) fd) as [[[d file] ino]|];
      repeat (case_match; simplify_eq); cbn; repeat split;
      try reflexivity; apply length_insert.
Qed.

Lemma sys_write_frame (k : Kernel) (fd : Z) (b : ascii) :
  fds (snd (sys_write k fd b)) = fds k
  /\ files (snd (sys_write k fd b)) = files k
  /\ names (snd (sys_write k fd b)) = names k
  /\ length (inodes (snd (sys_write k fd b))) = length (inodes k).
Proof.
  unfold sys_write, next_fault.
  destruct (tape k) as [|f t]; [|destruct f as [|e|]]; cbn;
    try (repeat split; reflexivity).
  - destruct (resolve k fd) as [[[d file] ino]|];
      repeat (case_match; simplify_eq); cbn; repeat split;
      try reflexivity; apply length_insert.
  - destruct (resolve (set_tape t k) fd) as [[[d file] ino]|];
      repeat (case_match; simplify_eq); cbn; repeat split;
      try reflexivity; apply length_insert.
Qed.

Lemma never_blocks_frame (k k' : Kernel) (fd : Z) :
  fds k' = fds k -> files k' = files k ->
  length (inodes k') = length (inodes k) ->
  never_blocks k' fd = never_blocks k fd.
Proof.
  intros Hfds Hfiles Hlen. unfold never_blocks, resolve, descriptor.
  rewrite Hfds, Hfiles.
  destruct (fd <? 0); [reflexivity|].
  destruct (fds k !! Z.to_nat fd) as [[d|]|]; try reflexivity.
  destruct (files k !! d_file d) as [file|]; [|reflexivity].
  destruct (inodes k !! o_inode file) as [i|] eqn:E.
  - apply lookup_lt_Some in E. rewrite <- Hlen in E.
    apply lookup_lt_is_Some_2 in E as [i' ->]. reflexivity.
  - apply lookup_ge_None in E. rewrite <- Hlen in E.
    apply lookup_ge_None in E. now rewrite E.
Qed.

Lemma sys_read_returns (k : Kernel) (fd : Z) (b : ascii) :
  never_blocks k fd = true ->
  exists r, fst (fst (sys_read k fd b)) = Some r.
Proof.
  unfold never_blocks, sys_read, next_fault.
  destruct (tape k) as [|f t]; [|destruct f as [|e|]]; cbn; eauto.
  - destruct (resolve k fd) as [[[d file] ino]|]; cbn; eauto.
    intros H. repeat (case_match; simplify_eq); cbn; eauto; congruence.
  - change (resolve (set_tape t k) fd) with (resolve k fd).
    destruct (resolve k fd) as [[[d file] ino]|]; cbn; eauto.
    intros H. repeat (case_match; simplify_eq); cbn; eauto; congruence.
Qed.

Lemma after_reads_never_blocks (n : nat) (fd fd' : Z) (k : Kernel) :
  never_blocks (after_reads n fd k) fd' = never_blocks k fd'.
Proof.
  revert k. induction n as [|n IH]; intros k; cbn [after_reads]; [reflexivity|].
  rewrite IH.
  destruct (sys_read_frame k fd "000") as (H1 & H2 & _ & H3).
  now apply never_blocks_frame.
Qed.

(** C7: [TryAcquire].  A client that holds its implicit slot gives it
    out and touches nothing of the kernel (no call is made).  Otherwise
    the call reads one byte from the read descriptor, again for as long
    as the read is interrupted ([-1] with [EINTR]), and makes its slot of
    the first read that is not: [Explicit] of the byte when that read
    returned 1, [Invalid] when it returned anything else (0, or [-1] with
    [EAGAIN] or another error); the client is unchanged.  On a descriptor
    with [O_NONBLOCK] every such read returns, and so does the call. *)
Theorem C7_TryAcquire (c : Client) (k : Kernel) :
  (has_implicit_slot_ c = true ->
   TryAcquire c k
   = (Some Implicit,
      {| has_implicit_slot_ := false; read_fd_ := read_fd_ c;
         write_fd_ := write_fd_ c |},
      k))
  /\ (has_implicit_slot_ c = false ->
      exists n : nat,
        (forall i, (i < n)%nat ->
           let r := sys_read (after_reads i (read_fd_ c) k) (read_fd_ c) "000" in
           read_interrupted (fst (fst r)) (snd r) = true)
        /\ (let r := sys_read (after_reads n (read_fd_ c) k) (read_fd_ c) "000" in
            read_interrupted (fst (fst r)) (snd r) = false
            /\ TryAcquire c k
               = (slot_of_read (fst (fst r)) (snd (fst r)), c, snd r)))
  /\ (never_blocks k (read_fd_ c) = true ->
      exists s, fst (fst (TryAcquire c k)) = Some s).
Proof.
  split; [|split].
  - intros H. unfold TryAcquire. now rewrite H.
  - intros H. unfold TryAcquire. rewrite H.
    destruct (read_retry_spec (length (tape k)) (read_fd_ c) k (Nat.le_refl _))
      as (n & Hbefore & Hlast & Hres).
    exists n. split; [exact Hbefore|]. cbn zeta. split; [exact Hlast|].
    rewrite Hres.
    destruct (sys_read (after_reads n (read_fd_ c) k) (read_fd_ c) "000")
      as [[ret byte] k'].
    cbn [fst snd]. destruct ret as [r|]; [|reflexivity].
    cbn. destruct (r =? 1); reflexivity.
  - intros Hnb. unfold TryAcquire.
    destruct (has_implicit_slot_ c); [cbn; eauto|].
    destruct (read_retry_spec (length (tape k)) (read_fd_ c) k (Nat.le_refl _))
      as (n & _ & _ & Hres).
    rewrite Hres.
    destruct (sys_read_returns (after_reads n (read_fd_ c) k) (read_fd_ c) "000")
      as [r Hr].
    { now rewrite after_reads_never_blocks. }
    destruct (sys_read (after_reads n (read_fd_ c) k) (read_fd_ c) "000")
      as [[ret byte] k'].
    cbn [fst] in Hr. subst ret. destruct (r =? 1); cbn; eauto.
Qed.

(** C7 on a FIFO holding one token: with the implicit slot in hand no
    call is made; without it, and with the first read interrupted, the
    call returns the token. *)
Lemma C7_TryAcquire_witness :
  TryAcquire (sample_client true) (sample_kernel ["+"%char] [Fail EINTR])
  = (Some Implicit, sample_client false, sample_kernel ["+"%char] [Fail EINTR])
  /\ (exists s, fst (fst (TryAcquire (sample_client false)
                            (sample_kernel ["+"%char] [Fail EINTR]))) = Some s)
  /\ fst (fst (TryAcquire (sample_client false)
                 (sample_kernel ["+"%char] [Fail EINTR])))
     = Some (Explicit "+").
Proof.
  split; [|split].
  - apply (C7_TryAcquire (sample_client true)
             (sample_kernel ["+"%char] [Fail EINTR])).
    reflexivity.
  - apply (C7_TryAcquire (sample_client false)
             (sample_kernel ["+"%char] [Fail EINTR])).
    reflexivity.
  - reflexivity.
Defined.

Lemma take_out_count (s : Slot) (held held' : list Slot) :
  take_out s held = Some held' ->
  implicit_count held
  = (implicit_count held' + if IsImplicit s then 1 else 0)%nat.
Proof.
  unfold implicit_count. revert held'.
  induction held as [|h held IH]; intros held'; cbn; [discriminate|].
  case_decide as Hd.
  - intros [= <-]. subst h. destruct (IsImplicit s); cbn; lia.
  - destruct (take_out s held) as [rest|]; [|discriminate].
    intros [= <-]. specialize (IH rest eq_refl).
    cbn. destruct (IsImplicit h); cbn; lia.
Qed.

(** Implicit-slot uniqueness: the implicit slot is either with the
    client or with the caller, never both and never twice. *)
Lemma client_run_invariant (ops : list ClientOp) (c : Client) (k : Kernel)
  (held : list Slot) :
  (implicit_count held + if has_implicit_slot_ c then 1 else 0)%nat = 1%nat ->
  match client_run ops c k held with
  | Finished c' k' held' =>
      (implicit_count held' + if has_implicit_slot_ c' then 1 else 0)%nat = 1%nat
  | AssertFailed => False
  | _ => True
  end.
Proof.
  revert c k held. induction ops as [|op ops IH]; intros c k held Hinv.
  - exact Hinv.
  - destruct op as [|s]; cbn [client_run].
    + destruct (TryAcquire c k) as [[slot c'] k'] eqn:E.
      destruct slot as [slot|]; [|exact I].
      apply IH. unfold TryAcquire in E.
      destruct (has_implicit_slot_ c) eqn:Hi.
      * simplify_eq. cbn in Hinv |- *. unfold implicit_count in *. cbn. lia.
      * destruct (read_retry _ _ _ _) as [[ret byte] k1].
        destruct ret as [r|]; [|discriminate].
        destruct (r =? 1); simplify_eq; rewrite Hi;
          unfold implicit_count in *; cbn; exact Hinv.
    + destruct (take_out s held) as [held'|] eqn:Ht; [|exact I].
      pose proof (take_out_count _ _ _ Ht) as Hc.
      destruct s as [| |b]; cbn [Release IsImplicit] in *.
      * apply IH. lia.
      * destruct (has_implicit_slot_ c) eqn:Hi; [lia|].
        apply IH. cbn. lia.
      * destruct (write_retry _ _ _ _) as [ret k1]. apply IH. lia.
Qed.

(** C8: [Release].  An Invalid slot: nothing happens.  An Implicit
    slot: the client takes it back, without a call to the kernel; the
    [assert] fails when the client holds its implicit slot already.  An
    [Explicit b] slot: [b] is written to the write descriptor, again for
    as long as the write is interrupted; whatever the first
    uninterrupted write returns, the call returns normally and the client
    is as before.  And a caller that releases only slots it holds never
    trips the [assert]: at every instant the implicit slot is held once,
    by the client or by the caller. *)
Theorem C8_Release :
  (forall (c : Client) (k : Kernel), Release Invalid c k = Some (c, k))
  /\ (forall (c : Client) (k : Kernel),
        has_implicit_slot_ c = false ->
        Release Implicit c k
        = Some ({| has_implicit_slot_ := true; read_fd_ := read_fd_ c;
                   write_fd_ := write_fd_ c |}, k))
  /\ (forall (c : Client) (k : Kernel),
        has_implicit_slot_ c = true -> Release Implicit c k = None)
  /\ (forall (c : Client) (k : Kernel) (b : ascii),
        exists n : nat,
          (forall i, (i < n)%nat ->
             let r := sys_write (after_writes i (write_fd_ c) b k) (write_fd_ c) b in
             interrupted (fst r) (snd r) = true)
          /\ (let r := sys_write (after_writes n (write_fd_ c) b k) (write_fd_ c) b in
              interrupted (fst r) (snd r) = false
              /\ Release (Explicit b) c k = Some (c, snd r)))
  /\ (forall (ops : list ClientOp) (c : Client) (k : Kernel),
        has_implicit_slot_ c = true ->
        match client_run ops c k [] with
        | Finished c' k' held' =>
            (implicit_count held' + if has_implicit_slot_ c' then 1 else 0)%nat
            = 1%nat
        | AssertFailed => False
        | _ => True
        end).
Proof.
  split; [reflexivity|].
  split; [intros c k H; cbn; now rewrite H|].
  split; [intros c k H; cbn; now rewrite H|].
  split.
  - intros c k b. cbn [Release].
    destruct (write_retry_spec (length (tape k)) (write_fd_ c) b k (Nat.le_refl _))
      as (n & Hbefore & Hlast & Hres).
    exists n. split; [exact Hbefore|]. cbn zeta. split; [exact Hlast|].
    rewrite Hres. now destruct (sys_write _ _ _).
  - intros ops c k H. apply client_run_invariant. rewrite H. reflexivity.
Qed.

(** C8 on the sample client: the implicit slot goes out and comes back,
    a second release of it fails the [assert], and a run that acquires
    twice and releases both slots ends with the client holding its
    implicit slot again. *)
Lemma C8_Release_witness :
  Release Implicit (sample_client false) (sample_kernel [] [])
  = Some (sample_client true, sample_kernel [] [])
  /\ Release Implicit (sample_client true) (sample_kernel [] []) = None
  /\ match client_run [DoTryAcquire; DoTryAcquire; DoRelease (Explicit "+");
                       DoRelease Implicit]
                      (sample_client true) (sample_kernel ["+"%char] []) [] with
     | Finished c' k' held' =>
         (implicit_count held' + if has_implicit_slot_ c' then 1 else 0)%nat
         = 1%nat
     | AssertFailed => False
     | _ => True
     end.
Proof.
  destruct C8_Release as (_ & Hback & Htwice & _ & Hrun).
  split; [|split].
  - apply (Hback (sample_client false) (sample_kernel [] [])). reflexivity.
  - apply (Htwice (sample_client true) (sample_kernel [] [])). reflexivity.
  - apply (Hrun [DoTryAcquire; DoTryAcquire; DoRelease (Explicit "+");
                 DoRelease Implicit]
                (sample_client true) (sample_kernel ["+"%char] [])).
    reflexivity.
Defined.

End ClientFacts.

(** ** The descriptor table and the calls on it *)

Section KernelFacts.

Import Posix.

Lemma lowest_free_bound (t : list (option Descriptor)) :
  (lowest_free t <= length t)%nat.
Proof. induction t as [|[d|] t IH]; cbn; lia. Qed.

Lemma lowest_free_is_free (t : list (option Descriptor)) (d : Descriptor) :
  t !! lowest_free t <> Some (Some d).
Proof.
  induction t as [|[d0|] t IH]; cbn.
  - discriminate.
  - exact IH.
  - intros [=].
Qed.

Lemma descriptor_Some (k : Kernel) (fd : Z) (d : Descriptor) :
  descriptor k fd = Some d <->
  0 <= fd /\ fds k !! Z.to_nat fd = Some (Some d).
Proof.
  unfold descriptor. destruct (Z.ltb_spec fd 0).
  - split; [discriminate|lia].
  - destruct (fds k !! Z.to_nat fd) as [[d0|]|]; split;
      try (intros [= <-]; split; [lia|reflexivity]);
      try (intros [_ [= <-]]; reflexivity);
      try discriminate; intros [_ ?]; discriminate.
Qed.

Lemma install_fst (d : Descriptor) (k : Kernel) :
  fst (install d k) = Z.of_nat (lowest_free (fds k)).
Proof. reflexivity. Qed.

Lemma install_range (d : Descriptor) (k : Kernel) :
  0 <= fst (install d k) <= Z.of_nat (length (fds k)).
Proof. rewrite install_fst. pose proof (lowest_free_bound (fds k)). lia. Qed.

Lemma install_lookup_new (d : Descriptor) (k : Kernel) :
  fds (snd (install d k)) !! lowest_free (fds k) = Some (Some d).
Proof.
  unfold install. cbn [snd]. unfold set_fds. cbn [fds].
  pose proof (lowest_free_bound (fds k)) as Hb.
  destruct (Nat.ltb_spec (lowest_free (fds k)) (length (fds k))) as [Hlt|Hge].
  - now apply list_lookup_insert_eq.
  - assert (E : lowest_free (fds k) = length (fds k)) by lia.
    rewrite E. apply list_lookup_middle. reflexivity.
Qed.

Lemma install_lookup_old (d : Descriptor) (k : Kernel) (i : nat) :
  i <> lowest_free (fds k) ->
  (i < length (fds k))%nat ->
  fds (snd (install d k)) !! i = fds k !! i.
Proof.
  intros Hne Hlt. unfold install. cbn [snd]. unfold set_fds. cbn [fds].
  destruct (Nat.ltb_spec (lowest_free (fds k)) (length (fds k))).
  - now apply list_lookup_insert_ne.
  - now apply lookup_app_l.
Qed.

Lemma descriptor_install_new (d : Descriptor) (k : Kernel) :
  descriptor (snd (install d k)) (fst (install d k)) = Some d.
Proof.
  apply descriptor_Some. rewrite install_fst, Nat2Z.id.
  split; [lia|apply install_lookup_new].
Qed.

Lemma descriptor_install_old (d d0 : Descriptor) (k : Kernel) (fd : Z) :
  descriptor k fd = Some d0 ->
  descriptor (snd (install d k)) fd = Some d0
  /\ fd <> fst (install d k).
Proof.
  intros [Hfd Hl]%descriptor_Some.
  assert (Hne : Z.to_nat fd <> lowest_free (fds k)).
  { intros E. rewrite E in Hl. now apply lowest_free_is_free in Hl. }
  split.
  - apply descriptor_Some. split; [exact Hfd|].
    rewrite install_lookup_old; [exact Hl|exact Hne|].
    now apply lookup_lt_Some in Hl.
  - rewrite install_fst. lia.
Qed.

Lemma install_length (d : Descriptor) (k : Kernel) :
  (length (fds (snd (install d k))) <= S (length (fds k)))%nat.
Proof.
  unfold install. cbn [snd]. unfold set_fds. cbn [fds].
  destruct (_ <? _)%nat; rewrite ?length_insert, ?length_app; cbn; lia.
Qed.

Lemma fd_at_install (d : Descriptor) (k : Kernel) (fd : Z) (j : nat) :
  fd_at k fd j -> fd_at (snd (install d k)) fd j.
Proof.
  intros [cl H]. exists cl. now apply descriptor_install_old.
Qed.

Lemma install_eq (d : Descriptor) (k : Kernel) :
  install d k = (fst (install d k), snd (install d k)).
Proof. now destruct (install d k). Qed.

Lemma resolve_spec (k : Kernel) (fd : Z) (d : Descriptor) (f : OpenFile) (i : Inode) :
  descriptor k fd = Some d ->
  files k !! d_file d = Some f ->
  inodes k !! o_inode f = Some i ->
  resolve k fd = Some (d, f, i).
Proof. unfold resolve. now intros -> -> ->. Qed.

Lemma fd_at_frame (k k' : Kernel) (fd : Z) (j : nat) :
  fds k' = fds k -> fd_at k fd j -> fd_at k' fd j.
Proof. unfold fd_at, descriptor. now intros ->. Qed.

Lemma file_at_frame (k k' : Kernel) (j ino : nat) (flags : Z) :
  files k' = files k -> file_at k j ino flags -> file_at k' j ino flags.
Proof. unfold file_at. now intros ->. Qed.

Lemma next_fault_normal (k : Kernel) :
  head_normal k -> next_fault k = (Normal, set_tape (tail (tape k)) k).
Proof.
  unfold head_normal, next_fault. destruct k as [i f d n t tr e env p]. cbn.
  destruct t as [|[| |] t]; try contradiction; reflexivity.
Qed.

(** [pipe()]: a new FIFO inode, its two ends on the two lowest free
    descriptors. *)
Lemma sys_pipe_spec (k : Kernel) :
  exists r w k1,
    sys_pipe k = (0, r, w, k1)
    /\ 0 <= r <= Z.of_nat (length (fds k))
    /\ 0 <= w <= Z.of_nat (length (fds k)) + 1
    /\ fd_at k1 r (length (files k))
    /\ fd_at k1 w (S (length (files k)))
    /\ files k1 = files k ++ [mkOpenFile (length (inodes k)) O_RDONLY;
                              mkOpenFile (length (inodes k)) O_WRONLY]
    /\ inodes k1 = inodes k ++ [mkInode S_IFIFO []]
    /\ names k1 = names k /\ tape k1 = tape k
    /\ env_TMPDIR k1 = env_TMPDIR k /\ pid k1 = pid k
    /\ (length (fds k1) <= length (fds k) + 2)%nat.
Proof.
  unfold sys_pipe.
  set (kA := set_files _ (set_inodes _ k)).
  set (d1 := mkDescriptor _ 0). set (d2 := mkDescriptor _ 0).
  rewrite (install_eq d1 kA).
  rewrite (install_eq d2 (snd (install d1 kA))).
  do 3 eexists. split; [reflexivity|].
  pose proof (install_range d1 kA) as R1.
  pose proof (install_range d2 (snd (install d1 kA))) as R2.
  pose proof (install_length d1 kA) as L1.
  pose proof (install_length d2 (snd (install d1 kA))) as L2.
  change (fds kA) with (fds k) in *.
  split; [exact R1|]. split; [lia|].
  split; [|split].
  - apply (fd_at_frame (snd (install d2 (snd (install d1 kA))))); [reflexivity|].
    apply fd_at_install. exists 0. apply descriptor_install_new.
  - apply (fd_at_frame (snd (install d2 (snd (install d1 kA))))); [reflexivity|].
    exists 0. apply descriptor_install_new.
  - repeat split; try reflexivity.
    change (length (fds (snd (install d2 (snd (install d1 kA))))) <= length (fds k) + 2)%nat.
    lia.
Qed.

(** A [write] that the environment lets through, on a writable
    descriptor of a FIFO: the byte is appended. *)
Lemma sys_write_fifo (k : Kernel) (fd : Z) (b : ascii) (j ino : nat) (flags : Z)
  (data : list ascii) :
  head_normal k ->
  fd_at k fd j -> file_at k j ino flags -> writable flags = true ->
  fifo_data k ino data ->
  exists k',
    sys_write k fd b = (1, k')
    /\ fds k' = fds k /\ files k' = files k /\ names k' = names k
    /\ tape k' = tail (tape k)
    /\ inodes k' = <[ino := mkInode S_IFIFO (data ++ [b])]> (inodes k)
    /\ env_TMPDIR k' = env_TMPDIR k /\ pid k' = pid k.
Proof.
  intros Hn [cl Hd] Hf Hw Hi. unfold sys_write.
  rewrite (next_fault_normal k Hn).
  change (resolve (set_tape (tail (tape k)) k) fd) with (resolve k fd).
  rewrite (resolve_spec _ fd _ _ _ Hd Hf Hi). cbn [o_flags o_inode i_kind i_data].
  rewrite Hw. cbn [negb].
  eexists. split; [reflexivity|]. repeat split; reflexivity.
Qed.

Lemma quiet_head (n : nat) (k : Kernel) : quiet (S n) k -> head_normal k.
Proof.
  unfold quiet, head_normal. destruct (tape k) as [|[| |] t]; cbn; try easy.
Qed.

Lemma quiet_tail (n : nat) (k k' : Kernel) :
  quiet (S n) k -> tape k' = tail (tape k) -> quiet n k'.
Proof.
  unfold quiet. intros H ->. destruct (tape k) as [|f t]; cbn in *.
  - now rewrite take_nil.
  - now apply andb_prop in H as [_ H].
Qed.

Lemma quiet_le (n m : nat) (k : Kernel) : (m <= n)%nat -> quiet n k -> quiet m k.
Proof.
  unfold quiet. revert m. generalize (tape k) as t.
  induction n as [|n IH]; intros t m Hle H.
  - now replace m with 0%nat by lia.
  - destruct m as [|m]; [reflexivity|]. destruct t as [|f t]; [reflexivity|].
    cbn in *. apply andb_prop in H as [-> H]. cbn. apply IH; [lia|exact H].
Qed.

Lemma drop_tail {A : Type} (n : nat) (l : list A) : drop n (tail l) = drop (S n) l.
Proof. destruct l; cbn; [now rewrite drop_nil|reflexivity]. Qed.

(** [open] of an existing name that the environment lets through. *)
Lemma sys_open_spec (k : Kernel) (path : string) (flags : Z) (ino : nat) :
  head_normal k ->
  names k !! path = Some ino ->
  exists fd k',
    sys_open k path flags = (fd, k')
    /\ 0 <= fd <= Z.of_nat (length (fds k))
    /\ fd_at k' fd (length (files k))
    /\ files k' = files k ++ [mkOpenFile ino (Z.land flags (Z.lor O_ACCMODE O_NONBLOCK))]
    /\ inodes k' = inodes k /\ names k' = names k
    /\ tape k' = tail (tape k)
    /\ (forall fd' j, fd_at k fd' j -> fd_at k' fd' j).
Proof.
  intros Hn Hname. unfold sys_open. rewrite (next_fault_normal k Hn).
  change (names (set_tape (tail (tape k)) k)) with (names k). rewrite Hname.
  cbv zeta.
  set (kA := set_files _ (set_tape _ k)).
  set (d := mkDescriptor _ _).
  rewrite (install_eq d kA).
  do 2 eexists. split; [reflexivity|].
  split; [exact (install_range d kA)|].
  split.
  - apply (fd_at_frame (snd (install d kA))); [reflexivity|].
    eexists. apply descriptor_install_new.
  - repeat split.
    intros fd' j H. apply (fd_at_frame (snd (install d kA))); [reflexivity|].
    apply fd_at_install. exact H.
Qed.

(** [dup]: the lowest free descriptor, on the same open file
    description, without [FD_CLOEXEC]. *)
Lemma sys_dup_spec (k : Kernel) (fd : Z) (j : nat) :
  fd_at k fd j ->
  exists n k',
    sys_dup k fd = (n, k')
    /\ 0 <= n <= Z.of_nat (length (fds k))
    /\ descriptor k' n = Some (mkDescriptor j 0)
    /\ files k' = files k /\ inodes k' = inodes k /\ names k' = names k
    /\ tape k' = tape k
    /\ (forall fd' j', fd_at k fd' j' -> fd_at k' fd' j').
Proof.
  intros [cl Hd]. unfold sys_dup. rewrite Hd. cbn [d_file].
  rewrite (install_eq (mkDescriptor j 0) k).
  do 2 eexists. split; [reflexivity|].
  split; [apply install_range|].
  split; [apply descriptor_install_new|].
  repeat split.
  intros fd' j' H. apply (fd_at_frame (snd (install (mkDescriptor j 0) k))); [reflexivity|].
  now apply fd_at_install.
Qed.

Lemma descriptor_set (k : Kernel) (fd fd' : Z) (d d0 : Descriptor) :
  descriptor k fd = Some d0 ->
  descriptor (set_fds (<[Z.to_nat fd := Some d]> (fds k)) k) fd'
  = if decide (fd' = fd) then Some d else descriptor k fd'.
Proof.
  intros [Hfd Hl]%descriptor_Some. unfold descriptor. cbn [set_fds fds].
  case_decide as E.
  - subst fd'. destruct (Z.ltb_spec fd 0) as [?|_]; [lia|].
    rewrite list_lookup_insert_eq; [reflexivity|now apply lookup_lt_Some in Hl].
  - destruct (Z.ltb_spec fd' 0) as [?|?]; [reflexivity|].
    rewrite list_lookup_insert_ne by lia. reflexivity.
Qed.

End KernelFacts.

(** ** Draining the pool through a client *)

Section DrainFacts.

Import Posix Jobserver JobserverPosix.

Lemma reads_from_frame (k k' : Kernel) (fd : Z) (ino : nat) :
  fds k' = fds k -> files k' = files k ->
  reads_from k fd ino -> reads_from k' fd ino.
Proof.
  intros Hfds Hfiles (j & flags & H1 & H2 & H3 & H4).
  exists j, flags. split; [now apply (fd_at_frame k)|].
  split; [now apply (file_at_frame k)|]. now split.
Qed.

(** One read that the environment lets through, on a non-blocking
    descriptor of a FIFO. *)
Lemma sys_read_fifo (k : Kernel) (fd : Z) (ino : nat) (data : list ascii) :
  head_normal k ->
  reads_from k fd ino -> fifo_data k ino data ->
  exists k',
    sys_read k fd "000"
    = (Some (match data with [] => -1 | _ => 1 end), hd "000"%char data, k')
    /\ fds k' = fds k /\ files k' = files k /\ names k' = names k
    /\ tape k' = tail (tape k)
    /\ fifo_data k' ino (tail data)
    /\ (data = [] -> errno k' = EAGAIN).
Proof.
  intros Hn (j & flags & [cl Hd] & Hf & Hr & Hnb) Hi. unfold sys_read.
  rewrite (next_fault_normal k Hn).
  change (resolve (set_tape (tail (tape k)) k) fd) with (resolve k fd).
  rewrite (resolve_spec _ fd _ _ _ Hd Hf Hi). cbn [o_flags o_inode i_kind i_data].
  rewrite Hr, Hnb. cbn [negb].
  destruct data as [|b rest].
  - eexists. split; [reflexivity|]. repeat split; try reflexivity. exact Hi.
  - eexists. split; [reflexivity|]. repeat split; try reflexivity; try discriminate.
    unfold fifo_data. cbn. apply list_lookup_insert_eq.
    now apply lookup_lt_Some in Hi.
Qed.

(** The read loop of [TryAcquire] when the environment does nothing
    worse than interrupting. *)
Lemma read_retry_benign (fuel : nat) (fd : Z) (ino : nat) (data : list ascii)
  (k : Kernel) :
  (length (tape k) <= fuel)%nat ->
  forallb benign (tape k) = true ->
  reads_from k fd ino -> fifo_data k ino data ->
  exists k',
    read_retry fuel fd "000" k
    = (Some (match data with [] => -1 | _ => 1 end), hd "000"%char data, k')
    /\ fds k' = fds k /\ files k' = files k /\ names k' = names k
    /\ forallb benign (tape k') = true
    /\ fifo_data k' ino (tail data).
Proof.
  revert k. induction fuel as [|fuel IH]; intros k Hlen Hb Hr Hi.
  - assert (Ht : tape k = []) by (destruct (tape k); [reflexivity|cbn in Hlen; lia]).
    assert (Hn : head_normal k) by (unfold head_normal; now rewrite Ht).
    destruct (sys_read_fifo k fd ino data Hn Hr Hi)
      as (k' & E & H1 & H2 & H3 & H4 & H5 & _).
    exists k'. cbn [read_retry]. rewrite E.
    repeat split; try assumption. now rewrite H4, Ht.
  - destruct (tape k) as [|f t] eqn:Ht; [|destruct f as [|e|]].
    + assert (Hn : head_normal k) by (unfold head_normal; now rewrite Ht).
      destruct (sys_read_fifo k fd ino data Hn Hr Hi)
        as (k' & E & H1 & H2 & H3 & H4 & H5 & H6).
      exists k'. cbn [read_retry]. rewrite E.
      assert (Hstop : ((match data with [] => -1 | _ => 1 end <? 0)
                       && bool_decide (errno k' = EINTR)) = false).
      { destruct data; [|reflexivity]. rewrite H6 by reflexivity. reflexivity. }
      rewrite Hstop. repeat split; try assumption. now rewrite H4, Ht.
    + assert (Hn : head_normal k) by (unfold head_normal; now rewrite Ht).
      destruct (sys_read_fifo k fd ino data Hn Hr Hi)
        as (k' & E & H1 & H2 & H3 & H4 & H5 & H6).
      exists k'. cbn [read_retry]. rewrite E.
      assert (Hstop : ((match data with [] => -1 | _ => 1 end <? 0)
                       && bool_decide (errno k' = EINTR)) = false).
      { destruct data; [|reflexivity]. rewrite H6 by reflexivity. reflexivity. }
      rewrite Hstop. repeat split; try assumption.
      rewrite H4, Ht. cbn. cbn in Hb. exact Hb.
    + cbn in Hb. apply andb_prop in Hb as [He Hb].
      destruct e; try discriminate.
      set (k1 := log (EvRead fd (Some (-1))) (fail EINTR (set_tape t k))).
      assert (E : sys_read k fd "000" = (Some (-1), "000"%char, k1)).
      { unfold sys_read, next_fault. rewrite Ht. reflexivity. }
      destruct (IH k1) as (k' & E' & H1 & H2 & H3 & H4 & H5).
      * cbn in Hlen |- *. lia.
      * exact Hb.
      * now apply (reads_from_frame k).
      * exact Hi.
      * exists k'. cbn [read_retry]. rewrite E.
        change ((-1 <? 0) && bool_decide (errno k1 = EINTR)) with true.
        cbn match. rewrite E'. repeat split; assumption.
    + cbn in Hb. discriminate.
Qed.

(** [TryAcquire] of a client without its implicit slot. *)
Lemma TryAcquire_fifo (c : Client) (ino : nat) (data : list ascii) (k : Kernel) :
  has_implicit_slot_ c = false ->
  forallb benign (tape k) = true ->
  reads_from k (read_fd_ c) ino -> fifo_data k ino data ->
  exists k',
    TryAcquire c k
    = (Some (match data with [] => Invalid | b :: _ => Explicit b end), c, k')
    /\ forallb benign (tape k') = true
    /\ reads_from k' (read_fd_ c) ino
    /\ fifo_data k' ino (tail data).
Proof.
  intros Hc Hb Hr Hi. unfold TryAcquire. rewrite Hc.
  destruct (read_retry_benign (length (tape k)) (read_fd_ c) ino data k
              (le_n _) Hb Hr Hi) as (k' & E & H1 & H2 & H3 & H4 & H5).
  exists k'. rewrite E. split.
  - destruct data; reflexivity.
  - split; [exact H4|]. split; [|exact H5]. now apply (reads_from_frame k).
Qed.

(** Acquiring more often than there are tokens: every token comes out
    once, in the order written, then only invalid slots. *)
Lemma acquire_many_drain (data : list ascii) (m : nat) (c : Client) (ino : nat)
  (k : Kernel) :
  has_implicit_slot_ c = false ->
  forallb benign (tape k) = true ->
  reads_from k (read_fd_ c) ino -> fifo_data k ino data ->
  exists k',
    acquire_many (length data + m) c k
    = (map (fun b => Some (Explicit b)) data ++ replicate m (Some Invalid), c, k')
    /\ fifo_data k' ino [].
Proof.
  intros Hc. revert k. induction data as [|b data IH]; intros k Hb Hr Hi.
  - cbn [length Nat.add map app]. revert k Hb Hr Hi.
    induction m as [|m IHm]; intros k Hb Hr Hi.
    + exists k. now split.
    + destruct (TryAcquire_fifo c ino [] k Hc Hb Hr Hi) as (k1 & E & Hb1 & Hr1 & Hi1).
      destruct (IHm k1 Hb1 Hr1 Hi1) as (k' & E' & Hi').
      exists k'. cbn [acquire_many replicate]. rewrite E, E'. now split.
  - destruct (TryAcquire_fifo c ino (b :: data) k Hc Hb Hr Hi)
      as (k1 & E & Hb1 & Hr1 & Hi1).
    destruct (IH k1 Hb1 Hr1 Hi1) as (k' & E' & Hi').
    exists k'. cbn [length Nat.add acquire_many map app]. rewrite E, E'. now split.
Qed.

End DrainFacts.

(** ** The string a pool hands to its children *)

Section EnvFacts.

Import Posix Jobserver JobserverPosix.

Lemma Str_take_all (n : nat) (s : string) :
  (String.length s <= n)%nat -> Str.take n s = s.
Proof.
  revert n. induction s as [|c s IH]; intros [|n] H; cbn in *;
    try reflexivity; try lia.
  now rewrite IH by lia.
Qed.

Lemma overwrite_length (src dst : string) :
  String.length (overwrite src dst) = String.length dst.
Proof.
  revert dst. induction src as [|c src IH]; intros [|d dst]; cbn; try reflexivity.
  now rewrite IH.
Qed.

Lemma take_overwrite (text s buf : string) :
  (String.length text <= String.length buf)%nat ->
  Str.take (String.length text) (overwrite (text +:+ s) buf) = text.
Proof.
  revert buf. induction text as [|c text IH]; intros buf H.
  - reflexivity.
  - destruct buf as [|d buf]; cbn in H; [lia|].
    cbn. now rewrite IH by lia.
Qed.

Lemma resize_length (n : nat) (s : string) : String.length (resize n s) = n.
Proof.
  unfold resize. rewrite Str_length_app, Str_length_fill.
  assert (H : (String.length (Str.take n s) <= n)%nat
               /\ (String.length s <= n -> String.length (Str.take n s) = String.length s)%nat
               /\ (n <= String.length s -> String.length (Str.take n s) = n)%nat).
  { revert s. induction n as [|n IH]; intros s.
    - cbn. lia.
    - destruct s as [|c s]; cbn; [lia|]. specialize (IH s). lia. }
  lia.
Qed.

(** [snprintf] into a buffer with room for the text and its NUL, then
    [resize] to the value returned: the text. *)
Lemma snprintf_fits (buf text : string) :
  (String.length text < String.length buf)%nat ->
  exists out,
    snprintf buf text = (Z.of_nat (String.length text), out)
    /\ String.length out = String.length buf
    /\ resize (String.length text) out = text.
Proof.
  intros H. unfold snprintf.
  destruct (Nat.eqb_spec (String.length buf) 0) as [E|_]; [lia|].
  rewrite Str_take_all by lia.
  eexists. split; [reflexivity|]. split; [apply overwrite_length|].
  unfold resize. rewrite take_overwrite by lia.
  rewrite overwrite_length.
  replace (String.length text - String.length buf)%nat with 0%nat by lia.
  apply Str_app_nil_r.
Qed.

Lemma dec_length_int (n : Z) :
  0 <= n <= Libc.INT_MAX -> (String.length (Libc.dec n) <= 10)%nat.
Proof.
  intros H. rewrite dec_nonneg by lia.
  apply dec_unsigned_length; [lia|]. unfold Libc.INT_MAX in H. lia.
Qed.

(** What a pool on a pipe advertises. *)
Lemma GetEnvMakeFlagsValue_pipe (N r w : Z) :
  0 <= N < 2 ^ 64 -> 0 <= r <= Libc.INT_MAX -> 0 <= w <= Libc.INT_MAX ->
  GetEnvMakeFlagsValue
    {| job_count_ := N; pool_read_fd_ := r; pool_write_fd_ := w; fifo_ := "" |}
  = Some (" -j" +:+ Libc.dec_unsigned N
          +:+ " --jobserver-fds=" +:+ Libc.dec r +:+ "," +:+ Libc.dec w
          +:+ " --jobserver-auth=" +:+ Libc.dec r +:+ "," +:+ Libc.dec w).
Proof.
  intros HN Hr Hw. unfold GetEnvMakeFlagsValue.
  cbn [fifo_ Str.is_empty negb pool_read_fd_ pool_write_fd_ job_count_].
  destruct (Z.geb_spec r 0) as [_|?]; [|lia].
  destruct (Z.geb_spec w 0) as [_|?]; [|lia].
  cbn [andb].
  set (text := " -j" +:+ _).
  assert (Hlen : (String.length text < String.length (resize 256 ""))%nat).
  { rewrite resize_length. subst text.
    pose proof (dec_unsigned_length N 20 ltac:(lia) ltac:(lia)).
    pose proof (dec_length_int r Hr). pose proof (dec_length_int w Hw).
    cbn [String.append String.length].
    repeat (rewrite Str_length_app; cbn [String.append String.length]).
    lia. }
  destruct (snprintf_fits _ _ Hlen) as (out & E & Hout & Hres).
  rewrite E, Hout.
  destruct (Z.ltb_spec (Z.of_nat (String.length text)) 0) as [?|_]; [lia|].
  destruct (Z.gtb_spec (Z.of_nat (String.length text))
              (Z.of_nat (String.length (resize 256 "")))) as [?|_]; [lia|].
  cbn [orb]. now rewrite Nat2Z.id, Hres.
Qed.

(** What a pool on a named FIFO advertises. *)
Lemma GetEnvMakeFlagsValue_fifo (N w : Z) (fifo : string) :
  0 <= N < 100000 -> fifo <> "" ->
  Str.all (fun c => negb (Ascii.eqb c "000")) fifo = true ->
  GetEnvMakeFlagsValue
    {| job_count_ := N; pool_read_fd_ := -1; pool_write_fd_ := w; fifo_ := fifo |}
  = Some (" -j" +:+ Libc.dec_unsigned N +:+ " --jobserver-auth=fifo:" +:+ fifo).
Proof.
  intros HN Hne Hnul. unfold GetEnvMakeFlagsValue.
  cbn [fifo_ pool_read_fd_ pool_write_fd_ job_count_].
  assert (Hemp : Str.is_empty fifo = false) by (destruct fifo; [congruence|reflexivity]).
  rewrite Hemp. cbn [negb].
  assert (Hss : Libc.to_ssize N = N).
  { unfold Libc.to_ssize. rewrite Z.mod_small by lia. lia. }
  rewrite Hss, dec_nonneg by lia. rewrite Str_c_str_id by exact Hnul.
  set (text := " -j" +:+ _).
  assert (Hlen : (String.length text
                  < String.length (resize (String.length fifo + 32) ""))%nat).
  { rewrite resize_length. subst text.
    pose proof (dec_unsigned_length N 5 ltac:(lia) ltac:(lia)).
    cbn [String.append String.length].
    repeat (rewrite Str_length_app; cbn [String.append String.length]).
    lia. }
  destruct (snprintf_fits _ _ Hlen) as (out & E & Hout & Hres).
  rewrite E, Hout.
  destruct (Z.ltb_spec (Z.of_nat (String.length text)) 0) as [?|_]; [lia|].
  destruct (Z.gtb_spec (Z.of_nat (String.length text))
              (Z.of_nat (String.length (resize (String.length fifo + 32) ""))))
    as [?|_]; [lia|].
  cbn [orb Z.geb Z.compare andb]. now rewrite Nat2Z.id, Hres.
Qed.

End EnvFacts.

(** ** Creating a pool *)

Section PoolFacts.

Import Posix Jobserver JobserverPosix.

(** [FillSlots] while the environment lets every write through: each of
    the [n] turns appends one token. *)
Lemma FillSlots_loop_quiet (n : nat) (wfd : Z) (j ino : nat) (flags : Z)
  (data : list ascii) (k : Kernel) :
  quiet n k ->
  fd_at k wfd j -> file_at k j ino flags -> writable flags = true ->
  fifo_data k ino data ->
  exists k',
    FillSlots_loop n wfd k = (true, None, k')
    /\ fds k' = fds k /\ files k' = files k /\ names k' = names k
    /\ tape k' = drop n (tape k)
    /\ fifo_data k' ino (data ++ replicate n "+"%char).
Proof.
  revert data k. induction n as [|n IH]; intros data k Hq Hfd Hf Hw Hi.
  - exists k. cbn. rewrite app_nil_r. repeat split. exact Hi.
  - destruct (sys_write_fifo k wfd "+" j ino flags data
                (quiet_head _ _ Hq) Hfd Hf Hw Hi)
      as (k1 & E & H1 & H2 & H3 & H4 & H5 & _).
    destruct (IH (data ++ ["+"%char]) k1) as (k' & E' & G1 & G2 & G3 & G4 & G5).
    + exact (quiet_tail _ _ _ Hq H4).
    + now apply (fd_at_frame k).
    + now apply (file_at_frame k).
    + exact Hw.
    + unfold fifo_data. rewrite H5. apply list_lookup_insert_eq.
      now apply lookup_lt_Some in Hi.
    + exists k'. cbn [FillSlots_loop]. rewrite E. cbn [Z.eqb negb Pos.eqb].
      rewrite E'. repeat split; try congruence.
      * now rewrite G4, H4, drop_tail.
      * rewrite <- app_assoc in G5. exact G5.
Qed.

(** A pool on an anonymous pipe. *)
Lemma Pool_Create_pipe (N : Z) (k : Kernel) :
  2 <= N ->
  quiet (Z.to_nat (N - 1)) k ->
  exists r w jr jw ino k1,
    Pool_Create N kModePipe k
    = (Some {| job_count_ := N; pool_read_fd_ := r; pool_write_fd_ := w;
               fifo_ := "" |}, None, k1)
    /\ 0 <= r <= Z.of_nat (length (fds k))
    /\ 0 <= w <= Z.of_nat (length (fds k)) + 1
    /\ fd_at k1 r jr /\ file_at k1 jr ino O_RDONLY
    /\ fd_at k1 w jw /\ file_at k1 jw ino O_WRONLY
    /\ jr <> jw
    /\ fifo_data k1 ino (replicate (Z.to_nat (N - 1)) "+"%char)
    /\ tape k1 = drop (Z.to_nat (N - 1)) (tape k).
Proof.
  intros HN Hq.
  destruct (sys_pipe_spec k)
    as (r & w & k0 & E & Hr & Hw & Hfr & Hfw & Hfiles & Hinodes & _ & Htape & _).
  assert (Hjr : file_at k0 (length (files k)) (length (inodes k)) O_RDONLY).
  { unfold file_at. rewrite Hfiles.
    rewrite lookup_app_r by lia. now rewrite Nat.sub_diag. }
  assert (Hjw : file_at k0 (S (length (files k))) (length (inodes k)) O_WRONLY).
  { unfold file_at. rewrite Hfiles.
    rewrite lookup_app_r by lia.
    now replace (S (length (files k)) - length (files k))%nat with 1%nat by lia. }
  assert (Hi : fifo_data k0 (length (inodes k)) []).
  { unfold fifo_data. rewrite Hinodes.
    rewrite lookup_app_r by lia. now rewrite Nat.sub_diag. }
  assert (Hq0 : quiet (Z.to_nat (N - 1)) k0) by (unfold quiet; now rewrite Htape).
  destruct (FillSlots_loop_quiet _ w _ _ _ [] k0 Hq0 Hfw Hjw eq_refl Hi)
    as (k1 & E1 & G1 & G2 & G3 & G4 & G5).
  exists r, w, (length (files k)), (S (length (files k))), (length (inodes k)), k1.
  split.
  - unfold Pool_Create. destruct (Z.ltb_spec N 2) as [?|_]; [lia|].
    rewrite decide_True by reflexivity.
    unfold Pool_InitWithPipe. rewrite E. cbn [Z.ltb Z.compare].
    unfold FillSlots. cbn [pool_write_fd_ pool_read_fd_ fifo_ job_count_ Pool_new].
    rewrite E1. reflexivity.
  - split; [exact Hr|]. split; [exact Hw|].
    split; [now apply (fd_at_frame k0)|].
    split; [now apply (file_at_frame k0)|].
    split; [now apply (fd_at_frame k0)|].
    split; [now apply (file_at_frame k0)|].
    split; [lia|]. split; [exact G5|]. now rewrite G4, Htape.
Qed.

Lemma fifo_name_no_nul (k : Kernel) :
  process_ok k ->
  Str.all (fun c => negb (Ascii.eqb c "000")) (fifo_name k) = true.
Proof.
  intros (_ & Hpid & Htmp). unfold fifo_name, tmp_dir.
  rewrite dec_nonneg by lia. rewrite !Str_all_app.
  rewrite (digits_no_nul _ (dec_unsigned_all_digits (pid k))).
  destruct (env_TMPDIR k) as [d|]; [rewrite Htmp|]; reflexivity.
Qed.

Lemma fifo_name_no_separator (k : Kernel) :
  0 <= pid k ->
  Str.all (fun c => negb (is_separator c)) (tmp_dir k) = true ->
  Str.all (fun c => negb (is_separator c)) (fifo_name k) = true.
Proof.
  intros Hpid Htmp. unfold fifo_name.
  rewrite dec_nonneg by lia. rewrite !Str_all_app, Htmp.
  rewrite (digits_no_separator _ (dec_unsigned_all_digits (pid k))).
  reflexivity.
Qed.

Lemma fifo_name_not_empty (k : Kernel) : fifo_name k <> "".
Proof.
  unfold fifo_name. intros E. apply (f_equal String.length) in E.
  rewrite Str_length_app in E. cbn in E. lia.
Qed.

Lemma open_retry_quiet (fuel : nat) (k : Kernel) (path : string) (flags : Z)
  (ino : nat) :
  head_normal k ->
  names k !! path = Some ino ->
  exists fd k',
    open_retry fuel path flags k = (fd, k')
    /\ 0 <= fd
    /\ fd_at k' fd (length (files k))
    /\ files k' = files k ++ [mkOpenFile ino (Z.land flags (Z.lor O_ACCMODE O_NONBLOCK))]
    /\ inodes k' = inodes k /\ names k' = names k
    /\ tape k' = tail (tape k).
Proof.
  intros Hn Hname.
  destruct (sys_open_spec k path flags ino Hn Hname)
    as (fd & k' & E & Hfd & H1 & H2 & H3 & H4 & H5 & _).
  exists fd, k'. split.
  - destruct fuel; cbn [open_retry]; rewrite E; [reflexivity|].
    destruct (Z.ltb_spec fd 0) as [?|_]; [lia|reflexivity].
  - repeat split; try assumption; lia.
Qed.

(** A pool on a named FIFO. *)
Lemma Pool_Create_fifo (N : Z) (k : Kernel) :
  2 <= N ->
  process_ok k ->
  names k !! fifo_name k = None ->
  quiet (S (Z.to_nat (N - 1))) k ->
  exists w ino k1,
    Pool_Create N kModePosixFifo k
    = (Some {| job_count_ := N; pool_read_fd_ := -1; pool_write_fd_ := w;
               fifo_ := fifo_name k |}, None, k1)
    /\ writes_to k1 w ino
    /\ names k1 !! fifo_name k = Some ino
    /\ fifo_data k1 ino (replicate (Z.to_nat (N - 1)) "+"%char)
    /\ tape k1 = drop (S (Z.to_nat (N - 1))) (tape k).
Proof.
  intros HN Hok Hfree Hq.
  pose proof (fifo_name_no_nul k Hok) as Hnul.
  destruct Hok as (_ & Hpid & _).
  set (text := fifo_name k) in *.
  assert (Hlen : (String.length text
                  < String.length (resize (String.length (tmp_dir k) + 32) ""))%nat).
  { rewrite resize_length. subst text. unfold fifo_name.
    pose proof (dec_length_int (pid k) Hpid).
    rewrite !Str_length_app. cbn [String.length]. lia. }
  destruct (snprintf_fits _ _ Hlen) as (out & Eout & _ & Hres).
  set (kM := set_names (<[text := length (inodes k)]> (names k))
               (set_inodes (inodes k ++ [mkInode S_IFIFO []]) k)).
  assert (EM : sys_mknod_fifo k text = (0, log (EvMknod text 0) kM)).
  { unfold sys_mknod_fifo. now rewrite Hfree. }
  destruct (open_retry_quiet (length (tape k)) (log (EvMknod text 0) kM) text
              (Z.lor O_RDWR O_CLOEXEC) (length (inodes k)))
    as (w & kA & EA & Hw & A1 & A2 & A3 & A4 & A5).
  { exact (quiet_head _ _ Hq). }
  { apply lookup_insert_eq. }
  destruct (FillSlots_loop_quiet (Z.to_nat (N - 1)) w (length (files k))
              (length (inodes k))
              (Z.land (Z.lor O_RDWR O_CLOEXEC) (Z.lor O_ACCMODE O_NONBLOCK)) [] kA)
    as (k1 & E1 & G1 & G2 & G3 & G4 & G5).
  { apply (quiet_tail _ k); [exact Hq|exact A5]. }
  { exact A1. }
  { unfold file_at. rewrite A2. cbn [files log set_names set_inodes kM].
    rewrite lookup_app_r by lia. now rewrite Nat.sub_diag. }
  { reflexivity. }
  { unfold fifo_data. rewrite A3. cbn [inodes log set_names set_inodes kM].
    rewrite lookup_app_r by lia. now rewrite Nat.sub_diag. }
  exists w, (length (inodes k)), k1. split.
  - unfold Pool_Create. destruct (Z.ltb_spec N 2) as [?|_]; [lia|].
    rewrite decide_False by discriminate. rewrite decide_True by reflexivity.
    unfold Pool_InitWithFifo. cbn [fifo_ Pool_new].
    change (match env_TMPDIR k with Some d => d | None => "/tmp" end)
      with (tmp_dir k).
    change (tmp_dir k +:+ "/NinjaFIFO" +:+ Libc.dec (pid k)) with text.
    rewrite Eout.
    destruct (Z.ltb_spec (Z.of_nat (String.length text)) 0) as [?|_]; [lia|].
    rewrite Nat2Z.id, Hres. rewrite Str_c_str_id by exact Hnul.
    rewrite EM. cbn [Z.ltb Z.compare].
    change (tape (log (EvMknod text 0) kM)) with (tape k).
    rewrite EA.
    destruct (Z.ltb_spec w 0) as [?|_]; [lia|].
    unfold FillSlots. cbn [pool_write_fd_ pool_read_fd_ fifo_ job_count_].
    rewrite E1. reflexivity.
  - split.
    { eexists _, _. split; [apply (fd_at_frame kA); [exact G1|exact A1]|].
      assert (Hf : file_at k1 (length (files k)) (length (inodes k))
                     (Z.land (Z.lor O_RDWR O_CLOEXEC) (Z.lor O_ACCMODE O_NONBLOCK)));
        [|split; [exact Hf|reflexivity]].
      unfold file_at. rewrite G2, A2. cbn [files log set_names set_inodes kM].
      rewrite lookup_app_r by lia. now rewrite Nat.sub_diag. }
    split.
    { rewrite G3, A4. apply lookup_insert_eq. }
    split; [exact G5|].
    rewrite G4, A5. change (tape (log (EvMknod text 0) kM)) with (tape k).
    now rewrite drop_tail.
Qed.

End PoolFacts.

(** ** Parsing what a pool advertises *)

Section ParseEnvFacts.

Import Posix Jobserver JobserverPosix.

Lemma words_from_token (w rest : string) :
  Str.all (fun c => negb (is_separator c)) w = true -> w <> "" ->
  words_from "" (w +:+ String " " rest) = w :: words_from "" rest.
Proof.
  intros Hw Hne. rewrite words_from_word by exact Hw.
  rewrite words_from_sep by reflexivity. cbn [String.append].
  destruct w; [congruence|reflexivity].
Qed.

Lemma words_from_last (w : string) :
  Str.all (fun c => negb (is_separator c)) w = true -> w <> "" ->
  words_from "" w = [w].
Proof.
  intros Hw Hne. rewrite <- split_args_words. now apply words_from_single.
Qed.

Lemma GetFileDescriptorPair_printed (r w : Z) (config : Config) :
  0 <= r <= Libc.INT_MAX -> 0 <= w <= Libc.INT_MAX ->
  GetFileDescriptorPair (Libc.dec r +:+ "," +:+ Libc.dec w) config
  = (true, {| mode := kModeFileDescriptors; read_fd := r; write_fd := w;
              path := path config |}).
Proof.
  intros Hr Hw. unfold GetFileDescriptorPair.
  assert (Hnul : Str.all (fun c => negb (Ascii.eqb c "000"))
                   (Libc.dec r +:+ "," +:+ Libc.dec w) = true).
  { rewrite !dec_nonneg by lia. rewrite !Str_all_app.
    rewrite (digits_no_nul (Libc.dec_unsigned r)) by apply dec_unsigned_all_digits.
    rewrite (digits_no_nul (Libc.dec_unsigned w)) by apply dec_unsigned_all_digits.
    reflexivity. }
  rewrite Str_c_str_id by exact Hnul.
  pose proof (sscanf_printed_pair r w "" (read_fd config) (write_fd config)
                Hr Hw eq_refl) as E.
  rewrite Str_app_nil_r in E. rewrite E.
  cbn [Z.eqb negb Pos.eqb set_fds read_fd write_fd].
  destruct (Z.ltb_spec r 0) as [?|_]; [lia|].
  destruct (Z.ltb_spec w 0) as [?|_]; [lia|].
  reflexivity.
Qed.

(** Three words: the job count, and twice the descriptor pair [V]. *)
Lemma Parse_env_pipe_words (D V : string) (r w : Z) :
  Str.all Libc.isdigit D = true ->
  Str.all (fun c => Libc.isdigit c || Ascii.eqb c ",") V = true ->
  (forall config,
     GetFileDescriptorPair V config
     = (true, {| mode := kModeFileDescriptors; read_fd := r; write_fd := w;
                 path := path config |})) ->
  Str.c_str (" -j" +:+ D +:+ " --jobserver-fds=" +:+ V +:+ " --jobserver-auth=" +:+ V)
  = " -j" +:+ D +:+ " --jobserver-fds=" +:+ V +:+ " --jobserver-auth=" +:+ V
  /\ ParseMakeFlagsValue
       (Some (" -j" +:+ D +:+ " --jobserver-fds=" +:+ V +:+ " --jobserver-auth=" +:+ V))
     = {| parse_ok := true;
          parse_config := {| mode := kModeFileDescriptors; read_fd := r;
                             write_fd := w; path := "" |};
          parse_error := None |}.
Proof.
  intros HD HVd HP.
  assert (Hcases : forall c, Libc.isdigit c || Ascii.eqb c "," = true ->
                     negb (is_separator c) = true /\ negb (Ascii.eqb c "000") = true).
  { intros c [Hc|Hc]%orb_true_iff.
    - destruct (digit_not_separator c Hc) as (-> & -> & _). now split.
    - apply Ascii.eqb_eq in Hc as ->. now split. }
  assert (HVs : Str.all (fun c => negb (is_separator c)) V = true).
  { revert HVd. apply Str_all_impl. intros c Hc. now apply Hcases. }
  assert (HVn : Str.all (fun c => negb (Ascii.eqb c "000")) V = true).
  { revert HVd. apply Str_all_impl. intros c Hc. now apply Hcases. }
  pose proof (digits_no_separator D HD) as HDs.
  pose proof (digits_no_nul D HD) as HDn.
  set (w1 := "-j" +:+ D).
  set (w2 := "--jobserver-fds=" +:+ V).
  set (w3 := "--jobserver-auth=" +:+ V).
  assert (Henv : " -j" +:+ D +:+ " --jobserver-fds=" +:+ V +:+ " --jobserver-auth=" +:+ V
                 = String " " (w1 +:+ String " " (w2 +:+ String " " w3))).
  { subst w1 w2 w3. cbn [String.append]. reflexivity. }
  rewrite Henv.
  assert (H1 : Str.all (fun c => negb (is_separator c)) w1 = true)
    by (subst w1; cbn [String.append Str.all]; now rewrite HDs).
  assert (H2 : Str.all (fun c => negb (is_separator c)) w2 = true)
    by (subst w2; cbn [String.append Str.all]; now rewrite HVs).
  assert (H3 : Str.all (fun c => negb (is_separator c)) w3 = true)
    by (subst w3; cbn [String.append Str.all]; now rewrite HVs).
  split.
  - apply Str_c_str_id. cbn [Str.all]. rewrite !Str_all_app. cbn [Str.all].
    rewrite !Str_all_app. cbn [Str.all]. subst w1 w2 w3.
    cbn [String.append Str.all]. now rewrite HDn, HVn.
  - unfold ParseMakeFlagsValue.
    assert (Hsplit : split_args (String " " (w1 +:+ String " " (w2 +:+ String " " w3)))
                     = [w1; w2; w3]).
    { rewrite split_args_words. rewrite words_from_sep by reflexivity.
      rewrite words_from_token by (subst w1; easy).
      rewrite words_from_token by (subst w2; easy).
      rewrite words_from_last by (subst w3; easy). reflexivity. }
    rewrite Hsplit.
    change (is_dry_run [w1; w2; w3]) with false. cbv iota.
    cbn [parse_loop].
    assert (E1 : parse_arg w1 Config_default = inl Config_default)
      by (apply parse_arg_unrecognized; reflexivity).
    rewrite E1.
    assert (E2 : parse_arg w2 Config_default
                 = inl {| mode := kModeFileDescriptors; read_fd := r;
                          write_fd := w; path := "" |}).
    { unfold parse_arg.
      change (GetPrefixedValue w2 "--jobserver-auth=") with (@None string).
      unfold w2. rewrite GetPrefixedValue_app.
      rewrite HP. reflexivity. }
    rewrite E2.
    assert (E3 : parse_arg w3 {| mode := kModeFileDescriptors; read_fd := r;
                                 write_fd := w; path := "" |}
                 = inl {| mode := kModeFileDescriptors; read_fd := r;
                          write_fd := w; path := "" |}).
    { unfold parse_arg.
      unfold w3. rewrite GetPrefixedValue_app.
      rewrite HP. reflexivity. }
    rewrite E3. reflexivity.
Qed.


(** The string of a pool on a pipe parses to its two descriptors. *)
Lemma Parse_env_pipe (N r w : Z) :
  0 <= r <= Libc.INT_MAX -> 0 <= w <= Libc.INT_MAX ->
  Str.c_str (" -j" +:+ Libc.dec_unsigned N
             +:+ " --jobserver-fds=" +:+ Libc.dec r +:+ "," +:+ Libc.dec w
             +:+ " --jobserver-auth=" +:+ Libc.dec r +:+ "," +:+ Libc.dec w)
  = " -j" +:+ Libc.dec_unsigned N
    +:+ " --jobserver-fds=" +:+ Libc.dec r +:+ "," +:+ Libc.dec w
    +:+ " --jobserver-auth=" +:+ Libc.dec r +:+ "," +:+ Libc.dec w
  /\ ParseMakeFlagsValue
       (Some (" -j" +:+ Libc.dec_unsigned N
              +:+ " --jobserver-fds=" +:+ Libc.dec r +:+ "," +:+ Libc.dec w
              +:+ " --jobserver-auth=" +:+ Libc.dec r +:+ "," +:+ Libc.dec w))
     = {| parse_ok := true;
          parse_config := {| mode := kModeFileDescriptors; read_fd := r;
                             write_fd := w; path := "" |};
          parse_error := None |}.
Proof.
  intros Hr Hw.
  assert (HVd : Str.all (fun c => Libc.isdigit c || Ascii.eqb c ",")
                  (Libc.dec r +:+ "," +:+ Libc.dec w) = true).
  { rewrite !dec_nonneg by lia. rewrite !Str_all_app.
    rewrite (Str_all_impl Libc.isdigit (fun c => Libc.isdigit c || Ascii.eqb c ",")
               (Libc.dec_unsigned r))
      by (try apply dec_unsigned_all_digits; intros c ->; reflexivity).
    rewrite (Str_all_impl Libc.isdigit (fun c => Libc.isdigit c || Ascii.eqb c ",")
               (Libc.dec_unsigned w))
      by (try apply dec_unsigned_all_digits; intros c ->; reflexivity).
    reflexivity. }
  pose proof (Parse_env_pipe_words (Libc.dec_unsigned N)
                (Libc.dec r +:+ "," +:+ Libc.dec w) r w
                (dec_unsigned_all_digits N) HVd
                (fun config => GetFileDescriptorPair_printed r w config Hr Hw)) as H.
  rewrite !Str_app_assoc in H. exact H.
Qed.

(** The string of a pool on a named FIFO parses to the FIFO's path,
    when the path has no space or tab in it. *)
Lemma Parse_env_fifo (D P : string) :
  Str.all Libc.isdigit D = true ->
  Str.all (fun c => negb (is_separator c)) P = true ->
  Str.all (fun c => negb (Ascii.eqb c "000")) P = true ->
  Str.c_str (" -j" +:+ D +:+ " --jobserver-auth=fifo:" +:+ P)
  = " -j" +:+ D +:+ " --jobserver-auth=fifo:" +:+ P
  /\ ParseMakeFlagsValue (Some (" -j" +:+ D +:+ " --jobserver-auth=fifo:" +:+ P))
     = {| parse_ok := true;
          parse_config := {| mode := kModePosixFifo; read_fd := -1;
                             write_fd := -1; path := P |};
          parse_error := None |}.
Proof.
  intros HD HPs HPn.
  pose proof (digits_no_separator D HD) as HDs.
  pose proof (digits_no_nul D HD) as HDn.
  set (w1 := "-j" +:+ D).
  set (w2 := "--jobserver-auth=" +:+ "fifo:" +:+ P).
  assert (Henv : " -j" +:+ D +:+ " --jobserver-auth=fifo:" +:+ P
                 = String " " (w1 +:+ String " " w2)).
  { subst w1 w2. cbn [String.append]. reflexivity. }
  rewrite Henv.
  assert (H1 : Str.all (fun c => negb (is_separator c)) w1 = true)
    by (subst w1; cbn [String.append Str.all]; now rewrite HDs).
  assert (H2 : Str.all (fun c => negb (is_separator c)) w2 = true)
    by (subst w2; cbn [String.append Str.all]; now rewrite HPs).
  split.
  - apply Str_c_str_id. cbn [Str.all]. rewrite !Str_all_app. cbn [Str.all].
    subst w1 w2. cbn [String.append Str.all]. now rewrite HDn, HPn.
  - unfold ParseMakeFlagsValue.
    assert (Hsplit : split_args (String " " (w1 +:+ String " " w2)) = [w1; w2]).
    { rewrite split_args_words. rewrite words_from_sep by reflexivity.
      rewrite words_from_token by (subst w1; easy).
      rewrite words_from_last by (subst w2; easy). reflexivity. }
    rewrite Hsplit.
    change (is_dry_run [w1; w2]) with false. cbv iota.
    cbn [parse_loop].
    assert (E1 : parse_arg w1 Config_default = inl Config_default)
      by (apply parse_arg_unrecognized; reflexivity).
    rewrite E1.
    assert (E2 : parse_arg w2 Config_default
                 = inl {| mode := kModePosixFifo; read_fd := -1;
                          write_fd := -1; path := P |}).
    { unfold parse_arg.
      unfold w2. rewrite GetPrefixedValue_app.
      assert (EP : GetFileDescriptorPair ("fifo:" +:+ P) Config_default
                   = (false, Config_default)) by reflexivity.
      rewrite EP. rewrite GetPrefixedValue_app. reflexivity. }
    rewrite E2. reflexivity.
Qed.

End ParseEnvFacts.

(** ** Creating a client *)

Section ClientCreateFacts.

Import Posix Jobserver JobserverPosix.

Lemma IsFifoDescriptor_fifo (k : Kernel) (fd : Z) (j ino : nat) (flags : Z)
  (data : list ascii) :
  fd_at k fd j -> file_at k j ino flags -> fifo_data k ino data ->
  exists k',
    IsFifoDescriptor fd k = (true, k')
    /\ fds k' = fds k /\ files k' = files k /\ inodes k' = inodes k
    /\ names k' = names k /\ tape k' = tape k.
Proof.
  intros [cl Hd] Hf Hi. unfold IsFifoDescriptor, sys_fstat.
  rewrite (resolve_spec _ fd _ _ _ Hd Hf Hi). cbn [i_kind].
  eexists. split; [reflexivity|]. repeat split.
Qed.

Lemma SetNonBlockingFd_spec (k : Kernel) (fd : Z) (j ino : nat) (cl flags : Z)
  (i : Inode) :
  descriptor k fd = Some (mkDescriptor j cl) ->
  file_at k j ino flags -> inodes k !! ino = Some i ->
  Z.land flags O_NONBLOCK = 0 ->
  exists k',
    SetNonBlockingFd fd k = (true, k')
    /\ fds k' = fds k
    /\ files k'
       = <[j := mkOpenFile ino
                  (Z.lor (Z.land flags O_ACCMODE)
                         (Z.land (Z.lor flags O_NONBLOCK) O_NONBLOCK))]> (files k)
    /\ inodes k' = inodes k /\ names k' = names k /\ tape k' = tape k.
Proof.
  intros Hd Hf Hi Hnb. unfold SetNonBlockingFd, fcntl_GETFL.
  rewrite (resolve_spec _ fd _ _ _ Hd Hf Hi). cbn [o_flags].
  rewrite Hnb. cbn [Z.eqb]. unfold fcntl_SETFL.
  match goal with
  | |- context [resolve (log ?e k) fd] =>
      change (resolve (log e k) fd) with (resolve k fd)
  end.
  rewrite (resolve_spec _ fd _ _ _ Hd Hf Hi). cbn [o_flags o_inode d_file Z.ltb Z.compare].
  eexists. split; [reflexivity|]. repeat split.
Qed.

Lemma SetCloseOnExecFd_spec (k : Kernel) (fd : Z) (j : nat) :
  descriptor k fd = Some (mkDescriptor j 0) ->
  exists k',
    SetCloseOnExecFd fd k = (true, k')
    /\ fds k' = <[Z.to_nat fd := Some (mkDescriptor j FD_CLOEXEC)]> (fds k)
    /\ files k' = files k
    /\ inodes k' = inodes k /\ names k' = names k /\ tape k' = tape k.
Proof.
  intros Hd. unfold SetCloseOnExecFd, fcntl_GETFD. rewrite Hd. cbn [d_flags].
  change (Z.land 0 FD_CLOEXEC =? 0) with true. cbv iota. unfold fcntl_SETFD.
  match goal with
  | |- context [descriptor (log ?e k) fd] =>
      change (descriptor (log e k) fd) with (descriptor k fd)
  end.
  rewrite Hd. cbn [d_file Z.ltb Z.compare].
  eexists. split; [reflexivity|]. repeat split.
Qed.

(** [DuplicateDescriptor] of a blocking descriptor: a new descriptor on
    the same open file description, which is non-blocking from then on. *)
Lemma DuplicateDescriptor_spec (k : Kernel) (fd to : Z) (j ino : nat) (flags : Z)
  (i : Inode) :
  fd_at k fd j -> file_at k j ino flags -> inodes k !! ino = Some i ->
  Z.land flags O_NONBLOCK = 0 ->
  exists n k',
    DuplicateDescriptor fd to k = (true, n, k')
    /\ 0 <= n /\ fd_at k' n j
    /\ files k'
       = <[j := mkOpenFile ino
                  (Z.lor (Z.land flags O_ACCMODE)
                         (Z.land (Z.lor flags O_NONBLOCK) O_NONBLOCK))]> (files k)
    /\ inodes k' = inodes k /\ names k' = names k /\ tape k' = tape k
    /\ (forall fd' j', fd_at k fd' j' -> fd_at k' fd' j').
Proof.
  intros Hfd Hf Hi Hnb.
  destruct (sys_dup_spec k fd j Hfd)
    as (n & kA & EA & Hn & HdA & HfilesA & HinoA & HnamesA & HtapeA & HoldA).
  destruct (SetNonBlockingFd_spec kA n j ino 0 flags i HdA)
    as (kB & EB & HfdsB & HfilesB & HinoB & HnamesB & HtapeB);
    [unfold file_at; now rewrite HfilesA|now rewrite HinoA|exact Hnb|].
  assert (HdB : descriptor kB n = Some (mkDescriptor j 0))
    by (unfold descriptor in *; now rewrite HfdsB).
  destruct (SetCloseOnExecFd_spec kB n j HdB)
    as (kC & EC & HfdsC & HfilesC & HinoC & HnamesC & HtapeC).
  exists n, kC. unfold DuplicateDescriptor. rewrite EA.
  destruct (Z.ltb_spec n 0) as [?|_]; [lia|].
  rewrite EB. cbn [negb]. rewrite EC. cbn [negb].
  split; [reflexivity|]. split; [lia|].
  assert (Hset : forall fd', descriptor kC fd'
                   = if decide (fd' = n) then Some (mkDescriptor j FD_CLOEXEC)
                     else descriptor kB fd').
  { intros fd'. rewrite <- (descriptor_set kB n fd' _ _ HdB).
    unfold descriptor. now rewrite HfdsC. }
  split.
  { exists FD_CLOEXEC. rewrite Hset. now rewrite decide_True. }
  split; [congruence|]. split; [congruence|]. split; [congruence|].
  split; [congruence|].
  intros fd' j' H. destruct (HoldA fd' j' H) as [cl' Hd'].
  destruct (decide (fd' = n)) as [->|Hne].
  - exists FD_CLOEXEC. rewrite Hset, decide_True by reflexivity.
    rewrite HdA in Hd'. congruence.
  - exists cl'. rewrite Hset, decide_False by exact Hne.
    unfold descriptor in *. now rewrite HfdsB.
Qed.

(** A client of a pool on a pipe: it reads the pool's inode through a
    non-blocking descriptor of its own. *)
Lemma Client_Create_pipe (k : Kernel) (r w : Z) (jr jw ino : nat)
  (data : list ascii) :
  fd_at k r jr -> file_at k jr ino O_RDONLY ->
  fd_at k w jw -> file_at k jw ino O_WRONLY ->
  jr <> jw -> fifo_data k ino data ->
  exists c k2,
    Client_Create {| mode := kModeFileDescriptors; read_fd := r; write_fd := w;
                     path := "" |} k
    = (Some c, None, k2)
    /\ has_implicit_slot_ c = true
    /\ reads_from k2 (read_fd_ c) ino
    /\ writes_to k2 (write_fd_ c) ino
    /\ fifo_data k2 ino data
    /\ tape k2 = tape k.
Proof.
  intros Hr Hfr Hw Hfw Hne Hi.
  destruct (IsFifoDescriptor_fifo k r jr ino _ data Hr Hfr Hi)
    as (kA & EA & A1 & A2 & A3 & A4 & A5).
  destruct (IsFifoDescriptor_fifo kA w jw ino O_WRONLY data)
    as (kB & EB & B1 & B2 & B3 & B4 & B5);
    [now apply (fd_at_frame k)|now apply (file_at_frame k)
    |unfold fifo_data; now rewrite A3|].
  destruct (DuplicateDescriptor_spec kB r (-1) jr ino O_RDONLY
              (mkInode S_IFIFO data))
    as (rc & kC & EC & Hrc & C1 & C2 & C3 & C4 & C5 & C6);
    [apply (fd_at_frame kA); [exact B1|now apply (fd_at_frame k)]
    |apply (file_at_frame kA); [exact B2|now apply (file_at_frame k)]
    |rewrite B3, A3; exact Hi|reflexivity|].
  assert (HwC : fd_at kC w jw).
  { apply C6. apply (fd_at_frame kA); [exact B1|now apply (fd_at_frame k)]. }
  assert (HfwC : file_at kC jw ino O_WRONLY).
  { unfold file_at. rewrite C2, list_lookup_insert_ne by exact Hne.
    rewrite B2, A2. exact Hfw. }
  destruct (DuplicateDescriptor_spec kC w (-1) jw ino O_WRONLY
              (mkInode S_IFIFO data) HwC HfwC)
    as (wc & kD & ED & Hwc & D1 & D2 & D3 & D4 & D5 & D6);
    [rewrite C3, B3, A3; exact Hi|reflexivity|].
  exists {| has_implicit_slot_ := true; read_fd_ := rc; write_fd_ := wc |}, kD.
  split.
  - unfold Client_Create. cbn [mode read_fd write_fd].
    rewrite decide_True by reflexivity.
    unfold Client_InitWithPipeFds. rewrite EA. cbv iota. rewrite EB.
    cbn [negb orb]. cbn [Client_new read_fd_ write_fd_ has_implicit_slot_].
    rewrite EC. cbn [negb]. cbn [read_fd_ write_fd_ has_implicit_slot_].
    rewrite ED. reflexivity.
  - split; [reflexivity|]. cbn [read_fd_ write_fd_].
    assert (HjrD : file_at kD jr ino
                     (Z.lor (Z.land O_RDONLY O_ACCMODE)
                            (Z.land (Z.lor O_RDONLY O_NONBLOCK) O_NONBLOCK))).
    { unfold file_at. rewrite D2, list_lookup_insert_ne by (intros E; now apply Hne).
      rewrite C2. apply list_lookup_insert_eq.
      unfold file_at in Hfr. apply lookup_lt_Some in Hfr. now rewrite B2, A2. }
    assert (HjwD : file_at kD jw ino
                     (Z.lor (Z.land O_WRONLY O_ACCMODE)
                            (Z.land (Z.lor O_WRONLY O_NONBLOCK) O_NONBLOCK))).
    { unfold file_at. rewrite D2. apply list_lookup_insert_eq.
      unfold file_at in HfwC. now apply lookup_lt_Some in HfwC. }
    split; [|split; [|split]].
    + eexists _, _. split; [apply D6; exact C1|]. split; [exact HjrD|].
      split; reflexivity.
    + eexists _, _. split; [exact D1|]. split; [exact HjwD|]. reflexivity.
    + unfold fifo_data. rewrite D3, C3, B3, A3. exact Hi.
    + congruence.
Qed.

(** A client of a pool on a named FIFO. *)
Lemma Client_Create_fifo (k : Kernel) (P : string) (ino : nat) (data : list ascii) :
  P <> "" -> Str.all (fun c => negb (Ascii.eqb c "000")) P = true ->
  quiet 2 k ->
  names k !! P = Some ino -> fifo_data k ino data ->
  exists c k2,
    Client_Create {| mode := kModePosixFifo; read_fd := -1; write_fd := -1;
                     path := P |} k
    = (Some c, None, k2)
    /\ has_implicit_slot_ c = true
    /\ reads_from k2 (read_fd_ c) ino
    /\ writes_to k2 (write_fd_ c) ino
    /\ fifo_data k2 ino data
    /\ tape k2 = drop 2 (tape k).
Proof.
  intros Hne Hnul Hq Hname Hi.
  destruct (sys_open_spec k P (Z.lor O_RDONLY (Z.lor O_NONBLOCK O_CLOEXEC)) ino
              (quiet_head _ _ Hq) Hname)
    as (rc & kA & EA & Hrc & A1 & A2 & A3 & A4 & A5 & A6).
  assert (HfA : file_at kA (length (files k)) ino
                  (Z.land (Z.lor O_RDONLY (Z.lor O_NONBLOCK O_CLOEXEC))
                          (Z.lor O_ACCMODE O_NONBLOCK))).
  { unfold file_at. rewrite A2, lookup_app_r by lia. now rewrite Nat.sub_diag. }
  destruct (IsFifoDescriptor_fifo kA rc _ ino _ data A1 HfA)
    as (kB & EB & B1 & B2 & B3 & B4 & B5); [unfold fifo_data; now rewrite A3|].
  destruct (sys_open_spec kB P (Z.lor O_WRONLY (Z.lor O_NONBLOCK O_CLOEXEC)) ino)
    as (wc & kC & EC & Hwc & C1 & C2 & C3 & C4 & C5 & C6).
  { apply (quiet_head 0). apply (quiet_tail 1 k); [exact Hq|congruence]. }
  { now rewrite B4, A4. }
  exists {| has_implicit_slot_ := true; read_fd_ := rc; write_fd_ := wc |}, kC.
  split.
  - unfold Client_Create. cbn [mode path].
    rewrite decide_False by discriminate. rewrite decide_True by reflexivity.
    unfold Client_InitWithFifo.
    assert (Hemp : Str.is_empty P = false) by (destruct P; [congruence|reflexivity]).
    rewrite Hemp, Str_c_str_id by exact Hnul. rewrite EA.
    destruct (Z.ltb_spec rc 0) as [?|_]; [lia|].
    rewrite EB. cbn [negb]. rewrite EC.
    destruct (Z.ltb_spec wc 0) as [?|_]; [lia|].
    reflexivity.
  - split; [reflexivity|]. cbn [read_fd_ write_fd_].
    split; [|split; [|split]].
    + eexists _, _. split; [apply C6; apply (fd_at_frame kA); [exact B1|exact A1]|].
      assert (HfC : file_at kC (length (files k)) ino
                      (Z.land (Z.lor O_RDONLY (Z.lor O_NONBLOCK O_CLOEXEC))
                              (Z.lor O_ACCMODE O_NONBLOCK))); [|split; [exact HfC|split; reflexivity]].
      unfold file_at. rewrite C2, lookup_app_l.
      * rewrite B2. exact HfA.
      * rewrite B2. unfold file_at in HfA. now apply lookup_lt_Some in HfA.
    + eexists _, _. split; [exact C1|].
      assert (HfC : file_at kC (length (files kB)) ino
                      (Z.land (Z.lor O_WRONLY (Z.lor O_NONBLOCK O_CLOEXEC))
                              (Z.lor O_ACCMODE O_NONBLOCK))); [|split; [exact HfC|reflexivity]].
      unfold file_at. rewrite C2, lookup_app_r by lia. now rewrite Nat.sub_diag.
    + unfold fifo_data. rewrite C3, B3, A3. exact Hi.
    + rewrite C5, B5, A5. destruct (tape k) as [|f [|g t]]; reflexivity.
Qed.

(** The read descriptor of a client made by [Client_Create] never
    blocks. *)
Lemma reads_from_never_blocks (k : Kernel) (fd : Z) (ino : nat) :
  reads_from k fd ino -> never_blocks k fd = true.
Proof.
  intros (j & flags & [cl Hd] & Hf & _ & Hnb). unfold never_blocks, resolve.
  rewrite Hd. cbn [d_file]. unfold file_at in Hf. rewrite Hf. cbn [o_inode].
  destruct (inodes k !! ino); [exact Hnb|reflexivity].
Qed.

End ClientCreateFacts.

(** ** From a pool to its clients and back *)

Section RoundTripFacts.

Import Posix Jobserver JobserverPosix.

Lemma quiet_drop (a b : nat) (k k1 : Kernel) :
  quiet (a + b) k -> tape k1 = drop a (tape k) -> quiet b k1.
Proof.
  unfold quiet. intros H ->. revert H. generalize (tape k) as t.
  induction a as [|a IH]; intros t H; [exact H|].
  destruct t as [|f t]; [now rewrite drop_nil, take_nil|].
  cbn in H. apply andb_prop in H as [_ H]. now apply IH.
Qed.

Lemma map_replicate_slot (n : nat) (b : ascii) :
  map (fun c => Some (Explicit c)) (replicate n b)
  = replicate n (Some (Explicit b)).
Proof. induction n as [|n IH]; cbn; [reflexivity|now rewrite IH]. Qed.

(** A client that still holds its implicit slot hands it out first,
    then drains the FIFO. *)
Lemma acquire_many_fresh (n m : nat) (c : Client) (ino : nat) (k : Kernel) :
  has_implicit_slot_ c = true ->
  forallb benign (tape k) = true ->
  reads_from k (read_fd_ c) ino ->
  fifo_data k ino (replicate n "+"%char) ->
  exists k',
    acquire_many (S n + m) c k
    = (Some Implicit :: replicate n (Some (Explicit "+")) ++ replicate m (Some Invalid),
       {| has_implicit_slot_ := false; read_fd_ := read_fd_ c;
          write_fd_ := write_fd_ c |}, k')
    /\ fifo_data k' ino [].
Proof.
  intros Hc Hb Hr Hi.
  destruct (acquire_many_drain (replicate n "+"%char) m
              {| has_implicit_slot_ := false; read_fd_ := read_fd_ c;
                 write_fd_ := write_fd_ c |} ino k eq_refl Hb Hr Hi)
    as (k' & E & Hi').
  exists k'. split; [|exact Hi'].
  cbn [Nat.add acquire_many]. unfold TryAcquire at 1. rewrite Hc.
  rewrite length_replicate in E. rewrite E, map_replicate_slot. reflexivity.
Qed.

(** C1 (amended): a pool of [N >= 2] slots on a pipe or on a named FIFO,
    created while the environment lets its [open] and [write] calls
    through, holds [N - 1] tokens and advertises [ -j<N>]; the string it
    advertises parses to a configuration from which a client is created;
    and that client, while the environment does nothing worse than
    interrupting its reads, is handed one implicit slot, then [N - 1]
    explicit slots, then only invalid slots.  In FIFO mode this needs
    [N < 100000], a FIFO directory without space or tab in its name and
    no file at the FIFO's path yet. *)
Theorem C1_round_trip (N : Z) (md : Mode) (k : Kernel) (m : nat) :
  2 <= N < 2 ^ 64 ->
  md = kModePipe \/ md = kModePosixFifo ->
  process_ok k ->
  quiet (creation_calls md N) k ->
  forallb benign (drop (creation_calls md N) (tape k)) = true ->
  (md = kModePosixFifo ->
   N < 100000
   /\ Str.all (fun c => negb (is_separator c)) (tmp_dir k) = true
   /\ names k !! fifo_name k = None) ->
  exists pool k1 ino env config client k2 k3,
    Pool_Create N md k = (Some pool, None, k1)
    /\ writes_to k1 (pool_write_fd_ pool) ino
    /\ fifo_data k1 ino (replicate (Z.to_nat (N - 1)) "+"%char)
    /\ GetEnvMakeFlagsValue pool = Some env
    /\ (exists rest, env = " -j" +:+ Libc.dec_unsigned N +:+ String " " rest)
    /\ ParseMakeFlagsValue (Some (Str.c_str env))
       = {| parse_ok := true; parse_config := config; parse_error := None |}
    /\ Client_Create config k1 = (Some client, None, k2)
    /\ acquire_many (Z.to_nat N + m) client k2
       = (Some Implicit
            :: replicate (Z.to_nat (N - 1)) (Some (Explicit "+"))
            ++ replicate m (Some Invalid),
          {| has_implicit_slot_ := false; read_fd_ := read_fd_ client;
             write_fd_ := write_fd_ client |}, k3)
    /\ fifo_data k3 ino [].
Proof.
  intros HN Hmd Hok Hq Hb Hfifo.
  assert (HSn : Z.to_nat N = S (Z.to_nat (N - 1))) by lia.
  destruct Hmd as [-> | ->].
  - (* a pipe *)
    clear Hfifo. cbn [creation_calls kModePipe] in Hq, Hb.
    destruct (Pool_Create_pipe N k ltac:(lia) Hq)
      as (r & w & jr & jw & ino & k1 & EP & Hr & Hw & P1 & P2 & P3 & P4 & P5 & P6 & P7).
    destruct Hok as (Hfds & _ & _).
    assert (Hr' : 0 <= r <= Libc.INT_MAX) by lia.
    assert (Hw' : 0 <= w <= Libc.INT_MAX) by lia.
    destruct (Parse_env_pipe N r w Hr' Hw') as (Hc & Hparse).
    destruct (Client_Create_pipe k1 r w jr jw ino
                (replicate (Z.to_nat (N - 1)) "+"%char) P1 P2 P3 P4 P5 P6)
      as (c & k2 & EC & C1 & C2 & C3 & C4 & C5).
    destruct (acquire_many_fresh (Z.to_nat (N - 1)) m c ino k2 C1)
      as (k3 & EA & HA); [now rewrite C5, P7|exact C2|exact C4|].
    do 8 eexists. split; [exact EP|].
    split; [exists jw, O_WRONLY; split; [exact P3|split; [exact P4|reflexivity]]|].
    split; [exact P6|].
    split; [apply GetEnvMakeFlagsValue_pipe; [lia|exact Hr'|exact Hw']|].
    split; [eexists; cbn [String.append]; reflexivity|].
    split; [rewrite Hc; exact Hparse|].
    split; [exact EC|].
    split; [rewrite HSn; exact EA|exact HA].
  - (* a named FIFO *)
    destruct (Hfifo eq_refl) as (HN5 & Hsep & Hfree).
    cbn [creation_calls] in Hq, Hb.
    destruct (Pool_Create_fifo N k ltac:(lia) Hok Hfree)
      as (w & ino & k1 & EP & P1 & P2 & P3 & P4);
      [apply (quiet_le (S (Z.to_nat (N - 1)) + 2)); [lia|exact Hq]|].
    pose proof (fifo_name_no_nul k Hok) as Hnul.
    destruct Hok as (_ & Hpid & _).
    pose proof (fifo_name_no_separator k ltac:(lia) Hsep) as Hnosep.
    destruct (Parse_env_fifo (Libc.dec_unsigned N) (fifo_name k)
                (dec_unsigned_all_digits N) Hnosep Hnul) as (Hc & Hparse).
    destruct (Client_Create_fifo k1 (fifo_name k) ino
                (replicate (Z.to_nat (N - 1)) "+"%char)
                (fifo_name_not_empty k) Hnul)
      as (c & k2 & EC & C1 & C2 & C3 & C4 & C5);
      [exact (quiet_drop _ _ _ _ Hq P4)|exact P2|exact P3|].
    destruct (acquire_many_fresh (Z.to_nat (N - 1)) m c ino k2 C1)
      as (k3 & EA & HA);
      [rewrite C5, P4, drop_drop; exact Hb|exact C2|exact C4|].
    do 8 eexists. split; [exact EP|].
    split; [exact P1|].
    split; [exact P3|].
    split; [apply GetEnvMakeFlagsValue_fifo;
            [lia|apply fifo_name_not_empty|exact Hnul]|].
    split; [eexists; cbn [String.append]; reflexivity|].
    split; [rewrite Hc; exact Hparse|].
    split; [exact EC|].
    split; [rewrite HSn; exact EA|exact HA].
Qed.

Lemma C1_round_trip_witness :
  quiet 5 (boot None 4242 [Normal; Normal; Normal; Normal; Normal; Fail EINTR; Normal])
  /\ exists pool k1 ino env config client k2 k3,
       Pool_Create 3 kModePosixFifo
         (boot None 4242 [Normal; Normal; Normal; Normal; Normal; Fail EINTR; Normal])
       = (Some pool, None, k1)
       /\ writes_to k1 (pool_write_fd_ pool) ino
       /\ fifo_data k1 ino ["+"; "+"]%char
       /\ GetEnvMakeFlagsValue pool = Some env
       /\ (exists rest, env = " -j" +:+ Libc.dec_unsigned 3 +:+ String " " rest)
       /\ ParseMakeFlagsValue (Some (Str.c_str env))
          = {| parse_ok := true; parse_config := config; parse_error := None |}
       /\ Client_Create config k1 = (Some client, None, k2)
       /\ acquire_many 5 client k2
          = ([Some Implicit; Some (Explicit "+"); Some (Explicit "+");
              Some Invalid; Some Invalid],
             {| has_implicit_slot_ := false; read_fd_ := read_fd_ client;
                write_fd_ := write_fd_ client |}, k3)
       /\ fifo_data k3 ino [].
Proof.
  split; [reflexivity|].
  apply (C1_round_trip 3 kModePosixFifo
           (boot None 4242 [Normal; Normal; Normal; Normal; Normal; Fail EINTR; Normal])
           2).
  - lia.
  - now right.
  - unfold process_ok, Libc.INT_MAX. cbn. lia.
  - reflexivity.
  - reflexivity.
  - intros _. split; [lia|]. split; reflexivity.
Defined.

(** C1, as stated, fails: a pool of two slots in FIFO mode, in a process
    whose [TMPDIR] is ["/a b"], is created and holds its one token; the
    string it advertises is cut into words at the space, so the parser
    hands back the path ["/a"], and no client is created from that
    configuration. *)
Lemma C1_counterexample :
  fst (Pool_Create 2 kModePosixFifo (boot (Some "/a b") 7 []))
  = (Some {| job_count_ := 2; pool_read_fd_ := -1; pool_write_fd_ := 3;
             fifo_ := "/a b/NinjaFIFO7" |}, None)
  /\ inodes (snd (Pool_Create 2 kModePosixFifo (boot (Some "/a b") 7 [])))
     = [mkInode S_IFREG []; mkInode S_IFIFO ["+"%char]]
  /\ GetEnvMakeFlagsValue
       {| job_count_ := 2; pool_read_fd_ := -1; pool_write_fd_ := 3;
          fifo_ := "/a b/NinjaFIFO7" |}
     = Some " -j2 --jobserver-auth=fifo:/a b/NinjaFIFO7"
  /\ ParseMakeFlagsValue (Some " -j2 --jobserver-auth=fifo:/a b/NinjaFIFO7")
     = {| parse_ok := true;
          parse_config := {| mode := kModePosixFifo; read_fd := -1;
                             write_fd := -1; path := "/a" |};
          parse_error := None |}
  /\ fst (Client_Create
            {| mode := kModePosixFifo; read_fd := -1; write_fd := -1; path := "/a" |}
            (snd (Pool_Create 2 kModePosixFifo (boot (Some "/a b") 7 []))))
     = (None, Some "Error opening fifo for reading: No such file or directory").
Proof. repeat split; vm_compute; reflexivity. Qed.

(** A [write] of [FillSlots] that a signal interrupts is not made again:
    [continue] runs the [--slot_count] of the [for] statement.  The pool
    of two slots below is created without an error and holds no token. *)
Lemma FillSlots_interrupted_write :
  fst (Pool_Create 2 kModePipe (boot None 7 [Fail EINTR]))
  = (Some {| job_count_ := 2; pool_read_fd_ := 3; pool_write_fd_ := 4;
             fifo_ := "" |}, None)
  /\ inodes (snd (Pool_Create 2 kModePipe (boot None 7 [Fail EINTR])))
     = [mkInode S_IFREG []; mkInode S_IFIFO []].
Proof. split; vm_compute; reflexivity. Qed.

(** In FIFO mode the buffer has room for 32 characters beyond the path,
    26 of which the fixed text takes: a job count of six digits loses
    the path's last character to the NUL ([ret > size] lets [ret = size]
    through), one of seven digits ends in [Fatal]. *)
Lemma GetEnvMakeFlagsValue_long_count :
  GetEnvMakeFlagsValue
    {| job_count_ := 100000; pool_read_fd_ := -1; pool_write_fd_ := 3;
       fifo_ := "/tmp/NinjaFIFO7" |}
  = Some (" -j100000 --jobserver-auth=fifo:/tmp/NinjaFIFO" +:+ String "000" "")
  /\ GetEnvMakeFlagsValue
       {| job_count_ := 1000000; pool_read_fd_ := -1; pool_write_fd_ := 3;
          fifo_ := "/tmp/NinjaFIFO7" |}
     = None.
Proof. split; vm_compute; reflexivity. Qed.

(** The [open] calls of the client's [InitWithFifo] are not made again
    when a signal interrupts them. *)
Lemma Client_Create_interrupted_open :
  fst (Client_Create
         {| mode := kModePosixFifo; read_fd := -1; write_fd := -1;
            path := "/tmp/NinjaFIFO7" |}
         (set_tape [Fail EINTR]
            (snd (Pool_Create 2 kModePosixFifo (boot None 7 [])))))
  = (None, Some "Error opening fifo for reading: Interrupted system call").
Proof. vm_compute. reflexivity. Qed.

End RoundTripFacts.

(** ** More on [ParseMakeFlagsValue]: words, gates and errors *)

Section ParserEdgeFacts.

Import Jobserver.

Lemma is_word_spec (w : string) :
  is_word w = true <->
  w <> "" /\ Str.all (fun c => negb (is_separator c)) w = true.
Proof.
  unfold is_word. rewrite andb_true_iff, negb_true_iff.
  destruct w; cbn; split; intros [H1 H2]; split; congruence.
Qed.

Lemma concat_words_cons (w : string) (ws : list string) :
  String.concat "" (w :: ws) = w +:+ String.concat "" ws.
Proof.
  destruct ws as [|v ws]; cbn [String.concat].
  - now rewrite Str_app_nil_r.
  - reflexivity.
Qed.

Lemma words_from_wellformed (cur p : string) :
  Str.all (fun c => negb (is_separator c)) cur = true ->
  Forall (fun w => is_word w = true) (words_from cur p)
  /\ String.concat "" (words_from cur p) = cur +:+ without_separators p.
Proof.
  revert cur. induction p as [|c r IH]; intros cur Hcur.
  - cbn. rewrite Str_app_nil_r. destruct cur as [|x cur]; cbn.
    + split; [constructor|reflexivity].
    + split; [|reflexivity]. constructor; [|constructor].
      unfold is_word. cbn [Str.is_empty negb andb]. exact Hcur.
  - cbn [words_from without_separators].
    destruct (is_separator c) eqn:Hc.
    + destruct (IH "" eq_refl) as [IH1 IH2]. cbn [String.append] in IH2.
      destruct cur as [|x cur]; cbn [Str.is_empty app].
      * split; [exact IH1|exact IH2].
      * split.
        -- constructor; [|exact IH1].
           unfold is_word. cbn [Str.is_empty negb andb]. exact Hcur.
        -- now rewrite concat_words_cons, IH2.
    + destruct (IH (cur +:+ String c "")) as [IH1 IH2].
      { rewrite Str_all_app, Hcur. cbn. now rewrite Hc. }
      split; [exact IH1|]. rewrite IH2, Str_app_assoc. reflexivity.
Qed.

(** The tokenizer of [ParseMakeFlagsValue]: whatever the input, no word
    is empty, no word holds a space or a tab, and the words put end to
    end are the input without its spaces and tabs. *)
Theorem split_args_wellformed (env : string) :
  Forall (fun w => is_word w = true) (split_args env)
  /\ String.concat "" (split_args env) = without_separators env.
Proof.
  rewrite split_args_words. exact (words_from_wellformed "" env eq_refl).
Qed.

Lemma words_from_join (ws : list string) :
  Forall (fun w => is_word w = true) ws ->
  words_from "" (join_words ws) = ws.
Proof.
  induction ws as [|w ws IH]; intros H; [reflexivity|].
  apply Forall_cons in H as [Hw Hws].
  apply is_word_spec in Hw as [Hne Hall].
  destruct ws as [|v ws].
  - cbn [join_words]. now apply words_from_last.
  - cbn [join_words]. rewrite words_from_token by assumption.
    f_equal. now apply IH.
Qed.

(** Words joined by single spaces come back as they were. *)
Theorem split_args_join_words (ws : list string) :
  Forall (fun w => is_word w = true) ws ->
  split_args (join_words ws) = ws.
Proof. intros H. rewrite split_args_words. now apply words_from_join. Qed.

Lemma split_args_join_words_witness :
  split_args (join_words ["-j3"; "--jobserver-fds=3,4"; "--jobserver-auth=3,4"])
  = ["-j3"; "--jobserver-fds=3,4"; "--jobserver-auth=3,4"].
Proof.
  apply (split_args_join_words ["-j3"; "--jobserver-fds=3,4"; "--jobserver-auth=3,4"]).
  repeat constructor.
Defined.

(** The dry-run test: when the first word does not start with a dash
    and has an [n] in it, nothing that follows is looked at; the result
    is the default configuration, also when a later word is a malformed
    [--jobserver-fds=] option. *)
Theorem Parse_dry_run_first_word (w rest : string) :
  is_word w = true ->
  starts_with "-" w = false ->
  Str.contains w "n" = true ->
  ParseMakeFlagsValue (Some w)
  = {| parse_ok := true; parse_config := Config_default; parse_error := None |}
  /\ ParseMakeFlagsValue (Some (w +:+ String " " rest))
     = {| parse_ok := true; parse_config := Config_default; parse_error := None |}.
Proof.
  intros Hw Hdash Hn. apply is_word_spec in Hw as [Hne Hall].
  assert (Hdry : forall ws, is_dry_run (w :: ws) = true).
  { intros ws. destruct w as [|c0 r]; [congruence|]. cbn [is_dry_run].
    cbn [starts_with] in Hdash. rewrite Hdash. exact Hn. }
  split.
  - unfold ParseMakeFlagsValue. destruct w as [|c0 r] eqn:Ew; [congruence|].
    rewrite <- Ew in *. rewrite words_from_single by assumption.
    now rewrite Hdry.
  - unfold ParseMakeFlagsValue.
    destruct (w +:+ String " " rest) as [|c0 r] eqn:Ew.
    + destruct w; discriminate.
    + rewrite <- Ew. rewrite split_args_words, words_from_token by assumption.
      now rewrite Hdry.
Qed.

Lemma Parse_dry_run_first_word_witness :
  ParseMakeFlagsValue (Some "kn")
  = {| parse_ok := true; parse_config := Config_default; parse_error := None |}
  /\ ParseMakeFlagsValue (Some "kn --jobserver-fds=x")
     = {| parse_ok := true; parse_config := Config_default; parse_error := None |}.
Proof.
  apply (Parse_dry_run_first_word "kn" "--jobserver-fds=x"); reflexivity.
Defined.

Lemma scan_d_minus (s : string) :
  starts_with_digit s = true ->
  Libc.scan_d (String "-" s)
  = Some (Libc.to_int (Z.max Libc.LONG_MIN
                         (Z.min Libc.LONG_MAX (- fst (Libc.scan_digits s 0)))),
          snd (Libc.scan_digits s 0)).
Proof.
  destruct s as [|c r]; [discriminate|]. cbn [starts_with_digit]. intros Hc.
  unfold Libc.scan_d.
  apply isdigit_cases in Hc. cbn in Hc.
  repeat destruct Hc as [<-|Hc]; try contradiction;
    cbn [Libc.skip_space Libc.isspace Libc.isdigit];
    destruct (Libc.scan_digits _ 0); reflexivity.
Qed.

(** [%d] reads back what [%d] printed, for every [int]. *)
Lemma scan_d_printed (n : Z) (rest : string) :
  INT_MIN <= n <= Libc.INT_MAX ->
  starts_with_digit rest = false ->
  Libc.scan_d (Libc.dec n +:+ rest) = Some (n, rest).
Proof.
  intros Hn Hrest. unfold Libc.dec.
  destruct (Z.ltb_spec n 0) as [Hneg|Hpos].
  - cbn [String.append]. rewrite scan_d_minus by apply dec_unsigned_first.
    rewrite scan_digits_dec_unsigned by (lia || assumption). cbn [fst snd].
    f_equal. f_equal.
    unfold INT_MIN, Libc.INT_MAX, Libc.LONG_MIN, Libc.LONG_MAX, Libc.to_int in *.
    rewrite Z.min_r, Z.max_r by lia.
    replace ((- - n + 2 ^ 31) mod 2 ^ 32) with (n + 2 ^ 31)
      by (rewrite Z.mod_small; lia).
    lia.
  - rewrite scan_d_digit_start by apply dec_unsigned_first.
    rewrite scan_digits_dec_unsigned by (lia || assumption). cbn [fst snd].
    rewrite to_int_small by lia. reflexivity.
Qed.

Lemma dec_no_nul_no_separator (n : Z) :
  Str.all (fun c => negb (Ascii.eqb c "000")) (Libc.dec n) = true
  /\ Str.all (fun c => negb (is_separator c)) (Libc.dec n) = true.
Proof.
  unfold Libc.dec. destruct (n <? 0); cbn [Str.all];
    rewrite ?(digits_no_nul _ (dec_unsigned_all_digits _)),
            ?(digits_no_separator _ (dec_unsigned_all_digits _));
    split; reflexivity.
Qed.

(** [GetFileDescriptorPair] on a pair of [int]s as [%d,%d] prints it:
    the pair is stored, and any negative descriptor selects Mode None. *)
Lemma GetFileDescriptorPair_any_pair (r w : Z) (config : Config) :
  INT_MIN <= r <= Libc.INT_MAX -> INT_MIN <= w <= Libc.INT_MAX ->
  GetFileDescriptorPair (Libc.dec r +:+ "," +:+ Libc.dec w) config
  = (true, {| mode := if (r <? 0) || (w <? 0) then kModeNone
                      else kModeFileDescriptors;
              read_fd := r; write_fd := w; path := path config |}).
Proof.
  intros Hr Hw. unfold GetFileDescriptorPair.
  destruct (dec_no_nul_no_separator r) as [Hrn _].
  destruct (dec_no_nul_no_separator w) as [Hwn _].
  rewrite Str_c_str_id by (rewrite !Str_all_app, Hrn, Hwn; reflexivity).
  unfold Libc.sscanf_d_comma_d.
  rewrite scan_d_printed by (assumption || reflexivity).
  cbn [String.append].
  pose proof (scan_d_printed w "" Hw eq_refl) as E. rewrite Str_app_nil_r in E.
  rewrite E. cbn [Z.eqb negb Pos.eqb set_fds read_fd write_fd].
  destruct ((r <? 0) || (w <? 0)); reflexivity.
Qed.

Lemma pair_is_word (r w : Z) (prefix : string) :
  is_word prefix = true ->
  is_word (prefix +:+ Libc.dec r +:+ "," +:+ Libc.dec w) = true.
Proof.
  intros [Hne Hall]%is_word_spec. apply is_word_spec. split.
  - destruct prefix; [congruence|discriminate].
  - destruct (dec_no_nul_no_separator r) as [_ Hr].
    destruct (dec_no_nul_no_separator w) as [_ Hw].
    rewrite !Str_all_app, Hall, Hr, Hw. reflexivity.
Qed.

Lemma Parse_single_option (w : string) :
  is_word w = true -> starts_with "-" w = true ->
  ParseMakeFlagsValue (Some w) = parse_loop [w] Config_default.
Proof.
  intros Hw Hdash. pose proof Hw as [Hne Hall]%is_word_spec.
  unfold ParseMakeFlagsValue. destruct w as [|c0 r] eqn:Ew; [congruence|].
  rewrite <- Ew in *. rewrite words_from_single by assumption.
  rewrite Ew in Hdash |- *. cbn [is_dry_run]. cbn [starts_with] in Hdash.
  now rewrite Hdash.
Qed.

(** A negative descriptor in [--jobserver-auth=R,W] disables the
    jobserver (Mode None); the same pair in [--jobserver-fds=R,W] leaves
    Mode FileDescriptors, and no client can be created from that
    configuration. *)
Theorem negative_descriptor_pair (r w : Z) :
  INT_MIN <= r <= Libc.INT_MAX -> INT_MIN <= w <= Libc.INT_MAX ->
  r < 0 \/ w < 0 ->
  (let res := ParseMakeFlagsValue
                (Some ("--jobserver-auth=" +:+ Libc.dec r +:+ "," +:+ Libc.dec w)) in
   parse_ok res = true /\ mode (parse_config res) = kModeNone
   /\ read_fd (parse_config res) = r /\ write_fd (parse_config res) = w)
  /\ (let res := ParseMakeFlagsValue
                   (Some ("--jobserver-fds=" +:+ Libc.dec r +:+ "," +:+ Libc.dec w)) in
      parse_ok res = true /\ mode (parse_config res) = kModeFileDescriptors
      /\ read_fd (parse_config res) = r /\ write_fd (parse_config res) = w
      /\ forall k : Posix.Kernel,
           fst (JobserverPosix.Client_Create (parse_config res) k)
           = (None, Some "Invalid file descriptors")).
Proof.
  intros Hr Hw Hneg.
  assert (Hmode : (r <? 0) || (w <? 0) = true).
  { apply orb_true_iff. destruct Hneg; [left|right]; now apply Z.ltb_lt. }
  pose proof (GetFileDescriptorPair_any_pair r w Config_default Hr Hw) as HP.
  rewrite Hmode in HP.
  split.
  - rewrite Parse_single_option; [|now apply pair_is_word|reflexivity].
    cbn [parse_loop]. unfold parse_arg. rewrite GetPrefixedValue_app, HP.
    cbn. repeat split.
  - rewrite Parse_single_option; [|now apply pair_is_word|reflexivity].
    cbn [parse_loop]. unfold parse_arg.
    change (GetPrefixedValue ("--jobserver-fds=" +:+ Libc.dec r +:+ "," +:+ Libc.dec w)
              "--jobserver-auth=") with (@None string).
    rewrite GetPrefixedValue_app, HP.
    cbn [negb parse_config parse_ok set_mode mode read_fd write_fd path].
    repeat split. intros k.
    unfold JobserverPosix.Client_Create.
    cbn [parse_config set_mode mode read_fd write_fd path].
    rewrite decide_True by reflexivity.
    unfold JobserverPosix.Client_InitWithPipeFds.
    assert (Hbad : forall fd k0, fd < 0 ->
              fst (JobserverPosix.IsFifoDescriptor fd k0) = false).
    { intros fd k0 Hfd. unfold JobserverPosix.IsFifoDescriptor, Posix.sys_fstat,
        Posix.resolve, Posix.descriptor.
      destruct (Z.ltb_spec fd 0) as [_|?]; [reflexivity|lia]. }
    destruct (JobserverPosix.IsFifoDescriptor r k) as [fifo_r k1] eqn:E1.
    destruct fifo_r.
    + destruct (JobserverPosix.IsFifoDescriptor w k1) as [fifo_w k2] eqn:E2.
      assert (fifo_w = false) as ->.
      { destruct Hneg as [Hneg|Hneg].
        - pose proof (Hbad r k Hneg) as F. rewrite E1 in F. discriminate.
        - pose proof (Hbad w k1 Hneg) as F. now rewrite E2 in F. }
      reflexivity.
    + reflexivity.
Qed.

Lemma negative_descriptor_pair_witness :
  mode (parse_config (ParseMakeFlagsValue (Some "--jobserver-auth=-1,4"))) = kModeNone
  /\ mode (parse_config (ParseMakeFlagsValue (Some "--jobserver-fds=-1,4")))
     = kModeFileDescriptors.
Proof.
  destruct (negative_descriptor_pair (-1) 4) as [(_ & H1 & _) (_ & H2 & _)].
  - unfold INT_MIN, Libc.INT_MAX. lia.
  - unfold INT_MIN, Libc.INT_MAX. lia.
  - left. lia.
  - split; [exact H1|exact H2].
Defined.

Lemma parse_loop_app_accepted (pre rest : list string) (before : Config) :
  forallb accepted pre = true ->
  exists after, parse_loop (pre ++ rest) before = parse_loop rest after.
Proof.
  revert before. induction pre as [|v pre IH]; intros before H.
  - now exists before.
  - cbn in H. apply andb_true_iff in H as [Hv Hpre].
    destruct (parse_arg_accepted v before Hv) as [mid E].
    destruct (IH mid Hpre) as [after E'].
    exists after. cbn [app parse_loop]. now rewrite E.
Qed.

(** A [--jobserver-fds=] word whose value is no descriptor pair makes
    the parse fail, with the value quoted in the error, whatever words
    follow it and whatever well-formed options come before it. *)
Theorem Parse_invalid_fds (env value : string) (pre post : list string) :
  split_args env = pre ++ ("--jobserver-fds=" +:+ value) :: post ->
  is_dry_run (split_args env) = false ->
  forallb accepted pre = true ->
  fst (GetFileDescriptorPair value Config_default) = false ->
  parse_ok (ParseMakeFlagsValue (Some env)) = false
  /\ parse_error (ParseMakeFlagsValue (Some env))
     = Some ("Invalid file descriptor pair [" +:+ value +:+ "]").
Proof.
  intros Hsplit Hdry Hpre Hbad.
  assert (Henv : ParseMakeFlagsValue (Some env)
                 = parse_loop (split_args env) Config_default).
  { unfold ParseMakeFlagsValue. destruct env as [|c0 r] eqn:Ee.
    - destruct pre; discriminate.
    - rewrite <- Ee in *. now rewrite Hdry. }
  rewrite Henv, Hsplit.
  destruct (parse_loop_app_accepted pre (("--jobserver-fds=" +:+ value) :: post)
              Config_default Hpre) as [after ->].
  cbn [parse_loop]. unfold parse_arg.
  change (GetPrefixedValue ("--jobserver-fds=" +:+ value) "--jobserver-auth=")
    with (@None string).
  rewrite GetPrefixedValue_app.
  destruct (GetFileDescriptorPair_independent value after Config_default) as [Hfst _].
  destruct (GetFileDescriptorPair value after) as [ok config] eqn:E.
  cbn [fst] in Hfst. rewrite Hbad in Hfst. subst ok. cbn. split; reflexivity.
Qed.

Lemma Parse_invalid_fds_witness :
  parse_ok (ParseMakeFlagsValue (Some "-j3 --jobserver-auth=3,4 --jobserver-fds=3;4 x"))
  = false
  /\ parse_error
       (ParseMakeFlagsValue (Some "-j3 --jobserver-auth=3,4 --jobserver-fds=3;4 x"))
     = Some "Invalid file descriptor pair [3;4]".
Proof.
  apply (Parse_invalid_fds "-j3 --jobserver-auth=3,4 --jobserver-fds=3;4 x" "3;4"
           ["-j3"; "--jobserver-auth=3,4"] ["x"]); reflexivity.
Defined.

(** A [--jobserver-auth=] value that is neither a descriptor pair nor a
    [fifo:] path is taken for the name of a Windows semaphore, and
    [ParseNativeMakeFlagsValue] turns it down on POSIX. *)
Theorem ParseNative_semaphore (value : string) :
  Str.all (fun c => negb (is_separator c)) value = true ->
  fst (GetFileDescriptorPair value Config_default) = false ->
  GetPrefixedValue value "fifo:" = None ->
  (let res := ParseMakeFlagsValue (Some ("--jobserver-auth=" +:+ value)) in
   parse_ok res = true /\ mode (parse_config res) = kModeWin32Semaphore
   /\ path (parse_config res) = value)
  /\ (let res := ParseNativeMakeFlagsValue (Some ("--jobserver-auth=" +:+ value)) in
      parse_ok res = false
      /\ parse_error res = Some "Semaphore mode is only available on Windows!").
Proof.
  intros Hsep Hbad Hfifo.
  assert (Hparse : ParseMakeFlagsValue (Some ("--jobserver-auth=" +:+ value))
                   = {| parse_ok := true;
                        parse_config :=
                          set_path value
                            (set_mode kModeWin32Semaphore
                               (snd (GetFileDescriptorPair value Config_default)));
                        parse_error := None |}).
  { rewrite Parse_single_option; [| |reflexivity].
    - cbn [parse_loop]. unfold parse_arg. rewrite GetPrefixedValue_app.
      destruct (GetFileDescriptorPair value Config_default) as [ok config].
      cbn [fst] in Hbad. subst ok. rewrite Hfifo. reflexivity.
    - apply is_word_spec. split; [discriminate|].
      rewrite Str_all_app, Hsep. reflexivity. }
  split.
  - rewrite Hparse. cbn. repeat split.
  - unfold ParseNativeMakeFlagsValue. rewrite Hparse.
    cbn [parse_ok negb parse_config set_path set_mode mode].
    rewrite decide_True by reflexivity. cbn. split; reflexivity.
Qed.

Lemma ParseNative_semaphore_witness :
  parse_ok (ParseNativeMakeFlagsValue (Some "--jobserver-auth=gmake_semaphore_12"))
  = false
  /\ parse_error (ParseNativeMakeFlagsValue (Some "--jobserver-auth=gmake_semaphore_12"))
     = Some "Semaphore mode is only available on Windows!".
Proof.
  destruct (ParseNative_semaphore "gmake_semaphore_12") as [_ H];
    [reflexivity|reflexivity|reflexivity|exact H].
Defined.

End ParserEdgeFacts.

(** ** More on the pool: interrupted writes, long job counts, names *)

Section PoolEdgeFacts.

Import Posix Jobserver JobserverPosix.

Lemma interruptions_le (n : nat) (k : Kernel) : (interruptions n k <= n)%nat.
Proof.
  unfold interruptions.
  pose proof (length_filter (fun f => is_Normal f = false) (take n (tape k))).
  rewrite length_take in H. lia.
Qed.

Lemma sys_write_EINTR (k : Kernel) (fd : Z) (b : ascii) (t : list Fault) :
  tape k = Fail EINTR :: t ->
  sys_write k fd b
  = (-1, log (EvWrite fd b (-1)) (fail EINTR (set_tape t k))).
Proof. intros Ht. unfold sys_write, next_fault. now rewrite Ht. Qed.

(** [FillSlots] when the environment does nothing worse to its writes
    than interrupting them: it reports success, and every interrupted
    write is a token less in the pool. *)
Lemma FillSlots_loop_benign (n : nat) (wfd : Z) (j ino : nat) (flags : Z)
  (data : list ascii) (k : Kernel) :
  forallb benign (take n (tape k)) = true ->
  fd_at k wfd j -> file_at k j ino flags -> writable flags = true ->
  fifo_data k ino data ->
  exists k',
    FillSlots_loop n wfd k = (true, None, k')
    /\ fds k' = fds k /\ files k' = files k /\ names k' = names k
    /\ tape k' = drop n (tape k)
    /\ fifo_data k' ino (data ++ replicate (n - interruptions n k) "+"%char).
Proof.
  revert data k. induction n as [|n IH]; intros data k Hb Hfd Hf Hw Hi.
  - exists k. cbn. rewrite app_nil_r. repeat split. exact Hi.
  - assert (Hstep : forall k1 data1,
              fds k1 = fds k -> files k1 = files k -> names k1 = names k ->
              tape k1 = tail (tape k) -> fifo_data k1 ino data1 ->
              exists k',
                FillSlots_loop n wfd k1 = (true, None, k')
                /\ fds k' = fds k /\ files k' = files k /\ names k' = names k
                /\ tape k' = drop (S n) (tape k)
                /\ fifo_data k' ino
                     (data1 ++ replicate (n - interruptions n k1) "+"%char)).
    { intros k1 data1 H1 H2 H3 H4 H5.
      destruct (IH data1 k1) as (k' & E & G1 & G2 & G3 & G4 & G5).
      - rewrite H4. destruct (tape k) as [|f t]; [cbn; now rewrite take_nil|].
        cbn in Hb |- *. now apply andb_prop in Hb as [_ Hb].
      - now apply (fd_at_frame k).
      - now apply (file_at_frame k).
      - exact Hw.
      - exact H5.
      - exists k'. split; [exact E|]. repeat split; try congruence.
        now rewrite G4, H4, drop_tail. }
    destruct (tape k) as [|f t] eqn:Ht; [|destruct f as [|e|]].
    + assert (Hn : head_normal k) by (unfold head_normal; now rewrite Ht).
      destruct (sys_write_fifo k wfd "+" j ino flags data Hn Hfd Hf Hw Hi)
        as (k1 & E & H1 & H2 & H3 & H4 & H5 & _).
      rewrite Ht in H4.
      destruct (Hstep k1 (data ++ ["+"%char]) H1 H2 H3 H4)
        as (k' & E' & G1 & G2 & G3 & G4 & G5).
      { unfold fifo_data. rewrite H5. apply list_lookup_insert_eq.
        now apply lookup_lt_Some in Hi. }
      exists k'. cbn [FillSlots_loop]. rewrite E. cbn [Z.eqb negb Pos.eqb].
      split; [exact E'|]. repeat split; try assumption.
      unfold interruptions in *. rewrite H4 in G5. cbn [tail] in G5.
      rewrite Ht, take_nil in *. cbn in G5 |- *.
      rewrite Nat.sub_0_r in G5. rewrite <- app_assoc in G5. exact G5.
    + assert (Hn : head_normal k) by (unfold head_normal; now rewrite Ht).
      destruct (sys_write_fifo k wfd "+" j ino flags data Hn Hfd Hf Hw Hi)
        as (k1 & E & H1 & H2 & H3 & H4 & H5 & _).
      rewrite Ht in H4. cbn [tail] in H4.
      destruct (Hstep k1 (data ++ ["+"%char]) H1 H2 H3 H4)
        as (k' & E' & G1 & G2 & G3 & G4 & G5).
      { unfold fifo_data. rewrite H5. apply list_lookup_insert_eq.
        now apply lookup_lt_Some in Hi. }
      exists k'. cbn [FillSlots_loop]. rewrite E. cbn [Z.eqb negb Pos.eqb].
      split; [exact E'|]. repeat split; try assumption.
      pose proof (interruptions_le n k1) as Hle.
      assert (Hsame : interruptions (S n) k = interruptions n k1).
      { unfold interruptions. rewrite Ht, H4. cbn [take].
        rewrite filter_cons_False by (cbn; congruence). reflexivity. }
      rewrite Hsame. replace (S n - interruptions n k1)%nat
        with (S (n - interruptions n k1)) by lia.
      rewrite <- app_assoc in G5. exact G5.
    + cbn in Hb. apply andb_prop in Hb as [He Hb].
      destruct e; try discriminate.
      set (k1 := log (EvWrite wfd "+" (-1)) (fail EINTR (set_tape t k))).
      destruct (Hstep k1 data eq_refl eq_refl eq_refl eq_refl Hi)
        as (k' & E' & G1 & G2 & G3 & G4 & G5).
      exists k'. cbn [FillSlots_loop]. rewrite (sys_write_EINTR k wfd "+" t Ht).
      fold k1. change ((-1 <? 0) && bool_decide (errno k1 = EINTR)) with true.
      cbn [Z.eqb negb].
      split; [exact E'|]. repeat split; try assumption.
      assert (Hsame : interruptions (S n) k = S (interruptions n k1)).
      { unfold interruptions. rewrite Ht. cbn [take].
        rewrite filter_cons_True by reflexivity. reflexivity. }
      rewrite Hsame. exact G5.
    + cbn in Hb. discriminate.
Qed.

(** A pool on a pipe whose writes are interrupted [i] times is created
    without an error, answers for [N] jobs, and holds [N - 1 - i]
    tokens: an interrupted write is not made again. *)
Theorem Pool_Create_interrupted_writes (N : Z) (k : Kernel) :
  2 <= N ->
  forallb benign (take (Z.to_nat (N - 1)) (tape k)) = true ->
  exists pool k1 ino,
    Pool_Create N kModePipe k = (Some pool, None, k1)
    /\ job_count_ pool = N
    /\ writes_to k1 (pool_write_fd_ pool) ino
    /\ fifo_data k1 ino
         (replicate (Z.to_nat (N - 1) - interruptions (Z.to_nat (N - 1)) k)
                    "+"%char).
Proof.
  intros HN Hb.
  destruct (sys_pipe_spec k)
    as (r & w & k0 & E & Hr & Hw & Hfr & Hfw & Hfiles & Hinodes & _ & Htape & _).
  assert (Hjw : file_at k0 (S (length (files k))) (length (inodes k)) O_WRONLY).
  { unfold file_at. rewrite Hfiles.
    rewrite lookup_app_r by lia.
    now replace (S (length (files k)) - length (files k))%nat with 1%nat by lia. }
  assert (Hi : fifo_data k0 (length (inodes k)) []).
  { unfold fifo_data. rewrite Hinodes.
    rewrite lookup_app_r by lia. now rewrite Nat.sub_diag. }
  destruct (FillSlots_loop_benign (Z.to_nat (N - 1)) w (S (length (files k)))
              (length (inodes k)) O_WRONLY [] k0)
    as (k1 & E1 & G1 & G2 & G3 & G4 & G5);
    [now rewrite Htape|exact Hfw|exact Hjw|reflexivity|exact Hi|].
  eexists _, k1, (length (inodes k)). split.
  - unfold Pool_Create. destruct (Z.ltb_spec N 2) as [?|_]; [lia|].
    rewrite decide_True by reflexivity.
    unfold Pool_InitWithPipe. rewrite E. cbn [Z.ltb Z.compare].
    unfold FillSlots. cbn [pool_write_fd_ pool_read_fd_ fifo_ job_count_ Pool_new].
    rewrite E1. reflexivity.
  - split; [reflexivity|]. cbn [pool_write_fd_]. split.
    + exists (S (length (files k))), O_WRONLY.
      split; [now apply (fd_at_frame k0)|].
      split; [now apply (file_at_frame k0)|reflexivity].
    + cbn [app] in G5. unfold interruptions in *. now rewrite <- Htape.
Qed.

Lemma Pool_Create_interrupted_writes_witness :
  exists pool k1 ino,
    Pool_Create 4 kModePipe (boot None 7 [Normal; Fail EINTR; Normal])
    = (Some pool, None, k1)
    /\ job_count_ pool = 4
    /\ writes_to k1 (pool_write_fd_ pool) ino
    /\ fifo_data k1 ino ["+"; "+"]%char.
Proof.
  apply (Pool_Create_interrupted_writes 4 (boot None 7 [Normal; Fail EINTR; Normal]));
    [lia|reflexivity].
Defined.

Lemma digits_length_lower (fuel : nat) (n : Z) (k : nat) :
  10 ^ Z.of_nat k <= n < 10 ^ Z.of_nat fuel ->
  (S k <= String.length (Libc.digits fuel n ""))%nat.
Proof.
  revert n k. induction fuel as [|fuel IH]; intros n k [Hlo Hhi].
  - pose proof (Z.pow_pos_nonneg 10 (Z.of_nat k) ltac:(lia) ltac:(lia)).
    change (10 ^ Z.of_nat 0) with 1 in Hhi. lia.
  - cbn [Libc.digits]. destruct (Z.ltb_spec n 10) as [Hlt|Hge].
    + destruct k as [|k]; [cbn; lia|].
      rewrite Nat2Z.inj_succ, Z.pow_succ_r in Hlo by lia.
      pose proof (Z.pow_pos_nonneg 10 (Z.of_nat k) ltac:(lia) ltac:(lia)). lia.
    + rewrite digits_app, Str_length_app. cbn [String.length].
      destruct k as [|k]; [lia|].
      rewrite Nat2Z.inj_succ, Z.pow_succ_r in Hlo, Hhi by lia.
      assert (Hdiv : 10 ^ Z.of_nat k <= n / 10 < 10 ^ Z.of_nat fuel).
      { split; [apply Z.div_le_lower_bound; lia|apply Z.div_lt_upper_bound; lia]. }
      specialize (IH (n / 10) k Hdiv). lia.
Qed.

Lemma dec_unsigned_length_lower (n : Z) (k : nat) :
  10 ^ Z.of_nat k <= n -> (S k <= String.length (Libc.dec_unsigned n))%nat.
Proof.
  intros Hlo. unfold Libc.dec_unsigned. apply digits_length_lower.
  split; [exact Hlo|]. apply log2_fuel.
  pose proof (Z.pow_pos_nonneg 10 (Z.of_nat k) ltac:(lia) ltac:(lia)). lia.
Qed.

Lemma overwrite_full (src dst : string) :
  String.length src = String.length dst -> overwrite src dst = src.
Proof.
  revert dst. induction src as [|c src IH]; intros [|d dst] H; cbn in *;
    try reflexivity; try discriminate.
  now rewrite IH by lia.
Qed.

Lemma Str_take_length (n : nat) (s : string) :
  (n <= String.length s)%nat -> String.length (Str.take n s) = n.
Proof.
  revert s. induction n as [|n IH]; intros s H; [reflexivity|].
  destruct s as [|c s]; cbn in *; [lia|]. rewrite IH by lia. reflexivity.
Qed.

(** In FIFO mode [GetEnvMakeFlagsValue] formats into [fifo_.size() + 32]
    characters, 26 of which the fixed text takes: with a job count of
    six digits the NUL takes the place of the path's last character
    ([ret > size] lets [ret = size] through), with seven digits or more
    the call ends in [Fatal]. *)
Theorem GetEnvMakeFlagsValue_fifo_long_count (N w : Z) (fifo : string) :
  fifo <> "" ->
  Str.all (fun c => negb (Ascii.eqb c "000")) fifo = true ->
  (100000 <= N < 1000000 ->
   GetEnvMakeFlagsValue
     {| job_count_ := N; pool_read_fd_ := -1; pool_write_fd_ := w; fifo_ := fifo |}
   = Some (" -j" +:+ Libc.dec_unsigned N +:+ " --jobserver-auth=fifo:"
           +:+ Str.take (String.length fifo - 1) fifo +:+ String "000" ""))
  /\ (1000000 <= N < 2 ^ 63 ->
      GetEnvMakeFlagsValue
        {| job_count_ := N; pool_read_fd_ := -1; pool_write_fd_ := w; fifo_ := fifo |}
      = None).
Proof.
  intros Hne Hnul.
  assert (Hemp : Str.is_empty fifo = false) by (destruct fifo; [congruence|reflexivity]).
  assert (Hpos : (1 <= String.length fifo)%nat) by (destruct fifo; [congruence|cbn; lia]).
  assert (Hshape : forall N, 0 <= N < 2 ^ 63 ->
            GetEnvMakeFlagsValue
              {| job_count_ := N; pool_read_fd_ := -1; pool_write_fd_ := w;
                 fifo_ := fifo |}
            = let result := resize (String.length fifo + 32) "" in
              let '(ret, result) :=
                snprintf result (" -j" +:+ Libc.dec_unsigned N
                                 +:+ " --jobserver-auth=fifo:" +:+ fifo) in
              if (ret <? 0) || (ret >? Z.of_nat (String.length result)) then None
              else Some (resize (Z.to_nat ret) result)).
  { intros M HM. unfold GetEnvMakeFlagsValue.
    cbn [fifo_ pool_read_fd_ pool_write_fd_ job_count_].
    rewrite Hemp. cbn [negb].
    assert (Hss : Libc.to_ssize M = M).
    { unfold Libc.to_ssize. rewrite Z.mod_small by lia. lia. }
    rewrite Hss, dec_nonneg by lia. rewrite Str_c_str_id by exact Hnul.
    cbv zeta. destruct (snprintf _ _) as [ret result].
    destruct ((ret <? 0) || (ret >? Z.of_nat (String.length result)));
      reflexivity. }
  split; intros HN.
  - rewrite Hshape by lia. cbv zeta. unfold snprintf.
    rewrite resize_length.
    destruct (Nat.eqb_spec (String.length fifo + 32) 0) as [?|_]; [lia|].
    set (text := " -j" +:+ _).
    assert (Hlen : String.length text = (String.length fifo + 32)%nat).
    { subst text. cbn [String.append String.length].
      repeat (rewrite Str_length_app; cbn [String.append String.length]).
      pose proof (dec_unsigned_length N 6 ltac:(lia) ltac:(lia)).
      pose proof (dec_unsigned_length_lower N 5 ltac:(lia)). lia. }
    pose (A := " -j" +:+ Libc.dec_unsigned N +:+ " --jobserver-auth=fifo:"
               +:+ Str.take (String.length fifo - 1) fifo).
    assert (Hcut : Str.take (String.length fifo + 32 - 1) text = A).
    { subst text A.
      assert (Hd : String.length (Libc.dec_unsigned N) = 6%nat).
      { pose proof (dec_unsigned_length N 6 ltac:(lia) ltac:(lia)).
        pose proof (dec_unsigned_length_lower N 5 ltac:(lia)). lia. }
      destruct (Libc.dec_unsigned N) as [|d1 [|d2 [|d3 [|d4 [|d5 [|d6 [|]]]]]]];
        try discriminate.
      replace (String.length fifo + 32 - 1)%nat
        with (32 + (String.length fifo - 1))%nat by lia.
      reflexivity. }
    rewrite Hcut.
    assert (HA : String.length A = (String.length fifo + 32 - 1)%nat).
    { rewrite <- Hcut. apply Str_take_length. lia. }
    assert (Hw : String.length (A +:+ String "000" "")
                 = (String.length fifo + 32)%nat).
    { rewrite Str_length_app, HA. cbn. lia. }
    rewrite overwrite_full by (now rewrite resize_length).
    rewrite Hlen, Hw.
    destruct (Z.ltb_spec (Z.of_nat (String.length fifo + 32)) 0) as [?|_]; [lia|].
    destruct (Z.gtb_spec (Z.of_nat (String.length fifo + 32))
                (Z.of_nat (String.length fifo + 32))) as [?|_]; [lia|].
    cbn [orb]. rewrite Nat2Z.id. unfold resize.
    rewrite Hw, Nat.sub_diag. cbn [Str.fill].
    rewrite Str_app_nil_r, Str_take_all by lia.
    subst A. rewrite !Str_app_assoc. reflexivity.
  - rewrite Hshape by lia. cbv zeta. unfold snprintf.
    rewrite resize_length.
    destruct (Nat.eqb_spec (String.length fifo + 32) 0) as [?|_]; [lia|].
    rewrite overwrite_length, resize_length.
    set (text := " -j" +:+ _).
    assert (Hlen : (String.length fifo + 32 < String.length text)%nat).
    { subst text. cbn [String.append String.length].
      repeat (rewrite Str_length_app; cbn [String.append String.length]).
      pose proof (dec_unsigned_length_lower N 6 ltac:(lia)). lia. }
    destruct (Z.gtb_spec (Z.of_nat (String.length text))
                (Z.of_nat (String.length fifo + 32))) as [_|?]; [|lia].
    now rewrite orb_true_r.
Qed.

Lemma GetEnvMakeFlagsValue_fifo_long_count_witness :
  GetEnvMakeFlagsValue
    {| job_count_ := 100000; pool_read_fd_ := -1; pool_write_fd_ := 3;
       fifo_ := "/tmp/NinjaFIFO7" |}
  = Some (" -j100000 --jobserver-auth=fifo:/tmp/NinjaFIFO" +:+ String "000" "")
  /\ GetEnvMakeFlagsValue
       {| job_count_ := 1000000; pool_read_fd_ := -1; pool_write_fd_ := 3;
          fifo_ := "/tmp/NinjaFIFO7" |}
     = None.
Proof.
  destruct (GetEnvMakeFlagsValue_fifo_long_count 100000 3 "/tmp/NinjaFIFO7")
    as [H1 _]; [discriminate|reflexivity|].
  destruct (GetEnvMakeFlagsValue_fifo_long_count 1000000 3 "/tmp/NinjaFIFO7")
    as [_ H2]; [discriminate|reflexivity|].
  split; [apply H1; lia|apply H2; lia].
Defined.

End PoolEdgeFacts.

(** ** No descriptor is left behind *)

Section DescriptorFacts.

Import Posix Jobserver JobserverPosix.

Lemma same_descriptors_fds (k k' : Kernel) :
  fds k' = fds k -> same_descriptors k k'.
Proof. intros H fd. unfold descriptor. now rewrite H. Qed.

Lemma same_descriptors_trans (k1 k2 k3 : Kernel) :
  same_descriptors k1 k2 -> same_descriptors k2 k3 -> same_descriptors k1 k3.
Proof. intros H12 H23 fd. now rewrite H23, H12. Qed.

Lemma adds_descriptor_frame (k k1 k2 : Kernel) (fd : Z) :
  adds_descriptor k k1 fd -> same_descriptors k1 k2 -> adds_descriptor k k2 fd.
Proof.
  intros (H0 & H1 & H2 & H3) H. repeat split; try assumption.
  - now rewrite H.
  - intros fd' Hne. rewrite H. now apply H3.
Qed.

Lemma adds_descriptor_before (k0 k k1 : Kernel) (fd : Z) :
  same_descriptors k0 k -> adds_descriptor k k1 fd -> adds_descriptor k0 k1 fd.
Proof.
  intros H (H0 & H1 & H2 & H3). repeat split; try assumption.
  - now rewrite <- H.
  - intros fd' Hne. rewrite <- H. now apply H3.
Qed.

Lemma install_adds (d : Descriptor) (k : Kernel) :
  adds_descriptor k (snd (install d k)) (fst (install d k)).
Proof.
  pose proof (install_range d k) as Hr.
  pose proof (lowest_free_bound (fds k)) as Hb.
  split; [lia|]. split; [|split].
  - destruct (descriptor k (fst (install d k))) as [d0|] eqn:E; [|reflexivity].
    apply descriptor_Some in E as [_ E]. rewrite install_fst, Nat2Z.id in E.
    now apply lowest_free_is_free in E.
  - rewrite descriptor_install_new. eauto.
  - intros fd Hne. rewrite install_fst in Hne. unfold descriptor.
    destruct (Z.ltb_spec fd 0) as [?|Hfd]; [reflexivity|].
    assert (Hi : Z.to_nat fd <> lowest_free (fds k)) by lia.
    destruct (Nat.ltb_spec (Z.to_nat fd) (length (fds k))) as [Hlt|Hge].
    + now rewrite install_lookup_old.
    + rewrite (lookup_ge_None_2 (fds k)) by lia.
      unfold install. cbn [snd]. unfold Posix.set_fds. cbn [fds].
      destruct (Nat.ltb_spec (lowest_free (fds k)) (length (fds k))).
      * rewrite lookup_ge_None_2; [reflexivity|]. rewrite length_insert; lia.
      * rewrite lookup_ge_None_2; [reflexivity|].
        rewrite length_app. cbn. lia.
Qed.

Lemma sys_close_descriptor (k : Kernel) (fd fd' : Z) :
  descriptor (snd (sys_close k fd)) fd'
  = if decide (fd' = fd) then None else descriptor k fd'.
Proof.
  unfold sys_close. destruct (descriptor k fd) as [d|] eqn:E; cbn [snd].
  - apply descriptor_Some in E as [Hfd Hl].
    unfold descriptor. cbn [log Posix.set_fds fds].
    case_decide as Hd.
    + subst fd'. destruct (Z.ltb_spec fd 0) as [?|_]; [reflexivity|].
      rewrite list_lookup_insert_eq; [reflexivity|now apply lookup_lt_Some in Hl].
    + destruct (Z.ltb_spec fd' 0) as [?|?]; [reflexivity|].
      rewrite list_lookup_insert_ne by lia. reflexivity.
  - case_decide as Hd; [subst fd'; exact E|reflexivity].
Qed.

(** Closing the descriptor a call added gives the table back. *)
Lemma close_added (k k1 : Kernel) (fd : Z) :
  adds_descriptor k k1 fd -> same_descriptors k (snd (sys_close k1 fd)).
Proof.
  intros (H0 & H1 & H2 & H3) fd'. rewrite sys_close_descriptor.
  case_decide as Hd; [now subst fd'|now apply H3].
Qed.

Lemma sys_open_named (k0 k : Kernel) (path : string) (flags : Z) (ino : nat)
  (fd : Z) (k' : Kernel) :
  fds k0 = fds k ->
  (let file := length (files k0) in
   let status := Z.land flags (Z.lor O_ACCMODE O_NONBLOCK) in
   let k1 := set_files (files k0 ++ [mkOpenFile ino status]) k0 in
   let cloexec := if Z.land flags O_CLOEXEC =? 0 then 0 else FD_CLOEXEC in
   let '(fd, k2) := install (mkDescriptor file cloexec) k1 in
   (fd, log (EvOpen path flags fd) k2)) = (fd, k') ->
  adds_descriptor k k' fd.
Proof.
  intros Hk0. cbv zeta.
  set (k1 := set_files _ k0). set (d := mkDescriptor _ _).
  rewrite (install_eq d k1). intros [= <- <-].
  apply (adds_descriptor_before k k1); [now apply same_descriptors_fds|].
  apply (adds_descriptor_frame k1 (snd (install d k1)));
    [apply install_adds|now apply same_descriptors_fds].
Qed.

(** [open] fails and leaves the table alone, or adds one descriptor. *)
Lemma sys_open_cases (k : Kernel) (path : string) (flags : Z) (fd : Z)
  (k' : Kernel) :
  sys_open k path flags = (fd, k') ->
  (fd = -1 /\ fds k' = fds k) \/ adds_descriptor k k' fd.
Proof.
  unfold sys_open, next_fault.
  destruct (tape k) as [|f t]; [|destruct f as [|e|]].
  - destruct (names k !! path) as [ino|] eqn:E.
    + intros H. right. now apply (sys_open_named k k path flags ino).
    + intros [= <- <-]. left. now split.
  - change (names (set_tape t k)) with (names k).
    destruct (names k !! path) as [ino|] eqn:E.
    + intros H. right. now apply (sys_open_named (set_tape t k) k path flags ino).
    + intros [= <- <-]. left. now split.
  - intros [= <- <-]. left. now split.
  - change (names (set_tape t k)) with (names k).
    destruct (names k !! path) as [ino|] eqn:E.
    + intros H. right. now apply (sys_open_named (set_tape t k) k path flags ino).
    + intros [= <- <-]. left. now split.
Qed.

Lemma open_retry_cases (fuel : nat) (k : Kernel) (path : string) (flags : Z)
  (fd : Z) (k' : Kernel) :
  open_retry fuel path flags k = (fd, k') ->
  (fd = -1 /\ fds k' = fds k) \/ adds_descriptor k k' fd.
Proof.
  revert k. induction fuel as [|fuel IH]; intros k; cbn [open_retry];
    destruct (sys_open k path flags) as [fd0 k0] eqn:E;
    pose proof (sys_open_cases k path flags fd0 k0 E) as Hc.
  - now intros [= <- <-].
  - destruct ((fd0 <? 0) && bool_decide (errno k0 = EINTR)) eqn:Hretry.
    + intros H. apply andb_prop in Hretry as [Hneg _]. apply Z.ltb_lt in Hneg.
      destruct Hc as [[_ Hfds]|(H0 & _)]; [|lia].
      destruct (IH k0 H) as [[-> Hfds']|Hadd].
      * left. split; [reflexivity|congruence].
      * right. apply (adds_descriptor_before k k0);
          [now apply same_descriptors_fds|exact Hadd].
    + now intros [= <- <-].
Qed.

Lemma FillSlots_loop_fds (n : nat) (wfd : Z) (k : Kernel) :
  fds (snd (FillSlots_loop n wfd k)) = fds k.
Proof.
  revert k. induction n as [|n IH]; intros k; cbn [FillSlots_loop]; [reflexivity|].
  destruct (sys_write_frame k wfd "+") as (Hfds & _).
  destruct (sys_write k wfd "+") as [ret k1]. cbn [snd] in Hfds.
  destruct (negb (ret =? 1)); [destruct (_ && _)|];
    rewrite ?IH; cbn [snd]; exact Hfds.
Qed.

Lemma sys_unlink_fds (k : Kernel) (path : string) :
  fds (snd (sys_unlink k path)) = fds k.
Proof. unfold sys_unlink. destruct (names k !! path); reflexivity. Qed.

Lemma sys_mknod_fifo_fds (k : Kernel) (path : string) :
  fds (snd (sys_mknod_fifo k path)) = fds k.
Proof. unfold sys_mknod_fifo. destruct (names k !! path); reflexivity. Qed.

(** [pipe] adds two descriptors, one after the other. *)
Lemma sys_pipe_adds (k : Kernel) :
  exists r w kmid k',
    sys_pipe k = (0, r, w, k')
    /\ adds_descriptor k kmid r /\ adds_descriptor kmid k' w.
Proof.
  unfold sys_pipe.
  set (kA := set_files _ (set_inodes _ k)).
  set (d1 := mkDescriptor _ 0). set (d2 := mkDescriptor _ 0).
  rewrite (install_eq d1 kA).
  rewrite (install_eq d2 (snd (install d1 kA))).
  exists (fst (install d1 kA)), (fst (install d2 (snd (install d1 kA)))),
    (snd (install d1 kA)), (log (EvPipe 0 (fst (install d1 kA))
                                   (fst (install d2 (snd (install d1 kA)))))
                              (snd (install d2 (snd (install d1 kA))))).
  split; [reflexivity|]. split.
  - apply (adds_descriptor_before k kA); [now apply same_descriptors_fds|].
    apply install_adds.
  - apply (adds_descriptor_frame _ (snd (install d2 (snd (install d1 kA)))));
      [apply install_adds|now apply same_descriptors_fds].
Qed.

(** Closing the two descriptors of a pipe, in either order, gives the
    table back. *)
Lemma close_pipe (k kmid k1 k2 : Kernel) (r w : Z) :
  adds_descriptor k kmid r -> adds_descriptor kmid k1 w ->
  same_descriptors k1 k2 ->
  same_descriptors k (snd (sys_close (snd (sys_close k2 r)) w)).
Proof.
  intros (R0 & R1 & R2 & R3) (W0 & W1 & W2 & W3) H fd.
  assert (Hrw : r <> w).
  { intros ->. rewrite W1 in R2. now destruct R2. }
  rewrite !sys_close_descriptor, H.
  destruct (decide (fd = w)) as [->|Hw].
  - rewrite <- R3 by auto. now rewrite W1.
  - destruct (decide (fd = r)) as [->|Hr]; [now rewrite R1|].
    rewrite W3 by assumption. now apply R3.
Qed.

Lemma Pool_destroy_descriptor (p : Pool) (k : Kernel) (fd : Z) :
  descriptor (Pool_destroy p k) fd
  = if decide (fd = pool_write_fd_ p /\ 0 <= pool_write_fd_ p) then None
    else if decide (fd = pool_read_fd_ p /\ 0 <= pool_read_fd_ p) then None
    else descriptor k fd.
Proof.
  unfold Pool_destroy.
  set (k1 := if pool_read_fd_ p >=? 0 then _ else k).
  set (k2 := if pool_write_fd_ p >=? 0 then _ else k1).
  assert (H3 : descriptor (if negb (Str.is_empty (fifo_ p))
                           then snd (sys_unlink k2 (Str.c_str (fifo_ p))) else k2) fd
               = descriptor k2 fd).
  { destruct (negb _); [|reflexivity].
    unfold descriptor. now rewrite sys_unlink_fds. }
  rewrite H3. subst k2 k1.
  destruct (Z.geb_spec (pool_write_fd_ p) 0) as [Hw|Hw];
    destruct (Z.geb_spec (pool_read_fd_ p) 0) as [Hr|Hr];
    rewrite ?sys_close_descriptor;
    repeat case_decide; try reflexivity; try lia;
    try (exfalso; tauto).
Qed.

(** [Pool::Create] either hands out a pool or leaves the descriptor
    table as it found it: what a failed initialisation opened, the
    destructor closes. *)
Theorem Pool_Create_failure_no_leak (N : Z) (md : Mode) (k : Kernel) :
  fst (fst (Pool_Create N md k)) = None ->
  same_descriptors k (snd (Pool_Create N md k)).
Proof.
  unfold Pool_Create. destruct (N <? 2); [intros _ fd; reflexivity|].
  destruct (decide (md = kModePipe)) as [_|_];
    [|destruct (decide (md = kModePosixFifo)) as [_|_]].
  - (* a pipe *)
    unfold Pool_InitWithPipe.
    destruct (sys_pipe_adds k) as (r & w & kmid & k0 & E & Hr & Hw).
    rewrite E. cbn [Z.ltb Z.compare]. unfold FillSlots.
    cbn [pool_read_fd_ pool_write_fd_ fifo_ job_count_ Pool_new].
    pose proof (FillSlots_loop_fds (Z.to_nat (N - 1)) w k0) as Hfds.
    destruct (FillSlots_loop (Z.to_nat (N - 1)) w k0) as [[ok err] k1].
    cbn [snd] in Hfds. destruct ok; cbn [negb fst snd]; [discriminate|].
    intros _ fd. rewrite Pool_destroy_descriptor.
    cbn [pool_read_fd_ pool_write_fd_].
    destruct Hr as (R0 & R1 & R2 & R3). destruct Hw as (W0 & W1 & W2 & W3).
    assert (Hrw : r <> w) by (intros ->; rewrite W1 in R2; now destruct R2).
    destruct (decide (fd = w /\ 0 <= w)) as [[-> _]|Dw];
      [|destruct (decide (fd = r /\ 0 <= r)) as [[-> _]|Dr]].
    + rewrite <- R3 by auto. now rewrite W1.
    + now rewrite R1.
    + unfold descriptor at 1. rewrite Hfds. fold (descriptor k0 fd).
      rewrite W3, R3; [reflexivity| |]; intros ->; tauto.
  - (* a named FIFO *)
    unfold Pool_InitWithFifo. cbn [fifo_ Pool_new pool_read_fd_ pool_write_fd_ job_count_].
    destruct (snprintf _ _) as [len fifo] eqn:Es.
    assert (Hlen : 0 <= len).
    { unfold snprintf in Es. injection Es as <- _. lia. }
    destruct (Z.ltb_spec len 0) as [?|_]; [lia|].
    pose proof (sys_mknod_fifo_fds k (Str.c_str (resize (Z.to_nat len) fifo))) as HM.
    destruct (sys_mknod_fifo k (Str.c_str (resize (Z.to_nat len) fifo)))
      as [ret kM]. cbn [snd] in HM.
    destruct (ret <? 0).
    + cbn [negb fst snd]. intros _ fd. rewrite Pool_destroy_descriptor.
      cbn [pool_read_fd_ pool_write_fd_].
      destruct (decide (fd = -1 /\ 0 <= -1)) as [[_ ?]|_]; [lia|].
      unfold descriptor. now rewrite HM.
    + destruct (open_retry (length (tape kM))
                  (Str.c_str (resize (Z.to_nat len) fifo))
                  (Z.lor O_RDWR O_CLOEXEC) kM) as [wfd kA] eqn:EA.
      pose proof (open_retry_cases _ _ _ _ _ _ EA) as Hc.
      destruct (Z.ltb_spec wfd 0) as [Hneg|Hpos].
      * cbn [negb fst snd]. intros _ fd. rewrite Pool_destroy_descriptor.
        cbn [pool_read_fd_ pool_write_fd_].
        destruct (decide (fd = wfd /\ 0 <= wfd)) as [[_ ?]|_]; [lia|].
        destruct (decide (fd = -1 /\ 0 <= -1)) as [[_ ?]|_]; [lia|].
        destruct Hc as [[_ Hfds]|(A0 & _)]; [|lia].
        unfold descriptor. now rewrite Hfds, HM.
      * unfold FillSlots.
        cbn [pool_read_fd_ pool_write_fd_ fifo_ job_count_].
        pose proof (FillSlots_loop_fds (Z.to_nat (N - 1)) wfd kA) as Hfds.
        destruct (FillSlots_loop (Z.to_nat (N - 1)) wfd kA) as [[ok err] k1].
        cbn [snd] in Hfds. destruct ok; cbn [negb fst snd]; [discriminate|].
        intros _ fd. rewrite Pool_destroy_descriptor.
        cbn [pool_read_fd_ pool_write_fd_].
        destruct Hc as [[-> _]|(A0 & A1 & A2 & A3)]; [lia|].
        destruct (decide (fd = wfd /\ 0 <= wfd)) as [[-> _]|Dw];
          [|destruct (decide (fd = -1 /\ 0 <= -1)) as [[_ ?]|_]; [lia|]].
        -- unfold descriptor in A1 |- *. now rewrite <- HM.
        -- unfold descriptor at 1. rewrite Hfds. fold (descriptor kA fd).
           rewrite A3 by (intros ->; tauto).
           unfold descriptor. now rewrite HM.
  - cbn [negb fst snd]. intros _ fd. rewrite Pool_destroy_descriptor.
    cbn [pool_read_fd_ pool_write_fd_ Pool_new].
    destruct (decide (fd = -1 /\ 0 <= -1)) as [[_ ?]|_]; [lia|reflexivity].
Qed.

Lemma Pool_Create_failure_no_leak_witness :
  same_descriptors (boot None 7 [Fail EIO])
    (snd (Pool_Create 3 kModePipe (boot None 7 [Fail EIO]))).
Proof.
  apply (Pool_Create_failure_no_leak 3 kModePipe (boot None 7 [Fail EIO])).
  reflexivity.
Defined.

Lemma Client_destroy_descriptor (c : Client) (k : Kernel) (fd : Z) :
  descriptor (Client_destroy c k) fd
  = if decide (fd = read_fd_ c /\ 0 <= read_fd_ c) then None
    else if decide (fd = write_fd_ c /\ 0 <= write_fd_ c) then None
    else descriptor k fd.
Proof.
  unfold Client_destroy.
  destruct (Z.geb_spec (write_fd_ c) 0) as [Hw|Hw];
    destruct (Z.geb_spec (read_fd_ c) 0) as [Hr|Hr];
    rewrite ?sys_close_descriptor;
    repeat case_decide; try reflexivity; try lia;
    try (exfalso; tauto).
Qed.

Lemma IsFifoDescriptor_fds (fd : Z) (k : Kernel) :
  fds (snd (IsFifoDescriptor fd k)) = fds k.
Proof.
  unfold IsFifoDescriptor, sys_fstat.
  destruct (resolve k fd) as [[[d f] i]|]; reflexivity.
Qed.

Lemma SetNonBlockingFd_fds (fd : Z) (k : Kernel) :
  fds (snd (SetNonBlockingFd fd k)) = fds k.
Proof.
  unfold SetNonBlockingFd, fcntl_GETFL, fcntl_SETFL.
  destruct (resolve k fd) as [[[d f] i]|] eqn:E.
  - destruct (Z.land (o_flags f) O_NONBLOCK =? 0); [|reflexivity].
    match goal with
    | |- context [resolve (log ?e k) fd] =>
        change (resolve (log e k) fd) with (resolve k fd)
    end.
    rewrite E. reflexivity.
  - cbn. match goal with
    | |- context [resolve ?k0 fd] => change (resolve k0 fd) with (resolve k fd)
    end.
    rewrite E. reflexivity.
Qed.

Lemma SetCloseOnExecFd_descriptor (fd : Z) (k : Kernel) :
  (is_Some (descriptor k fd) -> is_Some (descriptor (snd (SetCloseOnExecFd fd k)) fd))
  /\ forall fd', fd' <> fd ->
       descriptor (snd (SetCloseOnExecFd fd k)) fd' = descriptor k fd'.
Proof.
  unfold SetCloseOnExecFd, fcntl_GETFD, fcntl_SETFD.
  destruct (descriptor k fd) as [d|] eqn:E.
  - destruct (Z.land (d_flags d) FD_CLOEXEC =? 0).
    + match goal with
      | |- context [descriptor (log ?e k) fd] =>
          change (descriptor (log e k) fd) with (descriptor k fd)
      end.
      rewrite E. cbn [Z.ltb Z.compare snd]. split.
      * intros _.
        match goal with
        | |- is_Some (descriptor (log _ (Posix.set_fds (<[_ := Some ?d']> _) ?k0)) fd) =>
            change (is_Some (descriptor (Posix.set_fds (<[Z.to_nat fd := Some d']> (fds k)) k) fd))
        end.
        rewrite (descriptor_set k fd fd _ d E), decide_True by reflexivity. eauto.
      * intros fd' Hne.
        match goal with
        | |- descriptor (log _ (Posix.set_fds (<[_ := Some ?d']> _) ?k0)) fd' = _ =>
            change (descriptor (Posix.set_fds (<[Z.to_nat fd := Some d']> (fds k)) k) fd'
                    = descriptor k fd')
        end.
        now rewrite (descriptor_set k fd fd' _ d E), decide_False.
    + cbn [snd]. split; [intros _; change (is_Some (descriptor k fd)); rewrite E; eauto|].
      reflexivity.
  - cbn. match goal with
    | |- context [descriptor ?k0 fd] => change (descriptor k0 fd) with (descriptor k fd)
    end.
    rewrite E. cbn. split; [intros [? [=]]|reflexivity].
Qed.

(** [DuplicateDescriptor] fails and leaves the table as it was, or adds
    one descriptor. *)
Lemma DuplicateDescriptor_cases (fd to : Z) (k : Kernel) (ok : bool) (n : Z)
  (k' : Kernel) :
  DuplicateDescriptor fd to k = (ok, n, k') ->
  (ok = false /\ n = to /\ same_descriptors k k')
  \/ (ok = true /\ adds_descriptor k k' n).
Proof.
  unfold DuplicateDescriptor, sys_dup.
  destruct (descriptor k fd) as [d|] eqn:E.
  - rewrite (install_eq (mkDescriptor (d_file d) 0) k).
    pose proof (install_adds (mkDescriptor (d_file d) 0) k) as Hadd.
    set (n0 := fst (install _ k)) in *.
    set (kA := snd (install _ k)) in *.
    destruct Hadd as (A0 & A1 & A2 & A3).
    destruct (Z.ltb_spec n0 0) as [?|_]; [lia|].
    pose proof (SetNonBlockingFd_fds n0 (log (EvDup fd n0) kA)) as HB.
    destruct (SetNonBlockingFd n0 (log (EvDup fd n0) kA)) as [ok1 kB].
    cbn [snd] in HB.
    assert (HdB : forall fd', descriptor kB fd' = descriptor kA fd')
      by (intros fd'; unfold descriptor; now rewrite HB).
    destruct ok1; cbn [negb].
    + destruct (SetCloseOnExecFd_descriptor n0 kB) as [HC1 HC2].
      destruct (SetCloseOnExecFd n0 kB) as [ok2 kC]. cbn [snd] in HC1, HC2.
      destruct ok2; cbn [negb].
      * intros [= <- <- <-]. right. split; [reflexivity|].
        repeat split; try assumption.
        -- apply HC1. now rewrite HdB.
        -- intros fd' Hne. rewrite HC2, HdB by assumption. now apply A3.
      * rewrite (surjective_pairing (sys_close kC n0)).
        intros [= <- <- <-]. left. repeat split. intros fd'.
        rewrite sys_close_descriptor. case_decide as Hd; [now subst fd'|].
        rewrite HC2, HdB by assumption. now apply A3.
    + rewrite (surjective_pairing (sys_close kB n0)).
      intros [= <- <- <-]. left. repeat split. intros fd'.
      rewrite sys_close_descriptor. case_decide as Hd; [now subst fd'|].
      rewrite HdB. now apply A3.
  - cbn [Z.ltb Z.compare]. intros [= <- <- <-]. left. repeat split.
Qed.

(** When [Client::Create] hands out no client, the descriptor table is
    the one it found.  In the kernel of module [Posix] a [dup] or
    [fcntl] on an open descriptor does not fail, so with two descriptors
    the only failure met is the [fstat] test, before anything is
    opened; the failures that leave a descriptor to the destructor are
    those of a named FIFO. *)
Lemma Client_Create_descriptors_kept (config : Config) (k : Kernel) :
  fst (fst (Client_Create config k)) = None ->
  same_descriptors k (snd (Client_Create config k)).
Proof.
  unfold Client_Create.
  destruct (decide (mode config = kModePipe)) as [_|_];
    [|destruct (decide (mode config = kModePosixFifo)) as [_|_]].
  - (* two descriptors *)
    unfold Client_InitWithPipeFds.
    pose proof (IsFifoDescriptor_fds (read_fd config) k) as H1.
    destruct (IsFifoDescriptor (read_fd config) k) as [fifo_r k1]. cbn [snd] in H1.
    assert (H2 : forall b : bool,
              fds (snd (if b then IsFifoDescriptor (write_fd config) k1
                        else (false, k1))) = fds k).
    { intros [|]; [rewrite IsFifoDescriptor_fds|]; exact H1. }
    specialize (H2 fifo_r).
    destruct (if fifo_r then IsFifoDescriptor (write_fd config) k1 else (false, k1))
      as [fifo_w k2]. cbn [snd] in H2.
    destruct (negb fifo_r || negb fifo_w).
    + cbn [negb fst snd]. intros _ fd. rewrite Client_destroy_descriptor.
      cbn [read_fd_ write_fd_ Client_new].
      destruct (decide (fd = -1 /\ 0 <= -1)) as [[_ ?]|_]; [lia|].
      unfold descriptor. now rewrite H2.
    + cbn [read_fd_ write_fd_ has_implicit_slot_ Client_new].
      destruct (DuplicateDescriptor (read_fd config) (-1) k2)
        as [[ok rfd] k3] eqn:E3.
      destruct (DuplicateDescriptor_cases _ _ _ _ _ _ E3)
        as [(-> & -> & S3)|(-> & R0 & R1 & R2 & R3)]; cbn [negb].
      * cbn [fst snd]. intros _ fd. rewrite Client_destroy_descriptor.
        cbn [read_fd_ write_fd_].
        destruct (decide (fd = -1 /\ 0 <= -1)) as [[_ ?]|_]; [lia|].
        rewrite S3. unfold descriptor. now rewrite H2.
      * cbn [read_fd_ write_fd_ has_implicit_slot_].
        destruct (DuplicateDescriptor (write_fd config) (-1) k3)
          as [[ok wfd] k4] eqn:E4.
        destruct (DuplicateDescriptor_cases _ _ _ _ _ _ E4)
          as [(-> & -> & S4)|(-> & _)]; cbn [negb fst snd]; [|discriminate].
        intros _ fd. rewrite Client_destroy_descriptor.
        cbn [read_fd_ write_fd_].
        destruct (decide (fd = rfd /\ 0 <= rfd)) as [[-> _]|Dr].
        -- unfold descriptor in R1 |- *. now rewrite <- H2.
        -- destruct (decide (fd = -1 /\ 0 <= -1)) as [[_ ?]|_]; [lia|].
           rewrite S4, R3 by (intros ->; tauto).
           unfold descriptor. now rewrite H2.
  - (* a named FIFO *)
    unfold Client_InitWithFifo.
    destruct (Str.is_empty (path config)).
    + cbn [negb fst snd]. intros _ fd. rewrite Client_destroy_descriptor.
      cbn [read_fd_ write_fd_ Client_new].
      destruct (decide (fd = -1 /\ 0 <= -1)) as [[_ ?]|_]; [lia|reflexivity].
    + destruct (sys_open k (Str.c_str (path config))
                  (Z.lor O_RDONLY (Z.lor O_NONBLOCK O_CLOEXEC))) as [rfd k1] eqn:E1.
      pose proof (sys_open_cases _ _ _ _ _ E1) as Hc1.
      cbn [read_fd_ write_fd_ has_implicit_slot_ Client_new].
      destruct (Z.ltb_spec rfd 0) as [Hneg|Hpos].
      * cbn [negb fst snd]. intros _ fd. rewrite Client_destroy_descriptor.
        cbn [read_fd_ write_fd_].
        destruct (decide (fd = rfd /\ 0 <= rfd)) as [[_ ?]|_]; [lia|].
        destruct (decide (fd = -1 /\ 0 <= -1)) as [[_ ?]|_]; [lia|].
        destruct Hc1 as [[_ Hfds]|(A0 & _)]; [|lia].
        unfold descriptor. now rewrite Hfds.
      * destruct Hc1 as [[-> _]|(R0 & R1 & R2 & R3)]; [lia|].
        pose proof (IsFifoDescriptor_fds rfd k1) as H2.
        destruct (IsFifoDescriptor rfd k1) as [is_fifo k2]. cbn [snd] in H2.
        destruct is_fifo; cbn [negb].
        -- destruct (sys_open k2 (Str.c_str (path config))
                       (Z.lor O_WRONLY (Z.lor O_NONBLOCK O_CLOEXEC)))
             as [wfd k3] eqn:E3.
           pose proof (sys_open_cases _ _ _ _ _ E3) as Hc3.
           cbn [read_fd_ write_fd_ has_implicit_slot_].
           destruct (Z.ltb_spec wfd 0) as [Hneg|Hpos3]; cbn [negb fst snd];
             [|discriminate].
           intros _ fd. rewrite Client_destroy_descriptor.
           cbn [read_fd_ write_fd_].
           destruct Hc3 as [[_ Hfds]|(A0 & _)]; [|lia].
           destruct (decide (fd = rfd /\ 0 <= rfd)) as [[-> _]|Dr]; [now rewrite R1|].
           destruct (decide (fd = wfd /\ 0 <= wfd)) as [[_ ?]|_]; [lia|].
           unfold descriptor at 1. rewrite Hfds, H2. fold (descriptor k1 fd).
           apply R3. intros ->. tauto.
        -- cbn [fst snd]. intros _ fd. rewrite Client_destroy_descriptor.
           cbn [read_fd_ write_fd_].
           destruct (decide (fd = rfd /\ 0 <= rfd)) as [[-> _]|Dr]; [now rewrite R1|].
           destruct (decide (fd = -1 /\ 0 <= -1)) as [[_ ?]|_]; [lia|].
           unfold descriptor at 1. rewrite H2. fold (descriptor k1 fd).
           apply R3. intros ->. tauto.
  - cbn [negb fst snd]. intros _ fd. rewrite Client_destroy_descriptor.
    cbn [read_fd_ write_fd_ Client_new].
    destruct (decide (fd = -1 /\ 0 <= -1)) as [[_ ?]|_]; [lia|reflexivity].
Qed.

(** [Client::Create] on a named FIFO leaves no descriptor behind.  When
    [InitWithFifo] fails after its first [open] succeeded (the path
    names no FIFO, or the second [open] fails), it returns with one more
    descriptor open, [read_fd_], and with [write_fd_] unset; the
    destructor that [Create] then runs closes it, so whenever [Create]
    hands out no client the descriptor table is the one from before the
    call. *)
Theorem Client_Create_fifo_failure_closes (P : string) (r w : Z) (k : Kernel) :
  (forall c err k1,
      Client_InitWithFifo P Client_new k = (false, c, err, k1) ->
      0 <= read_fd_ c ->
      adds_descriptor k k1 (read_fd_ c) /\ write_fd_ c = -1)
  /\ (fst (fst (Client_Create {| mode := kModePosixFifo; read_fd := r;
                                 write_fd := w; path := P |} k)) = None ->
      same_descriptors k
        (snd (Client_Create {| mode := kModePosixFifo; read_fd := r;
                               write_fd := w; path := P |} k))).
Proof.
  split; [|apply Client_Create_descriptors_kept].
  unfold Client_InitWithFifo. intros c err k1.
  destruct (Str.is_empty P).
  { intros [= <- <- <-]. cbn. lia. }
  destruct (sys_open k (Str.c_str P) (Z.lor O_RDONLY (Z.lor O_NONBLOCK O_CLOEXEC)))
    as [rfd k2] eqn:E1.
  pose proof (sys_open_cases _ _ _ _ _ E1) as Hc1.
  cbn [read_fd_ write_fd_ has_implicit_slot_ Client_new].
  destruct (Z.ltb_spec rfd 0) as [Hneg|Hpos].
  { intros [= <- <- <-]. cbn. lia. }
  destruct Hc1 as [[-> _]|Hadd]; [lia|].
  pose proof (IsFifoDescriptor_fds rfd k2) as H2.
  destruct (IsFifoDescriptor rfd k2) as [is_fifo k3]. cbn [snd] in H2.
  destruct is_fifo; cbn [negb].
  - destruct (sys_open k3 (Str.c_str P) (Z.lor O_WRONLY (Z.lor O_NONBLOCK O_CLOEXEC)))
      as [wfd k4] eqn:E3.
    pose proof (sys_open_cases _ _ _ _ _ E3) as Hc3.
    cbn [read_fd_ write_fd_ has_implicit_slot_].
    destruct (Z.ltb_spec wfd 0) as [Hneg|Hpos3]; [|discriminate].
    destruct Hc3 as [[-> Hfds]|(A0 & _)]; [|lia].
    intros [= <- <- <-] _. cbn [read_fd_ write_fd_]. split; [|reflexivity].
    apply (adds_descriptor_frame k k2 k4 rfd Hadd).
    apply same_descriptors_fds. now rewrite Hfds, H2.
  - intros [= <- <- <-] _. cbn [read_fd_ write_fd_]. split; [|reflexivity].
    apply (adds_descriptor_frame k k2 k3 rfd Hadd).
    now apply same_descriptors_fds.
Qed.

Lemma Client_Create_fifo_failure_closes_witness :
  fst (Client_InitWithFifo "/tmp/plain" Client_new
         (set_names (<["/tmp/plain" := 0%nat]> ∅) (boot None 7 [])))
  = (false, {| has_implicit_slot_ := true; read_fd_ := 3; write_fd_ := -1 |},
     Some "Not a fifo path: /tmp/plain")
  /\ adds_descriptor
       (set_names (<["/tmp/plain" := 0%nat]> ∅) (boot None 7 []))
       (snd (Client_InitWithFifo "/tmp/plain" Client_new
               (set_names (<["/tmp/plain" := 0%nat]> ∅) (boot None 7 []))))
       3
  /\ same_descriptors
       (set_names (<["/tmp/plain" := 0%nat]> ∅) (boot None 7 []))
       (snd (Client_Create {| mode := kModePosixFifo; read_fd := -1; write_fd := -1;
                              path := "/tmp/plain" |}
               (set_names (<["/tmp/plain" := 0%nat]> ∅) (boot None 7 [])))).
Proof.
  destruct (Client_Create_fifo_failure_closes "/tmp/plain" (-1) (-1)
              (set_names (<["/tmp/plain" := 0%nat]> ∅) (boot None 7 [])))
    as [Hopen Hclosed].
  split; [reflexivity|]. split.
  - apply (Hopen {| has_implicit_slot_ := true; read_fd_ := 3; write_fd_ := -1 |}
                 (Some "Not a fifo path: /tmp/plain")
                 (snd (Client_InitWithFifo "/tmp/plain" Client_new
                         (set_names (<["/tmp/plain" := 0%nat]> ∅) (boot None 7 []))))).
    + reflexivity.
    + cbn. lia.
  - apply Hclosed. reflexivity.
Defined.

End DescriptorFacts.

(** ** The pool's FIFO in the file system *)

Section PoolNameFacts.

Import Posix Jobserver JobserverPosix.

(** [InitWithFifo] once the path is formatted: [mknod], then [open],
    then [FillSlots], all on the path [fifo_name k]. *)
Lemma Pool_InitWithFifo_shape (N : Z) (k : Kernel) :
  process_ok k ->
  Pool_InitWithFifo N Pool_new k
  = let path := fifo_name k in
    let '(ret, k1) := sys_mknod_fifo k path in
    if ret <? 0 then
      (false, {| job_count_ := 0; pool_read_fd_ := -1; pool_write_fd_ := -1;
                 fifo_ := path |},
       Some ("Cannot create fifo: " +:+ strerror (errno k1)), k1)
    else
      let '(wfd, k2) :=
        open_retry (length (tape k1)) path (Z.lor O_RDWR O_CLOEXEC) k1 in
      let p := {| job_count_ := 0; pool_read_fd_ := -1; pool_write_fd_ := wfd;
                  fifo_ := path |} in
      if wfd <? 0 then
        (false, p, Some ("Could not open fifo: " +:+ strerror (errno k2)), k2)
      else FillSlots N p k2.
Proof.
  intros Hok. pose proof (fifo_name_no_nul k Hok) as Hnul.
  destruct Hok as (_ & Hpid & _).
  assert (Hlen : (String.length (fifo_name k)
                  < String.length (resize (String.length (tmp_dir k) + 32) ""))%nat).
  { rewrite resize_length. unfold fifo_name.
    pose proof (dec_length_int (pid k) Hpid).
    rewrite !Str_length_app. cbn [String.length]. lia. }
  destruct (snprintf_fits _ _ Hlen) as (out & Eout & _ & Hres).
  unfold Pool_InitWithFifo. cbn [fifo_ Pool_new pool_read_fd_ pool_write_fd_ job_count_].
  change (match env_TMPDIR k with Some d => d | None => "/tmp" end)
    with (tmp_dir k).
  change (tmp_dir k +:+ "/NinjaFIFO" +:+ Libc.dec (pid k)) with (fifo_name k).
  rewrite Eout.
  destruct (Z.ltb_spec (Z.of_nat (String.length (fifo_name k))) 0) as [?|_]; [lia|].
  rewrite Nat2Z.id, Hres. rewrite Str_c_str_id by exact Hnul.
  reflexivity.
Qed.

Lemma sys_unlink_names (k : Kernel) (path : string) :
  names (snd (sys_unlink k path)) = delete path (names k).
Proof.
  unfold sys_unlink. destruct (names k !! path) eqn:E; cbn; [reflexivity|].
  now rewrite delete_id.
Qed.

Lemma sys_close_names (k : Kernel) (fd : Z) :
  names (snd (sys_close k fd)) = names k.
Proof. unfold sys_close. destruct (descriptor k fd); reflexivity. Qed.

Lemma Pool_destroy_names (p : Pool) (k : Kernel) :
  names (Pool_destroy p k)
  = if Str.is_empty (fifo_ p) then names k
    else delete (Str.c_str (fifo_ p)) (names k).
Proof.
  unfold Pool_destroy. cbv zeta.
  destruct (pool_read_fd_ p >=? 0), (pool_write_fd_ p >=? 0),
    (Str.is_empty (fifo_ p)); cbn [negb];
    rewrite ?sys_unlink_names, ?sys_close_names; reflexivity.
Qed.

Lemma sys_open_names (k : Kernel) (path : string) (flags : Z) :
  names (snd (sys_open k path flags)) = names k.
Proof.
  assert (Hgo : forall k0 : Kernel, names k0 = names k ->
            names (snd (match names k0 !! path with
                        | Some ino =>
                            let file := length (files k0) in
                            let status := Z.land flags (Z.lor O_ACCMODE O_NONBLOCK) in
                            let k1 := set_files (files k0 ++ [mkOpenFile ino status]) k0 in
                            let cloexec :=
                              if Z.land flags O_CLOEXEC =? 0 then 0 else FD_CLOEXEC in
                            let '(fd, k2) := install (mkDescriptor file cloexec) k1 in
                            (fd, log (EvOpen path flags fd) k2)
                        | None => (-1, log (EvOpen path flags (-1)) (fail ENOENT k0))
                        end)) = names k).
  { intros k0 H0. destruct (names k0 !! path); [|exact H0].
    cbv zeta. rewrite install_eq. exact H0. }
  unfold sys_open, next_fault.
  destruct (tape k) as [|f t]; [|destruct f as [|e|]].
  - now apply Hgo.
  - now apply (Hgo (set_tape t k)).
  - reflexivity.
  - now apply (Hgo (set_tape t k)).
Qed.

Lemma open_retry_names (fuel : nat) (k : Kernel) (path : string) (flags : Z) :
  names (snd (open_retry fuel path flags k)) = names k.
Proof.
  revert k. induction fuel as [|fuel IH]; intros k; cbn [open_retry];
    pose proof (sys_open_names k path flags) as H;
    destruct (sys_open k path flags) as [fd k1]; cbn [snd] in H; [exact H|].
  destruct (_ && _); [rewrite IH|]; exact H.
Qed.

Lemma FillSlots_loop_names (n : nat) (wfd : Z) (k : Kernel) :
  names (snd (FillSlots_loop n wfd k)) = names k.
Proof.
  revert k. induction n as [|n IH]; intros k; cbn [FillSlots_loop]; [reflexivity|].
  destruct (sys_write_frame k wfd "+") as (_ & _ & Hn & _).
  destruct (sys_write k wfd "+") as [ret k1]. cbn [snd] in Hn.
  destruct (negb (ret =? 1)); [destruct (_ && _)|];
    rewrite ?IH; cbn [snd]; exact Hn.
Qed.

(** A file that is already at the FIFO's path makes [Pool::Create]
    fail, and the failed pool's destructor unlinks that file. *)
Theorem Pool_Create_existing_file (N : Z) (k : Kernel) (ino : nat) :
  2 <= N ->
  process_ok k ->
  names k !! fifo_name k = Some ino ->
  fst (Pool_Create N kModePosixFifo k)
  = (None, Some "Cannot create fifo: File exists")
  /\ names (snd (Pool_Create N kModePosixFifo k)) = delete (fifo_name k) (names k)
  /\ names (snd (Pool_Create N kModePosixFifo k)) !! fifo_name k = None.
Proof.
  intros HN Hok Hname.
  pose proof (fifo_name_no_nul k Hok) as Hnul.
  assert (E : Pool_Create N kModePosixFifo k
              = (None, Some "Cannot create fifo: File exists",
                 Pool_destroy {| job_count_ := 0; pool_read_fd_ := -1;
                                 pool_write_fd_ := -1; fifo_ := fifo_name k |}
                   (log (EvMknod (fifo_name k) (-1)) (fail EEXIST k)))).
  { unfold Pool_Create. destruct (Z.ltb_spec N 2) as [?|_]; [lia|].
    rewrite decide_False by discriminate. rewrite decide_True by reflexivity.
    rewrite Pool_InitWithFifo_shape by exact Hok. cbv zeta.
    unfold sys_mknod_fifo. rewrite Hname. reflexivity. }
  rewrite E. cbn [fst snd]. split; [reflexivity|].
  rewrite Pool_destroy_names. cbn [fifo_].
  assert (Hemp : Str.is_empty (fifo_name k) = false).
  { pose proof (fifo_name_not_empty k). destruct (fifo_name k); [congruence|reflexivity]. }
  rewrite Hemp, Str_c_str_id by exact Hnul.
  split; [reflexivity|apply lookup_delete_eq].
Qed.

Lemma Pool_Create_existing_file_witness :
  fst (Pool_Create 2 kModePosixFifo
         (set_names (<["/tmp/NinjaFIFO7" := 0%nat]> ∅) (boot None 7 [])))
  = (None, Some "Cannot create fifo: File exists")
  /\ names (snd (Pool_Create 2 kModePosixFifo
                  (set_names (<["/tmp/NinjaFIFO7" := 0%nat]> ∅) (boot None 7 []))))
     !! "/tmp/NinjaFIFO7" = None.
Proof.
  destruct (Pool_Create_existing_file 2
              (set_names (<["/tmp/NinjaFIFO7" := 0%nat]> ∅) (boot None 7 [])) 0%nat)
    as (H1 & _ & H3).
  - lia.
  - unfold process_ok, Libc.INT_MAX. cbn. lia.
  - reflexivity.
  - split; [exact H1|exact H3].
Defined.

(** The FIFO does not outlive the pool: when no file is in the way,
    a pool that is created has its FIFO at [fifo_name k] and its
    destructor removes it again; a pool that is not created leaves no
    FIFO behind. *)
Theorem Pool_fifo_name_lifetime (N : Z) (k : Kernel) :
  2 <= N ->
  process_ok k ->
  names k !! fifo_name k = None ->
  match Pool_Create N kModePosixFifo k with
  | (Some pool, _, k1) =>
      names k1 = <[fifo_name k := length (inodes k)]> (names k)
      /\ names (Pool_destroy pool k1) = names k
  | (None, _, k1) => names k1 = names k
  end.
Proof.
  intros HN Hok Hfree.
  pose proof (fifo_name_no_nul k Hok) as Hnul.
  assert (Hemp : Str.is_empty (fifo_name k) = false).
  { pose proof (fifo_name_not_empty k). destruct (fifo_name k); [congruence|reflexivity]. }
  assert (Hback : delete (fifo_name k)
                    (<[fifo_name k := length (inodes k)]> (names k)) = names k)
    by (now apply delete_insert_id).
  unfold Pool_Create. destruct (Z.ltb_spec N 2) as [?|_]; [lia|].
  rewrite decide_False by discriminate. rewrite decide_True by reflexivity.
  rewrite Pool_InitWithFifo_shape by exact Hok. cbv zeta.
  unfold sys_mknod_fifo. rewrite Hfree. cbn [Z.ltb Z.compare].
  set (kM := log _ (set_names _ _)).
  change (tape kM) with (tape k).
  pose proof (open_retry_names (length (tape k)) kM (fifo_name k)
                (Z.lor O_RDWR O_CLOEXEC)) as HA.
  destruct (open_retry (length (tape k)) (fifo_name k) (Z.lor O_RDWR O_CLOEXEC) kM)
    as [wfd kA]. cbn [snd] in HA.
  change (names kM) with (<[fifo_name k := length (inodes k)]> (names k)) in HA.
  destruct (wfd <? 0).
  - cbn [negb]. rewrite Pool_destroy_names. cbn [fifo_].
    now rewrite Hemp, Str_c_str_id, HA by exact Hnul.
  - unfold FillSlots. cbn [pool_read_fd_ pool_write_fd_ fifo_ job_count_].
    pose proof (FillSlots_loop_names (Z.to_nat (N - 1)) wfd kA) as H1.
    destruct (FillSlots_loop (Z.to_nat (N - 1)) wfd kA) as [[ok err] k1].
    cbn [snd] in H1. destruct ok; cbn [negb].
    + rewrite Pool_destroy_names. cbn [fifo_].
      rewrite Hemp, Str_c_str_id, H1, HA by exact Hnul. now split.
    + rewrite Pool_destroy_names. cbn [fifo_].
      now rewrite Hemp, Str_c_str_id, H1, HA by exact Hnul.
Qed.

Lemma Pool_fifo_name_lifetime_witness :
  match Pool_Create 3 kModePosixFifo (boot None 7 []) with
  | (Some pool, _, k1) =>
      names k1 = <["/tmp/NinjaFIFO7" := 1%nat]> ∅
      /\ names (Pool_destroy pool k1) = ∅
  | (None, _, k1) => names k1 = ∅
  end.
Proof.
  apply (Pool_fifo_name_lifetime 3 (boot None 7 [])).
  - lia.
  - unfold process_ok, Libc.INT_MAX. cbn. lia.
  - reflexivity.
Defined.

(** The destructor of a pool closes what [Pool::Create] opened: the
    descriptor table is the one from before the pool. *)
Theorem Pool_destroy_restores_descriptors (N : Z) (md : Mode) (k : Kernel)
  (pool : Pool) (err : option string) (k1 : Kernel) :
  Pool_Create N md k = (Some pool, err, k1) ->
  same_descriptors k (Pool_destroy pool k1).
Proof.
  unfold Pool_Create. destruct (N <? 2); [discriminate|].
  destruct (decide (md = kModePipe)) as [_|_];
    [|destruct (decide (md = kModePosixFifo)) as [_|_]].
  - unfold Pool_InitWithPipe.
    destruct (sys_pipe_adds k) as (r & w & kmid & k0 & E & Hr & Hw).
    rewrite E. cbn [Z.ltb Z.compare]. unfold FillSlots.
    cbn [pool_read_fd_ pool_write_fd_ fifo_ job_count_ Pool_new].
    pose proof (FillSlots_loop_fds (Z.to_nat (N - 1)) w k0) as Hfds.
    destruct (FillSlots_loop (Z.to_nat (N - 1)) w k0) as [[ok e] k2].
    cbn [snd] in Hfds. destruct ok; cbn [negb]; [|discriminate].
    intros [= <- <- <-] fd. rewrite Pool_destroy_descriptor.
    cbn [pool_read_fd_ pool_write_fd_].
    destruct Hr as (R0 & R1 & R2 & R3). destruct Hw as (W0 & W1 & W2 & W3).
    assert (Hrw : r <> w) by (intros ->; rewrite W1 in R2; now destruct R2).
    destruct (decide (fd = w /\ 0 <= w)) as [[-> _]|Dw];
      [|destruct (decide (fd = r /\ 0 <= r)) as [[-> _]|Dr]].
    + rewrite <- R3 by auto. now rewrite W1.
    + now rewrite R1.
    + unfold descriptor at 1. rewrite Hfds. fold (descriptor k0 fd).
      rewrite W3, R3; [reflexivity| |]; intros ->; tauto.
  - unfold Pool_InitWithFifo.
    cbn [fifo_ Pool_new pool_read_fd_ pool_write_fd_ job_count_].
    destruct (snprintf _ _) as [len fifo] eqn:Es.
    destruct (len <? 0); [discriminate|].
    pose proof (sys_mknod_fifo_fds k (Str.c_str (resize (Z.to_nat len) fifo))) as HM.
    destruct (sys_mknod_fifo k (Str.c_str (resize (Z.to_nat len) fifo)))
      as [ret kM]. cbn [snd] in HM.
    destruct (ret <? 0); [discriminate|].
    destruct (open_retry (length (tape kM))
                (Str.c_str (resize (Z.to_nat len) fifo))
                (Z.lor O_RDWR O_CLOEXEC) kM) as [wfd kA] eqn:EA.
    pose proof (open_retry_cases _ _ _ _ _ _ EA) as Hc.
    destruct (Z.ltb_spec wfd 0) as [Hneg|Hpos]; [discriminate|].
    unfold FillSlots.
    cbn [pool_read_fd_ pool_write_fd_ fifo_ job_count_].
    pose proof (FillSlots_loop_fds (Z.to_nat (N - 1)) wfd kA) as Hfds.
    destruct (FillSlots_loop (Z.to_nat (N - 1)) wfd kA) as [[ok e] k2].
    cbn [snd] in Hfds. destruct ok; cbn [negb]; [|discriminate].
    intros [= <- <- <-] fd. rewrite Pool_destroy_descriptor.
    cbn [pool_read_fd_ pool_write_fd_].
    destruct Hc as [[-> _]|(A0 & A1 & A2 & A3)]; [lia|].
    destruct (decide (fd = wfd /\ 0 <= wfd)) as [[-> _]|Dw];
      [|destruct (decide (fd = -1 /\ 0 <= -1)) as [[_ ?]|_]; [lia|]].
    + unfold descriptor in A1 |- *. now rewrite <- HM.
    + unfold descriptor at 1. rewrite Hfds. fold (descriptor kA fd).
      rewrite A3 by (intros ->; tauto).
      unfold descriptor. now rewrite HM.
  - discriminate.
Qed.

Lemma Pool_destroy_restores_descriptors_witness :
  same_descriptors (boot None 7 [])
    (Pool_destroy {| job_count_ := 3; pool_read_fd_ := 3; pool_write_fd_ := 4;
                     fifo_ := "" |}
       (snd (Pool_Create 3 kModePipe (boot None 7 [])))).
Proof.
  apply (Pool_destroy_restores_descriptors 3 kModePipe (boot None 7 []) _ None).
  reflexivity.
Defined.

End PoolNameFacts.

(** ** More on clients: errors, shared descriptions, tokens *)

Section ClientEdgeFacts.

Import Posix Jobserver JobserverPosix.

Lemma sys_open_fails (k : Kernel) (path : string) (flags : Z) (e : Errno)
  (t : list Fault) :
  tape k = Fail e :: t ->
  sys_open k path flags
  = (-1, log (EvOpen path flags (-1)) (fail e (set_tape t k))).
Proof. intros Ht. unfold sys_open, next_fault. now rewrite Ht. Qed.

Lemma sys_open_missing (k : Kernel) (path : string) (flags : Z) :
  head_normal k -> names k !! path = None ->
  sys_open k path flags
  = (-1, log (EvOpen path flags (-1)) (fail ENOENT (set_tape (tail (tape k)) k))).
Proof.
  intros Hn Hname. unfold sys_open. rewrite (next_fault_normal k Hn).
  change (names (set_tape (tail (tape k)) k)) with (names k).
  now rewrite Hname.
Qed.

(** How [Client::Create] fails in FIFO mode.  An [open] that fails,
    with [EINTR] or any other error, is not made again: the error is
    reported.  A path that names no file, and a path that names a file
    that is no FIFO, are reported too. *)
Theorem Client_Create_fifo_errors (k : Kernel) (P : string) (r w : Z) :
  P <> "" ->
  Str.all (fun c => negb (Ascii.eqb c "000")) P = true ->
  (forall e t, tape k = Fail e :: t ->
     fst (Client_Create {| mode := kModePosixFifo; read_fd := r; write_fd := w;
                           path := P |} k)
     = (None, Some ("Error opening fifo for reading: " +:+ strerror e)))
  /\ (head_normal k -> names k !! P = None ->
      fst (Client_Create {| mode := kModePosixFifo; read_fd := r; write_fd := w;
                            path := P |} k)
      = (None, Some "Error opening fifo for reading: No such file or directory"))
  /\ (forall ino data, head_normal k -> names k !! P = Some ino ->
        inodes k !! ino = Some (mkInode S_IFREG data) ->
        fst (Client_Create {| mode := kModePosixFifo; read_fd := r; write_fd := w;
                              path := P |} k)
        = (None, Some ("Not a fifo path: " +:+ P)))
  /\ (forall ino data e t, names k !! P = Some ino -> fifo_data k ino data ->
        tape k = Normal :: Fail e :: t ->
        fst (Client_Create {| mode := kModePosixFifo; read_fd := r; write_fd := w;
                              path := P |} k)
        = (None, Some ("Error opening fifo for writing: " +:+ strerror e))).
Proof.
  intros Hne Hnul.
  assert (Hemp : Str.is_empty P = false) by (destruct P; [congruence|reflexivity]).
  assert (Hstart :
    Client_Create {| mode := kModePosixFifo; read_fd := r; write_fd := w;
                     path := P |} k
    = let '(success, client, error, k) := Client_InitWithFifo P Client_new k in
      if negb success then (None, error, Client_destroy client k)
      else (Some client, error, k)).
  { unfold Client_Create. cbn [mode path].
    rewrite decide_False by discriminate. now rewrite decide_True. }
  rewrite Hstart. unfold Client_InitWithFifo.
  rewrite Hemp, Str_c_str_id by exact Hnul.
  split; [|split; [|split]].
  - intros e t Ht. rewrite (sys_open_fails k P _ e t Ht). reflexivity.
  - intros Hn Hname. rewrite (sys_open_missing k P _ Hn Hname). reflexivity.
  - intros ino data Hn Hname Hino.
    destruct (sys_open_spec k P (Z.lor O_RDONLY (Z.lor O_NONBLOCK O_CLOEXEC)) ino
                Hn Hname)
      as (rc & kA & EA & Hrc & [cl A1] & A2 & A3 & A4 & A5 & A6).
    rewrite EA. destruct (Z.ltb_spec rc 0) as [?|_]; [lia|].
    unfold IsFifoDescriptor, sys_fstat.
    rewrite (resolve_spec kA rc _
               (mkOpenFile ino (Z.land (Z.lor O_RDONLY (Z.lor O_NONBLOCK O_CLOEXEC))
                                       (Z.lor O_ACCMODE O_NONBLOCK)))
               (mkInode S_IFREG data) A1).
    + reflexivity.
    + cbn [d_file]. rewrite A2, lookup_app_r by lia. now rewrite Nat.sub_diag.
    + cbn [o_inode]. now rewrite A3.
  - intros ino data e t Hname Hi Ht.
    assert (Hn : head_normal k) by (unfold head_normal; now rewrite Ht).
    destruct (sys_open_spec k P (Z.lor O_RDONLY (Z.lor O_NONBLOCK O_CLOEXEC)) ino
                Hn Hname)
      as (rc & kA & EA & Hrc & A1 & A2 & A3 & A4 & A5 & A6).
    rewrite EA. destruct (Z.ltb_spec rc 0) as [?|_]; [lia|].
    destruct (IsFifoDescriptor_fifo kA rc (length (files k)) ino
                (Z.land (Z.lor O_RDONLY (Z.lor O_NONBLOCK O_CLOEXEC))
                        (Z.lor O_ACCMODE O_NONBLOCK)) data A1)
      as (kB & EB & B1 & B2 & B3 & B4 & B5).
    { unfold file_at. rewrite A2, lookup_app_r by lia. now rewrite Nat.sub_diag. }
    { unfold fifo_data. now rewrite A3. }
    rewrite EB. cbn [negb].
    rewrite (sys_open_fails kB P _ e t) by (now rewrite B5, A5, Ht).
    reflexivity.
Qed.

Lemma Client_Create_fifo_errors_witness :
  fst (Client_Create
         {| mode := kModePosixFifo; read_fd := -1; write_fd := -1;
            path := "/tmp/NinjaFIFO7" |}
         (set_tape [Fail EINTR]
            (snd (Pool_Create 2 kModePosixFifo (boot None 7 [])))))
  = (None, Some "Error opening fifo for reading: Interrupted system call").
Proof.
  destruct (Client_Create_fifo_errors
              (set_tape [Fail EINTR]
                 (snd (Pool_Create 2 kModePosixFifo (boot None 7 []))))
              "/tmp/NinjaFIFO7" (-1) (-1)) as [H _];
    [discriminate|reflexivity|].
  exact (H EINTR [] eq_refl).
Defined.

(** A client made from two inherited descriptors turns them
    non-blocking as well: [dup] shares the open file description, and
    [O_NONBLOCK] is a flag of the description.  A read on the inherited
    descriptor [r], which would have blocked on an empty pipe before,
    fails with [EAGAIN] afterwards. *)
Theorem Client_Create_pipe_unblocks_inherited (k : Kernel) (r w : Z)
  (jr jw ino : nat) (data : list ascii) :
  fd_at k r jr -> file_at k jr ino O_RDONLY ->
  fd_at k w jw -> file_at k jw ino O_WRONLY ->
  jr <> jw -> fifo_data k ino data ->
  never_blocks k r = false
  /\ exists c k2,
       Client_Create {| mode := kModeFileDescriptors; read_fd := r; write_fd := w;
                        path := "" |} k
       = (Some c, None, k2)
       /\ read_fd_ c <> r
       /\ fd_at k2 r jr /\ fd_at k2 (read_fd_ c) jr
       /\ never_blocks k2 r = true
       /\ reads_from k2 r ino.
Proof.
  intros Hr Hfr Hw Hfw Hne Hi. split.
  { destruct Hr as [cl Hd]. unfold never_blocks.
    now rewrite (resolve_spec _ r _ _ _ Hd Hfr Hi). }
  destruct (IsFifoDescriptor_fifo k r jr ino _ data Hr Hfr Hi)
    as (kA & EA & A1 & A2 & A3 & A4 & A5).
  destruct (IsFifoDescriptor_fifo kA w jw ino O_WRONLY data)
    as (kB & EB & B1 & B2 & B3 & B4 & B5);
    [now apply (fd_at_frame k)|now apply (file_at_frame k)
    |unfold fifo_data; now rewrite A3|].
  assert (HrB : fd_at kB r jr)
    by (apply (fd_at_frame kA); [exact B1|now apply (fd_at_frame k)]).
  destruct (DuplicateDescriptor_spec kB r (-1) jr ino O_RDONLY
              (mkInode S_IFIFO data) HrB)
    as (rc & kC & EC & Hrc & C1 & C2 & C3 & C4 & C5 & C6);
    [apply (file_at_frame kA); [exact B2|now apply (file_at_frame k)]
    |rewrite B3, A3; exact Hi|reflexivity|].
  assert (Hfresh : rc <> r).
  { destruct (DuplicateDescriptor_cases _ _ _ _ _ _ EC)
      as [(? & _)|(_ & _ & Hfree & _)]; [discriminate|].
    intros ->. destruct HrB as [cl Hd]. congruence. }
  assert (HwC : fd_at kC w jw).
  { apply C6. apply (fd_at_frame kA); [exact B1|now apply (fd_at_frame k)]. }
  assert (HfwC : file_at kC jw ino O_WRONLY).
  { unfold file_at. rewrite C2, list_lookup_insert_ne by exact Hne.
    rewrite B2, A2. exact Hfw. }
  destruct (DuplicateDescriptor_spec kC w (-1) jw ino O_WRONLY
              (mkInode S_IFIFO data) HwC HfwC)
    as (wc & kD & ED & Hwc & D1 & D2 & D3 & D4 & D5 & D6);
    [rewrite C3, B3, A3; exact Hi|reflexivity|].
  exists {| has_implicit_slot_ := true; read_fd_ := rc; write_fd_ := wc |}, kD.
  assert (HjrD : file_at kD jr ino
                   (Z.lor (Z.land O_RDONLY O_ACCMODE)
                          (Z.land (Z.lor O_RDONLY O_NONBLOCK) O_NONBLOCK))).
  { unfold file_at. rewrite D2, list_lookup_insert_ne by (intros E; now apply Hne).
    rewrite C2. apply list_lookup_insert_eq.
    unfold file_at in Hfr. apply lookup_lt_Some in Hfr. now rewrite B2, A2. }
  assert (HrD : fd_at kD r jr) by (apply D6, C6; exact HrB).
  assert (Hreads : reads_from kD r ino).
  { exists jr, (Z.lor (Z.land O_RDONLY O_ACCMODE)
                      (Z.land (Z.lor O_RDONLY O_NONBLOCK) O_NONBLOCK)).
    split; [exact HrD|]. split; [exact HjrD|]. split; reflexivity. }
  split.
  - unfold Client_Create. cbn [mode read_fd write_fd].
    rewrite decide_True by reflexivity.
    unfold Client_InitWithPipeFds. rewrite EA. cbv iota. rewrite EB.
    cbn [negb orb]. cbn [Client_new read_fd_ write_fd_ has_implicit_slot_].
    rewrite EC. cbn [negb]. cbn [read_fd_ write_fd_ has_implicit_slot_].
    rewrite ED. reflexivity.
  - cbn [read_fd_]. split; [exact Hfresh|]. split; [exact HrD|].
    split; [apply D6; exact C1|].
    split; [now apply (reads_from_never_blocks kD r ino)|exact Hreads].
Qed.

Lemma Client_Create_pipe_unblocks_inherited_witness :
  never_blocks (snd (Pool_Create 2 kModePipe (boot None 7 []))) 3 = false
  /\ exists c k2,
       Client_Create {| mode := kModeFileDescriptors; read_fd := 3; write_fd := 4;
                        path := "" |}
         (snd (Pool_Create 2 kModePipe (boot None 7 [])))
       = (Some c, None, k2)
       /\ read_fd_ c <> 3
       /\ fd_at k2 3 1 /\ fd_at k2 (read_fd_ c) 1
       /\ never_blocks k2 3 = true
       /\ reads_from k2 3 1.
Proof.
  apply (Client_Create_pipe_unblocks_inherited
           (snd (Pool_Create 2 kModePipe (boot None 7 []))) 3 4 1 2 1 ["+"%char]).
  - now exists 0.
  - reflexivity.
  - now exists 0.
  - reflexivity.
  - lia.
  - reflexivity.
Defined.

Lemma writes_to_frame (k k' : Kernel) (fd : Z) (ino : nat) :
  fds k' = fds k -> files k' = files k ->
  writes_to k fd ino -> writes_to k' fd ino.
Proof.
  intros Hfds Hfiles (j & flags & H1 & H2 & H3).
  exists j, flags. split; [now apply (fd_at_frame k)|].
  split; [now apply (file_at_frame k)|exact H3].
Qed.

(** The write loop of [Release] when the environment does nothing worse
    than interrupting: the byte is written once. *)
Lemma write_retry_benign (fuel : nat) (fd : Z) (b : ascii) (ino : nat)
  (data : list ascii) (k : Kernel) :
  (length (tape k) <= fuel)%nat ->
  forallb benign (tape k) = true ->
  writes_to k fd ino -> fifo_data k ino data ->
  exists k',
    write_retry fuel fd b k = (1, k')
    /\ fds k' = fds k /\ files k' = files k
    /\ forallb benign (tape k') = true
    /\ fifo_data k' ino (data ++ [b]).
Proof.
  revert k. induction fuel as [|fuel IH]; intros k Hlen Hb Hw Hi.
  - assert (Ht : tape k = []) by (destruct (tape k); [reflexivity|cbn in Hlen; lia]).
    assert (Hn : head_normal k) by (unfold head_normal; now rewrite Ht).
    destruct Hw as (j & flags & Hfd & Hf & Hwr).
    destruct (sys_write_fifo k fd b j ino flags data Hn Hfd Hf Hwr Hi)
      as (k' & E & H1 & H2 & H3 & H4 & H5 & _).
    exists k'. cbn [write_retry]. rewrite E.
    repeat split; try assumption.
    + now rewrite H4, Ht.
    + unfold fifo_data. rewrite H5. apply list_lookup_insert_eq.
      now apply lookup_lt_Some in Hi.
  - destruct (tape k) as [|f t] eqn:Ht; [|destruct f as [|e|]].
    + assert (Hn : head_normal k) by (unfold head_normal; now rewrite Ht).
      destruct Hw as (j & flags & Hfd & Hf & Hwr).
      destruct (sys_write_fifo k fd b j ino flags data Hn Hfd Hf Hwr Hi)
        as (k' & E & H1 & H2 & H3 & H4 & H5 & _).
      exists k'. cbn [write_retry]. rewrite E. cbn [Z.ltb Z.compare andb].
      repeat split; try assumption.
      * now rewrite H4, Ht.
      * unfold fifo_data. rewrite H5. apply list_lookup_insert_eq.
        now apply lookup_lt_Some in Hi.
    + assert (Hn : head_normal k) by (unfold head_normal; now rewrite Ht).
      destruct Hw as (j & flags & Hfd & Hf & Hwr).
      destruct (sys_write_fifo k fd b j ino flags data Hn Hfd Hf Hwr Hi)
        as (k' & E & H1 & H2 & H3 & H4 & H5 & _).
      exists k'. cbn [write_retry]. rewrite E. cbn [Z.ltb Z.compare andb].
      repeat split; try assumption.
      * rewrite H4, Ht. cbn in Hb |- *. exact Hb.
      * unfold fifo_data. rewrite H5. apply list_lookup_insert_eq.
        now apply lookup_lt_Some in Hi.
    + cbn in Hb. apply andb_prop in Hb as [He Hb].
      destruct e; try discriminate.
      set (k1 := log (EvWrite fd b (-1)) (fail EINTR (set_tape t k))).
      destruct (IH k1) as (k' & E' & H1 & H2 & H3 & H4).
      * cbn in Hlen |- *. lia.
      * exact Hb.
      * now apply (writes_to_frame k).
      * exact Hi.
      * exists k'. cbn [write_retry]. rewrite (sys_write_EINTR k fd b t Ht).
        fold k1. change ((-1 <? 0) && bool_decide (errno k1 = EINTR)) with true.
        cbv iota. rewrite E'. repeat split; assumption.
    + cbn in Hb. discriminate.
Qed.

Lemma TryAcquire_fifo_frame (c : Client) (ino : nat) (data : list ascii)
  (k : Kernel) :
  has_implicit_slot_ c = false ->
  forallb benign (tape k) = true ->
  reads_from k (read_fd_ c) ino -> fifo_data k ino data ->
  exists k',
    TryAcquire c k
    = (Some (match data with [] => Invalid | b :: _ => Explicit b end), c, k')
    /\ fds k' = fds k /\ files k' = files k
    /\ forallb benign (tape k') = true
    /\ fifo_data k' ino (tail data).
Proof.
  intros Hc Hb Hr Hi. unfold TryAcquire. rewrite Hc.
  destruct (read_retry_benign (length (tape k)) (read_fd_ c) ino data k
              (le_n _) Hb Hr Hi) as (k' & E & H1 & H2 & H3 & H4 & H5).
  exists k'. rewrite E. split; [destruct data; reflexivity|].
  repeat split; assumption.
Qed.

(** [n] calls of [TryAcquire] by a client without its implicit slot:
    the first [n] tokens of the pool, in the order they were written,
    and invalid slots once the pool is empty. *)
Lemma acquire_many_fifo (n : nat) (c : Client) (ino : nat) (data : list ascii)
  (k : Kernel) :
  has_implicit_slot_ c = false ->
  forallb benign (tape k) = true ->
  reads_from k (read_fd_ c) ino -> fifo_data k ino data ->
  exists k',
    acquire_many n c k
    = (map (fun b => Some (Explicit b)) (take n data)
         ++ replicate (n - length data) (Some Invalid), c, k')
    /\ fds k' = fds k /\ files k' = files k
    /\ forallb benign (tape k') = true
    /\ fifo_data k' ino (drop n data).
Proof.
  intros Hc. revert data k.
  induction n as [|n IH]; intros data k Hb Hr Hi.
  - exists k. cbn. rewrite drop_0. now repeat split.
  - destruct (TryAcquire_fifo_frame c ino data k Hc Hb Hr Hi)
      as (k1 & E & F1 & F2 & Hb1 & Hi1).
    destruct (IH (tail data) k1 Hb1) as (k' & E' & G1 & G2 & Hb' & Hi').
    { now apply (reads_from_frame k). }
    { exact Hi1. }
    exists k'. cbn [acquire_many]. rewrite E, E'.
    destruct data as [|b data]; cbn [tail take length Nat.sub map app drop] in *.
    + rewrite take_nil, Nat.sub_0_r in *. cbn. rewrite drop_nil in Hi'.
      repeat split; try congruence.
    + repeat split; try congruence.
Qed.

(** Two clients of one pool never get the same token: what the first
    took, the second does not see. *)
Theorem two_clients_share_tokens (c1 c2 : Client) (n1 n2 : nat) (ino : nat)
  (data : list ascii) (k : Kernel) :
  has_implicit_slot_ c1 = false -> has_implicit_slot_ c2 = false ->
  forallb benign (tape k) = true ->
  reads_from k (read_fd_ c1) ino -> reads_from k (read_fd_ c2) ino ->
  fifo_data k ino data ->
  exists k1 k2,
    acquire_many n1 c1 k
    = (map (fun b => Some (Explicit b)) (take n1 data)
         ++ replicate (n1 - length data) (Some Invalid), c1, k1)
    /\ acquire_many n2 c2 k1
       = (map (fun b => Some (Explicit b)) (take n2 (drop n1 data))
            ++ replicate (n2 - (length data - n1)) (Some Invalid), c2, k2)
    /\ fifo_data k2 ino (drop (n1 + n2) data).
Proof.
  intros Hc1 Hc2 Hb Hr1 Hr2 Hi.
  destruct (acquire_many_fifo n1 c1 ino data k Hc1 Hb Hr1 Hi)
    as (k1 & E1 & F1 & F2 & Hb1 & Hi1).
  destruct (acquire_many_fifo n2 c2 ino (drop n1 data) k1 Hc2 Hb1)
    as (k2 & E2 & G1 & G2 & Hb2 & Hi2).
  { now apply (reads_from_frame k). }
  { exact Hi1. }
  exists k1, k2. split; [exact E1|]. split.
  - rewrite E2, length_drop. reflexivity.
  - now rewrite drop_drop in Hi2.
Qed.

Lemma two_clients_share_tokens_witness :
  exists k1 k2,
    acquire_many 2 (sample_client false) (sample_kernel ["a"; "b"; "c"]%char [Fail EINTR])
    = ([Some (Explicit "a"); Some (Explicit "b")], sample_client false, k1)
    /\ acquire_many 2 {| has_implicit_slot_ := false; read_fd_ := 3; write_fd_ := -1 |} k1
       = ([Some (Explicit "c"); Some Invalid],
          {| has_implicit_slot_ := false; read_fd_ := 3; write_fd_ := -1 |}, k2)
    /\ fifo_data k2 0 [].
Proof.
  apply (two_clients_share_tokens (sample_client false)
           {| has_implicit_slot_ := false; read_fd_ := 3; write_fd_ := -1 |}
           2 2 0 ["a"; "b"; "c"]%char
           (sample_kernel ["a"; "b"; "c"]%char [Fail EINTR]));
    try reflexivity;
    (exists 0%nat, (Z.lor O_RDONLY O_NONBLOCK);
     split; [now exists FD_CLOEXEC|]; repeat split).
Defined.

(** [Release] of an explicit slot puts its byte at the end of the pool,
    once, also when signals interrupt the write; the tokens then come
    out again oldest first, the released one last. *)
Theorem Release_then_acquire (c : Client) (ino : nat) (data : list ascii)
  (b : ascii) (k : Kernel) :
  has_implicit_slot_ c = false ->
  forallb benign (tape k) = true ->
  reads_from k (read_fd_ c) ino -> writes_to k (write_fd_ c) ino ->
  fifo_data k ino data ->
  exists k1 k2,
    Release (Explicit b) c k = Some (c, k1)
    /\ fifo_data k1 ino (data ++ [b])
    /\ acquire_many (S (length data)) c k1
       = (map (fun x => Some (Explicit x)) (data ++ [b]), c, k2)
    /\ fifo_data k2 ino [].
Proof.
  intros Hc Hb Hr Hw Hi.
  destruct (write_retry_benign (length (tape k)) (write_fd_ c) b ino data k
              (le_n _) Hb Hw Hi) as (k1 & E & F1 & F2 & Hb1 & Hi1).
  destruct (acquire_many_fifo (S (length data)) c ino (data ++ [b]) k1 Hc Hb1)
    as (k2 & E2 & G1 & G2 & Hb2 & Hi2).
  { now apply (reads_from_frame k). }
  { exact Hi1. }
  exists k1, k2. split; [unfold Release; now rewrite E|].
  split; [exact Hi1|].
  assert (Hlen : length (data ++ [b]) = S (length data))
    by (rewrite length_app; cbn; lia).
  rewrite <- Hlen in E2, Hi2 |- *.
  rewrite firstn_all, Nat.sub_diag, drop_all in *. cbn [replicate] in E2.
  rewrite app_nil_r in E2. now split.
Qed.

Lemma Release_then_acquire_witness :
  exists k1 k2,
    Release (Explicit "x") (sample_client false)
      (sample_kernel ["+"%char] [Fail EINTR; Fail EINTR])
    = Some (sample_client false, k1)
    /\ fifo_data k1 0 ["+"; "x"]%char
    /\ acquire_many 2 (sample_client false) k1
       = ([Some (Explicit "+"); Some (Explicit "x")], sample_client false, k2)
    /\ fifo_data k2 0 [].
Proof.
  apply (Release_then_acquire (sample_client false) 0 ["+"%char] "x"
           (sample_kernel ["+"%char] [Fail EINTR; Fail EINTR])); try reflexivity.
  - exists 0%nat, (Z.lor O_RDONLY O_NONBLOCK).
    split; [now exists FD_CLOEXEC|]. repeat split.
  - exists 1%nat, (Z.lor O_WRONLY O_NONBLOCK).
    split; [now exists FD_CLOEXEC|]. repeat split.
Defined.

End ClientEdgeFacts.

(** ** More on the status table: which rows, how many, and the cursor *)

Section StatusSelectionFacts.

Import StatusTable.

Lemma remove_first_other (x y : CommandValuePtr) (q : MaxQueue) :
  y ∈ q -> y <> x -> y ∈ remove_first x q.
Proof.
  induction q as [|z q IH]; intros Hy Hne; [inversion Hy|].
  cbn. destruct (decide (x = z)) as [->|Hxz].
  - apply elem_of_cons in Hy as [->|Hy]; [congruence|exact Hy].
  - apply elem_of_cons in Hy as [->|Hy]; [left|right; now apply IH].
Qed.

Lemma drain_complete (fuel : nat) (q : MaxQueue) (x : CommandValue) :
  (length q <= fuel)%nat -> Some x ∈ q -> x ∈ drain fuel q.
Proof.
  revert q. induction fuel as [|fuel IH]; intros q Hlen Hx.
  - destruct q; [inversion Hx|cbn in Hlen; lia].
  - destruct q as [|z q]; [inversion Hx|]. cbn [drain].
    assert (Hne : z :: q <> []) by discriminate.
    destruct (top_spec (z :: q) Hne) as [Htop _].
    pose proof (pop_length (z :: q) Hne) as Hpop. cbn [length] in Hpop, Hlen.
    destruct (decide (top (z :: q) = Some x)) as [E|E].
    + rewrite E. left.
    + assert (Hin : x ∈ drain fuel (pop (z :: q))).
      { apply IH; [lia|]. apply remove_first_other; [exact Hx|congruence]. }
      destruct (top (z :: q)); [now right|exact Hin].
Qed.

(** What the selection loop keeps true: a command that was walked and
    is not in the queue started no earlier than those in the queue, and
    no earlier than [INT64_MAX] while the queue has an empty slot. *)
Lemma selection_invariant (iteration : list CommandValue) (q : MaxQueue)
  (seen : list CommandValue) :
  q <> [] ->
  (forall c, c ∈ iteration -> start_time_ms c <= INT64_MAX) ->
  (forall y x, y ∈ seen -> Some y ∉ q -> Some x ∈ q ->
     start_time_ms x <= start_time_ms y) ->
  (None ∈ q -> forall y, y ∈ seen -> Some y ∉ q -> INT64_MAX <= start_time_ms y) ->
  let q' := fold_left consider iteration q in
  (forall y x, y ∈ seen ++ iteration -> Some y ∉ q' -> Some x ∈ q' ->
     start_time_ms x <= start_time_ms y).
Proof.
  revert q seen. induction iteration as [|c iteration IH];
    intros q seen Hq Hmax I1 I2; cbn zeta.
  - rewrite app_nil_r. exact I1.
  - cbn [fold_left].
    replace (seen ++ c :: iteration) with ((seen ++ [c]) ++ iteration)
      by (now rewrite <- app_assoc).
    assert (Hc : start_time_ms c <= INT64_MAX) by (apply Hmax; left).
    destruct (top_spec q Hq) as [Htop Hgreat].
    assert (Hstart : forall t x, top q = Some t -> Some x ∈ q ->
              start_time_ms x <= start_time_ms t).
    { intros t x Ht Hx. specialize (Hgreat _ Hx). rewrite Ht in Hgreat.
      apply Less_false in Hgreat. rewrite Less_spec in Hgreat. cbn zeta in Hgreat. lia. }
    assert (Hnone : forall t, top q = Some t -> None ∈ q ->
              INT64_MAX <= start_time_ms t).
    { intros t Ht Hx. specialize (Hgreat _ Hx). rewrite Ht in Hgreat.
      apply Less_false in Hgreat. rewrite Less_spec in Hgreat. cbn zeta in Hgreat. lia. }
    apply IH.
    + unfold consider. destruct (top q) as [t|]; [destruct (_ <? _)|];
        unfold emplace; try discriminate; exact Hq.
    + intros c' Hc'. apply Hmax. now right.
    + (* the first invariant *)
      intros y x Hy Hyq Hx. unfold consider in Hyq, Hx.
      destruct (top q) as [t|] eqn:Ht.
      * destruct (Z.ltb_spec (start_time_ms c) (start_time_ms t)) as [Hlt|Hge].
        -- unfold emplace, pop in Hyq, Hx. rewrite Ht in Hyq, Hx.
           rewrite not_elem_of_cons in Hyq. destruct Hyq as [Hyc Hyq].
           apply elem_of_app in Hy as [Hy|Hy];
             [|apply list_elem_of_singleton in Hy; congruence].
           assert (Hxt : start_time_ms x <= start_time_ms t).
           { apply elem_of_cons in Hx as [[= ->]|Hx]; [lia|].
             apply (Hstart t x eq_refl). now apply remove_first_subset in Hx. }
           destruct (decide (Some y ∈ q)) as [Hin|Hout].
           ++ assert (y = t) as ->.
              { destruct (decide (y = t)) as [E|E]; [exact E|].
                exfalso. apply Hyq. apply remove_first_other; [exact Hin|congruence]. }
              exact Hxt.
           ++ assert (start_time_ms t <= start_time_ms y)
                by (apply (I1 y t Hy Hout); first [exact Htop|rewrite <- Ht; exact Htop]).
              lia.
        -- apply elem_of_app in Hy as [Hy|Hy].
           ++ now apply (I1 y x).
           ++ apply list_elem_of_singleton in Hy as ->.
              pose proof (Hstart t x eq_refl Hx). lia.
      * unfold emplace, pop in Hyq, Hx. rewrite Ht in Hyq, Hx.
        rewrite not_elem_of_cons in Hyq. destruct Hyq as [Hyc Hyq].
        apply elem_of_app in Hy as [Hy|Hy];
          [|apply list_elem_of_singleton in Hy; congruence].
        assert (Hout : Some y ∉ q).
        { intros Hin. apply Hyq. apply remove_first_other; [exact Hin|discriminate]. }
        assert (INT64_MAX <= start_time_ms y) by (apply I2; assumption).
        apply elem_of_cons in Hx as [[= ->]|Hx]; [lia|].
        apply (I1 y x Hy Hout). now apply remove_first_subset in Hx.
    + (* the second invariant *)
      intros Hnq y Hy Hyq. unfold consider in Hnq, Hyq.
      destruct (top q) as [t|] eqn:Ht.
      * destruct (Z.ltb_spec (start_time_ms c) (start_time_ms t)) as [Hlt|Hge].
        -- unfold emplace, pop in Hnq, Hyq. rewrite Ht in Hnq, Hyq.
           rewrite not_elem_of_cons in Hyq. destruct Hyq as [Hyc Hyq].
           apply elem_of_cons in Hnq as [?|Hnq]; [discriminate|].
           apply remove_first_subset in Hnq.
           apply elem_of_app in Hy as [Hy|Hy];
             [|apply list_elem_of_singleton in Hy; congruence].
           destruct (decide (Some y ∈ q)) as [Hin|Hout].
           ++ assert (y = t) as ->.
              { destruct (decide (y = t)) as [E|E]; [exact E|].
                exfalso. apply Hyq. apply remove_first_other; [exact Hin|congruence]. }
              now apply Hnone.
           ++ now apply I2.
        -- apply elem_of_app in Hy as [Hy|Hy]; [now apply I2|].
           apply list_elem_of_singleton in Hy as ->.
           pose proof (Hnone t eq_refl Hnq). lia.
      * unfold emplace, pop in Hnq, Hyq. rewrite Ht in Hnq, Hyq.
        rewrite not_elem_of_cons in Hyq. destruct Hyq as [Hyc Hyq].
        apply elem_of_cons in Hnq as [?|Hnq]; [discriminate|].
        apply remove_first_subset in Hnq.
        apply elem_of_app in Hy as [Hy|Hy];
          [|apply list_elem_of_singleton in Hy; congruence].
        apply I2; [exact Hnq|exact Hy|].
        intros Hin. apply Hyq. apply remove_first_other; [exact Hin|discriminate].
Qed.

(** The table shows the oldest commands: a pending command that is not
    displayed started no earlier than any command that is. *)
Theorem displayed_are_oldest (t : Table) (iteration : list CommandValue)
  (x y : CommandValue) :
  0 < max_commands (config_ t) ->
  (forall c, c ∈ iteration -> start_time_ms c <= INT64_MAX) ->
  x ∈ displayed t iteration ->
  y ∈ iteration -> y ∉ displayed t iteration ->
  start_time_ms x <= start_time_ms y.
Proof.
  intros HK Hmax Hx Hy Hny. unfold displayed, older_commands in *.
  set (q0 := replicate (Z.to_nat (max_commands (config_ t))) (@None CommandValue)) in *.
  assert (Hq0 : q0 <> []).
  { subst q0. destruct (Z.to_nat (max_commands (config_ t))) eqn:E; [lia|discriminate]. }
  set (q' := fold_left consider iteration q0) in *.
  rewrite elem_of_reverse in Hx. rewrite elem_of_reverse in Hny.
  apply drain_elem_of in Hx.
  assert (Hyq : Some y ∉ q').
  { intros Hin. apply Hny. now apply drain_complete. }
  apply (selection_invariant iteration q0 [] Hq0 Hmax) with (y := y).
  - intros ? ? Hin. inversion Hin.
  - intros _ ? Hin. inversion Hin.
  - exact Hy.
  - exact Hyq.
  - exact Hx.
Qed.

Lemma displayed_are_oldest_witness :
  start_time_ms (mkCommandValue 250 2 "command_2")
  <= start_time_ms (mkCommandValue 570 3 "command_3").
Proof.
  apply (displayed_are_oldest scenario_table
           [ mkCommandValue 570 3 "command_3"; mkCommandValue 250 2 "command_2";
             mkCommandValue 0 1 "command_1" ]).
  - reflexivity.
  - intros c Hc. unfold INT64_MAX.
    repeat (apply elem_of_cons in Hc as [->|Hc]; [cbn; lia|]). inversion Hc.
  - right. left.
  - left.
  - intros Hin. repeat (apply elem_of_cons in Hin as [[=]|Hin]). inversion Hin.
Defined.

Lemma somes_remove_first (x : CommandValuePtr) (q : MaxQueue) :
  x ∈ q ->
  length (omap id q)
  = (length (omap id (remove_first x q))
     + match x with Some _ => 1 | None => 0 end)%nat.
Proof.
  induction q as [|z q IH]; intros Hx; [inversion Hx|].
  cbn [remove_first]. destruct (decide (x = z)) as [->|Hne].
  - destruct z; cbn; lia.
  - apply elem_of_cons in Hx as [->|Hx]; [congruence|].
    specialize (IH Hx). destruct z; cbn in *; lia.
Qed.

Lemma somes_le (q : MaxQueue) : (length (omap id q) <= length q)%nat.
Proof. induction q as [|[z|] q IH]; cbn; lia. Qed.

Lemma somes_full (q : MaxQueue) :
  None ∈ q <-> (length (omap id q) < length q)%nat.
Proof.
  induction q as [|[z|] q IH]; cbn.
  - split; [intros H; inversion H|lia].
  - rewrite elem_of_cons, IH. split; [intros [?|?]; [discriminate|lia]|right; lia].
  - pose proof (somes_le q). split; [lia|left].
Qed.

Lemma drain_length (fuel : nat) (q : MaxQueue) :
  (length q <= fuel)%nat -> length (drain fuel q) = length (omap id q).
Proof.
  revert q. induction fuel as [|fuel IH]; intros q Hlen.
  - destruct q; [reflexivity|cbn in Hlen; lia].
  - destruct q as [|z q]; [reflexivity|]. cbn [drain].
    assert (Hne : z :: q <> []) by discriminate.
    destruct (top_spec (z :: q) Hne) as [Htop _].
    pose proof (pop_length (z :: q) Hne) as Hpop. cbn [length] in Hpop, Hlen.
    rewrite (somes_remove_first (top (z :: q)) (z :: q) Htop).
    fold (pop (z :: q)). rewrite <- IH by lia.
    destruct (top (z :: q)); cbn; lia.
Qed.

Lemma selection_fills (iteration : list CommandValue) (q : MaxQueue) :
  q <> [] ->
  (forall c, c ∈ iteration -> start_time_ms c < INT64_MAX) ->
  (forall x, Some x ∈ q -> start_time_ms x < INT64_MAX) ->
  length (omap id (fold_left consider iteration q))
  = Nat.min (length q) (length (omap id q) + length iteration).
Proof.
  revert q. induction iteration as [|c iteration IH]; intros q Hq Hmax Hold.
  - cbn. pose proof (somes_le q). lia.
  - cbn [fold_left length].
    destruct (top_spec q Hq) as [Htop Hgreat].
    assert (Hqc : consider q c <> []).
    { unfold consider. destruct (top q) as [t|]; [destruct (_ <? _)|];
        unfold emplace; try discriminate; exact Hq. }
    assert (Hlen : length (consider q c) = length q) by (now apply consider_length).
    assert (Holdc : forall x, Some x ∈ consider q c -> start_time_ms x < INT64_MAX).
    { intros x Hx. apply consider_elem_of in Hx as [Hx| ->];
        [now apply Hold|apply Hmax; left]. }
    rewrite IH; [|exact Hqc|intros c' Hc'; apply Hmax; now right|exact Holdc].
    rewrite Hlen.
    assert (Hstep : length (omap id (consider q c))
                    = if decide (None ∈ q) then S (length (omap id q))
                      else length (omap id q)).
    { unfold consider. destruct (top q) as [t|] eqn:Ht.
      - assert (Hfull : None ∉ q).
        { intros Hn. specialize (Hgreat _ Hn). try rewrite Ht in Hgreat.
          apply Less_false in Hgreat. rewrite Less_spec in Hgreat. cbn zeta in Hgreat.
          assert (start_time_ms t < INT64_MAX)
            by (apply Hold; first [exact Htop|rewrite <- Ht; exact Htop]).
          lia. }
        rewrite decide_False by exact Hfull.
        destruct (_ <? _); [|reflexivity].
        unfold emplace, pop. rewrite Ht.
        change (omap id (Some c :: remove_first (Some t) q))
          with (c :: omap id (remove_first (Some t) q)).
        assert (HtIn : Some t ∈ q) by first [exact Htop|rewrite <- Ht; exact Htop].
        rewrite (somes_remove_first (Some t) q HtIn). cbn [length]. lia.
      - assert (Hn : None ∈ q) by first [exact Htop|rewrite <- Ht; exact Htop].
        rewrite decide_True by exact Hn.
        unfold emplace, pop. rewrite Ht.
        change (omap id (Some c :: remove_first None q))
          with (c :: omap id (remove_first None q)).
        rewrite (somes_remove_first None q Hn). cbn [length]. lia. }
    rewrite Hstep. pose proof (somes_le q). pose proof (somes_full q) as Hf.
    case_decide as Hn; [apply Hf in Hn|]; [lia|].
    assert (length (omap id q) = length q) by (rewrite Hf in Hn; lia). lia.
Qed.

(** The table has as many rows as there are pending commands, up to
    [max_commands], when every command started before [INT64_MAX]. *)
Theorem displayed_count (t : Table) (iteration : list CommandValue) :
  0 < max_commands (config_ t) ->
  (forall c, c ∈ iteration -> start_time_ms c < INT64_MAX) ->
  length (displayed t iteration)
  = Nat.min (Z.to_nat (max_commands (config_ t))) (length iteration).
Proof.
  intros HK Hmax. unfold displayed, older_commands.
  rewrite length_reverse, drain_length by reflexivity.
  set (q0 := replicate (Z.to_nat (max_commands (config_ t))) (@None CommandValue)).
  assert (Hq0 : q0 <> []).
  { subst q0. destruct (Z.to_nat (max_commands (config_ t))) eqn:E; [lia|discriminate]. }
  assert (Hnone : forall x, Some x ∉ q0).
  { intros x Hx. subst q0. apply elem_of_replicate in Hx as [? _]. discriminate. }
  rewrite selection_fills; [|exact Hq0|exact Hmax|intros x Hx; now apply Hnone in Hx].
  assert (Hs : length (omap id q0) = 0%nat).
  { subst q0. generalize (Z.to_nat (max_commands (config_ t))). clear.
    intros n. induction n as [|n IHn]; [reflexivity|exact IHn]. }
  rewrite Hs. subst q0. now rewrite length_replicate.
Qed.

Lemma displayed_count_witness :
  length (displayed scenario_table
            [ mkCommandValue 570 3 "command_3"; mkCommandValue 250 2 "command_2";
              mkCommandValue 0 1 "command_1" ]) = 2%nat.
Proof.
  apply (displayed_count scenario_table
           [ mkCommandValue 570 3 "command_3"; mkCommandValue 250 2 "command_2";
             mkCommandValue 0 1 "command_1" ]).
  - reflexivity.
  - intros c Hc. unfold INT64_MAX.
    repeat (apply elem_of_cons in Hc as [->|Hc]; [cbn; lia|]). inversion Hc.
Defined.

End StatusSelectionFacts.

(** ** More on the status table: the cursor, the throttle, the ids *)

Section StatusCursorFacts.

Import StatusTable.

Lemma lines_down_app (a b : list Call) :
  lines_down (a ++ b) = lines_down a + lines_down b.
Proof. induction a as [|[] a IH]; cbn [app lines_down]; lia. Qed.

Lemma lines_up_app (a b : list Call) :
  lines_up (a ++ b) = lines_up a + lines_up b.
Proof. induction a as [|[] a IH]; cbn [app lines_up]; lia. Qed.

Lemma lines_rows (f : CommandValue -> string) (l : list CommandValue) :
  lines_down (map (fun c => PrintOnNextLine (f c)) l) = Z.of_nat (length l)
  /\ lines_up (map (fun c => PrintOnNextLine (f c)) l) = 0.
Proof. induction l as [|x l [IH1 IH2]]; cbn [map lines_down lines_up length]; lia. Qed.

Lemma lines_clears (n : nat) :
  lines_down (replicate n ClearNextLine) = Z.of_nat n
  /\ lines_up (replicate n ClearNextLine) = 0.
Proof. induction n as [|n [IH1 IH2]]; cbn [replicate lines_down lines_up]; lia. Qed.

Lemma PrintPending_cursor (now : Z) (iteration : list CommandValue) (t : Table) :
  lines_up (fst (PrintPending now iteration t))
  = lines_down (fst (PrintPending now iteration t)).
Proof.
  unfold PrintPending. destruct (_ =? 0); [reflexivity|].
  set (older := older_commands _ _). unfold clear_extra.
  pose proof (lines_rows (pending_line now) (reverse older)) as [Hd Hu].
  rewrite length_reverse in Hd.
  destruct (Z.ltb_spec (Z.of_nat (length older)) (last_command_count_ t)) as [Hlt|Hge];
    cbn [fst].
  - pose proof (lines_clears (Z.to_nat (last_command_count_ t - Z.of_nat (length older))))
      as [Hcd Hcu].
    destruct (Z.gtb_spec (last_command_count_ t) 0) as [_|Hle]; [|lia].
    rewrite !lines_down_app, !lines_up_app, Hd, Hu, Hcd, Hcu.
    cbn [lines_down lines_up]. lia.
  - destruct (Z.gtb_spec (Z.of_nat (length older)) 0) as [_|Hle];
      rewrite !lines_down_app, !lines_up_app, Hd, Hu; cbn [lines_down lines_up]; lia.
Qed.

(** Every run of terminal calls the table makes brings the cursor back to
    the status line: [UpdateTable], [ClearTable] and [BuildEnded] move it
    up by as many lines as they moved it down ([last_command_count_] is
    a [size_t], so it is not negative). *)
Theorem table_calls_return_cursor (now : Z) (iteration : list CommandValue)
  (t : Table) :
  0 <= last_command_count_ t ->
  lines_up (fst (UpdateTable now iteration t))
  = lines_down (fst (UpdateTable now iteration t))
  /\ lines_up (fst (ClearTable t)) = lines_down (fst (ClearTable t))
  /\ lines_up (fst (BuildEnded t)) = lines_down (fst (BuildEnded t))
  /\ 0 <= last_command_count_ (snd (UpdateTable now iteration t)).
Proof.
  intros Hpos.
  assert (Hclear : forall t0, 0 <= last_command_count_ t0 ->
            lines_up (fst (ClearTable t0)) = lines_down (fst (ClearTable t0))).
  { intros t0 H0. unfold ClearTable. destruct (_ =? 0); [reflexivity|]. cbn [fst].
    pose proof (lines_clears (Z.to_nat (last_command_count_ t0))) as [Hcd Hcu].
    rewrite lines_down_app, lines_up_app, Hcd, Hcu. cbn [lines_down lines_up]. lia. }
  repeat split.
  - unfold UpdateTable. destruct (_ && _); [reflexivity|apply PrintPending_cursor].
  - now apply Hclear.
  - unfold BuildEnded. now apply Hclear.
  - unfold UpdateTable. destruct (_ && _); [exact Hpos|].
    unfold PrintPending. cbn [config_ set_last_update].
    destruct (_ =? 0); [exact Hpos|]. unfold clear_extra.
    destruct (_ <? _); cbn [snd set_last_command_count last_command_count_]; lia.
Qed.

Lemma table_calls_return_cursor_witness :
  lines_up (fst (UpdateTable 570 [] scenario_table))
  = lines_down (fst (UpdateTable 570 [] scenario_table))
  /\ lines_up (fst (ClearTable scenario_table))
     = lines_down (fst (ClearTable scenario_table))
  /\ lines_up (fst (BuildEnded scenario_table))
     = lines_down (fst (BuildEnded scenario_table))
  /\ 0 <= last_command_count_ (snd (UpdateTable 570 [] scenario_table)).
Proof. apply (table_calls_return_cursor 570 [] scenario_table). cbn. lia. Defined.

(** [ClearTable] after an [UpdateTable] that was performed erases as many
    lines as rows were drawn, moves up by as many, and leaves a table for
    which a second [ClearTable] prints nothing. *)
Theorem ClearTable_erases_drawn_rows (now : Z) (iteration : list CommandValue)
  (t : Table) :
  refreshes now t = true ->
  max_commands (config_ t) <> 0 ->
  let rows := length (displayed t iteration) in
  let t1 := snd (UpdateTable now iteration t) in
  fst (ClearTable t1)
  = (if decide (rows = 0%nat) then []
     else replicate rows ClearNextLine ++ [MoveUp (Z.of_nat rows); Flush])
  /\ ClearTable (snd (ClearTable t1)) = ([], snd (ClearTable t1)).
Proof.
  intros Hr Hm rows t1.
  assert (Hcount : last_command_count_ t1 = Z.of_nat rows).
  { subst t1 rows. unfold refreshes in Hr. apply negb_true_iff in Hr.
    unfold UpdateTable. rewrite Hr. unfold PrintPending.
    cbn [config_ set_last_update].
    destruct (Z.eqb_spec (max_commands (config_ t)) 0) as [E|_]; [congruence|].
    unfold displayed. rewrite length_reverse.
    destruct (clear_extra _ _). reflexivity. }
  split.
  - unfold ClearTable. rewrite Hcount.
    destruct (Z.eqb_spec (Z.of_nat rows) 0) as [E|E]; cbn [fst].
    + rewrite decide_True by lia. reflexivity.
    + rewrite decide_False by lia. now rewrite Nat2Z.id.
  - unfold ClearTable at 2 3. destruct (Z.eqb_spec (last_command_count_ t1) 0) as [E|E].
    + cbn [snd]. unfold ClearTable. now rewrite (proj2 (Z.eqb_eq _ _) E).
    + cbn [snd]. reflexivity.
Qed.

Lemma ClearTable_erases_drawn_rows_witness :
  fst (ClearTable (snd (UpdateTable 570
         [ mkCommandValue 570 3 "command_3"; mkCommandValue 250 2 "command_2";
           mkCommandValue 0 1 "command_1" ] scenario_table)))
  = [ClearNextLine; ClearNextLine; MoveUp 2; Flush].
Proof.
  exact (proj1 (ClearTable_erases_drawn_rows 570
           [ mkCommandValue 570 3 "command_3"; mkCommandValue 250 2 "command_2";
             mkCommandValue 0 1 "command_1" ] scenario_table
           eq_refl ltac:(cbn; lia))).
Defined.

(** The refresh throttle: after an update performed at a build time that
    is not negative, a call less than [refresh_timeout_ms] later prints
    nothing and leaves the table as it is, whatever has started or ended
    in between; after an update at a negative build time the next call is
    never held back. *)
Theorem UpdateTable_throttle (now later : Z) (iteration iteration' : list CommandValue)
  (t : Table) :
  refreshes now t = true ->
  let t1 := snd (UpdateTable now iteration t) in
  (0 <= now -> later - now < refresh_timeout_ms (config_ t) ->
   forall t2, config_ t2 = config_ t1 ->
              last_update_time_ms_ t2 = last_update_time_ms_ t1 ->
              UpdateTable later iteration' t2 = ([], t2))
  /\ (now < 0 -> refreshes later t1 = true).
Proof.
  intros Hr t1.
  assert (Hlast : last_update_time_ms_ t1 = now /\ config_ t1 = config_ t).
  { subst t1. unfold refreshes in Hr. apply negb_true_iff in Hr.
    unfold UpdateTable. rewrite Hr. unfold PrintPending.
    cbn [config_ set_last_update].
    destruct (_ =? 0); [split; reflexivity|].
    destruct (clear_extra _ _). split; reflexivity. }
  destruct Hlast as [Hlast Hcfg]. split.
  - intros Hnow Hlater t2 Hc2 Hl2. unfold UpdateTable.
    rewrite Hl2, Hc2, Hlast, Hcfg.
    destruct (Z.geb_spec now 0) as [_|]; [|lia].
    destruct (Z.ltb_spec (later - now) (refresh_timeout_ms (config_ t))) as [_|]; [|lia].
    reflexivity.
  - intros Hneg. unfold refreshes. rewrite Hlast.
    destruct (Z.geb_spec now 0) as [|_]; [lia|]. reflexivity.
Qed.

Lemma UpdateTable_throttle_witness :
  UpdateTable 600 [] (CommandStarted 4 580 "command_4"
                        (snd (UpdateTable 570 [] scenario_table)))
  = ([], CommandStarted 4 580 "command_4" (snd (UpdateTable 570 [] scenario_table))).
Proof.
  apply (proj1 (UpdateTable_throttle 570 600 [] [] scenario_table eq_refl));
    [lia|cbn; lia|reflexivity|reflexivity].
Defined.

Lemma run_events_ids (events : list TableEvent) (t t' : Table) :
  run_events events t = Some t' ->
  0 <= last_command_id_ t ->
  last_command_id_ t + Z.of_nat (length events) < 2 ^ 64 ->
  (forall c v, pending_commands_ t !! c = Some v ->
               0 < command_id v <= last_command_id_ t) ->
  (forall c1 c2 v1 v2, pending_commands_ t !! c1 = Some v1 ->
                       pending_commands_ t !! c2 = Some v2 ->
                       command_id v1 = command_id v2 -> c1 = c2) ->
  (forall c v, pending_commands_ t' !! c = Some v ->
               0 < command_id v <= last_command_id_ t')
  /\ (forall c1 c2 v1 v2, pending_commands_ t' !! c1 = Some v1 ->
                          pending_commands_ t' !! c2 = Some v2 ->
                          command_id v1 = command_id v2 -> c1 = c2).
Proof.
  revert t. induction events as [|[command start desc|command] events IH];
    intros t Hrun Hpos Hroom Hbound Hdist.
  - injection Hrun as <-. split; assumption.
  - cbn [run_events] in Hrun. cbn [length] in Hroom.
    assert (Hid : (last_command_id_ t + 1) mod 2 ^ 64 = last_command_id_ t + 1)
      by (apply Z.mod_small; lia).
    apply (IH _ Hrun); unfold CommandStarted; rewrite Hid;
      cbn [last_command_id_ pending_commands_].
    + lia.
    + lia.
    + intros c v Hc. destruct (pending_commands_ t !! command) eqn:E.
      * specialize (Hbound _ _ Hc). lia.
      * destruct (decide (c = command)) as [->|Hne].
        -- rewrite lookup_insert_eq in Hc. injection Hc as <-. cbn. lia.
        -- rewrite lookup_insert_ne in Hc by congruence.
           specialize (Hbound _ _ Hc). lia.
    + intros c1 c2 v1 v2 H1 H2 Heq.
      destruct (pending_commands_ t !! command) eqn:E; [now apply (Hdist c1 c2 v1 v2)|].
      destruct (decide (c1 = command)) as [->|Hn1];
        destruct (decide (c2 = command)) as [->|Hn2]; [reflexivity| | |].
      * rewrite lookup_insert_eq in H1. injection H1 as <-.
        rewrite lookup_insert_ne in H2 by congruence.
        specialize (Hbound _ _ H2). cbn in Heq. lia.
      * rewrite lookup_insert_eq in H2. injection H2 as <-.
        rewrite lookup_insert_ne in H1 by congruence.
        specialize (Hbound _ _ H1). cbn in Heq. lia.
      * rewrite lookup_insert_ne in H1, H2 by congruence.
        now apply (Hdist c1 c2 v1 v2).
  - cbn [run_events] in Hrun. cbn [length] in Hroom.
    unfold CommandEnded in Hrun.
    destruct (pending_commands_ t !! command) as [old|] eqn:E; [|discriminate].
    apply (IH _ Hrun); cbn [last_command_id_ pending_commands_].
    + exact Hpos.
    + lia.
    + intros c v Hc. apply lookup_delete_Some in Hc as [_ Hc]. now apply (Hbound c).
    + intros c1 c2 v1 v2 H1 H2 Heq.
      apply lookup_delete_Some in H1 as [_ H1]. apply lookup_delete_Some in H2 as [_ H2].
      now apply (Hdist c1 c2 v1 v2).
Qed.

(** From a fresh table, after any run of fewer than [2^64] calls of
    [CommandStarted] and [CommandEnded] that trips no assertion, the
    pending commands carry pairwise different ids, each between 1 and
    [last_command_id_]. *)
Theorem command_ids_distinct (config : Config) (events : list TableEvent)
  (t : Table) :
  run_events events (create config) = Some t ->
  Z.of_nat (length events) < 2 ^ 64 ->
  (forall c v, pending_commands_ t !! c = Some v ->
               0 < command_id v <= last_command_id_ t)
  /\ (forall c1 c2 v1 v2, pending_commands_ t !! c1 = Some v1 ->
                          pending_commands_ t !! c2 = Some v2 ->
                          command_id v1 = command_id v2 -> c1 = c2).
Proof.
  intros Hrun Hlen.
  apply (run_events_ids events (create config) t Hrun); cbn [create last_command_id_
    pending_commands_]; try lia.
  - intros c v Hc. rewrite lookup_empty in Hc. discriminate.
  - intros c1 c2 v1 v2 Hc. rewrite lookup_empty in Hc. discriminate.
Qed.

Lemma command_ids_distinct_witness :
  0 < command_id (mkCommandValue 250 2 "command_2") <= 2.
Proof.
  exact (proj1 (command_ids_distinct (mkConfig 2 100)
                  [Started 1 0 "command_1"; Started 2 250 "command_2"]
                  (CommandStarted 2 250 "command_2"
                     (CommandStarted 1 0 "command_1" (create (mkConfig 2 100))))
                  eq_refl ltac:(cbn; lia))
               2 (mkCommandValue 250 2 "command_2") eq_refl).
Defined.

(** A command that is started while not pending and then ended leaves the
    pending commands as they were, with one id consumed; starting a
    command that is already pending keeps its first entry and still
    consumes an id; ending a command that is not pending, or ending one
    twice, trips the assertion. *)
Theorem CommandStarted_CommandEnded (command start : Z) (desc : string) (t : Table) :
  (pending_commands_ t !! command = None ->
   exists t', CommandEnded command (CommandStarted command start desc t) = Some t'
              /\ pending_commands_ t' = pending_commands_ t
              /\ last_command_id_ t' = (last_command_id_ t + 1) mod 2 ^ 64)
  /\ (forall v, pending_commands_ t !! command = Some v ->
        pending_commands_ (CommandStarted command start desc t) = pending_commands_ t)
  /\ (pending_commands_ t !! command = None -> CommandEnded command t = None)
  /\ (forall t', CommandEnded command t = Some t' -> CommandEnded command t' = None).
Proof.
  repeat split.
  - intros Hnone. unfold CommandEnded, CommandStarted.
    cbn [pending_commands_]. rewrite Hnone, lookup_insert_eq.
    eexists. split; [reflexivity|]. cbn [pending_commands_ last_command_id_].
    split; [|reflexivity]. now apply delete_insert_id.
  - intros v Hv. unfold CommandStarted. cbn [pending_commands_]. now rewrite Hv.
  - intros Hnone. unfold CommandEnded. now rewrite Hnone.
  - intros t' Hend. unfold CommandEnded in Hend |- *.
    destruct (pending_commands_ t !! command); [|discriminate].
    injection Hend as <-. cbn [pending_commands_]. now rewrite lookup_delete_eq.
Qed.

Lemma CommandStarted_CommandEnded_witness :
  exists t', CommandEnded 4 (CommandStarted 4 580 "command_4" scenario_table) = Some t'
             /\ pending_commands_ t' = pending_commands_ scenario_table
             /\ last_command_id_ t' = (last_command_id_ scenario_table + 1) mod 2 ^ 64.
Proof.
  apply (proj1 (CommandStarted_CommandEnded 4 580 "command_4" scenario_table)).
  reflexivity.
Defined.

End StatusCursorFacts.

(** ** More on the subprocess set: who is handed out, and what a packet
    touches *)

Section SubprocessSetFacts.

Import Subprocess SubprocessSet.

Lemma remove_all_id (x : Z) (l : list Z) : x ∉ l -> remove_all x l = l.
Proof.
  unfold remove_all. induction l as [|y l IH]; intros Hx; [reflexivity|].
  apply not_elem_of_cons in Hx as [Hxy Hx].
  rewrite filter_cons_True by congruence. now rewrite IH.
Qed.

Lemma Add_lists (addr : Z) (w : StartAnswers) (command : string) (uc : bool)
  (set set' : SubprocessSet.t) (r : option Z) :
  Add addr w command uc set = Returns (r, set') ->
  r = Some addr
  /\ (running_ set' = running_ set ++ [addr] /\ finished_ set' = finished_ set
      \/ running_ set' = running_ set /\ finished_ set' = finished_ set ++ [addr]).
Proof.
  unfold Add. intros H.
  destruct (Start w command (Subprocess.new uc)) as [[ok s]|] eqn:HS; [|discriminate].
  assert (Hok : ok = true).
  { unfold Start in HS. destruct uc; cbn in HS;
      repeat (case_match; simplify_eq); reflexivity. }
  subst ok. destruct (child_ s); simplify_eq; cbn; auto.
Qed.

Lemma DoWork_lists (w : Completion) (set set' : SubprocessSet.t) (r : bool) :
  DoWork w set = Returns (r, set') ->
  running_ set' = running_ set /\ finished_ set' = finished_ set
  \/ exists addr, addr ∈ running_ set
                  /\ running_ set' = remove_all addr (running_ set)
                  /\ finished_ set' = finished_ set ++ [addr].
Proof.
  unfold DoWork. intros H.
  destruct (negb (status_error w =? 0) && negb (status_error w =? ERROR_BROKEN_PIPE));
    [discriminate|].
  destruct (subproc w) as [addr|]; [|simplify_eq; now left].
  destruct (objects set !! addr) as [s|]; [|discriminate].
  assert (Hcase : forall s' : Subprocess.t,
    (if Done s'
     then if negb (length (remove_all addr (running_ set)) =? length (running_ set))%nat
          then Returns (false, SubprocessSet.mk (<[addr := s']> (objects set))
                                 (remove_all addr (running_ set))
                                 (finished_ set ++ [addr]))
          else Returns (false, SubprocessSet.mk (<[addr := s']> (objects set))
                                 (running_ set) (finished_ set))
     else Returns (false, SubprocessSet.mk (<[addr := s']> (objects set))
                            (running_ set) (finished_ set)))
    = Returns (r, set') ->
    running_ set' = running_ set /\ finished_ set' = finished_ set
    \/ exists addr, addr ∈ running_ set
                    /\ running_ set' = remove_all addr (running_ set)
                    /\ finished_ set' = finished_ set ++ [addr]).
  { intros s' Hs'. destruct (Done s'); [|simplify_eq; now left].
    destruct (Nat.eqb_spec (length (remove_all addr (running_ set)))
                (length (running_ set))) as [E|E]; cbn [negb] in Hs'; simplify_eq;
      [now left|].
    right. exists addr. cbn. split; [|split; reflexivity].
    destruct (decide (addr ∈ running_ set)) as [Hin|Hout]; [exact Hin|].
    rewrite (remove_all_id _ _ Hout) in E. congruence. }
  destruct (overlapped w); [| |discriminate].
  - destruct (OnPipeReady (ready w) (stdout_pipe_ s)); [|discriminate].
    exact (Hcase _ H).
  - destruct (OnPipeReady (ready w) (stderr_pipe_ s)); [|discriminate].
    exact (Hcase _ H).
Qed.

Lemma NextFinished_lists (set set' : SubprocessSet.t) (r : option Z) :
  NextFinished set = (r, set') ->
  running_ set' = running_ set
  /\ (r = None /\ finished_ set = [] /\ finished_ set' = []
      \/ exists a, r = Some a /\ finished_ set = a :: finished_ set').
Proof.
  unfold NextFinished. destruct (finished_ set) as [|a rest] eqn:Hfs; intros H;
    simplify_eq; cbn; split; try reflexivity.
  - left. now rewrite Hfs.
  - right. now exists a.
Qed.

Lemma handed_addresses_distinct (ops : list Op) (used : list Z)
  (set set' : SubprocessSet.t) (handed : list Z) :
  NoDup (running_ set ++ finished_ set) ->
  (forall a, a ∈ running_ set ++ finished_ set -> a ∈ used) ->
  fresh_addresses ops used = true ->
  handed_addresses ops set = Some (set', handed) ->
  NoDup (handed ++ running_ set' ++ finished_ set')
  /\ (forall a, a ∈ handed ++ running_ set' ++ finished_ set' ->
                a ∈ running_ set ++ finished_ set \/ a ∉ used).
Proof.
  revert used set handed.
  induction ops as [|op ops IH]; intros used set handed Hnd Hused Hfr Hrun.
  - cbn in Hrun. simplify_eq. cbn [app]. split; [exact Hnd|]. intros a Ha. now left.
  - destruct op as [addr w command uc|w|]; cbn [handed_addresses fresh_addresses] in Hrun, Hfr.
    + apply andb_true_iff in Hfr as [Hnew Hfr].
      apply negb_true_iff, bool_decide_eq_false in Hnew.
      destruct (Add addr w command uc set) as [[r set1]|] eqn:HA; [|discriminate].
      apply Add_lists in HA as [_ HA].
      assert (Hnew' : addr ∉ running_ set ++ finished_ set)
        by (intros Hin; apply Hnew, Hused, Hin).
      assert (Hel : forall a, a ∈ running_ set1 ++ finished_ set1 <->
                              a ∈ running_ set ++ finished_ set \/ a = addr).
      { intros a. destruct HA as [[-> ->]|[-> ->]]; set_solver. }
      assert (Hnd1 : NoDup (running_ set1 ++ finished_ set1)).
      { apply NoDup_app in Hnd as (Hr & Hrf & Hf).
        destruct HA as [[-> ->]|[-> ->]]; rewrite !NoDup_app; repeat split;
          try assumption; try apply NoDup_singleton; set_solver. }
      destruct (IH (addr :: used) set1 handed Hnd1) as [IH1 IH2];
        [|exact Hfr|exact Hrun|].
      { intros a Ha. apply Hel in Ha as [Ha| ->]; [right; now apply Hused|left]. }
      split; [exact IH1|]. intros a Ha.
      destruct (IH2 a Ha) as [Hin|Hout].
      * apply Hel in Hin as [Hin| ->]; [now left|now right].
      * right. intros Hin. apply Hout. now right.
    + destruct (DoWork w set) as [[r set1]|] eqn:HD; [|discriminate].
      apply DoWork_lists in HD.
      assert (Hel : forall a, a ∈ running_ set1 ++ finished_ set1 ->
                              a ∈ running_ set ++ finished_ set).
      { intros a. destruct HD as [[-> ->]|(addr & Hin & -> & ->)]; [auto|].
        unfold remove_all. rewrite !elem_of_app, list_elem_of_filter.
        set_solver. }
      assert (Hnd1 : NoDup (running_ set1 ++ finished_ set1)).
      { destruct HD as [[-> ->]|(addr & Hin & -> & ->)]; [exact Hnd|].
        apply NoDup_app in Hnd as (Hr & Hrf & Hf).
        rewrite !NoDup_app. repeat split.
        - now apply NoDup_filter.
        - intros a Ha. unfold remove_all in Ha.
          apply list_elem_of_filter in Ha as [Hne Ha].
          rewrite elem_of_app. intros [Hf'|Hs]; [now apply (Hrf a)|].
          apply list_elem_of_singleton in Hs. congruence.
        - exact Hf.
        - intros a Ha Hs. apply list_elem_of_singleton in Hs as ->.
          now apply (Hrf addr).
        - apply NoDup_singleton. }
      destruct (IH used set1 handed Hnd1) as [IH1 IH2]; [|exact Hfr|exact Hrun|].
      { intros a Ha. apply Hused, Hel, Ha. }
      split; [exact IH1|]. intros a Ha.
      destruct (IH2 a Ha) as [Hin|Hout]; [left; now apply Hel|now right].
    + destruct (NextFinished set) as [r set1] eqn:HN.
      destruct (handed_addresses ops set1) as [[set2 later]|] eqn:Hrest; [|discriminate].
      apply NextFinished_lists in HN as [Hrun1 HN].
      destruct HN as [(-> & Hnone & Hnone1)|(a & -> & Hcons)]; simplify_eq.
      * assert (Heq : running_ set ++ finished_ set = running_ set1 ++ finished_ set1)
          by (now rewrite Hrun1, Hnone1, Hnone).
        rewrite Heq in Hnd, Hused. rewrite Heq.
        exact (IH used set1 handed Hnd Hused Hfr Hrest).
      * rewrite Hcons in Hnd, Hused.
        assert (Hnd1 : NoDup (running_ set1 ++ finished_ set1)).
        { rewrite Hrun1. apply NoDup_app in Hnd as (Hr & Hrf & Hf).
          apply NoDup_cons in Hf as [_ Hf].
          rewrite NoDup_app. repeat split; [exact Hr| |exact Hf].
          intros x Hx Hx'. apply (Hrf x Hx). now right. }
        destruct (IH used set1 later Hnd1) as [IH1 IH2]; [|exact Hfr|exact Hrest|].
        { rewrite Hrun1. intros x Hx. apply Hused. set_solver. }
        rewrite Hrun1 in IH2. rewrite Hcons.
        split.
        -- cbn [app]. apply NoDup_cons. split; [|exact IH1].
           intros Ha. destruct (IH2 a Ha) as [Hin|Hout].
           ++ apply NoDup_app in Hnd as (Hr & Hrf & Hf).
              apply NoDup_cons in Hf as [Hna Hf].
              apply elem_of_app in Hin as [Hin|Hin]; [|now apply Hna].
              apply (Hrf a Hin). left.
           ++ apply Hout, Hused. set_solver.
        -- intros x Hx. cbn [app] in Hx. apply elem_of_cons in Hx as [->|Hx].
           ++ left. set_solver.
           ++ destruct (IH2 x Hx) as [Hin|Hout]; [left; set_solver|now right].
Qed.

(** In a run of [Add], [DoWork] and [NextFinished] calls from an empty
    set, each [Add] at a new address, no subprocess is handed out by
    [NextFinished] twice, and none that was handed out is still in
    [running_] or [finished_]. *)
Theorem NextFinished_never_twice (ops : list Op) (set : SubprocessSet.t)
  (handed : list Z) :
  fresh_addresses ops [] = true ->
  handed_addresses ops SubprocessSet.empty = Some (set, handed) ->
  NoDup (handed ++ running_ set ++ finished_ set).
Proof.
  intros Hfr Hrun.
  apply (handed_addresses_distinct ops [] SubprocessSet.empty set handed);
    [apply NoDup_nil_2|intros a Ha; cbn in Ha; inversion Ha|exact Hfr|exact Hrun].
Qed.

Lemma NextFinished_never_twice_witness :
  NoDup ([1] ++ [2] ++ []).
Proof.
  apply (NextFinished_never_twice
           [OpAdd 1 (mkStartAnswers 100 101 true ERROR_FILE_NOT_FOUND 0)
                  "no-such-program" false;
            OpAdd 2 (mkStartAnswers 102 103 true 0 7) "cmd" false;
            OpNextFinished; OpNextFinished]
           (SubprocessSet.mk
              (<[2 := Subprocess.mk false (Some 7) (mkOutputPipe (Some 102) false "")
                        (mkOutputPipe (Some 103) false "") ""]>
                 (<[1 := Subprocess.mk false None OutputPipe_new
                           (mkOutputPipe None false not_found_message) ""]> ∅))
              [2] [])
           [1]).
  - reflexivity.
  - reflexivity.
Defined.

Lemma OnPipeReady_grows (w : ReadyAnswers) (p p' : OutputPipe) :
  OnPipeReady w p = Returns p' ->
  exists more, buf_ p' = buf_ p +:+ more
               /\ (is_reading_ p = false -> more = "").
Proof.
  unfold OnPipeReady. intros H.
  assert (Hclose : forall q, buf_ (Close q) = buf_ q)
    by (intros q; unfold Close; destruct (pipe_ q); reflexivity).
  destruct (negb (overlapped_error w =? 0)).
  - destruct (_ =? ERROR_BROKEN_PIPE); [|discriminate]. simplify_eq.
    exists "". rewrite Hclose, Str_app_nil_r. auto.
  - assert (Hbuf : exists more,
              (if is_reading_ p && negb (Str.is_empty (overlapped_data w))
               then buf_ p +:+ overlapped_data w else buf_ p) = buf_ p +:+ more
              /\ (is_reading_ p = false -> more = "")).
    { destruct (is_reading_ p); cbn [andb].
      - destruct (Str.is_empty (overlapped_data w)); cbn [negb];
          [exists ""|exists (overlapped_data w)];
          rewrite ?Str_app_nil_r; (split; [reflexivity|intros ?; discriminate]).
      - exists "". rewrite Str_app_nil_r. auto. }
    destruct Hbuf as (more & Hbuf & Hfirst). exists more. split; [|exact Hfirst].
    rewrite <- Hbuf.
    destruct (negb (readfile_error w =? 0)).
    + destruct (readfile_error w =? ERROR_BROKEN_PIPE).
      * simplify_eq. now rewrite Hclose.
      * destruct (negb _); [discriminate|]. now simplify_eq.
    + now simplify_eq.
Qed.

(** A completion packet touches one subprocess only: after [DoWork] every
    other object is as it was, and the one the packet names keeps its
    child, its console flag and what its two buffers held, output being
    added at their ends only. *)
Theorem DoWork_touches_one (w : Completion) (set set' : SubprocessSet.t) (r : bool)
  (addr : Z) :
  subproc w = Some addr ->
  DoWork w set = Returns (r, set') ->
  (forall a, a <> addr -> objects set' !! a = objects set !! a)
  /\ exists s s' out err,
       objects set !! addr = Some s /\ objects set' !! addr = Some s'
       /\ child_ s' = child_ s /\ use_console_ s' = use_console_ s
       /\ GetStdout s' = GetStdout s +:+ out
       /\ GetStderr s' = GetStderr s +:+ err.
Proof.
  intros Haddr. unfold DoWork. rewrite Haddr. intros H.
  destruct (negb (status_error w =? 0) && negb (status_error w =? ERROR_BROKEN_PIPE));
    [discriminate|].
  destruct (objects set !! addr) as [s|] eqn:Hobj; [|discriminate].
  assert (Hcase : forall s' : Subprocess.t,
    (if Done s'
     then if negb (length (remove_all addr (running_ set)) =? length (running_ set))%nat
          then Returns (false, SubprocessSet.mk (<[addr := s']> (objects set))
                                 (remove_all addr (running_ set))
                                 (finished_ set ++ [addr]))
          else Returns (false, SubprocessSet.mk (<[addr := s']> (objects set))
                                 (running_ set) (finished_ set))
     else Returns (false, SubprocessSet.mk (<[addr := s']> (objects set))
                            (running_ set) (finished_ set)))
    = Returns (r, set') ->
    objects set' = <[addr := s']> (objects set)).
  { intros s' Hs'. destruct (Done s'); [destruct (negb _)|]; now simplify_eq. }
  destruct (overlapped w); [| |discriminate].
  - destruct (OnPipeReady (ready w) (stdout_pipe_ s)) as [p|] eqn:Hp; [|discriminate].
    apply Hcase in H. rewrite H. split.
    + intros a Ha. now rewrite lookup_insert_ne.
    + destruct (OnPipeReady_grows _ _ _ Hp) as (more & Hmore & _).
      eexists s, _, more, "". rewrite lookup_insert_eq.
      repeat split; [exact Hmore|]. unfold GetStderr. cbn.
      now rewrite Str_app_nil_r.
  - destruct (OnPipeReady (ready w) (stderr_pipe_ s)) as [p|] eqn:Hp; [|discriminate].
    apply Hcase in H. rewrite H. split.
    + intros a Ha. now rewrite lookup_insert_ne.
    + destruct (OnPipeReady_grows _ _ _ Hp) as (more & Hmore & _).
      eexists s, _, "", more. rewrite lookup_insert_eq.
      repeat split; [|exact Hmore]. unfold GetStdout. cbn.
      now rewrite Str_app_nil_r.
Qed.

Lemma DoWork_touches_one_witness :
  objects (SubprocessSet.mk
             (<[2 := Subprocess.mk false (Some 7) (mkOutputPipe (Some 102) true "")
                       (mkOutputPipe (Some 103) false "") ""]>
                (<[2 := Subprocess.mk false (Some 7) (mkOutputPipe (Some 102) false "")
                          (mkOutputPipe (Some 103) false "") ""]> ∅))
             [2] []) !! 1
  = objects (SubprocessSet.mk
               (<[2 := Subprocess.mk false (Some 7) (mkOutputPipe (Some 102) false "")
                         (mkOutputPipe (Some 103) false "") ""]> ∅)
               [2] []) !! 1.
Proof.
  exact (proj1 (DoWork_touches_one
                  (mkCompletion 0 (Some 2) OfStdout (mkReadyAnswers 0 "" ERROR_IO_PENDING))
                  (SubprocessSet.mk
                     (<[2 := Subprocess.mk false (Some 7) (mkOutputPipe (Some 102) false "")
                               (mkOutputPipe (Some 103) false "") ""]> ∅)
                     [2] [])
                  _ false 2 eq_refl eq_refl)
               1 ltac:(lia)).
Defined.

End SubprocessSetFacts.

(** ** Canonical paths with [_WIN32]: what [Decanonicalized] restores *)

Section CanonicalWin32Facts.

Import CanonicalPathWin32.

Lemma land_pow2 (a : Z) (k : nat) :
  (Z.land a (2 ^ Z.of_nat k) =? 0) = negb (Z.testbit a (Z.of_nat k)).
Proof.
  assert (H : Z.land a (2 ^ Z.of_nat k)
              = if Z.testbit a (Z.of_nat k) then 2 ^ Z.of_nat k else 0).
  { apply Z.bits_inj'. intros i Hi. rewrite Z.land_spec, Z.pow2_bits_eqb by lia.
    destruct (Z.eqb_spec (Z.of_nat k) i) as [<-|Hne].
    - rewrite andb_true_r. destruct (Z.testbit a (Z.of_nat k)) eqn:E.
      + now rewrite Z.pow2_bits_true by lia.
      + now rewrite Z.bits_0.
    - rewrite andb_false_r. destruct (Z.testbit a (Z.of_nat k)).
      + rewrite Z.pow2_bits_false by lia. reflexivity.
      + now rewrite Z.bits_0. }
  rewrite H. destruct (Z.testbit a (Z.of_nat k)); [|reflexivity].
  apply Z.eqb_neq. pose proof (Z.pow_pos_nonneg 2 (Z.of_nat k)). lia.
Qed.

Lemma mask_shift (j : nat) :
  Z.shiftl (2 ^ Z.of_nat j mod 2 ^ 64) 1 mod 2 ^ 64 = 2 ^ Z.of_nat (S j) mod 2 ^ 64.
Proof.
  rewrite Z.shiftl_mul_pow2 by lia. change (2 ^ 1) with 2.
  rewrite Z.mul_mod_idemp_l by lia.
  rewrite Nat2Z.inj_succ, Z.pow_succ_r by lia. f_equal. lia.
Qed.

Lemma mask_bit (a : Z) (k : nat) :
  negb (Z.land a (2 ^ Z.of_nat k mod 2 ^ 64) =? 0)
  = (Z.of_nat k <? 64) && Z.testbit a (Z.of_nat k).
Proof.
  destruct (Z.ltb_spec (Z.of_nat k) 64) as [Hlt|Hge]; cbn [andb].
  - rewrite Z.mod_small.
    + now rewrite land_pow2, negb_involutive.
    + split; [apply Z.pow_nonneg; lia|apply Z.pow_lt_mono_r; lia].
  - replace (2 ^ Z.of_nat k mod 2 ^ 64) with 0; [now rewrite Z.land_0_r|].
    symmetry. apply Z.mod_divide; [lia|].
    exists (2 ^ (Z.of_nat k - 64)). rewrite <- Z.pow_add_r by lia. f_equal. lia.
Qed.

Lemma restore_at (bits : Z) (a b : string) (j : nat) :
  no_nul a = true ->
  String.get (String.length a)
    (restore bits (2 ^ Z.of_nat j mod 2 ^ 64) (a +:+ String "/" b))
  = Some (if negb (Z.land bits (2 ^ Z.of_nat (j + separators a) mod 2 ^ 64) =? 0)
          then "\"%char else "/"%char).
Proof.
  revert j. induction a as [|c a IH]; intros j Hnul.
  - cbn. now rewrite Nat.add_0_r.
  - unfold no_nul in Hnul. cbn [Str.all] in Hnul.
    apply andb_true_iff in Hnul as [Hc Hnul]. apply negb_true_iff in Hc.
    cbn [String.append restore String.length separators]. rewrite Hc.
    destruct (Ascii.eqb c "/").
    + cbn [String.get]. rewrite mask_shift, (IH (S j) Hnul).
      now replace (S j + separators a)%nat with (j + S (separators a))%nat by lia.
    + cbn [String.get]. now rewrite (IH j Hnul).
Qed.

(** The separator that follows [k] others comes back as a backslash
    exactly when [k < 64] and bit [k] of [slash_bits] is set; from the
    65th on, separators stay forward slashes whatever the bits. *)
Theorem Decanonicalized_separator (bits : Z) (a b : string) :
  no_nul a = true ->
  String.get (String.length a) (Decanonicalized (MakeRaw (a +:+ String "/" b) bits))
  = Some (if (Z.of_nat (separators a) <? 64) && Z.testbit bits (Z.of_nat (separators a))
          then "\"%char else "/"%char).
Proof.
  intros Hnul. unfold Decanonicalized, MakeRaw. cbn [slash_bits_ value].
  change 1 with (2 ^ Z.of_nat 0 mod 2 ^ 64).
  rewrite (restore_at bits a b 0 Hnul), Nat.add_0_l. now rewrite mask_bit.
Qed.

Lemma Decanonicalized_separator_witness :
  String.get 3 (Decanonicalized (MakeRaw "a/b/c" 2)) = Some "\"%char.
Proof. apply (Decanonicalized_separator 2 "a/b" "c"). reflexivity. Defined.

Lemma restore_shape (bits mask : Z) (s : string) :
  String.length (restore bits mask s) = String.length s
  /\ forward_slashes (restore bits mask s) = forward_slashes s.
Proof.
  revert mask. induction s as [|c s IH]; intros mask; [split; reflexivity|].
  cbn [restore]. destruct (Ascii.eqb c "000"); [split; reflexivity|].
  destruct (Ascii.eqb_spec c "/") as [->|Hc].
  - destruct (IH (Z.shiftl mask 1 mod 2 ^ 64)) as [IH1 IH2].
    cbn [String.length forward_slashes]. rewrite IH1, IH2.
    destruct (negb _); split; reflexivity.
  - destruct (IH mask) as [IH1 IH2].
    cbn [String.length forward_slashes]. rewrite IH1, IH2. split; reflexivity.
Qed.

Lemma restore_none (mask : Z) (s : string) : restore 0 mask s = s.
Proof.
  revert mask. induction s as [|c s IH]; intros mask; [reflexivity|].
  cbn [restore]. destruct (Ascii.eqb c "000"); [reflexivity|].
  destruct (Ascii.eqb_spec c "/") as [->|Hc]; rewrite IH; reflexivity.
Qed.

Lemma restore_all (s : string) (j : nat) :
  no_nul s = true ->
  (j + separators s <= 64)%nat ->
  restore (2 ^ 64 - 1) (2 ^ Z.of_nat j mod 2 ^ 64) s = backward_slashes s.
Proof.
  revert j. induction s as [|c s IH]; intros j Hnul Hsep; [reflexivity|].
  unfold no_nul in Hnul. cbn [Str.all] in Hnul.
  apply andb_true_iff in Hnul as [Hc Hnul]. apply negb_true_iff in Hc.
  cbn [restore backward_slashes separators] in *. rewrite Hc.
  destruct (Ascii.eqb c "/").
  - rewrite mask_shift, (IH (S j) Hnul) by lia.
    rewrite mask_bit.
    destruct (Z.ltb_spec (Z.of_nat j) 64) as [_|]; [|lia]. cbn [andb].
    replace (2 ^ 64 - 1) with (Z.ones 64) by reflexivity.
    rewrite Z.ones_spec_low by lia. reflexivity.
  - now rewrite (IH j Hnul) by lia.
Qed.

(** [Decanonicalized] changes separators only: the result is as long as
    [value()] and equal to it once backslashes are read as slashes.  A
    path made by [MakeFullForwards] comes back as it is, and one made by
    [MakeFullBackwards] has every slash turned into a backslash, when
    it holds no NUL and at most 64 separators. *)
Theorem Decanonicalized_only_separators (p : CanonicalPathWin32.t) (s : string) :
  String.length (Decanonicalized p) = String.length (value p)
  /\ forward_slashes (Decanonicalized p) = forward_slashes (value p)
  /\ Decanonicalized (MakeFullForwards s) = s
  /\ (no_nul s = true -> (separators s <= 64)%nat ->
      Decanonicalized (MakeFullBackwards s) = backward_slashes s).
Proof.
  unfold Decanonicalized.
  destruct (restore_shape (slash_bits_ p) 1 (value p)) as [Hl Hf].
  repeat split; [exact Hl|exact Hf|apply restore_none|].
  intros Hnul Hsep. cbn [MakeFullBackwards MakeRaw slash_bits_ value].
  change 1 with (2 ^ Z.of_nat 0 mod 2 ^ 64). apply restore_all; [exact Hnul|lia].
Qed.

Lemma Decanonicalized_only_separators_witness :
  Decanonicalized (MakeFullBackwards "a/b/c") = backward_slashes "a/b/c".
Proof.
  apply (Decanonicalized_only_separators (MakeRaw "" 0) "a/b/c");
    [reflexivity|cbn; lia].
Defined.

End CanonicalWin32Facts.

(** ** The line printer: what a locked console holds back *)

Section LinePrinterFacts.

Import LinePrinter.

Lemma PrintOnNewLine_unlocked (text : string) (p : LinePrinter.t) :
  console_locked_ p = false ->
  PrintOnNewLine text p
  = ((if have_blank_line_ p then "" else newline) +:+ text,
     mk (smart_terminal_ p) (supports_color_ p) (blank_after text) false
        (line_buffer_ p) (line_type_ p) (output_buffer_ p)
        (test_terminal_width_ p)).
Proof.
  intros Hl. unfold PrintOnNewLine, PrintOrBuffer. rewrite Hl. cbn [andb].
  destruct (have_blank_line_ p); cbn [negb]; rewrite ?Hl;
    destruct text; cbn [Str.is_empty negb]; rewrite ?Hl; cbn;
    rewrite ?Hl; reflexivity.
Qed.

Lemma PrintOnNewLine_locked (text : string) (p : LinePrinter.t) :
  console_locked_ p = true ->
  line_buffer_ p = "" ->
  PrintOnNewLine text p
  = ("",
     mk (smart_terminal_ p) (supports_color_ p) (blank_after text) true
        "" (line_type_ p)
        (output_buffer_ p +:+ ((if have_blank_line_ p then "" else newline) +:+ text))
        (test_terminal_width_ p)).
Proof.
  intros Hl Hb. unfold PrintOnNewLine, PrintOrBuffer. rewrite Hl, Hb.
  cbn [andb Str.is_empty negb].
  destruct (have_blank_line_ p); cbn [negb]; rewrite ?Hl;
    destruct text; cbn [Str.is_empty negb]; cbn [console_locked_]; rewrite ?Hl;
    cbn -[String.append]; rewrite ?Hl, ?Hb, ?Str_app_nil_r, ?Str_app_assoc;
    try reflexivity.
Qed.

Lemma print_all_locked (texts : list string) (locked unlocked : LinePrinter.t) :
  console_locked_ locked = true ->
  console_locked_ unlocked = false ->
  line_buffer_ locked = "" ->
  have_blank_line_ locked = have_blank_line_ unlocked ->
  fst (print_all texts locked) = ""
  /\ console_locked_ (snd (print_all texts locked)) = true
  /\ line_buffer_ (snd (print_all texts locked)) = ""
  /\ have_blank_line_ (snd (print_all texts locked))
     = have_blank_line_ (snd (print_all texts unlocked))
  /\ output_buffer_ (snd (print_all texts locked))
     = output_buffer_ locked +:+ fst (print_all texts unlocked)
  /\ smart_terminal_ (snd (print_all texts locked)) = smart_terminal_ locked
  /\ line_type_ (snd (print_all texts locked)) = line_type_ locked
  /\ test_terminal_width_ (snd (print_all texts locked)) = test_terminal_width_ locked
  /\ supports_color_ (snd (print_all texts locked)) = supports_color_ locked.
Proof.
  revert locked unlocked.
  induction texts as [|text texts IH]; intros locked unlocked Hl Hu Hb Hblank.
  - cbn. rewrite Str_app_nil_r. repeat split; assumption.
  - cbn [print_all].
    rewrite (PrintOnNewLine_locked text locked Hl Hb),
            (PrintOnNewLine_unlocked text unlocked Hu).
    match goal with
    | |- context [print_all texts ?l] =>
        match goal with
        | |- context [print_all texts ?u] =>
            lazymatch l with
            | u => fail
            | _ => specialize (IH l u eq_refl eq_refl eq_refl eq_refl)
            end
        end
    end.
    destruct (print_all texts (mk _ _ _ true _ _ _ _)) as [o1 l1].
    destruct (print_all texts (mk _ _ _ false _ _ _ _)) as [o2 u1].
    cbn [fst snd] in IH |- *.
    destruct IH as (-> & H1 & H2 & H3 & H4 & H5 & H6 & H7 & H8).
    cbn [output_buffer_ smart_terminal_ line_type_ test_terminal_width_
         supports_color_] in H4, H5, H6, H7, H8.
    repeat split; try assumption.
    rewrite H4, Hblank, !Str_app_assoc. reflexivity.
Qed.

(** While the console is locked nothing reaches [stdout]: whatever
    [Print], [PrintOnNewLine] and [SetConsoleLocked(true)] calls are
    made, they write nothing and the console stays locked. *)
Theorem locked_console_is_silent (elide : string -> Z -> string)
  (calls : list PrinterCall) (p : LinePrinter.t) :
  console_locked_ p = true ->
  fst (printer_calls elide calls p) = ""
  /\ console_locked_ (snd (printer_calls elide calls p)) = true.
Proof.
  revert p. induction calls as [|c calls IH]; intros p Hl; [split; [reflexivity|exact Hl]|].
  cbn [printer_calls].
  assert (Hstep : fst (printer_call elide c p) = ""
                  /\ console_locked_ (snd (printer_call elide c p)) = true).
  { destruct c as [ws s ty|s|ws]; cbn [printer_call].
    - unfold Print. rewrite Hl. split; reflexivity.
    - unfold PrintOnNewLine, PrintOrBuffer.
      destruct (console_locked_ p && negb (Str.is_empty (line_buffer_ p)));
        cbn [have_blank_line_ console_locked_]; rewrite Hl;
        destruct (have_blank_line_ p); cbn [negb console_locked_]; rewrite ?Hl;
        destruct s; cbn [Str.is_empty negb console_locked_]; rewrite ?Hl;
        cbn; auto.
    - unfold SetConsoleLocked. rewrite Hl. cbn. auto. }
  destruct (printer_call elide c p) as [o1 p1]. cbn [fst snd] in Hstep.
  destruct Hstep as [-> Hl1]. specialize (IH p1 Hl1).
  destruct (printer_calls elide calls p1) as [o2 p2]. cbn [fst snd] in IH |- *.
  destruct IH as [-> Hl2]. split; [reflexivity|exact Hl2].
Qed.

Lemma locked_console_is_silent_witness :
  fst (printer_calls (fun s _ => s)
         [CallPrint None "status" ELIDE; CallPrintOnNewLine "output"]
         (mk true true true true "" FULL "" 0)) = "".
Proof.
  apply (locked_console_is_silent (fun s _ => s)
           [CallPrint None "status" ELIDE; CallPrintOnNewLine "output"]
           (mk true true true true "" FULL "" 0)).
  reflexivity.
Defined.

(** Output sent through [PrintOnNewLine] while the console is locked
    comes out on unlock as the same calls would have written it from a
    blank line, after the newline the lock wrote if the cursor was not on
    a blank line, and after one more newline if the last text does not
    end in one. *)
Theorem locked_output_on_unlock (elide : string -> Z -> string)
  (ws_col : option Z) (texts : list string) (p : LinePrinter.t) :
  console_locked_ p = false ->
  line_buffer_ p = "" ->
  output_buffer_ p = "" ->
  let locked := SetConsoleLocked elide ws_col true p in
  let held := print_all texts (snd locked) in
  let unlocked := SetConsoleLocked elide ws_col false (snd held) in
  let direct := print_all texts (on_blank_line p) in
  fst held = ""
  /\ fst locked +:+ fst unlocked
     = (if have_blank_line_ p then "" else newline)
       +:+ (if have_blank_line_ (snd direct) then "" else newline)
       +:+ fst direct
  /\ console_locked_ (snd unlocked) = false
  /\ line_buffer_ (snd unlocked) = ""
  /\ output_buffer_ (snd unlocked) = "".
Proof.
  intros Hu Hb Ho locked held unlocked direct.
  assert (Hlock : locked
                  = ((if have_blank_line_ p then "" else newline),
                     mk (smart_terminal_ p) (supports_color_ p) true true
                        "" (line_type_ p) "" (test_terminal_width_ p))).
  { subst locked. unfold SetConsoleLocked. rewrite Hu. cbn [Bool.eqb].
    rewrite (PrintOnNewLine_unlocked "" p Hu), Str_app_nil_r. cbn [negb].
    cbn [smart_terminal_ supports_color_ have_blank_line_ line_buffer_ line_type_
         output_buffer_ test_terminal_width_ blank_after].
    now rewrite Hb, Ho. }
  assert (Hsim := print_all_locked texts (snd locked) (on_blank_line p)).
  rewrite Hlock in Hsim. cbn [snd console_locked_ line_buffer_ have_blank_line_
    on_blank_line output_buffer_ smart_terminal_ line_type_ test_terminal_width_
    supports_color_] in Hsim.
  specialize (Hsim eq_refl Hu eq_refl eq_refl).
  fold (on_blank_line p) in Hsim. fold direct in Hsim.
  assert (Hheld : held = print_all texts
            (mk (smart_terminal_ p) (supports_color_ p) true true
                "" (line_type_ p) "" (test_terminal_width_ p)))
    by (subst held; now rewrite Hlock).
  rewrite <- Hheld in Hsim.
  destruct Hsim as (H0 & H1 & H2 & H3 & H4 & _).
  split; [exact H0|].
  assert (Hun : unlocked
                = ((if have_blank_line_ (snd direct) then "" else newline)
                   +:+ fst direct,
                   mk (smart_terminal_ (snd held)) (supports_color_ (snd held))
                      (blank_after (fst direct)) false "" (line_type_ (snd held)) ""
                      (test_terminal_width_ (snd held)))).
  { subst unlocked. unfold SetConsoleLocked. rewrite H1. cbn [Bool.eqb negb].
    cbn [output_buffer_].
    rewrite PrintOnNewLine_unlocked by reflexivity.
    cbn [have_blank_line_ line_buffer_ smart_terminal_ supports_color_ line_type_
         test_terminal_width_ console_locked_ output_buffer_].
    rewrite H2, H3, H4. cbn [Str.is_empty negb String.append].
    cbn [have_blank_line_ line_buffer_ smart_terminal_ supports_color_ line_type_
         test_terminal_width_ console_locked_ output_buffer_].
    now rewrite Str_app_nil_r. }
  rewrite Hun, Hlock. cbn [fst snd console_locked_ line_buffer_ output_buffer_].
  repeat split.
Qed.

Lemma locked_output_on_unlock_witness :
  fst (SetConsoleLocked (fun s _ => s) None true (mk true true true false "" FULL "" 0))
  +:+ fst (SetConsoleLocked (fun s _ => s) None false
             (snd (print_all ["output"]
                     (snd (SetConsoleLocked (fun s _ => s) None true
                             (mk true true true false "" FULL "" 0))))))
  = newline +:+ "output".
Proof.
  exact (proj1 (proj2 (locked_output_on_unlock (fun s _ => s) None ["output"]
                         (mk true true true false "" FULL "" 0)
                         eq_refl eq_refl eq_refl))).
Defined.

End LinePrinterFacts.
